(** * Sculpt automasking and the sculpt attribute store

    A shallow embedding of
    [source/blender/editors/sculpt_paint/sculpt_automasking.cc] and of the
    attribute functions, the palette comparators, the rake rotation and
    the paint mode tables of [source/blender/blenkernel/intern/paint.cc].

    Conventions of the embedding.
    - [int] flag words are [Z] with [Z.land], [Z.lor] and [Z.lnot].
    - [float] is read with real-number semantics and carried by [Q]: the
      arithmetic is exact, and NaN, infinities and rounding are outside the
      model.  A division whose divisor the source does not test returns
      [None] for a zero divisor.  Operations that are not rational
      ([sqrtf], [safe_acosf]) are parameters of the development.
    - Where a result turns on the rounding of binary32, the operations
      take the rounding as a function applied to every exact result: the
      cavity estimate is given a second time in this form, and the palette
      comparators in this form only.  [Binary32.b32] rounds to the nearest
      number of 24 significant bits, ties to even.
    - A [PBVHVertRef] of the mesh backend is a vertex index ([nat]); an
      attribute buffer is a [list] indexed by vertex, a null attribute
      pointer is [None].
    - Reading through a null pointer or past the end of a buffer is
      undefined in the source; the embedding returns [None] there.
    - Functions and constants declared in headers that are not part of the
      embedded sources are fields of the classes below. *)

From Stdlib Require Import ZArith QArith Qabs Qminmax Qround Qpower Lqa Lia Bool List.
From stdpp Require Import base option list gmap fin_sets strings.

Local Open Scope Z_scope.

(** ** Floats and vectors *)

Module Float.

Local Open Scope Q_scope.

Abbreviation float := Q.

Definition ltb (a b : float) : bool := negb (Qle_bool b a).
Definition gtb (a b : float) : bool := ltb b a.
Definition eqb (a b : float) : bool := Qeq_bool a b.

Record float3 := F3 { x : float; y : float; z : float }.

Definition zero3 : float3 := F3 0 0 0.
Definition add_v3 (a b : float3) : float3 :=
  F3 (x a + x b) (y a + y b) (z a + z b).
Definition sub_v3 (a b : float3) : float3 :=
  F3 (x a - x b) (y a - y b) (z a - z b).
Definition div_v3_fl (a : float3) (d : float) : float3 :=
  F3 (x a / d) (y a / d) (z a / d).
Definition dot_v3v3 (a b : float3) : float :=
  (x a * x b + y a * y b + z a * z b)%Q.

(** [signf] of BLI_math_base: -1 below zero, 1 otherwise. *)
Definition signf (f : float) : float := if ltb f 0 then (-1)%Q else 1%Q.

(** The [CLAMP(a, b, c)] macro. *)
Definition CLAMP (a b c : float) : float :=
  if ltb a b then b else if gtb a c then c else a.

Definition pow2f (f : float) : float := (f * f)%Q.

(** Division where the source does not test the divisor.  A zero divisor
    gives an infinity or a NaN, which no rational stands for: the quotient
    is undefined there. *)
Definition divf (a b : float) : option float :=
  if eqb b 0 then None else Some (a / b).

End Float.
Import Float.

(** ** Flags, brushes and tool settings *)

(** The bits of [eAutomasking_flag] (DNA_brush_enums.h). *)
Class AutomaskFlags := {
  BRUSH_AUTOMASKING_TOPOLOGY : Z;
  BRUSH_AUTOMASKING_FACE_SETS : Z;
  BRUSH_AUTOMASKING_BOUNDARY_EDGES : Z;
  BRUSH_AUTOMASKING_BOUNDARY_FACE_SETS : Z;
  BRUSH_AUTOMASKING_CAVITY_NORMAL : Z;
  BRUSH_AUTOMASKING_CAVITY_INVERTED : Z;
  BRUSH_AUTOMASKING_CAVITY_ALL : Z;
  BRUSH_AUTOMASKING_CAVITY_USE_CURVE : Z;
  BRUSH_AUTOMASKING_BRUSH_NORMAL : Z;
  BRUSH_AUTOMASKING_VIEW_NORMAL : Z;
  BRUSH_AUTOMASKING_VIEW_OCCLUSION : Z
}.

(** The values the DNA header gives the bits; used by the examples. *)
Definition dna_flags : AutomaskFlags := {|
  BRUSH_AUTOMASKING_TOPOLOGY := 1;
  BRUSH_AUTOMASKING_FACE_SETS := 2;
  BRUSH_AUTOMASKING_BOUNDARY_EDGES := 4;
  BRUSH_AUTOMASKING_BOUNDARY_FACE_SETS := 8;
  BRUSH_AUTOMASKING_CAVITY_NORMAL := 16;
  BRUSH_AUTOMASKING_CAVITY_INVERTED := 32;
  BRUSH_AUTOMASKING_CAVITY_ALL := 48;
  BRUSH_AUTOMASKING_CAVITY_USE_CURVE := 64;
  BRUSH_AUTOMASKING_BRUSH_NORMAL := 256;
  BRUSH_AUTOMASKING_VIEW_NORMAL := 512;
  BRUSH_AUTOMASKING_VIEW_OCCLUSION := 1024
|}.

(** [flags & mode] read as a C condition. *)
Definition has_flag (flags mode : Z) : bool := negb (Z.land flags mode =? 0).

(** The sculpt brush types the automasking code names; every other type
    is [SCULPT_BRUSH_TYPE_OTHER]. *)
Inductive eBrushSculptType :=
| SCULPT_BRUSH_TYPE_GRAB
| SCULPT_BRUSH_TYPE_THUMB
| SCULPT_BRUSH_TYPE_ROTATE
| SCULPT_BRUSH_TYPE_PAINT
| SCULPT_BRUSH_TYPE_SMEAR
| SCULPT_BRUSH_TYPE_MASK
| SCULPT_BRUSH_TYPE_DRAW_FACE_SETS
| SCULPT_BRUSH_TYPE_OTHER (id : Z).

Inductive ePaintFalloffShape :=
| PAINT_FALLOFF_SHAPE_SPHERE
| PAINT_FALLOFF_SHAPE_TUBE.

(** A point of a curve map and a [CurveMapping], as far as the automasking
    code reads them ([cm->curve[i]] for [i < cm->totpoint]). *)
Record CurveMapPoint := {
  cmp_x : float;
  cmp_y : float;
  cmp_flag : Z;
  cmp_shorty : Z
}.

Record CurveMapping := { cm_curve : list CurveMapPoint }.

Record Brush := {
  automasking_flags : Z;
  falloff_shape : ePaintFalloffShape;
  sculpt_brush_type : eBrushSculptType;
  automasking_boundary_edges_propagation_steps : Z;
  automasking_view_normal_limit : float;
  automasking_view_normal_falloff : float;
  automasking_start_normal_limit : float;
  automasking_start_normal_falloff : float;
  automasking_cavity_curve : option CurveMapping;
  automasking_cavity_factor : float;
  automasking_cavity_blur_steps : Z
}.

(** The [Sculpt] tool settings ([sd]); [paint_brush] is what
    [BKE_paint_brush_for_read(&sd.paint)] returns. *)
Record Sculpt := {
  sd_automasking_flags : Z;
  sd_automasking_boundary_edges_propagation_steps : Z;
  sd_automasking_view_normal_limit : float;
  sd_automasking_view_normal_falloff : float;
  sd_automasking_start_normal_limit : float;
  sd_automasking_start_normal_falloff : float;
  sd_automasking_cavity_curve : option CurveMapping;
  sd_automasking_cavity_factor : float;
  sd_automasking_cavity_blur_steps : Z;
  paint_brush : option Brush
}.

Section EffectiveBits.
Context `{AutomaskFlags}.

Definition mode_enabled (sd : Sculpt) (br : option Brush) (mode : Z) : bool :=
  let automasking := sd_automasking_flags sd in
  let automasking :=
    match br with
    | Some b => Z.lor automasking (automasking_flags b)
    | None => automasking
    end in
  has_flag automasking mode.

Definition cavity_bits : Z :=
  Z.lor (Z.lor BRUSH_AUTOMASKING_CAVITY_ALL BRUSH_AUTOMASKING_CAVITY_USE_CURVE)
        BRUSH_AUTOMASKING_CAVITY_NORMAL.

Definition calc_effective_bits (sd : Sculpt) (brush : option Brush) : Z :=
  match brush with
  | Some b =>
      let flags := Z.lor (sd_automasking_flags sd) (automasking_flags b) in
      (* Check if we are using brush cavity settings. *)
      if has_flag (automasking_flags b) BRUSH_AUTOMASKING_CAVITY_ALL then
        Z.lor (Z.land flags (Z.lnot cavity_bits)) (automasking_flags b)
      else if has_flag (sd_automasking_flags sd) BRUSH_AUTOMASKING_CAVITY_ALL then
        Z.lor (Z.land flags (Z.lnot cavity_bits)) (sd_automasking_flags sd)
      else flags
  | None => sd_automasking_flags sd
  end.

Definition is_constrained_by_radius (br : option Brush) : bool :=
  match br with
  | None => false
  | Some b =>
      (* 2D falloff is not constrained by radius. *)
      match falloff_shape b with
      | PAINT_FALLOFF_SHAPE_TUBE => false
      | _ =>
          match sculpt_brush_type b with
          | SCULPT_BRUSH_TYPE_GRAB
          | SCULPT_BRUSH_TYPE_THUMB
          | SCULPT_BRUSH_TYPE_ROTATE => true
          | _ => false
          end
      end
  end.

(** Fetch the propagation steps, preferring the brush level value over
    the global sculpt tool value. *)
Definition boundary_propagation_steps (sd : Sculpt) (brush : option Brush) : Z :=
  match brush with
  | Some b =>
      if has_flag (automasking_flags b)
           (Z.lor BRUSH_AUTOMASKING_BOUNDARY_EDGES BRUSH_AUTOMASKING_BOUNDARY_FACE_SETS)
      then automasking_boundary_edges_propagation_steps b
      else sd_automasking_boundary_edges_propagation_steps sd
  | None => sd_automasking_boundary_edges_propagation_steps sd
  end.

(** Determine if the given automasking settings require values to be
    precomputed and cached. *)
Definition needs_factors_cache (sd : Sculpt) (brush : option Brush) : bool :=
  let automasking_flags := calc_effective_bits sd brush in
  if has_flag automasking_flags BRUSH_AUTOMASKING_TOPOLOGY
     && bool_decide (is_Some brush) && is_constrained_by_radius brush
  then true
  else if has_flag automasking_flags BRUSH_AUTOMASKING_VIEW_NORMAL then
    match brush with
    | Some b => negb (automasking_boundary_edges_propagation_steps b =? 1)
    | None => false
    end
  else if has_flag automasking_flags
            (Z.lor BRUSH_AUTOMASKING_BOUNDARY_EDGES BRUSH_AUTOMASKING_BOUNDARY_FACE_SETS)
  then negb (boundary_propagation_steps sd brush =? 1)
  else false.

Definition brush_type_can_reuse_automask (sculpt_brush_type : eBrushSculptType) : bool :=
  match sculpt_brush_type with
  | SCULPT_BRUSH_TYPE_PAINT
  | SCULPT_BRUSH_TYPE_SMEAR
  | SCULPT_BRUSH_TYPE_MASK
  | SCULPT_BRUSH_TYPE_DRAW_FACE_SETS => true
  | _ => false
  end.

End EffectiveBits.

(** ** External collaborators

    Helpers of other translation units that the automasking code calls.
    They are parameters: the theorems hold for every implementation, the
    examples instantiate them. *)
Class Externals := {
  M_PI : float;
  safe_acosf : float -> float;
  len_v3v3 : float3 -> float3 -> float;
  normalize_v3 : float3 -> float3;
  (** [*reinterpret_cast<const uint *>(&f)]: the bit pattern of a float. *)
  float_as_uint : float -> Z;
  BLI_hash_int : Z -> Z;
  BLI_hash_int_2d : Z -> Z -> Z;
  BKE_curvemapping_evaluateF : option CurveMapping -> Z -> float -> float;
  SCULPT_is_vertex_inside_brush_radius_symm : float3 -> float3 -> float -> Z -> bool
}.

(** The mesh abstraction layer as the automasking code consumes it: vertex
    count, coordinates, normals, adjacency, and the face-set, boundary,
    island and occlusion queries of the collaborating subsystems. *)
Record Geometry := {
  SCULPT_vertex_count_get : nat;
  SCULPT_vertex_co_get : nat -> float3;
  SCULPT_vertex_normal_get : nat -> float3;
  vertex_neighbors : nat -> list nat;
  SCULPT_vertex_is_occluded : nat -> bool;
  vert_has_face_set : nat -> Z -> bool;
  vert_is_boundary : nat -> bool;
  vert_has_unique_face_set : nat -> bool;
  vert_face_set_get : nat -> Z;
  islands_vert_id_get : nat -> Z;
  active_face_set_get : Z;
  (** [ss.active_vert_index()], -1 when there is no active vertex. *)
  active_vert_index : Z;
  (** [SCULPT_mesh_symmetry_xyz_get]. *)
  mesh_symmetry_xyz : Z;
  (** [dyntopo::stroke_is_dyntopo] for a stroke with the given brush. *)
  stroke_is_dyntopo : Brush -> bool;
  (** The seed set [add_initial_with_symmetry] derives from the active
      vertex and the radius. *)
  flood_initial_with_symmetry : nat -> float -> list nat;
  (** Whether the engine counts the seeds as visited from the start, so
      that a seed is not visited again from a neighbor; the spec leaves
      it open. *)
  flood_skip_initial : bool
}.

(** ** Session state *)

Record StrokeCache := {
  sc_brush : option Brush;
  sc_radius : float;
  initial_normal_symm : float3;
  view_normal_symm : float3;
  paint_face_set : Z
}.

Record FilterCache := {
  fc_initial_normal : float3;
  fc_view_normal : float3
}.

(** The convenience accessor table [ss.attrs], restricted to the four
    automasking attributes; a buffer is the attribute's data. *)
Record SculptAttrs := {
  automasking_factor : option (list float);
  automasking_stroke_id : option (list Z);
  automasking_occlusion : option (list Z);
  automasking_cavity : option (list float)
}.

Record SculptSession := {
  cache : option StrokeCache;
  filter_cache : option FilterCache;
  attrs : SculptAttrs;
  stroke_id : Z;
  last_automask_stroke_id : Z;
  last_automasking_settings_hash : Z;
  geom : Geometry
}.

Record Settings := {
  flags : Z;
  initial_face_set : Z;
  initial_island_nr : Z;
  cavity_factor : float;
  cavity_blur_steps : Z;
  cavity_curve : option CurveMapping;
  start_normal_limit : float;
  start_normal_falloff : float;
  view_normal_limit : float;
  view_normal_falloff : float;
  topology_use_brush_limit : bool
}.

Record Cache := {
  settings : Settings;
  can_reuse_mask : bool;
  current_stroke_id : Z
}.

Definition set_attrs (ss : SculptSession) (a : SculptAttrs) : SculptSession :=
  {| cache := cache ss; filter_cache := filter_cache ss; attrs := a;
     stroke_id := stroke_id ss;
     last_automask_stroke_id := last_automask_stroke_id ss;
     last_automasking_settings_hash := last_automasking_settings_hash ss;
     geom := geom ss |}.

Definition set_factor (ss : SculptSession) (b : option (list float)) : SculptSession :=
  set_attrs ss
    {| automasking_factor := b;
       automasking_stroke_id := automasking_stroke_id (attrs ss);
       automasking_occlusion := automasking_occlusion (attrs ss);
       automasking_cavity := automasking_cavity (attrs ss) |}.

Definition set_stroke_ids (ss : SculptSession) (b : option (list Z)) : SculptSession :=
  set_attrs ss
    {| automasking_factor := automasking_factor (attrs ss);
       automasking_stroke_id := b;
       automasking_occlusion := automasking_occlusion (attrs ss);
       automasking_cavity := automasking_cavity (attrs ss) |}.

Definition set_occlusion (ss : SculptSession) (b : option (list Z)) : SculptSession :=
  set_attrs ss
    {| automasking_factor := automasking_factor (attrs ss);
       automasking_stroke_id := automasking_stroke_id (attrs ss);
       automasking_occlusion := b;
       automasking_cavity := automasking_cavity (attrs ss) |}.

Definition set_cavity (ss : SculptSession) (b : option (list float)) : SculptSession :=
  set_attrs ss
    {| automasking_factor := automasking_factor (attrs ss);
       automasking_stroke_id := automasking_stroke_id (attrs ss);
       automasking_occlusion := automasking_occlusion (attrs ss);
       automasking_cavity := b |}.

(** A dereferenced [SCULPT_vertex_attr_get(vertex, attr)], as an rvalue and
    as an lvalue.  A null attribute or an index past the buffer is [None]. *)
Definition attr_read {A} (attr : option (list A)) (vertex : nat) : option A :=
  buf ← attr; buf !! vertex.

Definition attr_write {A} (attr : option (list A)) (vertex : nat) (v : A)
  : option (list A) :=
  buf ← attr;
  if bool_decide (vertex < length buf)%nat then Some (<[vertex := v]> buf) else None.

(** Conversion to [uchar]. *)
Definition to_uchar (n : Z) : Z := n mod 256.

(** ** Mask factor calculators *)

Section Calculators.
Context `{AutomaskFlags} `{Externals}.

Local Open Scope Q_scope.

Definition normal_calc (g : Geometry) (vertex : nat) (normal : float3)
    (limit_lower limit_upper : float) (orig_normal : option float3) : float :=
  let normal_v :=
    match orig_normal with
    | Some n => n
    | None => SCULPT_vertex_normal_get g vertex
    end in
  let angle := safe_acosf (dot_v3v3 normal normal_v) in
  (* note that limit is pre-divided by M_PI *)
  if gtb angle limit_lower && ltb angle limit_upper then
    let t := 1 - (angle - limit_lower) / (limit_upper - limit_lower) in
    (* smoothstep *)
    t * t * (3 - 2 * t)
  else if gtb angle limit_upper then 0
  else 1.

Definition calc_brush_normal_factor (ss : SculptSession) (automasking : Cache)
    (vertex : nat) (orig_normal : option float3) : option float :=
  let falloff := start_normal_falloff (settings automasking) * M_PI in
  initial_normal ←
    match cache ss with
    | Some c => Some (initial_normal_symm c)
    | None => fc_initial_normal <$> filter_cache ss
    end;
  Some (normal_calc (geom ss) vertex initial_normal
          (start_normal_limit (settings automasking) - falloff * (1 # 2))
          (start_normal_limit (settings automasking) + falloff * (1 # 2))
          orig_normal).

Definition calc_view_normal_factor (ss : SculptSession) (automasking : Cache)
    (vertex : nat) (orig_normal : option float3) : option float :=
  let falloff := view_normal_falloff (settings automasking) * M_PI in
  view_normal ←
    match cache ss with
    | Some c => Some (view_normal_symm c)
    | None => fc_view_normal <$> filter_cache ss
    end;
  Some (normal_calc (geom ss) vertex view_normal
          (view_normal_limit (settings automasking))
          (view_normal_limit (settings automasking) + falloff)
          orig_normal).

(** Returns the truth value of [f == 2] and the session with the occlusion
    stamp written. *)
Definition calc_view_occlusion_factor (ss : SculptSession) (automasking : Cache)
    (vertex : nat) (stroke_id : Z) : option (bool * SculptSession) :=
  f ← attr_read (automasking_occlusion (attrs ss)) vertex;
  if negb (stroke_id =? current_stroke_id automasking)%Z then
    let f := if SCULPT_vertex_is_occluded (geom ss) vertex then 2%Z else 1%Z in
    buf ← attr_write (automasking_occlusion (attrs ss)) vertex f;
    Some ((f =? 2)%Z, set_occlusion ss (Some buf))
  else Some ((f =? 2)%Z, ss).

(** Updates vertex stroke id. *)
Definition automasking_factor_end (ss : SculptSession) (automasking : Cache)
    (vertex : nat) (value : float) : option (float * SculptSession) :=
  match automasking_stroke_id (attrs ss) with
  | Some _ =>
      buf ← attr_write (automasking_stroke_id (attrs ss)) vertex
               (current_stroke_id automasking);
      Some (value, set_stroke_ids ss (Some buf))
  | None => Some (value, ss)
  end.

Definition calc_cavity_factor (automasking : Cache) (factor : float) : float :=
  let sign := signf factor in
  let factor := Qabs factor * cavity_factor (settings automasking) * 50 in
  let factor := factor * sign * (1 # 2) + (1 # 2) in
  let factor := CLAMP factor 0 1 in
  if has_flag (flags (settings automasking)) BRUSH_AUTOMASKING_CAVITY_INVERTED
  then 1 - factor
  else factor.

Record CavityBlurVert := {
  cbv_vertex : nat;
  cbv_dist : float;
  cbv_depth : Z
}.

(** The running sums of [calc_blurred_cavity]. *)
Record CavitySums := {
  sno1 : float3;
  sno2 : float3;
  sco1 : float3;
  sco2 : float3;
  len1_sum : float;
  sco1_len : Z;
  sco2_len : Z
}.

Definition cavity_sums_init : CavitySums :=
  {| sno1 := zero3; sno2 := zero3; sco1 := zero3; sco2 := zero3;
     len1_sum := 0; sco1_len := 0; sco2_len := 0 |}.

Definition cavity_gather (g : Geometry) (co1 : float3) (steps : Z)
    (blurvert : CavityBlurVert) (a : CavitySums) : CavitySums :=
  let v := cbv_vertex blurvert in
  let co := SCULPT_vertex_co_get g v in
  let no := SCULPT_vertex_normal_get g v in
  let centdist := len_v3v3 co co1 in
  let inner := (cbv_depth blurvert <? steps)%Z in
  {| sco1 := add_v3 (sco1 a) co;
     sno1 := add_v3 (sno1 a) no;
     len1_sum := len1_sum a + centdist;
     sco1_len := (sco1_len a + 1)%Z;
     sco2 := if inner then add_v3 (sco2 a) co else sco2 a;
     sno2 := if inner then add_v3 (sno2 a) no else sno2 a;
     sco2_len := if inner then (sco2_len a + 1)%Z else sco2_len a |}.

(** The neighbor loop of one dequeued vertex: every neighbor not yet in
    [visit] is marked and appended to the queue one level deeper. *)
Definition cavity_push_neighbors (g : Geometry) (blurvert : CavityBlurVert)
    (queue : list CavityBlurVert) (visit : gset nat)
  : list CavityBlurVert * gset nat :=
  let v := cbv_vertex blurvert in
  fold_left
    (fun '(queue, visit) v2 =>
       if bool_decide (v2 ∈ visit) then (queue, visit)
       else
         let dist := len_v3v3 (SCULPT_vertex_co_get g v2) (SCULPT_vertex_co_get g v) in
         (queue ++ [{| cbv_vertex := v2; cbv_dist := dist;
                       cbv_depth := (cbv_depth blurvert + 1)%Z |}],
          {[v2]} ∪ visit))
    (vertex_neighbors g v) (queue, visit).

(** The [while (start != end)] loop.  The source keeps the pending entries
    in a ring buffer that doubles when full; the embedding keeps them as the
    FIFO list the ring buffer holds between [start] and [end].  [fuel]
    bounds the number of iterations; [None] is an exhausted bound. *)
Fixpoint cavity_blur_loop (fuel : nat) (g : Geometry) (co1 : float3) (steps : Z)
    (queue : list CavityBlurVert) (visit : gset nat) (a : CavitySums)
  : option CavitySums :=
  match queue with
  | [] => Some a
  | blurvert :: queue =>
      match fuel with
      | O => None
      | S fuel =>
          let a := cavity_gather g co1 steps blurvert a in
          if (cbv_depth blurvert >=? steps)%Z then
            cavity_blur_loop fuel g co1 steps queue visit a
          else
            let '(queue, visit) := cavity_push_neighbors g blurvert queue visit in
            cavity_blur_loop fuel g co1 steps queue visit a
      end
  end.

(** The locals of [calc_blurred_cavity] after the sums are averaged and the
    normals normalized. *)
Record CavityLocals := {
  cl_vec : float3;
  cl_sno2 : float3;
  cl_len1_sum : float
}.

Definition cavity_finish (g : Geometry) (vertex : nat) (a : CavitySums)
  : CavityLocals :=
  let sco1' :=
    if (sco1_len a =? 0)%Z then SCULPT_vertex_co_get g vertex
    else div_v3_fl (sco1 a) (inject_Z (sco1_len a)) in
  let len1_sum' :=
    if (sco1_len a =? 0)%Z then len1_sum a
    else len1_sum a / inject_Z (sco1_len a) in
  let sco2' :=
    if (sco2_len a =? 0)%Z then SCULPT_vertex_co_get g vertex
    else div_v3_fl (sco2 a) (inject_Z (sco2_len a)) in
  let sno2' := normalize_v3 (sno2 a) in
  let sno2' :=
    if eqb (dot_v3v3 sno2' sno2') 0 then SCULPT_vertex_normal_get g vertex
    else sno2' in
  {| cl_vec := sub_v3 sco1' sco2'; cl_sno2 := sno2'; cl_len1_sum := len1_sum' |}.

Definition calc_blurred_cavity_locals (g : Geometry) (steps : Z) (vertex : nat)
  : option CavityLocals :=
  (* Steps starts at 1, but API and user interface are zero-based. *)
  let steps := (steps + 1)%Z in
  let initial := {| cbv_vertex := vertex; cbv_dist := 0; cbv_depth := 0 |} in
  let co1 := SCULPT_vertex_co_get g vertex in
  a ← cavity_blur_loop (SCULPT_vertex_count_get g) g co1 steps
         [initial] {[vertex]} cavity_sums_init;
  Some (cavity_finish g vertex a).

Definition calc_blurred_cavity (ss : SculptSession) (automasking : Cache)
    (steps : Z) (vertex : nat) : option SculptSession :=
  l ← calc_blurred_cavity_locals (geom ss) steps vertex;
  factor_sum ← divf (dot_v3v3 (cl_vec l) (cl_sno2 l)) (cl_len1_sum l);
  let factor_sum := calc_cavity_factor automasking factor_sum in
  buf ← attr_write (automasking_cavity (attrs ss)) vertex factor_sum;
  Some (set_cavity ss (Some buf)).

(** The per-vertex overload of [calc_cavity_factor]. *)
Definition calc_cavity_factor_vert (ss : SculptSession) (automasking : Cache)
    (vertex : nat) : option (float * SculptSession) :=
  stroke_id ← attr_read (automasking_stroke_id (attrs ss)) vertex;
  ss ←
    (if negb (stroke_id =? current_stroke_id automasking)%Z then
       calc_blurred_cavity ss automasking
         (cavity_blur_steps (settings automasking)) vertex
     else Some ss);
  factor ← attr_read (automasking_cavity (attrs ss)) vertex;
  let inverted :=
    has_flag (flags (settings automasking)) BRUSH_AUTOMASKING_CAVITY_INVERTED in
  if has_flag (flags (settings automasking)) BRUSH_AUTOMASKING_CAVITY_ALL
     && has_flag (flags (settings automasking)) BRUSH_AUTOMASKING_CAVITY_USE_CURVE
  then
    let factor := if inverted then 1 - factor else factor in
    let factor :=
      BKE_curvemapping_evaluateF (cavity_curve (settings automasking)) 0 factor in
    let factor := if inverted then 1 - factor else factor in
    Some (factor, ss)
  else Some (factor, ss).

End Calculators.

(** ** The factor query *)

Section FactorGet.
Context `{AutomaskFlags} `{Externals}.

Local Open Scope Q_scope.

Definition occlusion_bits : Z :=
  Z.lor BRUSH_AUTOMASKING_VIEW_OCCLUSION BRUSH_AUTOMASKING_VIEW_NORMAL.

Definition has_cache (ss : SculptSession) : bool :=
  bool_decide (is_Some (cache ss)) || bool_decide (is_Some (filter_cache ss)).

(** [ignore] of the face-set boundary test: the stroke's brush draws face
    sets and the vertex already carries the painted face set. *)
Definition boundary_face_set_ignore (ss : SculptSession) (vert : nat) : bool :=
  match cache ss with
  | Some c =>
      match sc_brush c with
      | Some b =>
          match sculpt_brush_type b with
          | SCULPT_BRUSH_TYPE_DRAW_FACE_SETS =>
              (vert_face_set_get (geom ss) vert =? paint_face_set c)%Z
          | _ => false
          end
      | None => false
      end
  | None => false
  end.

(** The part of [factor_get] after the cached-buffer branch: vertices
    rejected by a live test return 0 without touching the stroke id. *)
Definition factor_get_live (ss : SculptSession) (automasking : Cache)
    (vert : nat) (orig_normal : option float3) (mask : float)
  : option (float * SculptSession) :=
  let fl := flags (settings automasking) in
  let g := geom ss in
  if negb (topology_use_brush_limit (settings automasking))
     && has_flag fl BRUSH_AUTOMASKING_TOPOLOGY
     && negb (islands_vert_id_get g vert =? initial_island_nr (settings automasking))%Z
  then Some (0, ss)
  else if has_flag fl BRUSH_AUTOMASKING_FACE_SETS
          && negb (vert_has_face_set g vert (initial_face_set (settings automasking)))
  then Some (0, ss)
  else if has_flag fl BRUSH_AUTOMASKING_BOUNDARY_EDGES && vert_is_boundary g vert
  then Some (0, ss)
  else if has_flag fl BRUSH_AUTOMASKING_BOUNDARY_FACE_SETS
          && negb (boundary_face_set_ignore ss vert)
          && negb (vert_has_unique_face_set g vert)
  then Some (0, ss)
  else
    mask ←
      (if has_cache ss && has_flag fl BRUSH_AUTOMASKING_VIEW_NORMAL then
         f ← calc_view_normal_factor ss automasking vert orig_normal;
         Some (mask * f)
       else Some mask);
    '(mask, ss) ←
      (if has_flag fl BRUSH_AUTOMASKING_CAVITY_ALL then
         '(f, ss) ← calc_cavity_factor_vert ss automasking vert;
         Some (mask * f, ss)
       else Some (mask, ss));
    automasking_factor_end ss automasking vert mask.

Definition factor_get (ss : SculptSession) (automasking : Cache) (vert : nat)
    (orig_normal : option float3) : option (float * SculptSession) :=
  let fl := flags (settings automasking) in
  let mask : float := 1 in
  (* Since brush normal mode depends on the current mirror symmetry pass
     it is not folded into the factor cache (when it exists). *)
  mask ←
    (if has_cache ss && has_flag fl BRUSH_AUTOMASKING_BRUSH_NORMAL then
       f ← calc_brush_normal_factor ss automasking vert orig_normal;
       Some (mask * f)
     else Some mask);
  (* If the cache is initialized with valid info, use the cache. *)
  match automasking_factor (attrs ss) with
  | Some _ =>
      factor ← attr_read (automasking_factor (attrs ss)) vert;
      '(factor, ss) ←
        (if has_flag fl BRUSH_AUTOMASKING_CAVITY_ALL then
           '(f, ss) ← calc_cavity_factor_vert ss automasking vert;
           Some (factor * f, ss)
         else Some (factor, ss));
      automasking_factor_end ss automasking vert (factor * mask)
  | None =>
      stroke_id ←
        match automasking_stroke_id (attrs ss) with
        | Some _ => attr_read (automasking_stroke_id (attrs ss)) vert
        | None => Some (to_uchar (-1))
        end;
      let do_occlusion := (Z.land fl occlusion_bits =? occlusion_bits)%Z in
      '(occluded, ss) ←
        (if do_occlusion then calc_view_occlusion_factor ss automasking vert stroke_id
         else Some (false, ss));
      if do_occlusion && occluded then automasking_factor_end ss automasking vert 0
      else factor_get_live ss automasking vert orig_normal mask
  end.

(** [calc_face_factors]: [faces] are the offsets of the corner ranges
    ([faces[f]] is the range from [faces !! f] to [faces !! (f + 1)]). *)
Definition face_corner_verts (faces : list nat) (corner_verts : list nat)
    (f : nat) : option (list nat) :=
  start ← faces !! f;
  stop ← faces !! S f;
  if bool_decide (start <= stop <= length corner_verts)%nat
  then Some (take (stop - start) (drop start corner_verts))
  else None.

(** The inner loop: [sum += factor_get(..., vert, std::nullopt)]. *)
Fixpoint face_factor_sum (ss : SculptSession) (automasking : Cache)
    (face_verts : list nat) (sum : float) : option (float * SculptSession) :=
  match face_verts with
  | [] => Some (sum, ss)
  | vert :: face_verts =>
      '(f, ss) ← factor_get ss automasking vert None;
      face_factor_sum ss automasking face_verts (sum + f)
  end.

(** [math::rcp]. *)
Definition rcp (x : float) : option float := divf 1 x.

(** The outer loop over [face_indices.index_range()], from index [i]. *)
Fixpoint calc_face_factors_from (ss : SculptSession) (automasking : Cache)
    (faces corner_verts : list nat) (i : nat) (face_indices : list nat)
    (factors : list float) : option (list float * SculptSession) :=
  match face_indices with
  | [] => Some (factors, ss)
  | face :: face_indices =>
      face_verts ← face_corner_verts faces corner_verts face;
      '(sum, ss) ← face_factor_sum ss automasking face_verts 0;
      old ← factors !! i;
      r ← rcp (inject_Z (Z.of_nat (length face_verts)));
      let factors := <[i := old * (sum * r)]> factors in
      calc_face_factors_from ss automasking faces corner_verts (S i)
        face_indices factors
  end.

Definition calc_face_factors (ss : SculptSession) (automasking : Cache)
    (faces corner_verts face_indices : list nat) (factors : list float)
  : option (list float * SculptSession) :=
  calc_face_factors_from ss automasking faces corner_verts 0 face_indices factors.

End FactorGet.

(** ** Topology flood fill *)

(** [std::numeric_limits<float>::max()]. *)
Definition FLT_MAX : float := inject_Z (2 ^ 128 - 2 ^ 104).

Section TopologyFill.
Context `{AutomaskFlags} `{Externals}.

Local Open Scope Q_scope.

Definition topology_radius (ss : SculptSession) : float :=
  match cache ss with
  | Some c => sc_radius c
  | None => FLT_MAX
  end.

Definition topology_use_radius (ss : SculptSession) (brush : option Brush) : bool :=
  bool_decide (is_Some (cache ss)) && is_constrained_by_radius brush.

(** The value the traversal lambda of
    [fill_topology_automasking_factors_mesh] returns for the candidate
    [to_v]; [location] is the position of the active vertex. *)
Definition topology_accept_mesh (ss : SculptSession) (brush : option Brush)
    (active_vert to_v : nat) : bool :=
  let radius := topology_radius ss in
  let use_radius := topology_use_radius ss brush in
  let symm := mesh_symmetry_xyz (geom ss) in
  let location := SCULPT_vertex_co_get (geom ss) active_vert in
  use_radius
  || SCULPT_is_vertex_inside_brush_radius_symm
       (SCULPT_vertex_co_get (geom ss) to_v) location radius symm.

(** The same for [fill_topology_automasking_factors_bmesh]: the tested
    position is [active_vert->co], whatever the candidate. *)
Definition topology_accept_bmesh (ss : SculptSession) (brush : option Brush)
    (active_vert to_v : nat) : bool :=
  let radius := topology_radius ss in
  let use_radius := topology_use_radius ss brush in
  let symm := mesh_symmetry_xyz (geom ss) in
  let location := SCULPT_vertex_co_get (geom ss) active_vert in
  use_radius
  || SCULPT_is_vertex_inside_brush_radius_symm
       (SCULPT_vertex_co_get (geom ss) active_vert) location radius symm.

(** The traversal lambda of the mesh backend: both ends of the edge get
    factor 1, then the candidate is accepted or rejected. *)
Definition topology_fill_func (brush : option Brush) (active_vert : nat)
    (from_v to_v : nat) (ss : SculptSession) : option (bool * SculptSession) :=
  buf ← attr_write (automasking_factor (attrs ss)) to_v 1;
  buf ← attr_write (Some buf) from_v 1;
  Some (topology_accept_mesh ss brush active_vert to_v, set_factor ss (Some buf)).

(** Modelled from the spec: the flood-fill engine ([FillDataMesh::execute]
    of sculpt_flood_fill.cc is not among the sources): a breadth-first
    traversal from the seed set that invokes the transition predicate
    [(from, to) -> accept] on every neighbor not yet in the visited set,
    marks it visited, and enqueues it when the predicate accepts. *)
Definition flood_visit_neighbors {S : Type} (func : nat -> nat -> S -> option (bool * S))
    (from_v : nat) (neighbors : list nat)
    (st : list nat * gset nat * S) : option (list nat * gset nat * S) :=
  foldl
    (fun acc to_v =>
       '(queue, visited, s) ← acc;
       if bool_decide (to_v ∈ visited) then Some (queue, visited, s)
       else
         '(accept, s) ← func from_v to_v s;
         Some (if accept : bool then queue ++ [to_v] else queue, {[to_v]} ∪ visited, s))
    (Some st) neighbors.

Fixpoint flood_execute {S : Type} (fuel : nat) (g : Geometry)
    (func : nat -> nat -> S -> option (bool * S))
    (queue : list nat) (visited : gset nat) (s : S) : option (gset nat * S) :=
  match queue with
  | [] => Some (visited, s)
  | from_v :: queue =>
      match fuel with
      | O => None
      | Datatypes.S fuel =>
          '(queue, visited, s) ←
            flood_visit_neighbors func from_v (vertex_neighbors g from_v)
              (queue, visited, s);
          flood_execute fuel g func queue visited s
      end
  end.

(** [fill_topology_automasking_factors_mesh].  The result carries the
    visited set of the traversal next to the session.  Whether the seeds
    start in the visited set is the engine's choice [flood_skip_initial].
    Every iteration
    takes one vertex off the queue and every vertex enters the queue at most
    once after the seeds, so the seeds and the vertices of the mesh bound
    the number of iterations. *)
Definition fill_topology_automasking_factors_mesh (sd : Sculpt)
    (ss : SculptSession) : option (gset nat * SculptSession) :=
  let brush := paint_brush sd in
  let radius := topology_radius ss in
  let active_vert := Z.to_nat (active_vert_index (geom ss)) in
  let seeds := flood_initial_with_symmetry (geom ss) active_vert radius in
  let visited : gset nat :=
    if flood_skip_initial (geom ss) then list_to_set seeds else ∅ in
  flood_execute (length seeds + SCULPT_vertex_count_get (geom ss)) (geom ss)
    (topology_fill_func brush active_vert) seeds visited ss.

End TopologyFill.

(** ** Settings: resolution and hash *)

Section SettingsHash.
Context `{AutomaskFlags} `{Externals}.

(** Conversion to [uint]. *)
Definition to_uint (n : Z) : Z := n mod 2 ^ 32.

(** The loop over the control points of the cavity curve. *)
Definition hash_curve_points (hash : Z) (curve : list CurveMapPoint) : Z :=
  fold_left
    (fun hash pt =>
       let hash := BLI_hash_int_2d hash (float_as_uint (cmp_x pt)) in
       let hash := BLI_hash_int_2d hash (float_as_uint (cmp_y pt)) in
       let hash := BLI_hash_int_2d hash (to_uint (cmp_flag pt)) in
       BLI_hash_int_2d hash (to_uint (cmp_shorty pt)))
    curve hash.

Definition settings_hash (g : Geometry) (automasking : Cache) : Z :=
  let st := settings automasking in
  let totvert := SCULPT_vertex_count_get g in
  let hash := BLI_hash_int (flags st) in
  let hash := BLI_hash_int_2d hash (Z.of_nat totvert) in
  let hash :=
    if has_flag (flags st) BRUSH_AUTOMASKING_CAVITY_ALL then
      let hash := BLI_hash_int_2d hash (cavity_blur_steps st) in
      let hash := BLI_hash_int_2d hash (float_as_uint (cavity_factor st)) in
      match cavity_curve st with
      | Some cm => hash_curve_points hash (cm_curve cm)
      | None => hash
      end
    else hash in
  let hash :=
    if has_flag (flags st) BRUSH_AUTOMASKING_FACE_SETS
    then BLI_hash_int_2d hash (initial_face_set st)
    else hash in
  let hash :=
    if has_flag (flags st) BRUSH_AUTOMASKING_VIEW_NORMAL then
      let hash := BLI_hash_int_2d hash (float_as_uint (view_normal_falloff st)) in
      BLI_hash_int_2d hash (float_as_uint (view_normal_limit st))
    else hash in
  let hash :=
    if has_flag (flags st) BRUSH_AUTOMASKING_BRUSH_NORMAL then
      let hash := BLI_hash_int_2d hash (float_as_uint (start_normal_falloff st)) in
      BLI_hash_int_2d hash (float_as_uint (start_normal_limit st))
    else hash in
  hash.

Definition brush_has (brush : option Brush) (mode : Z) : bool :=
  match brush with
  | Some b => has_flag (automasking_flags b) mode
  | None => false
  end.

(** Updates the cached values, preferring brush settings over tool-level
    settings.  Fields the function does not assign keep the value they have
    in [st]. *)
Definition cache_settings_update (st : Settings) (ss : SculptSession)
    (sd : Sculpt) (brush : option Brush) : Settings :=
  let pick {A} (mode : Z) (fb : Brush -> A) (fs : Sculpt -> A) : A :=
    match brush with
    | Some b => if has_flag (automasking_flags b) mode then fb b else fs sd
    | None => fs sd
    end in
  {| flags := calc_effective_bits sd brush;
     initial_face_set := active_face_set_get (geom ss);
     initial_island_nr := initial_island_nr st;
     view_normal_limit :=
       pick BRUSH_AUTOMASKING_VIEW_NORMAL
         automasking_view_normal_limit sd_automasking_view_normal_limit;
     view_normal_falloff :=
       pick BRUSH_AUTOMASKING_VIEW_NORMAL
         automasking_view_normal_falloff sd_automasking_view_normal_falloff;
     start_normal_limit :=
       pick BRUSH_AUTOMASKING_BRUSH_NORMAL
         automasking_start_normal_limit sd_automasking_start_normal_limit;
     start_normal_falloff :=
       pick BRUSH_AUTOMASKING_BRUSH_NORMAL
         automasking_start_normal_falloff sd_automasking_start_normal_falloff;
     cavity_curve :=
       pick BRUSH_AUTOMASKING_CAVITY_ALL
         automasking_cavity_curve sd_automasking_cavity_curve;
     cavity_factor :=
       pick BRUSH_AUTOMASKING_CAVITY_ALL
         automasking_cavity_factor sd_automasking_cavity_factor;
     cavity_blur_steps :=
       pick BRUSH_AUTOMASKING_CAVITY_ALL
         automasking_cavity_blur_steps sd_automasking_cavity_blur_steps;
     topology_use_brush_limit := topology_use_brush_limit st |}.

End SettingsHash.

(** ** Precompute calculators *)

(** A loop [for (int i : IndexRange(n))] whose body may fail. *)
Definition for_range {S : Type} (n : nat) (body : nat -> S -> option S) (s : S)
  : option S :=
  foldl (fun acc i => s ← acc; body i s) (Some s) (seq 0 n).

Definition EDGE_DISTANCE_INF : Z := -1.

Inductive BoundaryAutomaskMode :=
| Edges
| FaceSets.

Section Precompute.
Context `{AutomaskFlags} `{Externals}.

Local Open Scope Q_scope.

Definition is_enabled (sd : Sculpt) (ss : option SculptSession) (br : option Brush)
  : bool :=
  if match ss, br with
     | Some ss, Some b => stroke_is_dyntopo (geom ss) b
     | _, _ => false
     end
  then false
  else if mode_enabled sd br BRUSH_AUTOMASKING_TOPOLOGY then true
  else if mode_enabled sd br BRUSH_AUTOMASKING_FACE_SETS then true
  else if mode_enabled sd br BRUSH_AUTOMASKING_BOUNDARY_EDGES then true
  else if mode_enabled sd br BRUSH_AUTOMASKING_BOUNDARY_FACE_SETS then true
  else if mode_enabled sd br BRUSH_AUTOMASKING_BRUSH_NORMAL then true
  else if mode_enabled sd br BRUSH_AUTOMASKING_VIEW_NORMAL then true
  else if mode_enabled sd br BRUSH_AUTOMASKING_CAVITY_ALL then true
  else false.

Definition factor_write (vertex : nat) (v : float) (ss : SculptSession)
  : option SculptSession :=
  buf ← attr_write (automasking_factor (attrs ss)) vertex v;
  Some (set_factor ss (Some buf)).

Definition init_face_sets_masking (sd : Sculpt) (ss : SculptSession)
  : option SculptSession :=
  let brush := paint_brush sd in
  if negb (is_enabled sd (Some ss) brush) then Some ss
  else
    let tot_vert := SCULPT_vertex_count_get (geom ss) in
    let active_face_set := active_face_set_get (geom ss) in
    for_range tot_vert
      (fun i ss =>
         if negb (vert_has_face_set (geom ss) i active_face_set)
         then factor_write i 0 ss
         else Some ss)
      ss.

(** Whether the first loop of [init_boundary_masking] gives the vertex
    distance 0. *)
Definition is_boundary_element (g : Geometry) (mode : BoundaryAutomaskMode)
    (vertex : nat) : bool :=
  match mode with
  | Edges => vert_is_boundary g vertex
  | FaceSets => negb (vert_has_unique_face_set g vertex)
  end.

Definition edge_distance_init (g : Geometry) (mode : BoundaryAutomaskMode)
  : list Z :=
  map (fun i => if is_boundary_element g mode i then 0%Z else EDGE_DISTANCE_INF)
      (seq 0 (SCULPT_vertex_count_get g)).

(** The body of the inner loop of the propagation, for vertex [i] in
    iteration [propagation_it]. *)
Definition edge_distance_relax (g : Geometry) (propagation_it : Z) (i : nat)
    (edge_distance : list Z) : option (list Z) :=
  d ← edge_distance !! i;
  if negb (d =? EDGE_DISTANCE_INF)%Z then Some edge_distance
  else
    foldl
      (fun acc ni =>
         edge_distance ← acc;
         dn ← edge_distance !! ni;
         if (dn =? propagation_it)%Z
         then Some (<[i := (propagation_it + 1)%Z]> edge_distance)
         else Some edge_distance)
      (Some edge_distance) (vertex_neighbors g i).

Definition edge_distance_propagate (g : Geometry) (propagation_steps : Z)
    (edge_distance : list Z) : option (list Z) :=
  for_range (Z.to_nat propagation_steps)
    (fun propagation_it edge_distance =>
       for_range (SCULPT_vertex_count_get g)
         (edge_distance_relax g (Z.of_nat propagation_it)) edge_distance)
    edge_distance.

(** The factor the last loop multiplies a vertex at distance [d] by. *)
Definition edge_boundary_scale (d propagation_steps : Z) : option float :=
  q ← divf (inject_Z d) (inject_Z propagation_steps);
  let p := 1 - q in
  let edge_boundary_automask := pow2f p in
  Some (1 - edge_boundary_automask).

Definition boundary_apply (edge_distance : list Z) (propagation_steps : Z)
    (i : nat) (ss : SculptSession) : option SculptSession :=
  d ← edge_distance !! i;
  if (d =? EDGE_DISTANCE_INF)%Z then Some ss
  else
    scale ← edge_boundary_scale d propagation_steps;
    old ← attr_read (automasking_factor (attrs ss)) i;
    factor_write i (old * scale) ss.

Definition init_boundary_masking (mode : BoundaryAutomaskMode)
    (propagation_steps : Z) (ss : SculptSession) : option SculptSession :=
  let g := geom ss in
  let totvert := SCULPT_vertex_count_get g in
  edge_distance ← edge_distance_propagate g propagation_steps
                    (edge_distance_init g mode);
  for_range totvert (boundary_apply edge_distance propagation_steps) ss.

Definition normal_occlusion_automasking_fill (automasking : Cache) (mode : Z)
    (ss : SculptSession) : option SculptSession :=
  let totvert := SCULPT_vertex_count_get (geom ss) in
  (* No need to build original data since this is only called at the
     beginning of strokes. *)
  for_range totvert
    (fun vertex ss =>
       f ← attr_read (automasking_factor (attrs ss)) vertex;
       '(f, ss) ←
         (if has_flag mode BRUSH_AUTOMASKING_VIEW_NORMAL then
            '(f, ss) ←
              (if has_flag mode BRUSH_AUTOMASKING_VIEW_OCCLUSION then
                 '(occ, ss) ← calc_view_occlusion_factor ss automasking vertex
                                 (to_uchar (-1));
                 Some (f * (if occ : bool then 1 else 0), ss)
               else Some (f, ss));
            n ← calc_view_normal_factor ss automasking vertex None;
            Some (f * n, ss)
          else Some (f, ss));
       ss ←
         match automasking_stroke_id (attrs ss) with
         | Some _ =>
             buf ← attr_write (automasking_stroke_id (attrs ss)) vertex (stroke_id ss);
             Some (set_stroke_ids ss (Some buf))
         | None => Some ss
         end;
       factor_write vertex f ss)
    ss.

End Precompute.

(** ** Cache construction *)

Section CacheInit.
Context `{AutomaskFlags} `{Externals}.

Local Open Scope Q_scope.

(** [BKE_sculpt_attribute_ensure] as the automasking code sees it through
    the accessor table: the attribute's buffer afterwards has one element
    per vertex; a missing or stale buffer is allocated zeroed. *)
Definition attribute_ensure {A : Type} (zero : A) (n : nat)
    (attr : option (list A)) : option (list A) :=
  match attr with
  | Some buf => if bool_decide (length buf = n) then Some buf
                else Some (replicate n zero)
  | None => Some (replicate n zero)
  end.

(** [std::make_unique<Cache>()]. *)
Definition Settings_default : Settings :=
  {| flags := 0; initial_face_set := 0; initial_island_nr := 0;
     cavity_factor := 0; cavity_blur_steps := 0; cavity_curve := None;
     start_normal_limit := 0; start_normal_falloff := 0;
     view_normal_limit := 0; view_normal_falloff := 0;
     topology_use_brush_limit := false |}.

Definition set_initial_island_nr (c : Cache) (n : Z) : Cache :=
  let st := settings c in
  {| settings :=
       {| flags := flags st; initial_face_set := initial_face_set st;
          initial_island_nr := n;
          cavity_factor := cavity_factor st;
          cavity_blur_steps := cavity_blur_steps st;
          cavity_curve := cavity_curve st;
          start_normal_limit := start_normal_limit st;
          start_normal_falloff := start_normal_falloff st;
          view_normal_limit := view_normal_limit st;
          view_normal_falloff := view_normal_falloff st;
          topology_use_brush_limit := topology_use_brush_limit st |};
     can_reuse_mask := can_reuse_mask c;
     current_stroke_id := current_stroke_id c |}.

Definition set_topology_use_brush_limit (c : Cache) (b : bool) : Cache :=
  let st := settings c in
  {| settings :=
       {| flags := flags st; initial_face_set := initial_face_set st;
          initial_island_nr := initial_island_nr st;
          cavity_factor := cavity_factor st;
          cavity_blur_steps := cavity_blur_steps st;
          cavity_curve := cavity_curve st;
          start_normal_limit := start_normal_limit st;
          start_normal_falloff := start_normal_falloff st;
          view_normal_limit := view_normal_limit st;
          view_normal_falloff := view_normal_falloff st;
          topology_use_brush_limit := b |};
     can_reuse_mask := can_reuse_mask c;
     current_stroke_id := current_stroke_id c |}.

Definition set_last_automask_stroke_id (ss : SculptSession) (id : Z)
  : SculptSession :=
  {| cache := cache ss; filter_cache := filter_cache ss; attrs := attrs ss;
     stroke_id := stroke_id ss;
     last_automask_stroke_id := id;
     last_automasking_settings_hash := last_automasking_settings_hash ss;
     geom := geom ss |}.

(** The first part of [cache_init], up to the island lookup: the cache
    with its settings resolved and the current stroke id. *)
Definition cache_init_settings (sd : Sculpt) (brush : option Brush)
    (ss : SculptSession) : Cache :=
  let automasking :=
    {| settings := cache_settings_update Settings_default ss sd brush;
       can_reuse_mask := false;
       current_stroke_id := stroke_id ss |} in
  let mode := calc_effective_bits sd brush in
  if has_flag mode BRUSH_AUTOMASKING_TOPOLOGY
     && negb (active_vert_index (geom ss) =? -1)%Z
  then set_initial_island_nr automasking
         (islands_vert_id_get (geom ss) (Z.to_nat (active_vert_index (geom ss))))
  else automasking.

Definition have_occlusion (mode : Z) : bool :=
  has_flag mode BRUSH_AUTOMASKING_VIEW_OCCLUSION
  && has_flag mode BRUSH_AUTOMASKING_VIEW_NORMAL.

Definition use_stroke_id (mode : Z) : bool :=
  have_occlusion mode || has_flag mode BRUSH_AUTOMASKING_CAVITY_ALL.

(** The attributes the occlusion and cavity modes need, created when the
    accessor table does not hold them yet. *)
Definition cache_init_attributes (mode : Z) (ss : SculptSession) : SculptSession :=
  let n := SCULPT_vertex_count_get (geom ss) in
  let ss :=
    if have_occlusion mode then
      match automasking_occlusion (attrs ss) with
      | None => set_occlusion ss (attribute_ensure 0%Z n None)
      | Some _ => ss
      end
    else ss in
  if has_flag mode BRUSH_AUTOMASKING_CAVITY_ALL then
    match automasking_cavity (attrs ss) with
    | None => set_cavity ss (attribute_ensure 0 n None)
    | Some _ => ss
    end
  else ss.

(** [SCULPT_stroke_id_ensure]. *)
Definition SCULPT_stroke_id_ensure (ss : SculptSession) : SculptSession :=
  match automasking_stroke_id (attrs ss) with
  | None =>
      set_stroke_ids ss (attribute_ensure 0%Z (SCULPT_vertex_count_get (geom ss)) None)
  | Some _ => ss
  end.

(** The [if (use_stroke_id)] block: the reuse decision. *)
Definition cache_init_reuse (brush : option Brush) (mode : Z)
    (automasking : Cache) (ss : SculptSession) : Cache * SculptSession :=
  if use_stroke_id mode then
    let ss := SCULPT_stroke_id_ensure ss in
    let automasking :=
      match brush with
      | Some b =>
          if brush_type_can_reuse_automask (sculpt_brush_type b)
             && negb (have_occlusion mode)
          then
            let hash := settings_hash (geom ss) automasking in
            if (hash =? last_automasking_settings_hash ss)%Z then
              {| settings := settings automasking;
                 can_reuse_mask := true;
                 current_stroke_id := last_automask_stroke_id ss |}
            else automasking
          else automasking
      | None => automasking
      end in
    let ss :=
      if negb (can_reuse_mask automasking)
      then set_last_automask_stroke_id ss (stroke_id ss)
      else ss in
    (automasking, ss)
  else (automasking, ss).

(** The initialization loop of the factor buffer. *)
Definition factor_initial_value (mode : Z) : float :=
  if negb (has_flag mode BRUSH_AUTOMASKING_TOPOLOGY) then 1 else 0.

Definition cache_init_factor_buffer (mode : Z) (ss : SculptSession)
  : option SculptSession :=
  let totvert := SCULPT_vertex_count_get (geom ss) in
  let ss := set_factor ss (attribute_ensure 0 totvert (automasking_factor (attrs ss))) in
  (* Topology builds up the mask from zero which other modes can subtract
     from.  If it isn't enabled, initialize to 1. *)
  let initial_value := factor_initial_value mode in
  for_range totvert (fun i ss => factor_write i initial_value ss) ss.

(** Additive modes. *)
Definition cache_init_topology (sd : Sculpt) (brush : option Brush)
    (automasking : Cache) (ss : SculptSession) : option (Cache * SculptSession) :=
  if mode_enabled sd brush BRUSH_AUTOMASKING_TOPOLOGY then
    let automasking :=
      set_topology_use_brush_limit automasking (is_constrained_by_radius brush) in
    '(_, ss) ← fill_topology_automasking_factors_mesh sd ss;
    Some (automasking, ss)
  else Some (automasking, ss).

(** The precompute pass of [cache_init], entered when
    [needs_factors_cache] holds. *)
Definition cache_init_precompute (sd : Sculpt) (brush : option Brush)
    (automasking : Cache) (ss : SculptSession) : option (Cache * SculptSession) :=
  let mode := calc_effective_bits sd brush in
  ss ← cache_init_factor_buffer mode ss;
  '(automasking, ss) ← cache_init_topology sd brush automasking ss;
  ss ← (if mode_enabled sd brush BRUSH_AUTOMASKING_FACE_SETS
        then init_face_sets_masking sd ss else Some ss);
  let steps := boundary_propagation_steps sd brush in
  ss ← (if mode_enabled sd brush BRUSH_AUTOMASKING_BOUNDARY_EDGES
        then init_boundary_masking Edges steps ss else Some ss);
  ss ← (if mode_enabled sd brush BRUSH_AUTOMASKING_BOUNDARY_FACE_SETS
        then init_boundary_masking FaceSets steps ss else Some ss);
  (* Subtractive modes. *)
  let normal_bits :=
    Z.land (calc_effective_bits sd brush)
           (Z.lor BRUSH_AUTOMASKING_VIEW_NORMAL BRUSH_AUTOMASKING_VIEW_OCCLUSION) in
  ss ← (if negb (normal_bits =? 0)%Z
        then normal_occlusion_automasking_fill automasking normal_bits ss
        else Some ss);
  Some (automasking, ss).

(** [cache_init].  The outer [option] is the undefined behaviour of the
    embedding, the inner one is the [nullptr] the function returns when
    automasking is disabled. *)
Definition cache_init (sd : Sculpt) (brush : option Brush) (ss : SculptSession)
  : option (option Cache * SculptSession) :=
  if negb (is_enabled sd (Some ss) brush) then Some (None, ss)
  else
    let automasking := cache_init_settings sd brush ss in
    let mode := calc_effective_bits sd brush in
    let ss := cache_init_attributes mode ss in
    let '(automasking, ss) := cache_init_reuse brush mode automasking ss in
    (* Avoid precomputing data on the vertex level if the current
       auto-masking modes do not require it to function. *)
    if negb (needs_factors_cache sd brush) then
      let ss :=
        match automasking_factor (attrs ss) with
        | Some _ => set_factor ss None
        | None => ss
        end in
      Some (Some automasking, ss)
    else
      '(automasking, ss) ← cache_init_precompute sd brush automasking ss;
      Some (Some automasking, ss).

End CacheInit.

(** * The sculpt attribute store (paint.cc) *)

Module AttrStore.

Inductive AttrDomain :=
| Point
| Face
| OtherDomain.

Inductive pbvh_Type :=
| Mesh
| Grids
| BMesh.

Definition eCustomDataType := Z.

Record SculptAttributeParams := {
  (** Allocate a flat array outside the [CustomData] system. *)
  p_simple_array : bool;
  p_permanent : bool;
  p_stroke_only : bool
}.

(** A pointer to allocated storage; [None] is [nullptr]. *)
Definition ptr := option nat.

Record SculptAttribute := {
  domain : AttrDomain;
  proptype : eCustomDataType;
  name : string;
  params : SculptAttributeParams;
  data : ptr;
  elem_size : Z;
  elem_num : Z;
  data_for_bmesh : bool;
  simple_array : bool;
  bmesh_cd_offset : Z;
  (** [layer] points into the layer array of a [CustomData]; it is kept as
      the index of the layer. *)
  layer : option Z;
  used : bool
}.

(** [CustomData] and the functions of customdata.cc and bmesh the attribute
    store calls.  [CD] is the state of one [CustomData] block together with
    the storage of its layers. *)
Class CustomDataOps (CD : Type) := {
  CustomData_sizeof : eCustomDataType -> Z;
  CustomData_get_named_layer_index : CD -> eCustomDataType -> string -> Z;
  layer_data : CD -> Z -> ptr;
  layer_offset : CD -> Z -> Z;
  CustomData_get_elem_size : CD -> Z -> Z;
  (** [cdata->layers[index].flag |= CD_FLAG_TEMPORARY | CD_FLAG_NOCOPY]. *)
  layer_flag_temporary : CD -> Z -> CD;
  (** [CustomData_add_layer_named(cdata, type, CD_SET_DEFAULT, totelem, name)]. *)
  CustomData_add_layer_named : CD -> eCustomDataType -> Z -> string -> CD;
  BM_data_layer_add_named : CD -> eCustomDataType -> string -> CD;
  CustomData_free_layer : CD -> eCustomDataType -> Z -> Z -> CD;
  BM_data_layer_free_named : CD -> string -> CD
}.

Record BMeshData (CD : Type) := {
  vdata : CD;
  pdata : CD;
  bm_totvert : Z
}.
Arguments vdata {CD}.
Arguments pdata {CD}.
Arguments bm_totvert {CD}.

(** The object with its sculpt session and original mesh, as far as the
    attribute store reads and writes them. *)
Record Object (CD : Type) := {
  temp_attributes : list SculptAttribute;
  (** The convenience pointer struct [ss->attrs], read as an array of
      pointers; a pointer is the slot it points to. *)
  attrs : list (option nat);
  bm : option (BMeshData CD);
  (** Vertex count of the subdivision grids when [ss->subdiv_ccg] is set. *)
  subdiv_ccg : option Z;
  totvert : Z;
  totfaces : Z;
  pbvh : option pbvh_Type;
  vert_data : CD;
  face_data : CD;
  (** Storage of the simple arrays: address to zero-initialized bytes. *)
  heap : gmap nat (list Z)
}.
Arguments temp_attributes {CD}.
Arguments attrs {CD}.
Arguments bm {CD}.
Arguments subdiv_ccg {CD}.
Arguments totvert {CD}.
Arguments totfaces {CD}.
Arguments pbvh {CD}.
Arguments vert_data {CD}.
Arguments face_data {CD}.
Arguments heap {CD}.

(** Which [CustomData] block a pointer returned by [sculpt_get_cdata]
    designates. *)
Inductive CDataRef :=
| BM_vdata
| BM_pdata
| Me_vert_data
| Me_face_data.

Definition domain_eqb (a b : AttrDomain) : bool :=
  match a, b with
  | Point, Point | Face, Face | OtherDomain, OtherDomain => true
  | _, _ => false
  end.

Definition pbvh_eqb (a b : pbvh_Type) : bool :=
  match a, b with
  | Mesh, Mesh | Grids, Grids | BMesh, BMesh => true
  | _, _ => false
  end.

Section Store.
Context {CD : Type} `{CustomDataOps CD}.

Definition set_slots (ob : Object CD) (l : list SculptAttribute) : Object CD :=
  {| temp_attributes := l; attrs := attrs ob; bm := bm ob;
     subdiv_ccg := subdiv_ccg ob; totvert := totvert ob; totfaces := totfaces ob;
     pbvh := pbvh ob; vert_data := vert_data ob; face_data := face_data ob;
     heap := heap ob |}.

Definition set_attrs_table (ob : Object CD) (t : list (option nat)) : Object CD :=
  {| temp_attributes := temp_attributes ob; attrs := t; bm := bm ob;
     subdiv_ccg := subdiv_ccg ob; totvert := totvert ob; totfaces := totfaces ob;
     pbvh := pbvh ob; vert_data := vert_data ob; face_data := face_data ob;
     heap := heap ob |}.

Definition set_heap (ob : Object CD) (h : gmap nat (list Z)) : Object CD :=
  {| temp_attributes := temp_attributes ob; attrs := attrs ob; bm := bm ob;
     subdiv_ccg := subdiv_ccg ob; totvert := totvert ob; totfaces := totfaces ob;
     pbvh := pbvh ob; vert_data := vert_data ob; face_data := face_data ob;
     heap := h |}.

Definition cdata_get (ob : Object CD) (r : CDataRef) : option CD :=
  match r with
  | BM_vdata => vdata <$> bm ob
  | BM_pdata => pdata <$> bm ob
  | Me_vert_data => Some (vert_data ob)
  | Me_face_data => Some (face_data ob)
  end.

Definition cdata_set (ob : Object CD) (r : CDataRef) (cd : CD) : Object CD :=
  match r with
  | BM_vdata =>
      {| temp_attributes := temp_attributes ob; attrs := attrs ob;
         bm := (fun b => {| vdata := cd; pdata := pdata b;
                            bm_totvert := bm_totvert b |}) <$> bm ob;
         subdiv_ccg := subdiv_ccg ob; totvert := totvert ob;
         totfaces := totfaces ob; pbvh := pbvh ob; vert_data := vert_data ob;
         face_data := face_data ob; heap := heap ob |}
  | BM_pdata =>
      {| temp_attributes := temp_attributes ob; attrs := attrs ob;
         bm := (fun b => {| vdata := vdata b; pdata := cd;
                            bm_totvert := bm_totvert b |}) <$> bm ob;
         subdiv_ccg := subdiv_ccg ob; totvert := totvert ob;
         totfaces := totfaces ob; pbvh := pbvh ob; vert_data := vert_data ob;
         face_data := face_data ob; heap := heap ob |}
  | Me_vert_data =>
      {| temp_attributes := temp_attributes ob; attrs := attrs ob; bm := bm ob;
         subdiv_ccg := subdiv_ccg ob; totvert := totvert ob;
         totfaces := totfaces ob; pbvh := pbvh ob; vert_data := cd;
         face_data := face_data ob; heap := heap ob |}
  | Me_face_data =>
      {| temp_attributes := temp_attributes ob; attrs := attrs ob; bm := bm ob;
         subdiv_ccg := subdiv_ccg ob; totvert := totvert ob;
         totfaces := totfaces ob; pbvh := pbvh ob; vert_data := vert_data ob;
         face_data := cd; heap := heap ob |}
  end.

Definition BKE_sculptsession_vertex_count (ob : Object CD) : Z :=
  match bm ob with
  | Some b => bm_totvert b
  | None =>
      match subdiv_ccg ob with
      | Some n => n
      | None => totvert ob
      end
  end.

(** Returns pointer to a CustomData associated with a given domain, if one
    exists. *)
Definition sculpt_get_cdata (ob : Object CD) (d : AttrDomain) : option CDataRef :=
  match bm ob with
  | Some _ =>
      match d with
      | Point => Some BM_vdata
      | Face => Some BM_pdata
      | OtherDomain => None
      end
  | None =>
      match d with
      | Point =>
          (* Cannot get vertex domain for multires grids. *)
          match pbvh ob with
          | Some Grids => None
          | _ => Some Me_vert_data
          end
      | Face => Some Me_face_data
      | OtherDomain => None
      end
  end.

Definition sculpt_attr_elem_count_get (ob : Object CD) (d : AttrDomain) : Z :=
  match d with
  | Point => BKE_sculptsession_vertex_count ob
  | Face => totfaces ob
  | OtherDomain => 0
  end.

(** [MEM_calloc_arrayN]: a fresh address holding zeroed bytes. *)
Definition MEM_calloc_arrayN (ob : Object CD) (len size : Z) : nat * Object CD :=
  let a := fresh (dom (heap ob)) in
  (a, set_heap ob (<[a := replicate (Z.to_nat (len * size)) 0]> (heap ob))).

(** [MEM_SAFE_FREE(p)]: frees and nulls a pointer that is not null. *)
Definition MEM_SAFE_FREE (ob : Object CD) (p : ptr) : Object CD :=
  match p with
  | Some a => set_heap ob (delete a (heap ob))
  | None => ob
  end.

Definition slot_update (ob : Object CD) (j : nat) (f : SculptAttribute -> SculptAttribute)
  : Object CD :=
  set_slots ob (alter f j (temp_attributes ob)).


Definition is_Some_b {A : Type} (o : option A) : bool :=
  match o with
  | Some _ => true
  | None => false
  end.

Definition sculpt_attribute_create (ob : Object CD) (d : AttrDomain)
    (ty : eCustomDataType) (nm : string) (out : nat) (prm : SculptAttributeParams)
    (pbvhtype : pbvh_Type) (flat_array_for_bmesh : bool)
  : option (bool * Object CD) :=
  _ ← temp_attributes ob !! out;
  let coerce :=
    pbvh_eqb pbvhtype Grids || (pbvh_eqb pbvhtype BMesh && flat_array_for_bmesh) in
  (* Force non-CustomData simple_array mode if not pbvh::Type::Mesh. *)
  let permanent := p_permanent prm && negb coerce in
  let prm' :=
    {| p_simple_array := p_simple_array prm; p_permanent := permanent;
       p_stroke_only := p_stroke_only prm |} in
  let simple := p_simple_array prm || coerce in
  let totelem := sculpt_attr_elem_count_get ob d in
  let store (ob : Object CD) (a : SculptAttribute) (r : bool) :=
    Some (r, slot_update ob out (fun _ => a)) in
  if simple then
    let elemsize := CustomData_sizeof ty in
    let '(a, ob) := MEM_calloc_arrayN ob totelem elemsize in
    store ob
      {| domain := d; proptype := ty; name := nm; params := prm';
         data := Some a; elem_size := elemsize; elem_num := totelem;
         data_for_bmesh := is_Some_b (bm ob); simple_array := true;
         bmesh_cd_offset := -1; layer := None; used := true |}
      true
  else
    old ← temp_attributes ob !! out;
    match bm ob with
    | Some _ =>
        match (match d with
               | Point => Some BM_vdata
               | Face => Some BM_pdata
               | OtherDomain => None
               end) with
        | None =>
            store ob
              {| domain := d; proptype := ty; name := nm; params := prm';
                 data := data old; elem_size := elem_size old;
                 elem_num := elem_num old; data_for_bmesh := true;
                 simple_array := false; bmesh_cd_offset := bmesh_cd_offset old;
                 layer := layer old; used := false |}
              false
        | Some r =>
            cdata ← cdata_get ob r;
            let cdata := BM_data_layer_add_named cdata ty nm in
            let index := CustomData_get_named_layer_index cdata ty nm in
            let cdata := if permanent then cdata else layer_flag_temporary cdata index in
            store (cdata_set ob r cdata)
              {| domain := d; proptype := ty; name := nm; params := prm';
                 data := None; elem_size := CustomData_sizeof ty;
                 elem_num := totelem; data_for_bmesh := true;
                 simple_array := false;
                 bmesh_cd_offset := layer_offset cdata index;
                 layer := Some index; used := true |}
              true
        end
    | None =>
        match (match d with
               | Point => Some Me_vert_data
               | Face => Some Me_face_data
               | OtherDomain => None
               end) with
        | None =>
            store ob
              {| domain := d; proptype := ty; name := nm; params := prm';
                 data := data old; elem_size := elem_size old;
                 elem_num := elem_num old; data_for_bmesh := data_for_bmesh old;
                 simple_array := false; bmesh_cd_offset := bmesh_cd_offset old;
                 layer := layer old; used := false |}
              false
        | Some r =>
            cdata ← cdata_get ob r;
            let cdata := CustomData_add_layer_named cdata ty totelem nm in
            let index := CustomData_get_named_layer_index cdata ty nm in
            let cdata := if permanent then cdata else layer_flag_temporary cdata index in
            store (cdata_set ob r cdata)
              {| domain := d; proptype := ty; name := nm; params := prm';
                 data := layer_data cdata index;
                 elem_size := CustomData_get_elem_size cdata index;
                 elem_num := totelem; data_for_bmesh := false;
                 simple_array := false; bmesh_cd_offset := -1;
                 layer := Some index; used := true |}
              true
        end
    end.

Definition set_data (a : SculptAttribute) (p : ptr) : SculptAttribute :=
  {| domain := domain a; proptype := proptype a; name := name a;
     params := params a; data := p; elem_size := elem_size a;
     elem_num := elem_num a; data_for_bmesh := data_for_bmesh a;
     simple_array := simple_array a; bmesh_cd_offset := bmesh_cd_offset a;
     layer := layer a; used := used a |}.

Definition set_bmesh_cd_offset (a : SculptAttribute) (o : Z) : SculptAttribute :=
  {| domain := domain a; proptype := proptype a; name := name a;
     params := params a; data := data a; elem_size := elem_size a;
     elem_num := elem_num a; data_for_bmesh := data_for_bmesh a;
     simple_array := simple_array a; bmesh_cd_offset := o;
     layer := layer a; used := used a |}.

Definition set_used (a : SculptAttribute) (u : bool) : SculptAttribute :=
  {| domain := domain a; proptype := proptype a; name := name a;
     params := params a; data := data a; elem_size := elem_size a;
     elem_num := elem_num a; data_for_bmesh := data_for_bmesh a;
     simple_array := simple_array a; bmesh_cd_offset := bmesh_cd_offset a;
     layer := layer a; used := u |}.

Definition set_stroke_only (a : SculptAttribute) (b : bool) : SculptAttribute :=
  {| domain := domain a; proptype := proptype a; name := name a;
     params := {| p_simple_array := p_simple_array (params a);
                  p_permanent := p_permanent (params a);
                  p_stroke_only := b |};
     data := data a; elem_size := elem_size a;
     elem_num := elem_num a; data_for_bmesh := data_for_bmesh a;
     simple_array := simple_array a; bmesh_cd_offset := bmesh_cd_offset a;
     layer := layer a; used := used a |}.

(** The part of [sculpt_attr_update] before [if (bad)]: whether the
    attribute is stale, and the attribute with its layer reference
    refreshed when it is not. *)
Definition sculpt_attr_check (ob : Object CD) (attr : SculptAttribute)
    (pbvh_type : pbvh_Type) : option (bool * SculptAttribute) :=
  let elem_num' := sculpt_attr_elem_count_get ob (domain attr) in
  let bad :=
    match data attr with
    | Some _ => negb (elem_num attr =? elem_num')
    | None => false
    end in
  (* Check if we are a coerced simple array and shouldn't be. *)
  let bad :=
    bad || (simple_array attr && negb (p_simple_array (params attr))
            && negb (pbvh_eqb pbvh_type Grids || pbvh_eqb pbvh_type BMesh)) in
  match sculpt_get_cdata ob (domain attr) with
  | Some r =>
      if negb (simple_array attr) then
        cdata ← cdata_get ob r;
        let layer_index :=
          CustomData_get_named_layer_index cdata (proptype attr) (name attr) in
        let bad := bad || (layer_index =? -1) in
        let bad := bad || negb (Bool.eqb (is_Some_b (bm ob)) (data_for_bmesh attr)) in
        if negb bad then
          if data_for_bmesh attr
          then Some (bad, set_bmesh_cd_offset attr (layer_offset cdata layer_index))
          else Some (bad, set_data attr (layer_data cdata layer_index))
        else Some (bad, attr)
      else Some (bad, attr)
  | None => Some (bad, attr)
  end.

Definition sculpt_attr_update (ob : Object CD) (j : nat) (pbvh_type : pbvh_Type)
  : option (bool * Object CD) :=
  attr ← temp_attributes ob !! j;
  '(bad, attr) ← sculpt_attr_check ob attr pbvh_type;
  let ob := slot_update ob j (fun _ => attr) in
  if bad : bool then
    let ob :=
      if simple_array attr
      then slot_update (MEM_SAFE_FREE ob (data attr)) j (fun a => set_data a None)
      else ob in
    '(_, ob) ← sculpt_attribute_create ob (domain attr) (proptype attr) (name attr)
                 j (params attr) pbvh_type (data_for_bmesh attr);
    Some (bad, ob)
  else Some (bad, ob).

(** One pass of the loop over the slots in [sculpt_attribute_update_refs]. *)
Definition update_refs_pass (pbvhtype : pbvh_Type) (ob : Object CD)
  : option (Object CD) :=
  for_range (length (temp_attributes ob))
    (fun j ob =>
       attr ← temp_attributes ob !! j;
       if used attr then snd <$> sculpt_attr_update ob j pbvhtype else Some ob)
    ob.

Definition sculpt_attribute_update_refs (ob : Object CD) (pbvhtype : pbvh_Type)
  : option (Object CD) :=
  (* Run twice, in case sculpt_attr_update had to recreate a layer and
     messed up BMesh offsets. *)
  for_range 2 (fun _ ob => update_refs_pass pbvhtype ob) ob.

Definition same_key (a b : SculptAttribute) : bool :=
  String.eqb (name a) (name b) && domain_eqb (domain a) (domain b)
  && (proptype a =? proptype b).

(** [BKE_sculpt_attribute_destroy]; the handle [h] is the slot the
    attribute pointer designates.  The source opens with
    [BLI_assert(attr->used)], which release builds compile out. *)
Definition BKE_sculpt_attribute_destroy (ob : Object CD) (h : nat)
  : option (bool * Object CD) :=
  attr ← temp_attributes ob !! h;
  (* Remove from convenience pointer struct. *)
  let ob :=
    set_attrs_table ob
      (map (fun p => if bool_decide (p = Some h) then None else p) (attrs ob)) in
  (* Remove from internal temp_attributes array. *)
  let ob :=
    set_slots ob
      (map (fun attr2 => if same_key attr2 attr then set_used attr2 false else attr2)
           (temp_attributes ob)) in
  let finish (ob : Object CD) :=
    Some (true, slot_update ob h (fun a => set_used (set_data a None) false)) in
  if simple_array attr then
    finish (slot_update (MEM_SAFE_FREE ob (data attr)) h (fun a => set_data a None))
  else
    match bm ob with
    | Some _ =>
        let r := match domain attr with Point => BM_vdata | _ => BM_pdata end in
        cdata ← cdata_get ob r;
        finish (cdata_set ob r (BM_data_layer_free_named cdata (name attr)))
    | None =>
        match (match domain attr with
               | Point => Some (Me_vert_data, totvert ob)
               | Face => Some (Me_face_data, totfaces ob)
               | OtherDomain => None
               end) with
        | None => Some (false, ob)
        | Some (r, totelem) =>
            cdata ← cdata_get ob r;
            (* We may have been called after destroying ss->bm in which case
               attr->layer might be invalid. *)
            let layer_i :=
              CustomData_get_named_layer_index cdata (proptype attr) (name attr) in
            let ob :=
              if negb (layer_i =? 0)
              then cdata_set ob r
                     (CustomData_free_layer cdata (proptype attr) totelem layer_i)
              else ob in
            ob ←
              match pbvh ob with
              | Some t => sculpt_attribute_update_refs ob t
              | None => Some ob
              end;
            finish ob
        end
    end.

Definition attr_zero : SculptAttribute :=
  {| domain := Point; proptype := 0; name := ""; 
     params := {| p_simple_array := false; p_permanent := false;
                  p_stroke_only := false |};
     data := None; elem_size := 0; elem_num := 0; data_for_bmesh := false;
     simple_array := false; bmesh_cd_offset := 0; layer := None; used := false |}.

(** The first slot from index [i] on that satisfies [p]. *)
Fixpoint find_slot (p : SculptAttribute -> bool) (l : list SculptAttribute)
    (i : nat) : option nat :=
  match l with
  | [] => None
  | attr :: l => if p attr then Some i else find_slot p l (S i)
  end.

Definition has_key (d : AttrDomain) (ty : eCustomDataType) (nm : string)
    (attr : SculptAttribute) : bool :=
  String.eqb (name attr) nm && (proptype attr =? ty) && domain_eqb (domain attr) d.

Definition sculpt_get_cached_layer (ob : Object CD) (d : AttrDomain)
    (ty : eCustomDataType) (nm : string) : option nat :=
  find_slot (fun attr => used attr && has_key d ty nm attr) (temp_attributes ob) 0.

(** [None] is the [nullptr] of a full table. *)
Definition sculpt_alloc_attr (ob : Object CD) : option (nat * Object CD) :=
  i ← find_slot (fun attr => negb (used attr)) (temp_attributes ob) 0;
  Some (i, slot_update ob i (fun _ => set_used attr_zero true)).

(** The pbvh::Tree is NOT guaranteed to exist at the point of this method
    being called. *)
Definition sculpt_attribute_get_ex (ob : Object CD) (pbvhtype : pbvh_Type)
    (d : AttrDomain) (ty : eCustomDataType) (nm : string)
  : option (option nat * Object CD) :=
  (* See if attribute is cached in ss->temp_attributes. *)
  match sculpt_get_cached_layer ob d ty nm with
  | Some j =>
      '(bad, ob) ← sculpt_attr_update ob j pbvhtype;
      ob ← (if bad : bool then sculpt_attribute_update_refs ob pbvhtype else Some ob);
      Some (Some j, ob)
  | None =>
      (* Does attribute exist in CustomData layout? *)
      match sculpt_get_cdata ob d with
      | Some r =>
          cdata ← cdata_get ob r;
          let index := CustomData_get_named_layer_index cdata ty nm in
          if negb (index =? -1) then
            let totelem :=
              match d with
              | Point => BKE_sculptsession_vertex_count ob
              | Face => totfaces ob
              | OtherDomain => 0
              end in
            '(j, ob) ← sculpt_alloc_attr ob;
            Some (Some j,
                  slot_update ob j (fun _ =>
                    {| domain := d; proptype := ty; name := nm;
                       params := params attr_zero;
                       data := layer_data cdata index;
                       elem_size := CustomData_get_elem_size cdata index;
                       elem_num := totelem; data_for_bmesh := false;
                       simple_array := false;
                       bmesh_cd_offset := layer_offset cdata index;
                       layer := Some index; used := true |}))
          else Some (None, ob)
      | None => Some (None, ob)
      end
  end.

Definition sculpt_attribute_ensure_ex (ob : Object CD) (d : AttrDomain)
    (ty : eCustomDataType) (nm : string) (prm : SculptAttributeParams)
    (pbvhtype : pbvh_Type) (flat_array_for_bmesh : bool)
  : option (nat * Object CD) :=
  '(found, ob) ← sculpt_attribute_get_ex ob pbvhtype d ty nm;
  match found with
  | Some j =>
      '(_, ob) ← sculpt_attr_update ob j pbvhtype;
      (* Since "stroke_only" is not a CustomData flag we have to sync its
         parameter setting manually. *)
      Some (j, slot_update ob j (fun a => set_stroke_only a (p_stroke_only prm)))
  | None =>
      '(j, ob) ← sculpt_alloc_attr ob;
      (* Create attribute. *)
      '(_, ob) ← sculpt_attribute_create ob d ty nm j prm pbvhtype flat_array_for_bmesh;
      ob ← sculpt_attribute_update_refs ob pbvhtype;
      Some (j, ob)
  end.

Definition BKE_sculpt_attribute_ensure (ob : Object CD) (d : AttrDomain)
    (ty : eCustomDataType) (nm : string) (prm : SculptAttributeParams)
  : option (nat * Object CD) :=
  t ← pbvh ob;
  sculpt_attribute_ensure_ex ob d ty nm prm t true.

End Store.

End AttrStore.

(** * Example instances

    Concrete collaborators and meshes on which the definitions are
    evaluated. *)

(** Squared distance against the squared radius, without mirror passes. *)
Definition example_inside_radius (vertex br_co : float3) (radius : float)
    (symm : Z) : bool :=
  ltb (dot_v3v3 (sub_v3 vertex br_co) (sub_v3 vertex br_co)) (radius * radius)%Q.

Definition example_externals : Externals := {|
  M_PI := (355 # 113)%Q;
  safe_acosf := fun c => ((1 - c) * (355 # 226))%Q;
  len_v3v3 := fun a b =>
    (Qabs (x a - x b) + Qabs (y a - y b) + Qabs (z a - z b))%Q;
  normalize_v3 := fun v => v;
  float_as_uint := fun f => (Qnum f * 65536 + Z.pos (Qden f)) mod 2 ^ 32;
  BLI_hash_int := fun k => (k * 31 + 7) mod 2 ^ 32;
  BLI_hash_int_2d := fun kx ky => (kx * 31 + ky + 7) mod 2 ^ 32;
  BKE_curvemapping_evaluateF := fun _ _ f => f;
  SCULPT_is_vertex_inside_brush_radius_symm := example_inside_radius
|}.

(** A strip of [n] vertices on the x axis, unit apart, each adjacent to its
    predecessor and successor; vertex 0 is the only boundary vertex and the
    active vertex. *)
Definition example_strip (n : nat) : Geometry := {|
  SCULPT_vertex_count_get := n;
  SCULPT_vertex_co_get := fun v => F3 (inject_Z (Z.of_nat v)) 0%Q 0%Q;
  SCULPT_vertex_normal_get := fun _ => F3 0%Q 0%Q 1%Q;
  vertex_neighbors := fun v =>
    (if bool_decide (0 < v)%nat then [pred v] else [])
    ++ (if bool_decide (S v < n)%nat then [S v] else []);
  SCULPT_vertex_is_occluded := fun _ => false;
  vert_has_face_set := fun _ _ => true;
  vert_is_boundary := fun v => bool_decide (v = 0%nat);
  vert_has_unique_face_set := fun _ => true;
  vert_face_set_get := fun _ => 1;
  islands_vert_id_get := fun _ => 0;
  active_face_set_get := 1;
  active_vert_index := 0;
  mesh_symmetry_xyz := 0;
  stroke_is_dyntopo := fun _ => false;
  flood_initial_with_symmetry := fun v _ => [v];
  flood_skip_initial := true
|}.

Definition example_brush (ty : eBrushSculptType) (fl : Z) (steps : Z) : Brush := {|
  automasking_flags := fl;
  falloff_shape := PAINT_FALLOFF_SHAPE_SPHERE;
  sculpt_brush_type := ty;
  automasking_boundary_edges_propagation_steps := steps;
  automasking_view_normal_limit := (1 # 2)%Q;
  automasking_view_normal_falloff := (1 # 4)%Q;
  automasking_start_normal_limit := (1 # 2)%Q;
  automasking_start_normal_falloff := (1 # 4)%Q;
  automasking_cavity_curve := None;
  automasking_cavity_factor := 1%Q;
  automasking_cavity_blur_steps := 0
|}.

Definition example_sculpt (fl : Z) (steps : Z) (brush : option Brush) : Sculpt := {|
  sd_automasking_flags := fl;
  sd_automasking_boundary_edges_propagation_steps := steps;
  sd_automasking_view_normal_limit := (1 # 2)%Q;
  sd_automasking_view_normal_falloff := (1 # 4)%Q;
  sd_automasking_start_normal_limit := (1 # 2)%Q;
  sd_automasking_start_normal_falloff := (1 # 4)%Q;
  sd_automasking_cavity_curve := None;
  sd_automasking_cavity_factor := 1%Q;
  sd_automasking_cavity_blur_steps := 0;
  paint_brush := brush
|}.

Definition example_stroke_cache (brush : option Brush) (radius : float) : StrokeCache := {|
  sc_brush := brush;
  sc_radius := radius;
  initial_normal_symm := F3 0%Q 0%Q 1%Q;
  view_normal_symm := F3 0%Q 0%Q 1%Q;
  paint_face_set := 1
|}.

Definition example_attrs_empty : SculptAttrs := {|
  automasking_factor := None;
  automasking_stroke_id := None;
  automasking_occlusion := None;
  automasking_cavity := None
|}.

Definition example_session (g : Geometry) (c : option StrokeCache)
    (a : SculptAttrs) : SculptSession := {|
  cache := c;
  filter_cache := None;
  attrs := a;
  stroke_id := 3;
  last_automask_stroke_id := 2;
  last_automasking_settings_hash := 0;
  geom := g
|}.


(** * Specification-level definitions *)

Section HashWords.
Context `{AutomaskFlags} `{Externals}.

(** The words [settings_hash] feeds to [BLI_hash_int_2d], in order, after
    the flags that seed it. *)
Definition curve_hash_words (curve : list CurveMapPoint) : list Z :=
  flat_map
    (fun pt => [float_as_uint (cmp_x pt); float_as_uint (cmp_y pt);
                to_uint (cmp_flag pt); to_uint (cmp_shorty pt)])
    curve.

Definition settings_hash_words (g : Geometry) (automasking : Cache) : list Z :=
  let st := settings automasking in
  [Z.of_nat (SCULPT_vertex_count_get g)]
  ++ (if has_flag (flags st) BRUSH_AUTOMASKING_CAVITY_ALL then
        [cavity_blur_steps st; float_as_uint (cavity_factor st)]
        ++ match cavity_curve st with
           | Some cm => curve_hash_words (cm_curve cm)
           | None => []
           end
      else [])
  ++ (if has_flag (flags st) BRUSH_AUTOMASKING_FACE_SETS
      then [initial_face_set st] else [])
  ++ (if has_flag (flags st) BRUSH_AUTOMASKING_VIEW_NORMAL
      then [float_as_uint (view_normal_falloff st);
            float_as_uint (view_normal_limit st)]
      else [])
  ++ (if has_flag (flags st) BRUSH_AUTOMASKING_BRUSH_NORMAL
      then [float_as_uint (start_normal_falloff st);
            float_as_uint (start_normal_limit st)]
      else []).

Definition set_sd_steps (sd : Sculpt) (steps : Z) : Sculpt :=
  {| sd_automasking_flags := sd_automasking_flags sd;
     sd_automasking_boundary_edges_propagation_steps := steps;
     sd_automasking_view_normal_limit := sd_automasking_view_normal_limit sd;
     sd_automasking_view_normal_falloff := sd_automasking_view_normal_falloff sd;
     sd_automasking_start_normal_limit := sd_automasking_start_normal_limit sd;
     sd_automasking_start_normal_falloff := sd_automasking_start_normal_falloff sd;
     sd_automasking_cavity_curve := sd_automasking_cavity_curve sd;
     sd_automasking_cavity_factor := sd_automasking_cavity_factor sd;
     sd_automasking_cavity_blur_steps := sd_automasking_cavity_blur_steps sd;
     paint_brush := paint_brush sd |}.

Definition set_brush_steps (b : Brush) (steps : Z) : Brush :=
  {| automasking_flags := automasking_flags b;
     falloff_shape := falloff_shape b;
     sculpt_brush_type := sculpt_brush_type b;
     automasking_boundary_edges_propagation_steps := steps;
     automasking_view_normal_limit := automasking_view_normal_limit b;
     automasking_view_normal_falloff := automasking_view_normal_falloff b;
     automasking_start_normal_limit := automasking_start_normal_limit b;
     automasking_start_normal_falloff := automasking_start_normal_falloff b;
     automasking_cavity_curve := automasking_cavity_curve b;
     automasking_cavity_factor := automasking_cavity_factor b;
     automasking_cavity_blur_steps := automasking_cavity_blur_steps b |}.

End HashWords.

Section ReuseConditions.
Context `{AutomaskFlags} `{Externals}.

(** The conditions under which [cache_init] marks the cache reusable:
    stroke ids are in use, a brush of an allow-listed type is given, no
    joint occlusion and view-normal mode is requested, and the hash of the
    resolved settings is the session's last hash. *)
Definition reuse_conditions (brush : option Brush) (mode : Z)
    (automasking : Cache) (ss : SculptSession) : bool :=
  use_stroke_id mode
  && match brush with
     | Some b =>
         brush_type_can_reuse_automask (sculpt_brush_type b)
         && negb (have_occlusion mode)
         && (settings_hash (geom ss) automasking =? last_automasking_settings_hash ss)
     | None => false
     end.

(** What [cache_init] does to the factor attribute when no precompute is
    needed. *)
Definition factor_attribute_destroy (ss : SculptSession) : SculptSession :=
  match automasking_factor (attrs ss) with
  | Some _ => set_factor ss None
  | None => ss
  end.

End ReuseConditions.

(** Two sessions that differ at most in the automasking attribute buffers. *)
Definition same_frame (ss ss' : SculptSession) : Prop :=
  cache ss' = cache ss
  /\ filter_cache ss' = filter_cache ss
  /\ stroke_id ss' = stroke_id ss
  /\ last_automask_stroke_id ss' = last_automask_stroke_id ss
  /\ last_automasking_settings_hash ss' = last_automasking_settings_hash ss
  /\ geom ss' = geom ss.

(** ** Example strokes for the reuse rule *)

Definition example_session_with_hash (ss : SculptSession) (h : Z) : SculptSession := {|
  cache := cache ss;
  filter_cache := filter_cache ss;
  attrs := attrs ss;
  stroke_id := stroke_id ss;
  last_automask_stroke_id := last_automask_stroke_id ss;
  last_automasking_settings_hash := h;
  geom := geom ss
|}.

(** A paint brush with face-set automasking only (no cavity mode). *)
Definition example_face_set_brush : option Brush :=
  Some (example_brush SCULPT_BRUSH_TYPE_PAINT 2 1).

Definition example_face_set_sd : Sculpt := example_sculpt 0 1 example_face_set_brush.

(** A session whose last settings hash is the hash of the settings the
    face-set brush resolves to. *)
Definition example_face_set_session : SculptSession :=
  let ss := example_session (example_strip 4) None example_attrs_empty in
  example_session_with_hash ss
    (@settings_hash dna_flags example_externals (geom ss)
       (@cache_init_settings dna_flags example_face_set_sd example_face_set_brush ss)).

(** A paint brush with cavity and boundary-edge automasking and two
    propagation steps. *)
Definition example_cavity_brush : option Brush :=
  Some (example_brush SCULPT_BRUSH_TYPE_PAINT 20 2).

Definition example_cavity_sd : Sculpt := example_sculpt 0 1 example_cavity_brush.

(** A session left by a previous stroke: the factor buffer holds 7/10
    everywhere and the last settings hash is the hash of the settings the
    cavity brush resolves to. *)
Definition example_cavity_session : SculptSession :=
  let ss :=
    example_session (example_strip 4) None
      {| automasking_factor := Some (replicate 4 (7 # 10)%Q);
         automasking_stroke_id := None;
         automasking_occlusion := None;
         automasking_cavity := None |} in
  example_session_with_hash ss
    (@settings_hash dna_flags example_externals (geom ss)
       (@cache_init_settings dna_flags example_cavity_sd example_cavity_brush ss)).

(** ** Example strokes for the queries *)

(** A paint brush with face-set, boundary-edge, brush-normal and
    view-normal automasking. *)
Definition example_normal_brush : option Brush :=
  Some (example_brush SCULPT_BRUSH_TYPE_PAINT 774 1).

Definition example_normal_sd : Sculpt := example_sculpt 0 1 example_normal_brush.

Definition example_normal_session : SculptSession :=
  example_session (example_strip 4)
    (Some (example_stroke_cache example_normal_brush 1%Q)) example_attrs_empty.

Definition example_normal_cache : Cache :=
  @cache_init_settings dna_flags example_normal_sd example_normal_brush
    example_normal_session.

(** A paint brush with cavity, brush-normal and view-normal automasking. *)
Definition example_query_brush : option Brush :=
  Some (example_brush SCULPT_BRUSH_TYPE_PAINT 784 1).

Definition example_query_sd : Sculpt := example_sculpt 0 1 example_query_brush.

(** A strip of five vertices with the stroke id and cavity buffers an
    earlier stroke left: every stored stroke id is stale. *)
Definition example_query_session : SculptSession :=
  example_session (example_strip 5)
    (Some (example_stroke_cache example_query_brush 1%Q))
    {| automasking_factor := None;
       automasking_stroke_id := Some (replicate 5 2%Z);
       automasking_occlusion := None;
       automasking_cavity := Some (replicate 5 0%Q) |}.

Definition example_query_cache : Cache :=
  @cache_init_settings dna_flags example_query_sd example_query_brush
    example_query_session.

(** The same stroke on a mesh of one loose vertex. *)
Definition example_loose_query_session : SculptSession :=
  example_session (example_strip 1)
    (Some (example_stroke_cache example_query_brush 1%Q))
    {| automasking_factor := None;
       automasking_stroke_id := Some [2%Z];
       automasking_occlusion := None;
       automasking_cavity := Some [0%Q] |}.

(** The same modes with two propagation steps, which makes [cache_init]
    precompute the factors. *)
Definition example_precompute_brush : option Brush :=
  Some (example_brush SCULPT_BRUSH_TYPE_PAINT 774 2).

Definition example_precompute_sd : Sculpt := example_sculpt 0 1 example_precompute_brush.

Definition example_precompute_session : SculptSession :=
  example_session (example_strip 4)
    (Some (example_stroke_cache example_precompute_brush 1%Q)) example_attrs_empty.

(** A strip of six vertices with factor 1 everywhere. *)
Definition example_boundary_session : SculptSession :=
  example_session (example_strip 6) None
    {| automasking_factor := Some (replicate 6 1%Q);
       automasking_stroke_id := None;
       automasking_occlusion := None;
       automasking_cavity := None |}.

(** Two faces of two corners each over the strip of four vertices. *)
Definition example_faces : list nat := [0; 2; 4]%nat.
Definition example_corner_verts : list nat := [0; 1; 2; 3]%nat.

(** ** The boundary falloff *)

(** The scale of a vertex at distance [d] with [steps] propagation steps:
    [1 - (1 - d / steps)^2]. *)
Definition falloff_scale (d steps : Z) : float :=
  (1 - pow2f (1 - inject_Z d / inject_Z steps))%Q.

(** ** Graph distance to the boundary *)

(** Every neighbor of a vertex of the mesh is a vertex of the mesh. *)
Definition geometry_closed (g : Geometry) : Prop :=
  forall v n, (v < SCULPT_vertex_count_get g)%nat ->
              n ∈ vertex_neighbors g v -> (n < SCULPT_vertex_count_get g)%nat.

(** There is a path of [k] edges from [v] to a boundary element. *)
Fixpoint boundary_path (g : Geometry) (mode : BoundaryAutomaskMode) (k v : nat)
  : Prop :=
  match k with
  | O => is_boundary_element g mode v = true
  | S k => exists n, n ∈ vertex_neighbors g v /\ boundary_path g mode k n
  end.

(** [d] is the graph distance from [v] to the nearest boundary element. *)
Definition boundary_distance (g : Geometry) (mode : BoundaryAutomaskMode)
    (v d : nat) : Prop :=
  boundary_path g mode d v /\ forall k, (k < d)%nat -> ~ boundary_path g mode k v.

(** The edge distances after [t] propagation iterations, as a function of
    the vertex: the synchronous reading of the in-place loop. *)
Fixpoint edge_level (g : Geometry) (mode : BoundaryAutomaskMode) (t v : nat) : Z :=
  match t with
  | O => if is_boundary_element g mode v then 0 else EDGE_DISTANCE_INF
  | S t' =>
      let d := edge_level g mode t' v in
      if d =? EDGE_DISTANCE_INF then
        if existsb (fun ni => edge_level g mode t' ni =? Z.of_nat t')
             (vertex_neighbors g v)
        then Z.of_nat t' + 1
        else EDGE_DISTANCE_INF
      else d
  end.

(** The edge distances in the middle of propagation iteration [t]: the
    vertices below [i] have been relaxed, the others not yet. *)
Definition mixed_levels (g : Geometry) (mode : BoundaryAutomaskMode) (t i : nat)
  : list Z :=
  map (fun v => if (v <? i)%nat then edge_level g mode (S t) v
                else edge_level g mode t v)
      (seq 0 (SCULPT_vertex_count_get g)).

(** ** Well-formed sessions for the factor query *)

Definition in_unit (q : float) : Prop := (0 <= q <= 1)%Q.

Definition buffer_in_unit (attr : option (list float)) : Prop :=
  forall buf, attr = Some buf -> Forall in_unit buf.

Definition attr_sized {A : Type} (n : nat) (attr : option (list A)) : Prop :=
  forall buf, attr = Some buf -> length buf = n.

Section SessionOk.
Context `{AutomaskFlags} `{Externals}.

(** The state [cache_init] leaves for the queries of a stroke: adjacency
    stays inside the mesh, every attribute buffer has one element per
    vertex, the attributes the enabled modes read exist, and the factor and
    cavity buffers hold values of the unit interval. *)
Definition session_ok (ss : SculptSession) (automasking : Cache) : Prop :=
  let n := SCULPT_vertex_count_get (geom ss) in
  let a := attrs ss in
  let fl := flags (settings automasking) in
  geometry_closed (geom ss)
  /\ attr_sized n (automasking_factor a)
  /\ attr_sized n (automasking_stroke_id a)
  /\ attr_sized n (automasking_occlusion a)
  /\ attr_sized n (automasking_cavity a)
  /\ (has_flag fl BRUSH_AUTOMASKING_CAVITY_ALL = true ->
      is_Some (automasking_stroke_id a) /\ is_Some (automasking_cavity a))
  /\ ((Z.land fl occlusion_bits =? occlusion_bits) = true ->
      automasking_factor a = None -> is_Some (automasking_occlusion a))
  /\ buffer_in_unit (automasking_factor a)
  /\ buffer_in_unit (automasking_cavity a).

(** What [cache_init] needs of the session it starts from: adjacency stays
    inside the mesh, the stroke id, occlusion and cavity buffers that exist
    have one element per vertex, and the cavity buffer holds values of the
    unit interval. *)
Definition session_sized (ss : SculptSession) : Prop :=
  let n := SCULPT_vertex_count_get (geom ss) in
  let a := attrs ss in
  geometry_closed (geom ss)
  /\ attr_sized n (automasking_stroke_id a)
  /\ attr_sized n (automasking_occlusion a)
  /\ attr_sized n (automasking_cavity a)
  /\ buffer_in_unit (automasking_cavity a).

(** The session is well-formed and has a factor buffer: the state of the
    precompute pass between its steps. *)
Definition precompute_ok (ss : SculptSession) (automasking : Cache) : Prop :=
  session_ok ss automasking /\ is_Some (automasking_factor (attrs ss)).

(** Two sessions with the same stroke id, occlusion and cavity buffers. *)
Definition same_side_attrs (ss ss' : SculptSession) : Prop :=
  automasking_stroke_id (attrs ss') = automasking_stroke_id (attrs ss)
  /\ automasking_occlusion (attrs ss') = automasking_occlusion (attrs ss)
  /\ automasking_cavity (attrs ss') = automasking_cavity (attrs ss).

(** The part of [session_ok] that does not mention the factor buffer. *)
Definition side_ok (ss : SculptSession) (automasking : Cache) : Prop :=
  let n := SCULPT_vertex_count_get (geom ss) in
  let a := attrs ss in
  let fl := flags (settings automasking) in
  geometry_closed (geom ss)
  /\ attr_sized n (automasking_stroke_id a)
  /\ attr_sized n (automasking_occlusion a)
  /\ attr_sized n (automasking_cavity a)
  /\ (has_flag fl BRUSH_AUTOMASKING_CAVITY_ALL = true ->
      is_Some (automasking_stroke_id a) /\ is_Some (automasking_cavity a))
  /\ buffer_in_unit (automasking_cavity a).

(** The cavity estimate of every vertex is defined: when a cavity mode is
    on, the mean distance of the vertices the blur visits to the queried
    vertex, which divides the estimate, is not zero.  It is zero only when
    every visited vertex lies at the position of the queried one, as for a
    vertex without neighbors. *)
Definition cavity_regular (g : Geometry) (automasking : Cache) : Prop :=
  has_flag (flags (settings automasking)) BRUSH_AUTOMASKING_CAVITY_ALL = true ->
  forall v l,
    (v < SCULPT_vertex_count_get g)%nat ->
    calc_blurred_cavity_locals g (cavity_blur_steps (settings automasking)) v = Some l ->
    ~ (cl_len1_sum l == 0)%Q.

(** The cavity curve of the cache maps the unit interval into itself. *)
Definition curve_in_unit (automasking : Cache) : Prop :=
  forall q, in_unit q ->
    in_unit (BKE_curvemapping_evaluateF (cavity_curve (settings automasking)) 0 q).

End SessionOk.

(** ** The face query as a mean *)

Definition Qsum (l : list float) : float := foldr Qplus 0%Q l.

(** The arithmetic mean of a list of factors; the empty list has none. *)
Definition mean (l : list float) : option float :=
  divf (Qsum l) (inject_Z (Z.of_nat (length l))).

Section FaceMeans.
Context `{AutomaskFlags} `{Externals}.

(** The per-vertex factor queries of the corners of one face, in corner
    order, each without an original normal. *)
Fixpoint face_queries (ss : SculptSession) (automasking : Cache)
    (face_verts : list nat) : option (list float * SculptSession) :=
  match face_verts with
  | [] => Some ([], ss)
  | vert :: face_verts =>
      '(f, ss) ← factor_get ss automasking vert None;
      '(fs, ss) ← face_queries ss automasking face_verts;
      Some (f :: fs, ss)
  end.

(** The mean of the corner queries of each listed face, in order. *)
Fixpoint face_means (ss : SculptSession) (automasking : Cache)
    (faces corner_verts face_indices : list nat)
  : option (list float * SculptSession) :=
  match face_indices with
  | [] => Some ([], ss)
  | face :: face_indices =>
      face_verts ← face_corner_verts faces corner_verts face;
      '(rs, ss) ← face_queries ss automasking face_verts;
      m ← mean rs;
      '(ms, ss) ← face_means ss automasking faces corner_verts face_indices;
      Some (m :: ms, ss)
  end.

End FaceMeans.

(** ** The invariant of the topology flood fill *)

(** While the traversal runs from the seed set [seeds] over the buffer
    [b0]: the queue holds visited vertices and seeds, all of the mesh;
    every visited vertex that is no seed has factor 1, every unvisited
    vertex that is no seed has the factor it had, and every factor is 1
    or the one it was. *)
Definition topology_fill_invariant (ss0 : SculptSession) (seeds : gset nat)
    (b0 : list float) (queue : list nat) (visited : gset nat)
    (ss : SculptSession) : Prop :=
  let n := SCULPT_vertex_count_get (geom ss0) in
  same_frame ss0 ss
  /\ (forall q, q ∈ queue -> q ∈ visited \/ q ∈ seeds)
  /\ (forall v, v ∈ visited \/ v ∈ seeds -> (v < n)%nat)
  /\ exists b,
       automasking_factor (attrs ss) = Some b
       /\ length b = n
       /\ (forall v, v ∈ visited -> v ∉ seeds -> b !! v = Some 1%Q)
       /\ (forall v, v ∉ visited -> v ∉ seeds -> b !! v = b0 !! v)
       /\ (forall v, b !! v = Some 1%Q \/ b !! v = b0 !! v).

(** ** The seeds of the topology fill, and a mesh of one loose vertex *)

Definition topology_seeds (ss : SculptSession) : list nat :=
  flood_initial_with_symmetry (geom ss)
    (Z.to_nat (active_vert_index (geom ss))) (topology_radius ss).

(** Tool settings with topology automasking and the grab brush. *)
Definition example_topology_brush : option Brush :=
  Some (example_brush SCULPT_BRUSH_TYPE_GRAB 1 1).

Definition example_topology_sd : Sculpt := example_sculpt 1 1 example_topology_brush.

(** A strip of four vertices with the grab brush at its first vertex. *)
Definition example_topology_session : SculptSession :=
  example_session (example_strip 4)
    (Some (example_stroke_cache example_topology_brush 1%Q)) example_attrs_empty.

(** A mesh of one loose vertex, which is the active vertex. *)
Definition example_loose_session : SculptSession :=
  example_session (example_strip 1)
    (Some (example_stroke_cache example_topology_brush 1%Q)) example_attrs_empty.

(** * The attribute store: specification-level definitions *)

Module AttrSpec.
Import AttrStore.

(** What the attribute store relies on from [CustomData]: a layer that was
    added is found by name; adding a layer or flagging one keeps every
    other named layer findable and keeps the data pointer of the layer a
    name designates; flagging a layer changes no index, pointer or
    offset. *)
Class CustomDataLaws (CD : Type) `{CustomDataOps CD} : Prop := {
  add_layer_found :
    forall (cd : CD) ty tot nm,
      CustomData_get_named_layer_index (CustomData_add_layer_named cd ty tot nm) ty nm
      <> -1;
  bm_add_layer_found :
    forall (cd : CD) ty nm,
      CustomData_get_named_layer_index (BM_data_layer_add_named cd ty nm) ty nm <> -1;
  add_layer_keeps :
    forall (cd : CD) ty tot nm ty' nm',
      CustomData_get_named_layer_index cd ty' nm' <> -1 ->
      let cd' := CustomData_add_layer_named cd ty tot nm in
      CustomData_get_named_layer_index cd' ty' nm' <> -1
      /\ layer_data cd' (CustomData_get_named_layer_index cd' ty' nm')
         = layer_data cd (CustomData_get_named_layer_index cd ty' nm');
  bm_add_layer_keeps :
    forall (cd : CD) ty nm ty' nm',
      CustomData_get_named_layer_index cd ty' nm' <> -1 ->
      let cd' := BM_data_layer_add_named cd ty nm in
      CustomData_get_named_layer_index cd' ty' nm' <> -1
      /\ layer_data cd' (CustomData_get_named_layer_index cd' ty' nm')
         = layer_data cd (CustomData_get_named_layer_index cd ty' nm');
  flag_keeps_index :
    forall (cd : CD) i ty nm,
      CustomData_get_named_layer_index (layer_flag_temporary cd i) ty nm
      = CustomData_get_named_layer_index cd ty nm;
  flag_keeps_data :
    forall (cd : CD) i k, layer_data (layer_flag_temporary cd i) k = layer_data cd k;
  flag_keeps_offset :
    forall (cd : CD) i k, layer_offset (layer_flag_temporary cd i) k = layer_offset cd k
}.

Section Spec.
Context {CD : Type} `{CustomDataOps CD}.

(** Two objects with the same mesh sizes, backend and accessor table. *)
Definition same_mesh (ob ob' : Object CD) : Prop :=
  is_Some_b (bm ob') = is_Some_b (bm ob)
  /\ bm_totvert <$> bm ob' = bm_totvert <$> bm ob
  /\ subdiv_ccg ob' = subdiv_ccg ob
  /\ totvert ob' = totvert ob
  /\ totfaces ob' = totfaces ob
  /\ pbvh ob' = pbvh ob
  /\ attrs ob' = attrs ob
  /\ length (temp_attributes ob') = length (temp_attributes ob).

(** [cd'] has every named layer of [cd], with the same data pointer. *)
Definition cd_extends (cd cd' : CD) : Prop :=
  forall ty nm,
    CustomData_get_named_layer_index cd ty nm <> -1 ->
    CustomData_get_named_layer_index cd' ty nm <> -1
    /\ layer_data cd' (CustomData_get_named_layer_index cd' ty nm)
       = layer_data cd (CustomData_get_named_layer_index cd ty nm).

Definition ob_extends (ob ob' : Object CD) : Prop :=
  same_mesh ob ob'
  /\ forall r cd, cdata_get ob r = Some cd ->
                  exists cd', cdata_get ob' r = Some cd' /\ cd_extends cd cd'.

(** The attribute passes the check of [sculpt_attr_update]. *)
Definition not_bad (ob : Object CD) (t : pbvh_Type) (attr : SculptAttribute) : Prop :=
  exists attr', sculpt_attr_check ob attr t = Some (false, attr').

(** The attribute passes the check and its layer reference is current. *)
Definition settled (ob : Object CD) (t : pbvh_Type) (attr : SculptAttribute) : Prop :=
  sculpt_attr_check ob attr t = Some (false, attr).

(** A layer-backed attribute has its layer, and its data pointer is the
    one of the layer. *)
Definition linked (ob : Object CD) (attr : SculptAttribute) : Prop :=
  simple_array attr = false ->
  forall r cd,
    sculpt_get_cdata ob (domain attr) = Some r -> cdata_get ob r = Some cd ->
    CustomData_get_named_layer_index cd (proptype attr) (name attr) <> -1
    /\ data attr
       = layer_data cd (CustomData_get_named_layer_index cd (proptype attr) (name attr)).

(** A property of every live attribute of the object. *)
Definition all_used (P : SculptAttribute -> Prop) (ob : Object CD) : Prop :=
  forall j attr, temp_attributes ob !! j = Some attr -> used attr = true -> P attr.

(** The object [BKE_sculpt_attribute_destroy] leaves when the handle [h]
    designates the simple array [attr]: the accessor pointers to [h] are
    null, every attribute with the key of [attr] is unused, the array of
    [attr] is freed and its pointer null. *)
Definition destroy_simple (ob : Object CD) (h : nat) (attr : SculptAttribute)
  : Object CD :=
  {| temp_attributes :=
       alter (fun a => set_used (set_data a None) false) h
         (map (fun attr2 => if same_key attr2 attr then set_used attr2 false else attr2)
              (temp_attributes ob));
     attrs := map (fun p => if bool_decide (p = Some h) then None else p) (attrs ob);
     bm := bm ob; subdiv_ccg := subdiv_ccg ob; totvert := totvert ob;
     totfaces := totfaces ob; pbvh := pbvh ob; vert_data := vert_data ob;
     face_data := face_data ob;
     heap := match data attr with
             | Some p => delete p (heap ob)
             | None => heap ob
             end |}.

(** In [ob'] no accessor pointer designates [h] and every slot that held
    an attribute with the key of [attr] in [ob] is unused. *)
Definition unregistered (ob : Object CD) (h : nat) (attr : SculptAttribute)
    (ob' : Object CD) : Prop :=
  Forall (fun p => p <> Some h) (attrs ob')
  /\ forall k a,
       temp_attributes ob !! k = Some a -> same_key a attr = true ->
       exists a', temp_attributes ob' !! k = Some a' /\ used a' = false.

End Spec.

End AttrSpec.

(** * An array-of-layers [CustomData] for the examples *)

Module LayerArray.
Import AttrStore.

(** A [CustomDataLayer], as far as the attribute store looks at it. *)
Record CustomDataLayer := {
  lay_type : eCustomDataType;
  lay_name : string;
  lay_data : ptr;
  lay_offset : Z;
  lay_temporary : bool
}.

Definition layer_matches (ty : eCustomDataType) (nm : string) (l : CustomDataLayer)
  : bool :=
  (lay_type l =? ty) && String.eqb (lay_name l) nm.

(** Index of the first layer of the given type and name, counting from
    [i]; -1 when there is none. *)
Fixpoint named_layer_index (cd : list CustomDataLayer) (ty : eCustomDataType)
    (nm : string) (i : Z) : Z :=
  match cd with
  | [] => -1
  | l :: cd => if layer_matches ty nm l then i else named_layer_index cd ty nm (i + 1)
  end.

Definition layer_at (cd : list CustomDataLayer) (i : Z) : option CustomDataLayer :=
  if i <? 0 then None else cd !! Z.to_nat i.

Definition set_temporary (l : CustomDataLayer) : CustomDataLayer :=
  {| lay_type := lay_type l; lay_name := lay_name l; lay_data := lay_data l;
     lay_offset := lay_offset l; lay_temporary := true |}.

Definition remove_layer (cd : list CustomDataLayer) (i : Z) : list CustomDataLayer :=
  if i <? 0 then cd else delete (Z.to_nat i) cd.

Fixpoint remove_named (cd : list CustomDataLayer) (nm : string)
  : list CustomDataLayer :=
  match cd with
  | [] => []
  | l :: cd => if String.eqb (lay_name l) nm then cd else l :: remove_named cd nm
  end.

(** Every element takes four bytes; the data pointer of a new mesh layer
    is numbered after its position, a BMesh layer has no array and its
    offset is its position in the element block. *)
#[export] Instance layer_array_ops : CustomDataOps (list CustomDataLayer) := {
  CustomData_sizeof _ := 4;
  CustomData_get_named_layer_index cd ty nm := named_layer_index cd ty nm 0;
  layer_data cd i := l ← layer_at cd i; lay_data l;
  layer_offset cd i := default (-1) (lay_offset <$> layer_at cd i);
  CustomData_get_elem_size _ _ := 4;
  layer_flag_temporary cd i :=
    if i <? 0 then cd else alter set_temporary (Z.to_nat i) cd;
  CustomData_add_layer_named cd ty _ nm :=
    cd ++ [{| lay_type := ty; lay_name := nm; lay_data := Some (length cd);
              lay_offset := 4 * Z.of_nat (length cd); lay_temporary := false |}];
  BM_data_layer_add_named cd ty nm :=
    cd ++ [{| lay_type := ty; lay_name := nm; lay_data := None;
              lay_offset := 4 * Z.of_nat (length cd); lay_temporary := false |}];
  CustomData_free_layer cd _ _ i := remove_layer cd i;
  BM_data_layer_free_named cd nm := remove_named cd nm
}.

Definition Object' : Type := Object (list CustomDataLayer).

Definition example_params (simple : bool) : SculptAttributeParams :=
  {| p_simple_array := simple; p_permanent := false; p_stroke_only := false |}.

(** An object with [slots] free slots, an accessor table of four null
    pointers, a mesh of three vertices and one face, and no layers. *)
Definition example_object (slots : nat) (t : pbvh_Type) : Object' :=
  {| temp_attributes := replicate slots attr_zero;
     attrs := replicate 4 None;
     bm := None; subdiv_ccg := None; totvert := 3; totfaces := 1;
     pbvh := Some t; vert_data := []; face_data := []; heap := ∅ |}.

Definition example_factor_attr : SculptAttribute :=
  {| domain := Point; proptype := 10; name := "factor";
     params := example_params true; data := Some 7%nat; elem_size := 4;
     elem_num := 2; data_for_bmesh := false; simple_array := true;
     bmesh_cd_offset := -1; layer := None; used := true |}.

(** A live simple array of the wrong length and a live layer attribute
    whose layer is missing. *)
Definition example_stale_object : Object' :=
  {| temp_attributes :=
       [ example_factor_attr;
         {| domain := Face; proptype := 10; name := "cavity";
            params := example_params false; data := None; elem_size := 4;
            elem_num := 1; data_for_bmesh := false; simple_array := false;
            bmesh_cd_offset := -1; layer := Some 0; used := true |};
         attr_zero ];
     attrs := [Some 0%nat; Some 1%nat];
     bm := None; subdiv_ccg := None; totvert := 3; totfaces := 1;
     pbvh := Some Mesh; vert_data := []; face_data := [];
     heap := {[ 7%nat := [0; 0; 0; 0; 0; 0; 0; 0] ]} |}.

(** The accessor table with its first entry pointing at slot [h]. *)
Definition register (ob : Object') (h : nat) : Object' :=
  set_attrs_table ob (<[0%nat := Some h]> (attrs ob)).

(** Two attributes are created and destroyed, the second is created
    again and lands in the slot of the first; [stale_handle_run] is the
    object at that point together with the old handle of the second. *)
Definition stale_handle_run : option (nat * nat * Object') :=
  '(ha, ob) ← BKE_sculpt_attribute_ensure (example_object 3 Mesh) Point 10 "a"
                (example_params true);
  '(hb, ob) ← BKE_sculpt_attribute_ensure ob Point 10 "b" (example_params true);
  '(_, ob) ← BKE_sculpt_attribute_destroy ob ha;
  '(_, ob) ← BKE_sculpt_attribute_destroy ob hb;
  '(hb', ob) ← BKE_sculpt_attribute_ensure ob Point 10 "b" (example_params true);
  Some (hb, hb', register ob hb').

(** Two face attributes backed by layers: the first has layer 0 of the
    face data, the second layer 1. *)
Definition two_layers_run : option (nat * nat * Object') :=
  '(ha, ob) ← BKE_sculpt_attribute_ensure (example_object 3 Mesh) Face 10 "a"
                (example_params false);
  '(hb, ob) ← BKE_sculpt_attribute_ensure ob Face 10 "b" (example_params false);
  Some (ha, hb, ob).

Definition example_layer_attr (nm : string) (i : nat) : SculptAttribute :=
  {| domain := Face; proptype := 10; name := nm;
     params := example_params false; data := Some i; elem_size := 4;
     elem_num := 1; data_for_bmesh := false; simple_array := false;
     bmesh_cd_offset := -1; layer := Some (Z.of_nat i); used := true |}.

Definition example_layer (nm : string) (i : nat) : CustomDataLayer :=
  {| lay_type := 10; lay_name := nm; lay_data := Some i;
     lay_offset := 4 * Z.of_nat i; lay_temporary := true |}.

(** The object [two_layers_run] ends with. *)
Definition example_two_layers : Object' :=
  {| temp_attributes := [example_layer_attr "a" 0; example_layer_attr "b" 1; attr_zero];
     attrs := replicate 4 None;
     bm := None; subdiv_ccg := None; totvert := 3; totfaces := 1;
     pbvh := Some Mesh; vert_data := [];
     face_data := [example_layer "a" 0; example_layer "b" 1]; heap := ∅ |}.

(** The live flags of the slots. *)
Definition live (ob : Object') : list bool := used <$> temp_attributes ob.

End LayerArray.

(** * Frames of the queries *)

(** The parts of the session a query does not write, and the attributes
    one step of a query leaves alone. *)
Definition keeps_factor (ss ss' : SculptSession) : Prop :=
  same_frame ss ss'
  /\ automasking_factor (attrs ss') = automasking_factor (attrs ss).

(** * The remaining entry points of the automasking code *)

Section VertFactors.
Context `{AutomaskFlags} `{Externals}.

Local Open Scope Q_scope.

(** [needs_normal]; the session argument is not read. *)
Definition needs_normal (sd : Sculpt) (brush : option Brush) : bool :=
  let flags := calc_effective_bits sd brush in
  has_flag flags (Z.lor BRUSH_AUTOMASKING_BRUSH_NORMAL BRUSH_AUTOMASKING_VIEW_NORMAL).

(** The modes [is_enabled] tests, as one mask. *)
Definition enabling_bits : Z :=
  Z.lor BRUSH_AUTOMASKING_TOPOLOGY
    (Z.lor BRUSH_AUTOMASKING_FACE_SETS
       (Z.lor BRUSH_AUTOMASKING_BOUNDARY_EDGES
          (Z.lor BRUSH_AUTOMASKING_BOUNDARY_FACE_SETS
             (Z.lor BRUSH_AUTOMASKING_BRUSH_NORMAL
                (Z.lor BRUSH_AUTOMASKING_VIEW_NORMAL BRUSH_AUTOMASKING_CAVITY_ALL))))).

(** [cache_init(depsgraph, sd, ob)]: the overload without a brush. *)
Definition cache_init_no_brush (sd : Sculpt) (ss : SculptSession)
  : option (option Cache * SculptSession) :=
  cache_init sd None ss.

(** The span [orig_normals] of [calc_vert_factors] and [calc_grids_factors]:
    [orig_data] is what the lookup of the original position data returns
    for the node, reduced to its normals; the span stays empty when no
    normal mode is on or the node has no original data. *)
Definition orig_normals_get (cache : Cache) (orig_data : option (list float3))
  : list float3 :=
  if has_flag (flags (settings cache))
       (Z.lor BRUSH_AUTOMASKING_BRUSH_NORMAL BRUSH_AUTOMASKING_VIEW_NORMAL)
  then match orig_data with
       | Some normals => normals
       | None => []
       end
  else [].

(** [orig_normals.is_empty() ? std::nullopt : std::make_optional(orig_normals[i])];
    the outer [None] is the read past the end of the span. *)
Definition orig_normal_at (orig_normals : list float3) (i : nat)
  : option (option float3) :=
  match orig_normals with
  | [] => Some None
  | _ => n ← orig_normals !! i; Some (Some n)
  end.

(** The body of the loops of the vertex and grid queries:
    [factors[k] *= factor_get(..., vert, orig_normals[k])]. *)
Definition factor_scale (cache : Cache) (orig_normals : list float3)
    (k vert : nat) (st : list float * SculptSession)
  : option (list float * SculptSession) :=
  let '(factors, ss) := st in
  orig_normal ← orig_normal_at orig_normals k;
  '(f, ss) ← factor_get ss cache vert orig_normal;
  old ← factors !! k;
  Some (<[k := old * f]> factors, ss).

(** One iteration of the loop of [calc_vert_factors]. *)
Definition calc_vert_factors_step (cache : Cache) (orig_normals : list float3)
    (verts : list nat) (i : nat) (st : list float * SculptSession)
  : option (list float * SculptSession) :=
  vert ← verts !! i;
  factor_scale cache orig_normals i vert st.

(** [calc_vert_factors] for a mesh node. *)
Definition calc_vert_factors (ss : SculptSession) (cache : Cache)
    (orig_data : option (list float3)) (verts : list nat) (factors : list float)
  : option (list float * SculptSession) :=
  let orig_normals := orig_normals_get cache orig_data in
  for_range (length verts) (calc_vert_factors_step cache orig_normals verts)
    (factors, ss).

(** One iteration of the outer loop of [calc_grids_factors]. *)
Definition calc_grids_factors_step (cache : Cache) (orig_normals : list float3)
    (grid_area : nat) (grids : list nat) (i : nat) (st : list float * SculptSession)
  : option (list float * SculptSession) :=
  let node_start := (i * grid_area)%nat in
  grid ← grids !! i;
  let grids_start := (grid * grid_area)%nat in
  for_range grid_area
    (fun offset st =>
       factor_scale cache orig_normals (node_start + offset)%nat
         (grids_start + offset)%nat st)
    st.

(** [calc_grids_factors]; [grid_area] is [key.grid_area] of the top level
    key of [*ss.subdiv_ccg], [None] when the session has no [subdiv_ccg]. *)
Definition calc_grids_factors (ss : SculptSession) (cache : Cache)
    (grid_area : option nat) (orig_data : option (list float3))
    (grids : list nat) (factors : list float)
  : option (list float * SculptSession) :=
  grid_area ← grid_area;
  let orig_normals := orig_normals_get cache orig_data in
  for_range (length grids) (calc_grids_factors_step cache orig_normals grid_area grids)
    (factors, ss).

(** The vertices of the listed grids, in the order the grid loop visits
    them. *)
Definition grid_verts (grid_area : nat) (grids : list nat) : list nat :=
  flat_map (fun grid => seq (grid * grid_area) grid_area) grids.

(** What the loop of the vertex query keeps: the factors before position
    [k] are scaled by a value of the unit interval, the others are
    untouched. *)
Definition scaled_upto (factors : list float) (k : nat) (out : list float) : Prop :=
  length out = length factors
  /\ (forall i old, (i < k)%nat -> factors !! i = Some old ->
        exists f, in_unit f /\ out !! i = Some (old * f))
  /\ (forall i, (k <= i)%nat -> out !! i = factors !! i).

(** The state of the loop of [normal_occlusion_automasking_fill]. *)
Definition fill_state (ss : SculptSession) (t : SculptSession) : Prop :=
  let n := SCULPT_vertex_count_get (geom ss) in
  same_frame ss t
  /\ attr_sized n (automasking_stroke_id (attrs t))
  /\ exists ob, automasking_occlusion (attrs t) = Some ob /\ length ob = n.

End VertFactors.

(** ** Example strokes for the node queries and the occlusion pass *)

(** The strip of [example_strip] with its odd vertices occluded and with
    vertex 3 outside every face set. *)
Definition example_occluded_strip (n : nat) : Geometry := {|
  SCULPT_vertex_count_get := n;
  SCULPT_vertex_co_get := fun v => F3 (inject_Z (Z.of_nat v)) 0%Q 0%Q;
  SCULPT_vertex_normal_get := fun _ => F3 0%Q 0%Q 1%Q;
  vertex_neighbors := fun v =>
    (if bool_decide (0 < v)%nat then [pred v] else [])
    ++ (if bool_decide (S v < n)%nat then [S v] else []);
  SCULPT_vertex_is_occluded := Nat.odd;
  vert_has_face_set := fun v _ => negb (v =? 3)%nat;
  vert_is_boundary := fun v => bool_decide (v = 0%nat);
  vert_has_unique_face_set := fun _ => true;
  vert_face_set_get := fun _ => 1;
  islands_vert_id_get := fun _ => 0;
  active_face_set_get := 1;
  active_vert_index := 0;
  mesh_symmetry_xyz := 0;
  stroke_is_dyntopo := fun _ => false;
  flood_initial_with_symmetry := fun v _ => [v];
  flood_skip_initial := true
|}.

(** A paint brush with face-set, view-normal and view-occlusion
    automasking. *)
Definition example_occlusion_brush : option Brush :=
  Some (example_brush SCULPT_BRUSH_TYPE_PAINT 1538 2).

Definition example_occlusion_sd : Sculpt :=
  example_sculpt 0 1 example_occlusion_brush.

(** The session in the middle of the precompute pass: the factor buffer is
    initialized to 1, the stroke ids and occlusion stamps are those of an
    earlier stroke. *)
Definition example_fill_session : SculptSession :=
  example_session (example_occluded_strip 4)
    (Some (example_stroke_cache example_occlusion_brush 1%Q))
    {| automasking_factor := Some (replicate 4 1%Q);
       automasking_stroke_id := Some (replicate 4 2%Z);
       automasking_occlusion := Some (replicate 4 0%Z);
       automasking_cavity := None |}.

(** The same session without a factor buffer, as the live query finds it. *)
Definition example_live_session : SculptSession :=
  example_session (example_occluded_strip 4)
    (Some (example_stroke_cache example_occlusion_brush 1%Q))
    {| automasking_factor := None;
       automasking_stroke_id := Some (replicate 4 2%Z);
       automasking_occlusion := Some (replicate 4 0%Z);
       automasking_cavity := None |}.

Definition example_occlusion_cache : Cache :=
  @cache_init_settings dna_flags example_occlusion_sd example_occlusion_brush
    example_live_session.

(** * The remaining entry points of the attribute store *)

Module AttrApi.
Import AttrStore.

Section Api.
Context {CD : Type} `{CustomDataOps CD}.

(** [BKE_sculpt_attribute_get]; the source reads [ss->pbvh->type()] after
    an assertion that release builds compile out. *)
Definition BKE_sculpt_attribute_get (ob : Object CD) (d : AttrDomain)
    (ty : eCustomDataType) (nm : string) : option (option nat * Object CD) :=
  t ← pbvh ob;
  sculpt_attribute_get_ex ob t d ty nm.

(** The loop over the [SCULPT_MAX_ATTRIBUTES] slots of the two functions
    that destroy temporary attributes; [test] selects the slots. *)
Definition destroy_where (test : SculptAttribute -> bool) (ob : Object CD)
  : option (Object CD) :=
  for_range (length (temp_attributes ob))
    (fun i ob =>
       attr ← temp_attributes ob !! i;
       if test attr then snd <$> BKE_sculpt_attribute_destroy ob i else Some ob)
    ob.

Definition BKE_sculpt_attributes_destroy_temporary_stroke (ob : Object CD)
  : option (Object CD) :=
  destroy_where (fun attr => p_stroke_only (params attr)) ob.

Definition BKE_sculpt_attribute_destroy_temporary_all (ob : Object CD)
  : option (Object CD) :=
  destroy_where (fun attr => used attr && negb (p_permanent (params attr))) ob.

(** What the attribute functions may do to a slot they do not allocate:
    the stroke-only parameter stays, the permanent parameter is not
    turned on, and an unused slot is not brought to life. *)
Definition slot_le (a a' : SculptAttribute) : Prop :=
  p_stroke_only (params a') = p_stroke_only (params a)
  /\ (p_permanent (params a') = true -> p_permanent (params a) = true)
  /\ (used a' = true -> used a = true).

(** What updating the references may do to a slot: an unused slot stays
    unused; a live one keeps its stroke-only parameter and stays alive
    unless its domain is neither point nor face; while it is alive it
    keeps its key. *)
Definition slot_kept (a a' : SculptAttribute) : Prop :=
  (used a = false -> used a' = false)
  /\ (used a = true -> domain a <> OtherDomain ->
      used a' = true /\ p_stroke_only (params a') = p_stroke_only (params a))
  /\ (used a = true -> used a' = true ->
      name a' = name a /\ domain a' = domain a /\ proptype a' = proptype a).

Definition slots_kept (ob ob' : Object CD) : Prop :=
  length (temp_attributes ob') = length (temp_attributes ob)
  /\ pbvh ob' = pbvh ob
  /\ forall k a, temp_attributes ob !! k = Some a ->
        exists a', temp_attributes ob' !! k = Some a' /\ slot_kept a a'.

Definition slots_le (ob ob' : Object CD) : Prop :=
  length (temp_attributes ob') = length (temp_attributes ob)
  /\ forall k a, temp_attributes ob !! k = Some a ->
        exists a', temp_attributes ob' !! k = Some a' /\ slot_le a a'.

End Api.

End AttrApi.

Module AttrApiExamples.
Import AttrStore LayerArray.

(** A table of one slot, in use. *)
Definition example_full_object : Object' :=
  {| temp_attributes := [example_factor_attr];
     attrs := [Some 0%nat];
     bm := None; subdiv_ccg := None; totvert := 3; totfaces := 1;
     pbvh := Some Mesh; vert_data := []; face_data := [];
     heap := {[ 7%nat := [0; 0; 0; 0; 0; 0; 0; 0] ]} |}.

End AttrApiExamples.

(** * Binary32 rounding *)

Module Binary32.
Import Float.

Local Open Scope Q_scope.

(** The exponent [e] with [2 ^ e <= a < 2 ^ (e + 1)], for a positive [a]. *)
Definition floor_log2 (a : Q) : Z :=
  let e := (Z.log2 (Qnum a) - Z.log2 (Z.pos (Qden a)))%Z in
  if Qle_bool (2 ^ e) a then e else (e - 1)%Z.

(** The nearest integer, the even one of two that are equally near. *)
Definition round_half_even (m : Q) : Z :=
  let f := Qfloor m in
  let r := m - inject_Z f in
  if ltb r (1 # 2) then f
  else if ltb (1 # 2) r then (f + 1)%Z
  else if Z.even f then f else (f + 1)%Z.

(** The binary32 number nearest to [q], ties to even: the numbers with 24
    significant bits.  The range of the exponent is not modelled (no
    overflow, no subnormal numbers).  A float operation of the source is
    the exact operation followed by this rounding. *)
Definition b32 (q : Q) : Q :=
  if eqb q 0 then 0
  else
    let a := Qabs q in
    let s := (floor_log2 a - 23)%Z in
    let n := round_half_even (a / 2 ^ s) in
    Qred ((if ltb q 0 then -1 else 1) * inject_Z n * 2 ^ s).

End Binary32.

(** * Sorting a palette: the comparators handed to [qsort] *)

Module PaletteSort.
Import Float.

(** The fields of [tPaletteColorHSV] that the comparators read. *)
Record tPaletteColorHSV := {
  rgb : float3;
  h : float;
  s : float;
  v : float
}.

Section Comparators.
(** The rounding of the float arithmetic: [1.0f - v] is the float nearest
    to the difference. *)
Variable rnd : float -> float.

(** helper function to sort using qsort *)
Definition palettecolor_compare_hsv (ps1 ps2 : tPaletteColorHSV) : Z :=
  (* Hue *)
  if gtb (h ps1) (h ps2) then 1
  else if ltb (h ps1) (h ps2) then -1
  (* Saturation. *)
  else if gtb (s ps1) (s ps2) then 1
  else if ltb (s ps1) (s ps2) then -1
  (* Value. *)
  else if gtb (rnd (1 - v ps1)) (rnd (1 - v ps2)) then 1
  else if ltb (rnd (1 - v ps1)) (rnd (1 - v ps2)) then -1
  else 0.

(** helper function to sort using qsort *)
Definition palettecolor_compare_svh (ps1 ps2 : tPaletteColorHSV) : Z :=
  (* Saturation. *)
  if gtb (s ps1) (s ps2) then 1
  else if ltb (s ps1) (s ps2) then -1
  (* Value. *)
  else if gtb (rnd (1 - v ps1)) (rnd (1 - v ps2)) then 1
  else if ltb (rnd (1 - v ps1)) (rnd (1 - v ps2)) then -1
  (* Hue *)
  else if gtb (h ps1) (h ps2) then 1
  else if ltb (h ps1) (h ps2) then -1
  else 0.

Definition palettecolor_compare_vhs (ps1 ps2 : tPaletteColorHSV) : Z :=
  (* Value. *)
  if gtb (rnd (1 - v ps1)) (rnd (1 - v ps2)) then 1
  else if ltb (rnd (1 - v ps1)) (rnd (1 - v ps2)) then -1
  (* Hue *)
  else if gtb (h ps1) (h ps2) then 1
  else if ltb (h ps1) (h ps2) then -1
  (* Saturation. *)
  else if gtb (s ps1) (s ps2) then 1
  else if ltb (s ps1) (s ps2) then -1
  else 0.

(** [(rgb[0] + rgb[1] + rgb[2]) / 3.0f], each operation rounded. *)
Definition luminance (ps : tPaletteColorHSV) : float :=
  rnd (rnd (rnd (x (rgb ps) + y (rgb ps)) + z (rgb ps)) / 3).

Definition palettecolor_compare_luminance (ps1 ps2 : tPaletteColorHSV) : Z :=
  let lumi1 := luminance ps1 in
  let lumi2 := luminance ps2 in
  if gtb lumi1 lumi2 then -1
  else if ltb lumi1 lumi2 then 1
  else 0.

End Comparators.

(** The three-way comparison of two floats that each block of the
    comparators makes, and the comparison of two lists of sort keys, the
    first difference deciding. *)
Definition compare_key (a b : float) : Z :=
  if gtb a b then 1 else if ltb a b then -1 else 0.

Fixpoint compare_keys (k1 k2 : list float) : Z :=
  match k1, k2 with
  | a :: k1, b :: k2 =>
      if compare_key a b =? 0 then compare_keys k1 k2 else compare_key a b
  | _, _ => 0
  end.

Definition example_color (r g b hue sat val : float) : tPaletteColorHSV :=
  {| rgb := F3 r g b; h := hue; s := sat; v := val |}.

End PaletteSort.

(** * The rake rotation of a brush *)

Module Rake.
Import Float.

(** The fields of [MTex], [Brush] and [UnifiedPaintSettings] that the rake
    functions read and write; [tex] is a pointer, [None] the null one. *)
Record MTex := {
  tex : option nat;
  brush_angle_mode : Z
}.

Record Brush := {
  sculpt_brush_type : Z;
  mtex : MTex;
  mask_mtex : MTex
}.

Record UnifiedPaintSettings := {
  brush_rotation : float;
  brush_rotation_sec : float;
  last_rake : float * float;
  last_rake_angle : float
}.

(** What the source takes from elsewhere: two constants of the DNA
    headers, the arc tangent, and the test for a cube tip. *)
Class RakeExternals (PaintMode : Type) := {
  MTEX_ANGLE_RAKE : Z;
  SCULPT_BRUSH_TYPE_CLAY_STRIPS : Z;
  atan2f : float -> float -> float;
  BKE_brush_has_cube_tip : Brush -> PaintMode -> bool
}.

Definition min_ff (a b : float) : float := if ltb a b then a else b.

Definition sub_v2_v2v2 (a b : float * float) : float * float :=
  ((a.1 - b.1)%Q, (a.2 - b.2)%Q).

Definition len_squared_v2 (v : float * float) : float :=
  (v.1 * v.1 + v.2 * v.2)%Q.

Definition set_brush_rotation (ups : UnifiedPaintSettings) (r : float) :=
  {| brush_rotation := r; brush_rotation_sec := brush_rotation_sec ups;
     last_rake := last_rake ups; last_rake_angle := last_rake_angle ups |}.

Definition set_brush_rotation_sec (ups : UnifiedPaintSettings) (r : float) :=
  {| brush_rotation := brush_rotation ups; brush_rotation_sec := r;
     last_rake := last_rake ups; last_rake_angle := last_rake_angle ups |}.

Definition set_last_rake (ups : UnifiedPaintSettings) (p : float * float) :=
  {| brush_rotation := brush_rotation ups;
     brush_rotation_sec := brush_rotation_sec ups;
     last_rake := p; last_rake_angle := last_rake_angle ups |}.

Definition set_last_rake_angle (ups : UnifiedPaintSettings) (r : float) :=
  {| brush_rotation := brush_rotation ups;
     brush_rotation_sec := brush_rotation_sec ups;
     last_rake := last_rake ups; last_rake_angle := r |}.

Section Rake.
Context `{Externals} {PaintMode : Type} `{RakeExternals PaintMode}.

(** Threshold to move before updating the brush rotation, reduces jitter. *)
Definition paint_rake_rotation_spacing (brush : Brush) : float :=
  if sculpt_brush_type brush =? SCULPT_BRUSH_TYPE_CLAY_STRIPS then 1%Q else 20%Q.

Definition paint_update_brush_rake_rotation (ups : UnifiedPaintSettings)
    (brush : Brush) (rotation : float) : UnifiedPaintSettings :=
  let ups := set_brush_rotation ups rotation in
  if has_flag (brush_angle_mode (mask_mtex brush)) MTEX_ANGLE_RAKE then
    set_brush_rotation_sec ups rotation
  else
    set_brush_rotation_sec ups 0%Q.

(** The overload of [paint_rake_rotation_active] on an [MTex]. *)
Definition paint_rake_rotation_active_mtex (m : MTex) : bool :=
  bool_decide (is_Some (tex m)) && has_flag (brush_angle_mode m) MTEX_ANGLE_RAKE.

Definition paint_rake_rotation_active (brush : Brush) (paint_mode : PaintMode) : bool :=
  paint_rake_rotation_active_mtex (mtex brush)
  || paint_rake_rotation_active_mtex (mask_mtex brush)
  || BKE_brush_has_cube_tip brush paint_mode.

(** The limit [r] of [paint_calculate_rake_rotation]. *)
Definition rake_limit (brush : Brush) (stroke_has_started : bool) : float :=
  let r := paint_rake_rotation_spacing brush in
  (* Use a smaller limit if the stroke hasn't started to prevent excessive
     pre-roll. *)
  if negb stroke_has_started then min_ff r 4%Q else r.

Definition paint_calculate_rake_rotation (ups : UnifiedPaintSettings)
    (brush : Brush) (mouse_pos : float * float) (paint_mode : PaintMode)
    (stroke_has_started : bool) : bool * UnifiedPaintSettings :=
  if paint_rake_rotation_active brush paint_mode then
    let r := rake_limit brush stroke_has_started in
    let dpos := sub_v2_v2v2 mouse_pos (last_rake ups) in
    (* Limit how often we update the angle to prevent jitter. *)
    if negb (ltb (len_squared_v2 dpos) (r * r)%Q) then
      let rotation := (atan2f dpos.2 dpos.1 + (1 # 2) * M_PI)%Q in
      let ups := set_last_rake ups mouse_pos in
      let ups := set_last_rake_angle ups rotation in
      (true, paint_update_brush_rake_rotation ups brush rotation)
    else
      (* Make sure we reset here to the last rotation to avoid accumulating
         values in case a random rotation is also added. *)
      (false, paint_update_brush_rake_rotation ups brush (last_rake_angle ups))
  else
    (true, set_brush_rotation_sec (set_brush_rotation ups 0%Q) 0%Q).

End Rake.

Definition example_rake_externals : RakeExternals unit := {|
  MTEX_ANGLE_RAKE := 1;
  SCULPT_BRUSH_TYPE_CLAY_STRIPS := 18;
  atan2f := fun y x => (y - x)%Q;
  BKE_brush_has_cube_tip := fun _ _ => false
|}.

(** A brush whose texture follows the rake angle ([active]), or not. *)
Definition example_rake_brush (active : bool) : Brush := {|
  sculpt_brush_type := 18;
  mtex := {| tex := if active then Some 0%nat else None; brush_angle_mode := 1 |};
  mask_mtex := {| tex := None; brush_angle_mode := 0 |}
|}.

Definition example_ups : UnifiedPaintSettings := {|
  brush_rotation := 7%Q; brush_rotation_sec := 7%Q;
  last_rake := (0%Q, 0%Q); last_rake_angle := 3%Q
|}.

End Rake.

(** * Paint modes and the paint settings they select *)

Module PaintModes.

(** The enumerators of [PaintMode], as the switch without a default of
    [BKE_paint_ensure_from_paintmode] lists them. *)
Inductive PaintMode :=
| Sculpt
| Vertex
| Weight
| Texture2D
| Texture3D
| GPencil
| VertexGPencil
| SculptGPencil
| WeightGPencil
| SculptCurves
| SculptGreasePencil
| Invalid.

(** The paint settings of the tool settings: [&ts->sculpt->paint] is
    [ts_sculpt], [&ts->imapaint.paint] is [ts_imapaint], and so on.  The
    functions below return which of them they select, [None] for
    [nullptr]. *)
Inductive ToolSettingsPaint :=
| ts_sculpt
| ts_vpaint
| ts_wpaint
| ts_imapaint
| ts_gp_paint
| ts_gp_vertexpaint
| ts_gp_sculptpaint
| ts_gp_weightpaint
| ts_curves_sculpt.

(** The fields of the active object, of the image space and of the
    context that the functions read; [None] is a null pointer. *)
Record Object := {
  type : Z;
  mode : Z
}.

Record bContext := {
  CTX_data_scene : bool;
  CTX_data_view_layer : bool;
  CTX_wm_space_image : option Z;
  BKE_view_layer_active_object_get : option Object
}.

(** The constants of the DNA headers.  The case labels of one switch are
    pairwise different, or the source would not compile. *)
Class ObjectModes := {
  OB_MODE_OBJECT : Z;
  OB_MODE_EDIT : Z;
  OB_MODE_SCULPT : Z;
  OB_MODE_VERTEX_PAINT : Z;
  OB_MODE_WEIGHT_PAINT : Z;
  OB_MODE_TEXTURE_PAINT : Z;
  OB_MODE_PAINT_GPENCIL_LEGACY : Z;
  OB_MODE_VERTEX_GPENCIL_LEGACY : Z;
  OB_MODE_SCULPT_GPENCIL_LEGACY : Z;
  OB_MODE_WEIGHT_GPENCIL_LEGACY : Z;
  OB_MODE_SCULPT_CURVES : Z;
  OB_GPENCIL_LEGACY : Z;
  OB_GREASE_PENCIL : Z;
  SI_MODE_PAINT : Z;
  switch_labels :
    NoDup [OB_MODE_SCULPT; OB_MODE_VERTEX_PAINT; OB_MODE_WEIGHT_PAINT;
           OB_MODE_TEXTURE_PAINT; OB_MODE_PAINT_GPENCIL_LEGACY;
           OB_MODE_VERTEX_GPENCIL_LEGACY; OB_MODE_SCULPT_GPENCIL_LEGACY;
           OB_MODE_WEIGHT_GPENCIL_LEGACY; OB_MODE_SCULPT_CURVES]
}.

(** The enumeration is closed, so that the [default] of the switch is not
    reached. *)
Definition BKE_paint_get_active_from_paintmode (sce : bool) (mode : PaintMode)
  : option ToolSettingsPaint :=
  if sce then
    match mode with
    | Sculpt => Some ts_sculpt
    | Vertex => Some ts_vpaint
    | Weight => Some ts_wpaint
    | Texture2D | Texture3D => Some ts_imapaint
    | GPencil => Some ts_gp_paint
    | VertexGPencil => Some ts_gp_vertexpaint
    | SculptGPencil => Some ts_gp_sculptpaint
    | WeightGPencil => Some ts_gp_weightpaint
    | SculptCurves => Some ts_curves_sculpt
    | SculptGreasePencil => Some ts_gp_sculptpaint
    | Invalid => None
    end
  else None.

Section Modes.
Context `{ObjectModes}.

Definition BKE_paint_get_active (sce view_layer : bool) (actob : option Object)
  : option ToolSettingsPaint :=
  if sce && view_layer then
    match actob with
    | Some actob =>
        if mode actob =? OB_MODE_SCULPT then Some ts_sculpt
        else if mode actob =? OB_MODE_VERTEX_PAINT then Some ts_vpaint
        else if mode actob =? OB_MODE_WEIGHT_PAINT then Some ts_wpaint
        else if mode actob =? OB_MODE_TEXTURE_PAINT then Some ts_imapaint
        else if mode actob =? OB_MODE_PAINT_GPENCIL_LEGACY then Some ts_gp_paint
        else if mode actob =? OB_MODE_VERTEX_GPENCIL_LEGACY then Some ts_gp_vertexpaint
        else if mode actob =? OB_MODE_SCULPT_GPENCIL_LEGACY then Some ts_gp_sculptpaint
        else if mode actob =? OB_MODE_WEIGHT_GPENCIL_LEGACY then Some ts_gp_weightpaint
        else if mode actob =? OB_MODE_SCULPT_CURVES then Some ts_curves_sculpt
        else (* default to image paint *) Some ts_imapaint
    | None => (* default to image paint *) Some ts_imapaint
    end
  else None.

Definition BKE_paint_get_active_from_context (C : bContext)
  : option ToolSettingsPaint :=
  let sce := CTX_data_scene C in
  let view_layer := CTX_data_view_layer C in
  if sce && view_layer then
    let obact := BKE_view_layer_active_object_get C in
    match CTX_wm_space_image C with
    | Some sima_mode =>
        if match obact with
           | Some obact => mode obact =? OB_MODE_EDIT
           | None => false
           end
        then
          if sima_mode =? SI_MODE_PAINT then Some ts_imapaint else None
        else Some ts_imapaint
    | None => BKE_paint_get_active sce view_layer obact
    end
  else None.

Definition BKE_paintmode_get_active_from_context (C : bContext) : PaintMode :=
  let sce := CTX_data_scene C in
  let view_layer := CTX_data_view_layer C in
  if sce && view_layer then
    let obact := BKE_view_layer_active_object_get C in
    match CTX_wm_space_image C with
    | Some sima_mode =>
        if match obact with
           | Some obact => mode obact =? OB_MODE_EDIT
           | None => false
           end
        then
          if sima_mode =? SI_MODE_PAINT then Texture2D else Invalid
        else Texture2D
    | None =>
        match obact with
        | Some obact =>
            if mode obact =? OB_MODE_SCULPT then Sculpt
            else if mode obact =? OB_MODE_SCULPT_GPENCIL_LEGACY then
              if type obact =? OB_GPENCIL_LEGACY then SculptGPencil
              else if type obact =? OB_GREASE_PENCIL then SculptGreasePencil
              else Invalid
            else if mode obact =? OB_MODE_PAINT_GPENCIL_LEGACY then GPencil
            else if mode obact =? OB_MODE_WEIGHT_GPENCIL_LEGACY then WeightGPencil
            else if mode obact =? OB_MODE_VERTEX_PAINT then Vertex
            else if mode obact =? OB_MODE_WEIGHT_PAINT then Weight
            else if mode obact =? OB_MODE_TEXTURE_PAINT then Texture3D
            else if mode obact =? OB_MODE_SCULPT_CURVES then SculptCurves
            else Texture2D
        | None => (* default to image paint *) Texture2D
        end
    end
  else Invalid.

Definition BKE_paint_object_mode_from_paintmode (m : PaintMode) : Z :=
  match m with
  | Sculpt => OB_MODE_SCULPT
  | Vertex => OB_MODE_VERTEX_PAINT
  | Weight => OB_MODE_WEIGHT_PAINT
  | Texture2D | Texture3D => OB_MODE_TEXTURE_PAINT
  | SculptCurves => OB_MODE_SCULPT_CURVES
  | GPencil => OB_MODE_PAINT_GPENCIL_LEGACY
  | SculptGreasePencil => OB_MODE_SCULPT_GPENCIL_LEGACY
  | _ => OB_MODE_OBJECT
  end.

(** The object modes on which the paint mode of the context and the
    paint settings of the context part: the vertex paint mode of legacy
    grease pencil, for which the switch on the mode has no case, and the
    sculpt mode of grease pencil on an object that is neither kind of
    grease pencil. *)
Definition unmatched (C : bContext) : Prop :=
  CTX_data_scene C = true /\ CTX_data_view_layer C = true
  /\ CTX_wm_space_image C = None
  /\ exists ob, BKE_view_layer_active_object_get C = Some ob
       /\ (mode ob = OB_MODE_VERTEX_GPENCIL_LEGACY
           \/ (mode ob = OB_MODE_SCULPT_GPENCIL_LEGACY
               /\ type ob <> OB_GPENCIL_LEGACY /\ type ob <> OB_GREASE_PENCIL)).

End Modes.

(** Sample values of the constants: the modes are different powers of
    two. *)
Definition example_object_modes : ObjectModes :=
  Build_ObjectModes 0 1 2 4 8 16 256 2048 512 1024 4096 26 30 1
    ltac:(apply NoDup_ListNoDup; repeat constructor; cbn; intuition lia).

Definition example_context (m ty : Z) : bContext := {|
  CTX_data_scene := true;
  CTX_data_view_layer := true;
  CTX_wm_space_image := None;
  BKE_view_layer_active_object_get := Some {| type := ty; mode := m |}
|}.

End PaintModes.

(** * The cavity estimate in rounded arithmetic *)

Section RoundedCavity.
Context `{AutomaskFlags} `{Externals}.

(** The rounding of the float operations: an operation of the source is
    the exact operation followed by [rnd].  With the identity for [rnd]
    the definitions below are those of the exact estimate. *)
Variable rnd : float -> float.

Local Open Scope Q_scope.

Definition add_v3_rnd (a b : float3) : float3 :=
  F3 (rnd (x a + x b)) (rnd (y a + y b)) (rnd (z a + z b)).
Definition sub_v3_rnd (a b : float3) : float3 :=
  F3 (rnd (x a - x b)) (rnd (y a - y b)) (rnd (z a - z b)).
Definition div_v3_fl_rnd (a : float3) (d : float) : float3 :=
  F3 (rnd (x a / d)) (rnd (y a / d)) (rnd (z a / d)).
Definition dot_v3v3_rnd (a b : float3) : float :=
  rnd (rnd (rnd (x a * x b) + rnd (y a * y b)) + rnd (z a * z b)).

Definition calc_cavity_factor_rnd (automasking : Cache) (factor : float) : float :=
  let sign := signf factor in
  let factor := rnd (rnd (Qabs factor * cavity_factor (settings automasking)) * 50) in
  let factor := rnd (rnd (rnd (factor * sign) * (1 # 2)) + (1 # 2)) in
  let factor := CLAMP factor 0 1 in
  if has_flag (flags (settings automasking)) BRUSH_AUTOMASKING_CAVITY_INVERTED
  then rnd (1 - factor)
  else factor.

Definition cavity_gather_rnd (g : Geometry) (co1 : float3) (steps : Z)
    (blurvert : CavityBlurVert) (a : CavitySums) : CavitySums :=
  let v := cbv_vertex blurvert in
  let co := SCULPT_vertex_co_get g v in
  let no := SCULPT_vertex_normal_get g v in
  let centdist := len_v3v3 co co1 in
  let inner := (cbv_depth blurvert <? steps)%Z in
  {| sco1 := add_v3_rnd (sco1 a) co;
     sno1 := add_v3_rnd (sno1 a) no;
     len1_sum := rnd (len1_sum a + centdist);
     sco1_len := (sco1_len a + 1)%Z;
     sco2 := if inner then add_v3_rnd (sco2 a) co else sco2 a;
     sno2 := if inner then add_v3_rnd (sno2 a) no else sno2 a;
     sco2_len := if inner then (sco2_len a + 1)%Z else sco2_len a |}.

Fixpoint cavity_blur_loop_rnd (fuel : nat) (g : Geometry) (co1 : float3) (steps : Z)
    (queue : list CavityBlurVert) (visit : gset nat) (a : CavitySums)
  : option CavitySums :=
  match queue with
  | [] => Some a
  | blurvert :: queue =>
      match fuel with
      | O => None
      | S fuel =>
          let a := cavity_gather_rnd g co1 steps blurvert a in
          if (cbv_depth blurvert >=? steps)%Z then
            cavity_blur_loop_rnd fuel g co1 steps queue visit a
          else
            let '(queue, visit) := cavity_push_neighbors g blurvert queue visit in
            cavity_blur_loop_rnd fuel g co1 steps queue visit a
      end
  end.

Definition cavity_finish_rnd (g : Geometry) (vertex : nat) (a : CavitySums)
  : CavityLocals :=
  let sco1' :=
    if (sco1_len a =? 0)%Z then SCULPT_vertex_co_get g vertex
    else div_v3_fl_rnd (sco1 a) (rnd (inject_Z (sco1_len a))) in
  let len1_sum' :=
    if (sco1_len a =? 0)%Z then len1_sum a
    else rnd (len1_sum a / rnd (inject_Z (sco1_len a))) in
  let sco2' :=
    if (sco2_len a =? 0)%Z then SCULPT_vertex_co_get g vertex
    else div_v3_fl_rnd (sco2 a) (rnd (inject_Z (sco2_len a))) in
  let sno2' := normalize_v3 (sno2 a) in
  let sno2' :=
    if eqb (dot_v3v3_rnd sno2' sno2') 0 then SCULPT_vertex_normal_get g vertex
    else sno2' in
  {| cl_vec := sub_v3_rnd sco1' sco2'; cl_sno2 := sno2'; cl_len1_sum := len1_sum' |}.

Definition calc_blurred_cavity_locals_rnd (g : Geometry) (steps : Z) (vertex : nat)
  : option CavityLocals :=
  (* Steps starts at 1, but API and user interface are zero-based. *)
  let steps := (steps + 1)%Z in
  let initial := {| cbv_vertex := vertex; cbv_dist := 0; cbv_depth := 0 |} in
  let co1 := SCULPT_vertex_co_get g vertex in
  a ← cavity_blur_loop_rnd (SCULPT_vertex_count_get g) g co1 steps
         [initial] {[vertex]} cavity_sums_init;
  Some (cavity_finish_rnd g vertex a).

Definition calc_blurred_cavity_rnd (ss : SculptSession) (automasking : Cache)
    (steps : Z) (vertex : nat) : option SculptSession :=
  l ← calc_blurred_cavity_locals_rnd (geom ss) steps vertex;
  factor_sum ←
    (if eqb (cl_len1_sum l) 0 then None
     else Some (rnd (dot_v3v3_rnd (cl_vec l) (cl_sno2 l) / cl_len1_sum l)));
  let factor_sum := calc_cavity_factor_rnd automasking factor_sum in
  buf ← attr_write (automasking_cavity (attrs ss)) vertex factor_sum;
  Some (set_cavity ss (Some buf)).

End RoundedCavity.

(** ** Flat patches *)

(** [u] is [k] times [w]. *)
Definition scaled (k : float) (w u : float3) : Prop :=
  (x u == k * x w /\ y u == k * y w /\ z u == k * z w)%Q.

(** The vertices of the mesh lie in the plane of the points [p] with
    [dot p N = c], and the normal of every vertex is a multiple of [N]. *)
Definition flat_patch (g : Geometry) (N : float3) (c : float) : Prop :=
  forall v, (v < SCULPT_vertex_count_get g)%nat ->
    (dot_v3v3 (SCULPT_vertex_co_get g v) N == c)%Q
    /\ exists t, scaled t N (SCULPT_vertex_normal_get g v).

(** The strip of [example_strip] raised to the height [height]: [n]
    vertices unit apart on a line parallel to the x axis, with the normal
    along the z axis. *)
Definition example_raised_strip (n : nat) (height : float) : Geometry := {|
  SCULPT_vertex_count_get := n;
  SCULPT_vertex_co_get := fun v => F3 (inject_Z (Z.of_nat v)) 0%Q height;
  SCULPT_vertex_normal_get := fun _ => F3 0%Q 0%Q 1%Q;
  vertex_neighbors := vertex_neighbors (example_strip n);
  SCULPT_vertex_is_occluded := fun _ => false;
  vert_has_face_set := fun _ _ => true;
  vert_is_boundary := fun v => bool_decide (v = 0%nat);
  vert_has_unique_face_set := fun _ => true;
  vert_face_set_get := fun _ => 1;
  islands_vert_id_get := fun _ => 0;
  active_face_set_get := 1;
  active_vert_index := 0;
  mesh_symmetry_xyz := 0;
  stroke_is_dyntopo := fun _ => false;
  flood_initial_with_symmetry := fun v _ => [v];
  flood_skip_initial := true
|}.

(** The length and the normalization of vectors along one axis, where
    the Euclidean length is the sum of the absolute components and needs
    no square root; on the raised strip every vector the cavity estimate
    measures or normalizes is of this kind. *)
Definition example_axis_length (w : float3) : float :=
  (Qabs (x w) + Qabs (y w) + Qabs (z w))%Q.

Definition example_axis_externals : Externals := {|
  M_PI := M_PI (Externals := example_externals);
  safe_acosf := safe_acosf (Externals := example_externals);
  len_v3v3 := fun a b => example_axis_length (sub_v3 a b);
  normalize_v3 := fun w =>
    if eqb (example_axis_length w) 0 then zero3
    else div_v3_fl w (example_axis_length w);
  float_as_uint := float_as_uint (Externals := example_externals);
  BLI_hash_int := BLI_hash_int (Externals := example_externals);
  BLI_hash_int_2d := BLI_hash_int_2d (Externals := example_externals);
  BKE_curvemapping_evaluateF :=
    BKE_curvemapping_evaluateF (Externals := example_externals);
  SCULPT_is_vertex_inside_brush_radius_symm := example_inside_radius
|}.

(** A strip of five vertices at the given height, with a cavity buffer. *)
Definition example_raised_session (height : float) : SculptSession :=
  example_session (example_raised_strip 5 height) None
    {| automasking_factor := None;
       automasking_stroke_id := None;
       automasking_occlusion := None;
       automasking_cavity := Some (replicate 5 0%Q) |}.

(** A cache with cavity automasking of strength 1. *)
Definition example_cavity_cache : Cache :=
  {| settings :=
       {| flags := 16; initial_face_set := 0; initial_island_nr := 0;
          cavity_factor := 1%Q; cavity_blur_steps := 1; cavity_curve := None;
          start_normal_limit := 0%Q; start_normal_falloff := 0%Q;
          view_normal_limit := 0%Q; view_normal_falloff := 0%Q;
          topology_use_brush_limit := false |};
     can_reuse_mask := false;
     current_stroke_id := 3 |}.

(** What the running sums of the cavity blur keep on a flat patch: the
    two position sums lie in the plane scaled by their counts, and the
    normal sum of the inner ring is a multiple of the plane's normal. *)
Definition cavity_sums_flat (N : float3) (c : float) (a : CavitySums) : Prop :=
  (dot_v3v3 (sco1 a) N == c * inject_Z (sco1_len a))%Q
  /\ (dot_v3v3 (sco2 a) N == c * inject_Z (sco2_len a))%Q
  /\ exists t, scaled t N (sno2 a).

(** A mesh of one loose vertex at the start of a stroke with the brush of
    [example_query_brush], whose modes include the cavity; no attribute
    exists yet. *)
Definition example_loose_cavity_session : SculptSession :=
  example_session (example_strip 1)
    (Some (example_stroke_cache example_query_brush 1%Q)) example_attrs_empty.

(** * Proofs *)

(** ** Floats *)

Lemma ltb_lt (a b : float) : ltb a b = true <-> (a < b)%Q.
Proof.
  unfold ltb. rewrite negb_true_iff.
  destruct (Qle_bool b a) eqn:E.
  - apply Qle_bool_iff in E. split; [discriminate | intros Hlt; exfalso; lra].
  - split; [intros _ | reflexivity].
    destruct (Qlt_le_dec a b) as [Hlt | Hle]; [exact Hlt |].
    apply Qle_bool_iff in Hle. congruence.
Qed.

Lemma ltb_ge (a b : float) : ltb a b = false <-> (b <= a)%Q.
Proof.
  unfold ltb. rewrite negb_false_iff. apply Qle_bool_iff.
Qed.

(** An unguarded division is defined exactly when its divisor is not zero. *)
Lemma divf_Some (a b : float) : ~ (b == 0)%Q -> divf a b = Some (a / b)%Q.
Proof.
  intros Hb. unfold divf, eqb. destruct (Qeq_bool b 0) eqn:E; [| reflexivity].
  apply Qeq_bool_iff in E. contradiction.
Qed.

Lemma divf_None (a b : float) : (b == 0)%Q -> divf a b = None.
Proof.
  intros Hb. unfold divf, eqb. apply Qeq_bool_iff in Hb. rewrite Hb. reflexivity.
Qed.

Lemma divf_is_Some (a b : float) : is_Some (divf a b) <-> ~ (b == 0)%Q.
Proof.
  split.
  - intros [q Hq] Hb. rewrite (divf_None a b Hb) in Hq. discriminate.
  - intros Hb. rewrite divf_Some by exact Hb. eexists. reflexivity.
Qed.

Lemma CLAMP_range (a b c : float) : (b <= c)%Q -> (b <= CLAMP a b c <= c)%Q.
Proof.
  intros Hbc. unfold CLAMP, gtb.
  destruct (ltb a b) eqn:E1; [lra |].
  destruct (ltb c a) eqn:E2; [lra |].
  apply ltb_ge in E1. apply ltb_ge in E2. lra.
Qed.

(** ** Topology flood fill: the radius gate *)

Section RadiusGate.
Context `{AutomaskFlags} `{Externals}.

(** With a stroke cache and a radius-constrained brush the traversal
    lambda accepts every candidate; otherwise its verdict is the radius
    test of the candidate. *)
Lemma topology_accept_mesh_cases (ss : SculptSession) (brush : option Brush)
    (active_vert to_v : nat) :
  topology_accept_mesh ss brush active_vert to_v =
    if topology_use_radius ss brush then true
    else SCULPT_is_vertex_inside_brush_radius_symm
           (SCULPT_vertex_co_get (geom ss) to_v)
           (SCULPT_vertex_co_get (geom ss) active_vert)
           (topology_radius ss) (mesh_symmetry_xyz (geom ss)).
Proof.
  unfold topology_accept_mesh. destruct (topology_use_radius ss brush); reflexivity.
Qed.

End RadiusGate.

(** C2, evaluated on the strip of 12 vertices with a stroke radius of 1:
    vertex 10 lies outside the radius around vertex 0.  With the grab brush
    (radius-constrained) the lambda accepts it; with the paint brush (not
    radius-constrained) the lambda rejects it. *)
Theorem topology_accept_mesh_gate_inverted :
  let g := example_strip 12 in
  let grab := Some (example_brush SCULPT_BRUSH_TYPE_GRAB 1 1) in
  let paint := Some (example_brush SCULPT_BRUSH_TYPE_PAINT 1 1) in
  let ss b := example_session g (Some (example_stroke_cache b 1%Q)) example_attrs_empty in
  @is_constrained_by_radius grab = true
  /\ @is_constrained_by_radius paint = false
  /\ example_inside_radius (SCULPT_vertex_co_get g 10) (SCULPT_vertex_co_get g 0) 1%Q 0 = false
  /\ @topology_accept_mesh example_externals (ss grab) grab 0 10 = true
  /\ @topology_accept_mesh example_externals (ss paint) paint 0 10 = false.
Proof. vm_compute. repeat split; reflexivity. Qed.

(** ** The settings hash *)

Section SettingsHashFacts.
Context `{AutomaskFlags} `{Externals}.

Lemma hash_curve_points_words (curve : list CurveMapPoint) (hash : Z) :
  hash_curve_points hash curve
  = fold_left BLI_hash_int_2d (curve_hash_words curve) hash.
Proof.
  unfold hash_curve_points.
  revert hash. induction curve as [| pt curve IH]; intros hash; [reflexivity |].
  cbn [fold_left curve_hash_words flat_map app]. apply IH.
Qed.

Lemma settings_hash_fold (g : Geometry) (automasking : Cache) :
  settings_hash g automasking
  = fold_left BLI_hash_int_2d (settings_hash_words g automasking)
      (BLI_hash_int (flags (settings automasking))).
Proof.
  unfold settings_hash, settings_hash_words.
  cbn [app fold_left].
  rewrite !fold_left_app.
  destruct (has_flag _ BRUSH_AUTOMASKING_CAVITY_ALL);
    destruct (has_flag _ BRUSH_AUTOMASKING_FACE_SETS);
    destruct (has_flag _ BRUSH_AUTOMASKING_VIEW_NORMAL);
    destruct (has_flag _ BRUSH_AUTOMASKING_BRUSH_NORMAL);
    cbn [app fold_left]; rewrite ?fold_left_app;
    destruct (cavity_curve (settings automasking));
    rewrite ?hash_curve_points_words; reflexivity.
Qed.

Lemma cache_init_settings_steps (sd : Sculpt) (brush : option Brush)
    (ss : SculptSession) (s_tool s_brush : Z) :
  cache_init_settings (set_sd_steps sd s_tool)
    ((fun b => set_brush_steps b s_brush) <$> brush) ss
  = cache_init_settings sd brush ss.
Proof.
  destruct brush as [b |]; reflexivity.
Qed.

(** C4 (amended): the hash is the fold of [BLI_hash_int_2d] over the flags,
    the vertex count and the parameters of the modes whose bit is set
    (cavity blur steps, cavity factor and curve points; initial face set;
    view-normal and brush-normal falloff and limit), so settings that agree
    on these words hash equal; the boundary propagation step count of the
    tool settings and of the brush is no input of the resolved settings or
    of their hash. *)
Theorem settings_hash_inputs :
  (forall (g : Geometry) (automasking : Cache),
     settings_hash g automasking
     = fold_left BLI_hash_int_2d (settings_hash_words g automasking)
         (BLI_hash_int (flags (settings automasking))))
  /\ (forall (g g' : Geometry) (a a' : Cache),
        flags (settings a) = flags (settings a') ->
        settings_hash_words g a = settings_hash_words g' a' ->
        settings_hash g a = settings_hash g' a')
  /\ (forall (sd : Sculpt) (brush : option Brush) (ss : SculptSession)
        (s_tool s_brush : Z),
        settings_hash (geom ss)
          (cache_init_settings (set_sd_steps sd s_tool)
             ((fun b => set_brush_steps b s_brush) <$> brush) ss)
        = settings_hash (geom ss) (cache_init_settings sd brush ss)).
Proof.
  split; [| split].
  - apply settings_hash_fold.
  - intros g g' a a' Hflags Hwords. rewrite !settings_hash_fold, Hflags, Hwords.
    reflexivity.
  - intros. rewrite cache_init_settings_steps. reflexivity.
Qed.

End SettingsHashFacts.

(** C4 as stated fails: two tool settings with boundary-edge automasking
    that differ in the propagation step count only (1 and 5) resolve to
    settings with the same hash. *)
Lemma settings_hash_ignores_propagation_steps :
  let g := example_strip 4 in
  let ss := example_session g None example_attrs_empty in
  let sd1 := example_sculpt 4 1 None in
  let sd5 := example_sculpt 4 5 None in
  @boundary_propagation_steps dna_flags sd1 None = 1
  /\ @boundary_propagation_steps dna_flags sd5 None = 5
  /\ @settings_hash dna_flags example_externals g
       (@cache_init_settings dna_flags sd1 None ss)
     = @settings_hash dna_flags example_externals g
         (@cache_init_settings dna_flags sd5 None ss).
Proof. vm_compute. repeat split; reflexivity. Qed.

(** Inversion of a successful bind in the option monad. *)
Ltac bind_inv H :=
  match type of H with
  | (?m ≫= _) = Some _ =>
      let E := fresh "E" in
      destruct m eqn:E; [cbn [mbind option_bind] in H | discriminate H]
  end.

(** ** Loops *)

Lemma for_range_S {S : Type} (n : nat) (body : nat -> S -> option S) (s : S) :
  for_range (Datatypes.S n) body s = (s' ← for_range n body s; body n s').
Proof.
  unfold for_range. rewrite seq_S, foldl_snoc. reflexivity.
Qed.

(** A property kept by every successful iteration holds after the loop. *)
Lemma for_range_invariant {S : Type} (P : S -> Prop) (n : nat)
    (body : nat -> S -> option S) (s s' : S) :
  P s ->
  (forall i t t', (i < n)%nat -> P t -> body i t = Some t' -> P t') ->
  for_range n body s = Some s' -> P s'.
Proof.
  revert s'. induction n as [| n IH]; intros s' Hs Hbody Hrun.
  - cbv in Hrun. congruence.
  - rewrite for_range_S in Hrun.
    destruct (for_range n body s) as [t |] eqn:E; [| discriminate].
    cbn in Hrun. eapply (Hbody n t); [lia | | exact Hrun].
    apply IH; [exact Hs | | reflexivity].
    intros i u u' Hi. apply Hbody. lia.
Qed.

(** A loop whose iterations all succeed on states satisfying an invariant
    produces a result. *)
Lemma for_range_total {S : Type} (P : S -> Prop) (n : nat)
    (body : nat -> S -> option S) (s : S) :
  P s ->
  (forall i t, (i < n)%nat -> P t -> exists t', body i t = Some t' /\ P t') ->
  exists s', for_range n body s = Some s' /\ P s'.
Proof.
  induction n as [| n IH]; intros Hs Hbody.
  - exists s. split; [reflexivity | exact Hs].
  - destruct IH as (t & Ht & HPt); [exact Hs | |].
    { intros i u Hi. apply Hbody. lia. }
    destruct (Hbody n t) as (t' & Ht' & HPt'); [lia | exact HPt |].
    exists t'. split; [| exact HPt'].
    rewrite for_range_S, Ht. exact Ht'.
Qed.

(** ** The frame of the attribute writes *)

Lemma same_frame_refl (ss : SculptSession) : same_frame ss ss.
Proof. repeat split. Qed.

Lemma same_frame_trans (a b c : SculptSession) :
  same_frame a b -> same_frame b c -> same_frame a c.
Proof.
  unfold same_frame. intros (?&?&?&?&?&?) (?&?&?&?&?&?).
  repeat split; congruence.
Qed.

Lemma same_frame_set_attrs (ss : SculptSession) (a : SculptAttrs) :
  same_frame ss (set_attrs ss a).
Proof. repeat split. Qed.

Create HintDb frame.
#[local] Hint Resolve same_frame_refl same_frame_set_attrs : frame.

Lemma for_range_same_frame (n : nat)
    (body : nat -> SculptSession -> option SculptSession) (ss ss' : SculptSession) :
  (forall i t t', body i t = Some t' -> same_frame t t') ->
  for_range n body ss = Some ss' -> same_frame ss ss'.
Proof.
  intros Hbody Hrun.
  apply (for_range_invariant (same_frame ss) n body ss ss');
    [apply same_frame_refl | | exact Hrun].
  intros i t t' _ Ht Hstep. eapply same_frame_trans; [exact Ht |].
  eapply Hbody; exact Hstep.
Qed.

Section Frames.
Context `{AutomaskFlags} `{Externals}.

Lemma factor_write_frame (v : nat) (q : float) (ss ss' : SculptSession) :
  factor_write v q ss = Some ss' -> same_frame ss ss'.
Proof.
  unfold factor_write. intros Hw.
  destruct (attr_write _ v q) as [buf |]; [| discriminate].
  cbn in Hw. injection Hw as <-. apply same_frame_set_attrs.
Qed.

Lemma calc_view_occlusion_factor_frame (ss ss' : SculptSession)
    (automasking : Cache) (v : nat) (id : Z) (b : bool) :
  calc_view_occlusion_factor ss automasking v id = Some (b, ss') ->
  same_frame ss ss'.
Proof.
  unfold calc_view_occlusion_factor. intros Hc.
  destruct (attr_read _ v) as [f |]; [| discriminate]. cbn in Hc.
  destruct (negb _).
  - destruct (attr_write _ v _) as [buf |]; [| discriminate].
    cbn in Hc. injection Hc as _ <-. apply same_frame_set_attrs.
  - injection Hc as _ <-. apply same_frame_refl.
Qed.

Lemma init_face_sets_masking_frame (sd : Sculpt) (ss ss' : SculptSession) :
  init_face_sets_masking sd ss = Some ss' -> same_frame ss ss'.
Proof.
  unfold init_face_sets_masking. destruct (negb _).
  - intros [= <-]. apply same_frame_refl.
  - apply for_range_same_frame. intros i t t'.
    destruct (negb _); [apply factor_write_frame |].
    intros [= <-]. apply same_frame_refl.
Qed.

Lemma boundary_apply_frame (dist : list Z) (steps : Z) (i : nat)
    (ss ss' : SculptSession) :
  boundary_apply dist steps i ss = Some ss' -> same_frame ss ss'.
Proof.
  unfold boundary_apply. intros Hb.
  destruct (dist !! i) as [d |]; [| discriminate]. cbn in Hb.
  destruct (d =? EDGE_DISTANCE_INF).
  - injection Hb as <-. apply same_frame_refl.
  - destruct (edge_boundary_scale d steps) as [scale |]; [| discriminate].
    cbn in Hb.
    destruct (attr_read _ i) as [old |]; [| discriminate].
    cbn in Hb. eapply factor_write_frame; exact Hb.
Qed.

Lemma init_boundary_masking_frame (mode : BoundaryAutomaskMode) (steps : Z)
    (ss ss' : SculptSession) :
  init_boundary_masking mode steps ss = Some ss' -> same_frame ss ss'.
Proof.
  unfold init_boundary_masking. intros Hb.
  destruct (edge_distance_propagate _ _ _) as [dist |]; [| discriminate].
  cbn in Hb. eapply for_range_same_frame; [| exact Hb].
  intros i t t'. apply boundary_apply_frame.
Qed.

Lemma normal_occlusion_automasking_fill_frame (automasking : Cache) (mode : Z)
    (ss ss' : SculptSession) :
  normal_occlusion_automasking_fill automasking mode ss = Some ss' ->
  same_frame ss ss'.
Proof.
  unfold normal_occlusion_automasking_fill.
  apply for_range_same_frame. intros v t t' Hstep.
  destruct (attr_read (automasking_factor (attrs t)) v) as [f |]; [| discriminate].
  cbn in Hstep.
  assert (Hmid : forall r,
    (if has_flag mode BRUSH_AUTOMASKING_VIEW_NORMAL then
       '(f0, ss0) ←
         (if has_flag mode BRUSH_AUTOMASKING_VIEW_OCCLUSION then
            '(occ, ss0) ← calc_view_occlusion_factor t automasking v (to_uchar (-1));
            Some ((f * (if occ : bool then 1 else 0))%Q, ss0)
          else Some (f, t));
       n ← calc_view_normal_factor ss0 automasking v None;
       Some ((f0 * n)%Q, ss0)
     else Some (f, t)) = Some r -> same_frame t r.2).
  { intros [f1 t1]. destruct (has_flag mode BRUSH_AUTOMASKING_VIEW_NORMAL).
    - destruct (has_flag mode BRUSH_AUTOMASKING_VIEW_OCCLUSION).
      + destruct (calc_view_occlusion_factor t automasking v _) as [[occ t0] |] eqn:E;
          [| discriminate].
        cbn. destruct (calc_view_normal_factor t0 automasking v None); [| discriminate].
        cbn. intros [= _ <-]. eapply calc_view_occlusion_factor_frame; exact E.
      + cbn. destruct (calc_view_normal_factor t automasking v None); [| discriminate].
        cbn. intros [= _ <-]. apply same_frame_refl.
    - intros [= _ <-]. apply same_frame_refl. }
  match type of Hstep with
  | (?m ≫= _) = _ => destruct m as [[f1 t1] |] eqn:E1; [| discriminate]
  end.
  specialize (Hmid _ eq_refl). cbn in Hmid, Hstep.
  eapply same_frame_trans; [exact Hmid |].
  destruct (automasking_stroke_id (attrs t1)) as [ids |] eqn:Eids.
  - destruct (attr_write (Some ids) v (stroke_id t1)) as [buf |]; [| discriminate].
    cbn in Hstep. eapply same_frame_trans; [| eapply factor_write_frame; exact Hstep].
    apply same_frame_set_attrs.
  - cbn in Hstep. eapply factor_write_frame; exact Hstep.
Qed.

End Frames.

(** ** Flood fill: invariants of the traversal *)

Lemma flood_visit_neighbors_invariant {S : Type} (P : S -> Prop)
    (func : nat -> nat -> S -> option (bool * S)) (from_v : nat)
    (neighbors : list nat) (st st' : list nat * gset nat * S) :
  (forall a b s r s', P s -> func a b s = Some (r, s') -> P s') ->
  P st.2 ->
  flood_visit_neighbors func from_v neighbors st = Some st' -> P st'.2.
Proof.
  intros Hfunc. unfold flood_visit_neighbors.
  revert st. induction neighbors as [| to_v neighbors IH]; intros st HP Hrun.
  - cbn in Hrun. injection Hrun as <-. exact HP.
  - cbn [foldl] in Hrun.
    destruct st as [[queue visited] s]. cbn [mbind option_bind] in Hrun.
    destruct (bool_decide (to_v ∈ visited)).
    + eapply IH; [| exact Hrun]. exact HP.
    + destruct (func from_v to_v s) as [[accept s1] |] eqn:E.
      * cbn in Hrun. eapply IH; [| exact Hrun]. cbn. eapply Hfunc; [exact HP | exact E].
      * cbn in Hrun. clear -Hrun. exfalso.
        induction neighbors as [| n ns IHn]; cbn in Hrun; [discriminate | auto].
Qed.

Lemma flood_execute_invariant {S : Type} (P : S -> Prop) (fuel : nat)
    (g : Geometry) (func : nat -> nat -> S -> option (bool * S))
    (queue : list nat) (visited visited' : gset nat) (s s' : S) :
  (forall a b t r t', P t -> func a b t = Some (r, t') -> P t') ->
  P s ->
  flood_execute fuel g func queue visited s = Some (visited', s') -> P s'.
Proof.
  intros Hfunc. revert queue visited s.
  induction fuel as [| fuel IH]; intros queue visited s HP Hrun.
  - destruct queue; cbn in Hrun; [| discriminate]. injection Hrun as _ <-. exact HP.
  - destruct queue as [| from_v queue]; cbn in Hrun.
    + injection Hrun as _ <-. exact HP.
    + destruct (flood_visit_neighbors func from_v _ _) as [[[q1 v1] s1] |] eqn:E;
        [| discriminate].
      cbn in Hrun. eapply IH; [| exact Hrun].
      apply (flood_visit_neighbors_invariant P func from_v _ _ _ Hfunc) in E; [exact E |].
      exact HP.
Qed.

Section PrecomputeFrame.
Context `{AutomaskFlags} `{Externals}.

Lemma topology_fill_func_frame (brush : option Brush) (active_vert a b : nat)
    (ss ss' : SculptSession) (r : bool) :
  topology_fill_func brush active_vert a b ss = Some (r, ss') -> same_frame ss ss'.
Proof.
  unfold topology_fill_func. intros Hf.
  bind_inv Hf. bind_inv Hf.
  injection Hf as _ <-. apply same_frame_set_attrs.
Qed.

Lemma fill_topology_frame (sd : Sculpt) (ss ss' : SculptSession) (vis : gset nat) :
  fill_topology_automasking_factors_mesh sd ss = Some (vis, ss') ->
  same_frame ss ss'.
Proof.
  unfold fill_topology_automasking_factors_mesh.
  apply (flood_execute_invariant (same_frame ss)); [| apply same_frame_refl].
  intros a b t r t' Ht Hf. eapply same_frame_trans; [exact Ht |].
  eapply topology_fill_func_frame; exact Hf.
Qed.

Lemma cache_init_factor_buffer_frame (mode : Z) (ss ss' : SculptSession) :
  cache_init_factor_buffer mode ss = Some ss' -> same_frame ss ss'.
Proof.
  unfold cache_init_factor_buffer. intros Hrun.
  eapply same_frame_trans; [apply same_frame_set_attrs |].
  eapply for_range_same_frame; [| exact Hrun].
  intros i t t'. apply factor_write_frame.
Qed.

(** The precompute pass keeps the reuse decision of the cache and every
    field of the session but the attribute buffers. *)
Lemma cache_init_precompute_frame (sd : Sculpt) (brush : option Brush)
    (automasking c : Cache) (ss ss' : SculptSession) :
  cache_init_precompute sd brush automasking ss = Some (c, ss') ->
  current_stroke_id c = current_stroke_id automasking
  /\ can_reuse_mask c = can_reuse_mask automasking
  /\ same_frame ss ss'.
Proof.
  unfold cache_init_precompute. intros Hrun.
  destruct (cache_init_factor_buffer _ ss) as [s1 |] eqn:E1; [| discriminate].
  cbn in Hrun.
  destruct (cache_init_topology sd brush automasking s1) as [[c1 s2] |] eqn:E2;
    [| discriminate].
  cbn in Hrun.
  match type of Hrun with
  | (?m ≫= _) = _ => destruct m as [s3 |] eqn:E3; [| discriminate]
  end. cbn in Hrun.
  match type of Hrun with
  | (?m ≫= _) = _ => destruct m as [s4 |] eqn:E4; [| discriminate]
  end. cbn in Hrun.
  match type of Hrun with
  | (?m ≫= _) = _ => destruct m as [s5 |] eqn:E5; [| discriminate]
  end. cbn in Hrun.
  match type of Hrun with
  | (?m ≫= _) = _ => destruct m as [s6 |] eqn:E6; [| discriminate]
  end. cbn in Hrun. injection Hrun as <- <-.
  assert (F1 : same_frame ss s1) by (eapply cache_init_factor_buffer_frame; exact E1).
  assert (F2 : current_stroke_id c1 = current_stroke_id automasking
               /\ can_reuse_mask c1 = can_reuse_mask automasking
               /\ same_frame s1 s2).
  { unfold cache_init_topology in E2.
    destruct (mode_enabled sd brush BRUSH_AUTOMASKING_TOPOLOGY).
    - destruct (fill_topology_automasking_factors_mesh sd s1) as [[vis t] |] eqn:Ef;
        [| discriminate].
      cbn in E2. injection E2 as <- <-.
      split; [reflexivity | split; [reflexivity |]].
      eapply fill_topology_frame; exact Ef.
    - injection E2 as <- <-.
      split; [reflexivity | split; [reflexivity | apply same_frame_refl]]. }
  destruct F2 as (Hid & Hreuse & F2).
  assert (F3 : same_frame s2 s3).
  { destruct (mode_enabled sd brush BRUSH_AUTOMASKING_FACE_SETS).
    - eapply init_face_sets_masking_frame; exact E3.
    - injection E3 as <-. apply same_frame_refl. }
  assert (F4 : same_frame s3 s4).
  { destruct (mode_enabled sd brush BRUSH_AUTOMASKING_BOUNDARY_EDGES).
    - eapply init_boundary_masking_frame; exact E4.
    - injection E4 as <-. apply same_frame_refl. }
  assert (F5 : same_frame s4 s5).
  { destruct (mode_enabled sd brush BRUSH_AUTOMASKING_BOUNDARY_FACE_SETS).
    - eapply init_boundary_masking_frame; exact E5.
    - injection E5 as <-. apply same_frame_refl. }
  assert (F6 : same_frame s5 s6).
  { destruct (negb _).
    - eapply normal_occlusion_automasking_fill_frame; exact E6.
    - injection E6 as <-. apply same_frame_refl. }
  repeat split; try assumption.
  all: try (destruct F1 as (?&?&?&?&?&?), F2 as (?&?&?&?&?&?), F3 as (?&?&?&?&?&?),
              F4 as (?&?&?&?&?&?), F5 as (?&?&?&?&?&?), F6 as (?&?&?&?&?&?);
            congruence).
Qed.

End PrecomputeFrame.

(** ** Cache construction: the reuse rule *)

Section ReuseRule.
Context `{AutomaskFlags} `{Externals}.

Lemma cache_init_attributes_frame (mode : Z) (ss : SculptSession) :
  same_frame ss (cache_init_attributes mode ss).
Proof.
  unfold cache_init_attributes.
  destruct (have_occlusion mode), (has_flag mode BRUSH_AUTOMASKING_CAVITY_ALL);
    repeat match goal with
           | |- context [match ?o with Some _ => _ | None => _ end] => destruct o
           end;
    repeat split.
Qed.

Lemma SCULPT_stroke_id_ensure_frame (ss : SculptSession) :
  same_frame ss (SCULPT_stroke_id_ensure ss).
Proof.
  unfold SCULPT_stroke_id_ensure.
  destruct (automasking_stroke_id (attrs ss)); repeat split.
Qed.

Lemma cache_init_settings_fresh (sd : Sculpt) (brush : option Brush)
    (ss : SculptSession) :
  current_stroke_id (cache_init_settings sd brush ss) = stroke_id ss
  /\ can_reuse_mask (cache_init_settings sd brush ss) = false.
Proof.
  unfold cache_init_settings. destruct (_ && _); split; reflexivity.
Qed.

(** [cache_init] is its reuse decision followed by the precompute pass,
    and the pass is entered exactly when [needs_factors_cache] holds. *)
Lemma cache_init_unfold (sd : Sculpt) (brush : option Brush) (ss : SculptSession) :
  is_enabled sd (Some ss) brush = true ->
  let mode := calc_effective_bits sd brush in
  let r := cache_init_reuse brush mode (cache_init_settings sd brush ss)
             (cache_init_attributes mode ss) in
  cache_init sd brush ss
  = if needs_factors_cache sd brush
    then '(c, ss') ← cache_init_precompute sd brush r.1 r.2; Some (Some c, ss')
    else Some (Some r.1, factor_attribute_destroy r.2).
Proof.
  intros Hen. cbv zeta. unfold cache_init. rewrite Hen. cbn [negb].
  destruct (cache_init_reuse _ _ _ _) as [c s1]. cbn [fst snd].
  destruct (needs_factors_cache sd brush); reflexivity.
Qed.

(** C3 (amended): when [cache_init] runs with automasking enabled, the
    reuse decision is taken only if stroke ids are in use (cavity mode, or
    occlusion together with view-normal mode).  Then, with a brush of an
    allow-listed type, no joint occlusion and view-normal mode and a
    settings hash equal to the session's last hash, the cache adopts the
    last automask stroke id, is marked reusable and the session keeps its
    last automask stroke id; otherwise the cache keeps the current stroke
    id, is not marked reusable and the current stroke id is recorded as the
    last automask stroke id.  The precompute pass is entered exactly when
    [needs_factors_cache] holds, whatever the reuse decision, and it keeps
    the decision. *)
Theorem cache_init_reuse_rule (sd : Sculpt) (brush : option Brush)
    (ss : SculptSession) :
  is_enabled sd (Some ss) brush = true ->
  let mode := calc_effective_bits sd brush in
  let c0 := cache_init_settings sd brush ss in
  let ss0 := cache_init_attributes mode ss in
  let r := cache_init_reuse brush mode c0 ss0 in
  (reuse_conditions brush mode c0 ss = true ->
     current_stroke_id r.1 = last_automask_stroke_id ss
     /\ can_reuse_mask r.1 = true
     /\ last_automask_stroke_id r.2 = last_automask_stroke_id ss)
  /\ (use_stroke_id mode = true -> reuse_conditions brush mode c0 ss = false ->
        current_stroke_id r.1 = stroke_id ss
        /\ can_reuse_mask r.1 = false
        /\ last_automask_stroke_id r.2 = stroke_id ss)
  /\ (use_stroke_id mode = false -> r = (c0, ss0))
  /\ cache_init sd brush ss
     = (if needs_factors_cache sd brush
        then '(c, ss') ← cache_init_precompute sd brush r.1 r.2; Some (Some c, ss')
        else Some (Some r.1, factor_attribute_destroy r.2))
  /\ (forall c ss',
        cache_init_precompute sd brush r.1 r.2 = Some (c, ss') ->
        current_stroke_id c = current_stroke_id r.1
        /\ can_reuse_mask c = can_reuse_mask r.1
        /\ last_automask_stroke_id ss' = last_automask_stroke_id r.2).
Proof.
  intros Hen mode c0 ss0 r.
  pose proof (cache_init_settings_fresh sd brush ss) as [Hid Hfresh].
  fold c0 in Hid, Hfresh.
  pose proof (cache_init_attributes_frame mode ss) as F0. fold ss0 in F0.
  pose proof (SCULPT_stroke_id_ensure_frame ss0) as F1.
  destruct F0 as (_ & _ & Hsid0 & Hlast0 & Hhash0 & Hgeom0).
  destruct F1 as (_ & _ & Hsid1 & Hlast1 & Hhash1 & Hgeom1).
  assert (Hcond : reuse_conditions brush mode c0 ss
                  = use_stroke_id mode
                    && match brush with
                       | Some b =>
                           brush_type_can_reuse_automask (sculpt_brush_type b)
                           && negb (have_occlusion mode)
                           && (settings_hash (geom (SCULPT_stroke_id_ensure ss0)) c0
                               =? last_automasking_settings_hash
                                    (SCULPT_stroke_id_ensure ss0))
                       | None => false
                       end).
  { unfold reuse_conditions. rewrite Hgeom1, Hgeom0, Hhash1, Hhash0. reflexivity. }
  assert (Hno : use_stroke_id mode = true ->
                reuse_conditions brush mode c0 ss = false ->
                r = (c0, set_last_automask_stroke_id (SCULPT_stroke_id_ensure ss0)
                           (stroke_id (SCULPT_stroke_id_ensure ss0)))).
  { intros Hu Hc. subst r. unfold cache_init_reuse. rewrite Hu.
    rewrite Hcond, Hu in Hc. cbn [andb] in Hc.
    destruct brush as [b |].
    - destruct (brush_type_can_reuse_automask _ && negb _) eqn:E1.
      + cbn [andb] in Hc. rewrite Hc. rewrite Hfresh. reflexivity.
      + rewrite Hfresh. reflexivity.
    - rewrite Hfresh. reflexivity. }
  split; [| split; [| split; [| split]]].
  - intros Hc. rewrite Hcond in Hc. apply andb_true_iff in Hc as [Hu Hb].
    subst r. unfold cache_init_reuse. rewrite Hu.
    destruct brush as [b |]; [| discriminate]. rewrite <- andb_assoc in Hb.
    apply andb_true_iff in Hb as [Hb1 Hb2]. apply andb_true_iff in Hb2 as [Hb2 Hb3].
    rewrite Hb1, Hb2, Hb3. cbn. repeat split; congruence.
  - intros Hu Hc. rewrite (Hno Hu Hc). cbn. repeat split; congruence.
  - intros Hu. subst r. unfold cache_init_reuse. rewrite Hu. reflexivity.
  - apply cache_init_unfold. exact Hen.
  - intros c ss' Hpre. apply cache_init_precompute_frame in Hpre as (Hi & Hr & F).
    destruct F as (_ & _ & _ & Hl & _). repeat split; assumption.
Qed.

End ReuseRule.

Lemma cache_init_reuse_rule_witness :
  @is_enabled dna_flags example_cavity_sd (Some example_cavity_session)
    example_cavity_brush = true
  /\ @reuse_conditions dna_flags example_externals example_cavity_brush
       (@calc_effective_bits dna_flags example_cavity_sd example_cavity_brush)
       (@cache_init_settings dna_flags example_cavity_sd example_cavity_brush
          example_cavity_session)
       example_cavity_session = true
  /\ current_stroke_id
       (@cache_init_reuse dna_flags example_externals example_cavity_brush
          (@calc_effective_bits dna_flags example_cavity_sd example_cavity_brush)
          (@cache_init_settings dna_flags example_cavity_sd example_cavity_brush
             example_cavity_session)
          (@cache_init_attributes dna_flags
             (@calc_effective_bits dna_flags example_cavity_sd example_cavity_brush)
             example_cavity_session)).1
     = last_automask_stroke_id example_cavity_session.
Proof.
  split; [vm_compute; reflexivity |].
  split; [vm_compute; reflexivity |].
  apply (@cache_init_reuse_rule dna_flags example_externals example_cavity_sd
           example_cavity_brush example_cavity_session);
    vm_compute; reflexivity.
Defined.

(** C3 as stated fails twice.  With the face-set paint brush the brush type
    is allow-listed, no occlusion is requested and the settings hash equals
    the session's last hash, yet the cache is not marked reusable and keeps
    the current stroke id.  With the cavity paint brush the cache is marked
    reusable, yet the precompute pass runs: the factor buffer left by the
    previous stroke is overwritten. *)
Lemma cache_init_reuse_claim_fails :
  (brush_type_can_reuse_automask SCULPT_BRUSH_TYPE_PAINT = true
   /\ @have_occlusion dna_flags
        (@calc_effective_bits dna_flags example_face_set_sd example_face_set_brush)
      = false
   /\ @settings_hash dna_flags example_externals (geom example_face_set_session)
        (@cache_init_settings dna_flags example_face_set_sd example_face_set_brush
           example_face_set_session)
      = last_automasking_settings_hash example_face_set_session
   /\ exists c ss',
        @cache_init dna_flags example_externals example_face_set_sd
          example_face_set_brush example_face_set_session = Some (Some c, ss')
        /\ can_reuse_mask c = false
        /\ current_stroke_id c <> last_automask_stroke_id example_face_set_session)
  /\ (@have_occlusion dna_flags
        (@calc_effective_bits dna_flags example_cavity_sd example_cavity_brush)
      = false
      /\ @settings_hash dna_flags example_externals (geom example_cavity_session)
           (@cache_init_settings dna_flags example_cavity_sd example_cavity_brush
              example_cavity_session)
         = last_automasking_settings_hash example_cavity_session
      /\ exists c ss',
           @cache_init dna_flags example_externals example_cavity_sd
             example_cavity_brush example_cavity_session = Some (Some c, ss')
           /\ can_reuse_mask c = true
           /\ automasking_factor (attrs example_cavity_session)
              = Some (replicate 4 (7 # 10)%Q)
           /\ exists buf,
                automasking_factor (attrs ss') = Some buf
                /\ Forall2 Qeq buf [0%Q; (3 # 4)%Q; 1%Q; 1%Q]).
Proof.
  split.
  - split; [reflexivity |]. split; [vm_compute; reflexivity |].
    split; [vm_compute; reflexivity |].
    eexists _, _. split; [vm_compute; reflexivity |].
    split; [reflexivity | vm_compute; discriminate].
  - split; [vm_compute; reflexivity |].
    split; [vm_compute; reflexivity |].
    eexists _, _. split; [vm_compute; reflexivity |].
    split; [reflexivity |]. split; [reflexivity |].
    eexists. split; [vm_compute; reflexivity |].
    repeat constructor.
Qed.

(** ** Boundary propagation *)

(** The loop rule with an invariant indexed by the iteration. *)
Lemma for_range_indexed {S : Type} (P : nat -> S -> Prop) (n : nat)
    (body : nat -> S -> option S) (s : S) :
  P O s ->
  (forall i t, (i < n)%nat -> P i t -> exists t', body i t = Some t' /\ P (Datatypes.S i) t') ->
  exists s', for_range n body s = Some s' /\ P n s'.
Proof.
  induction n as [| n IH]; intros Hs Hbody.
  - exists s. split; [reflexivity | exact Hs].
  - destruct IH as (t & Ht & HPt); [exact Hs | |].
    { intros i u Hi. apply Hbody. lia. }
    destruct (Hbody n t) as (t' & Ht' & HPt'); [lia | exact HPt |].
    exists t'. split; [| exact HPt'].
    rewrite for_range_S, Ht. exact Ht'.
Qed.

Section EdgeLevels.
Variable g : Geometry.
Variable mode : BoundaryAutomaskMode.

Lemma edge_level_range (t v : nat) :
  edge_level g mode t v = EDGE_DISTANCE_INF
  \/ exists d, (d <= t)%nat /\ edge_level g mode t v = Z.of_nat d.
Proof.
  induction t as [| t IH]; cbn [edge_level].
  - destruct (is_boundary_element g mode v); [right; exists O; split; [lia | reflexivity] | left; reflexivity].
  - destruct IH as [IH | (d & Hd & IH)]; rewrite IH.
    + cbn. destruct (existsb _ _).
      * right. exists (S t). split; lia.
      * left. reflexivity.
    + replace (Z.of_nat d =? EDGE_DISTANCE_INF) with false
        by (symmetry; apply Z.eqb_neq; unfold EDGE_DISTANCE_INF; lia).
      right. exists d. split; [lia | reflexivity].
Qed.

(** A vertex reached in an earlier iteration keeps its distance. *)
Lemma edge_level_stable (t v : nat) :
  edge_level g mode t v <> EDGE_DISTANCE_INF ->
  edge_level g mode (S t) v = edge_level g mode t v.
Proof.
  intros Hne. cbn [edge_level].
  apply Z.eqb_neq in Hne. rewrite Hne. reflexivity.
Qed.

(** The test of the inner loop gives the same answer on a distance of this
    iteration and on one the iteration has already updated. *)
Lemma edge_level_test (t v : nat) :
  (edge_level g mode (S t) v =? Z.of_nat t) = (edge_level g mode t v =? Z.of_nat t).
Proof.
  cbn [edge_level].
  destruct (edge_level g mode t v =? EDGE_DISTANCE_INF) eqn:E; [| reflexivity].
  apply Z.eqb_eq in E. rewrite E.
  destruct (existsb _ _); unfold EDGE_DISTANCE_INF;
    [transitivity false | transitivity false];
    try (apply Z.eqb_neq; lia); symmetry; apply Z.eqb_neq; lia.
Qed.

Lemma boundary_path_step (k v n : nat) :
  n ∈ vertex_neighbors g v -> boundary_path g mode k n ->
  boundary_path g mode (S k) v.
Proof. intros Hn Hp. exists n. split; assumption. Qed.

(** What the propagation computes is the graph distance: a finite level
    [d] is the length of a shortest path to a boundary element, and an
    infinite level after [t] iterations means that no path of at most [t]
    edges exists. *)
Lemma edge_level_sound (t : nat) :
  forall v,
    (forall d, edge_level g mode t v = Z.of_nat d ->
               boundary_distance g mode v d /\ (d <= t)%nat)
    /\ (edge_level g mode t v = EDGE_DISTANCE_INF ->
        forall k, (k <= t)%nat -> ~ boundary_path g mode k v).
Proof.
  induction t as [| t IH]; intros v.
  - cbn [edge_level]. destruct (is_boundary_element g mode v) eqn:Eb; split.
    + intros d Hd. assert (d = O) by lia. subst d.
      split; [| lia]. split; [exact Eb | intros k Hk; lia].
    + unfold EDGE_DISTANCE_INF. discriminate.
    + unfold EDGE_DISTANCE_INF. intros d Hd. lia.
    + intros _ k Hk. assert (k = O) by lia. subst k. cbn. congruence.
  - destruct (IH v) as [IHfin IHinf].
    cbn [edge_level].
    destruct (edge_level g mode t v =? EDGE_DISTANCE_INF) eqn:E.
    + apply Z.eqb_eq in E. specialize (IHinf E).
      destruct (existsb _ _) eqn:Ex.
      * apply existsb_exists in Ex as (n & Hn & Hlev).
        apply Z.eqb_eq in Hlev. apply list_elem_of_In in Hn.
        destruct (IH n) as [IHn _]. destruct (IHn t Hlev) as [[Hpath _] _].
        split.
        -- intros d Hd. assert (d = S t) by lia. subst d.
           split; [| lia]. split.
           ++ eapply boundary_path_step; eassumption.
           ++ intros k Hk. apply IHinf. lia.
        -- unfold EDGE_DISTANCE_INF. lia.
      * split; [unfold EDGE_DISTANCE_INF; intros d Hd; lia |].
        intros _ k Hk. destruct (Nat.eq_dec k (S t)) as [-> | Hne];
          [| apply IHinf; lia].
        intros (n & Hn & Hpath).
        destruct (IH n) as [IHn IHn'].
        destruct (edge_level_range t n) as [Hinf | (d & Hd & Hfin)].
        -- apply (IHn' Hinf t); [lia | exact Hpath].
        -- destruct (IHn d Hfin) as [[Hpd Hmin] _].
           destruct (Nat.eq_dec d t) as [-> | Hdt].
           ++ assert (Hex : existsb (fun ni => edge_level g mode t ni =? Z.of_nat t)
                              (vertex_neighbors g v) = true).
              { apply existsb_exists. exists n. split;
                  [apply list_elem_of_In; exact Hn | apply Z.eqb_eq; exact Hfin]. }
              congruence.
           ++ apply (IHinf (S d)); [lia |].
              eapply boundary_path_step; eassumption.
    + apply Z.eqb_neq in E. split; [| intros Habs; contradiction].
      intros d Hd. destruct (IHfin d Hd) as [Hdist Hle]. split; [exact Hdist | lia].
Qed.

(** Conversely the level of a vertex at graph distance [d <= t] is [d]. *)
Lemma edge_level_complete (t v d : nat) :
  boundary_distance g mode v d -> (d <= t)%nat ->
  edge_level g mode t v = Z.of_nat d.
Proof.
  intros [Hpath Hmin] Hle.
  destruct (edge_level_sound t v) as [Hfin Hinf].
  destruct (edge_level_range t v) as [E | (d' & Hd' & E)].
  - exfalso. apply (Hinf E d Hle Hpath).
  - destruct (Hfin d' E) as [[Hpath' Hmin'] _].
    destruct (Nat.lt_trichotomy d d') as [Hlt | [-> | Hgt]].
    + exfalso. apply (Hmin' d Hlt Hpath).
    + exact E.
    + exfalso. apply (Hmin d' Hgt Hpath').
Qed.

End EdgeLevels.

Section Propagation.
Variable g : Geometry.
Variable mode : BoundaryAutomaskMode.
Hypothesis Hclosed : geometry_closed g.

Local Abbreviation n := (SCULPT_vertex_count_get g).

Lemma mixed_levels_length (t i : nat) : length (mixed_levels g mode t i) = n.
Proof. unfold mixed_levels. rewrite length_map, length_seq. reflexivity. Qed.

Lemma mixed_levels_lookup (t i v : nat) :
  (v < n)%nat ->
  mixed_levels g mode t i !! v
  = Some (if (v <? i)%nat then edge_level g mode (S t) v else edge_level g mode t v).
Proof.
  intros Hv. unfold mixed_levels.
  rewrite list_lookup_fmap, lookup_seq_lt by exact Hv. reflexivity.
Qed.

Lemma mixed_levels_zero (t : nat) :
  mixed_levels g mode t 0 = map (edge_level g mode t) (seq 0 n).
Proof. reflexivity. Qed.

Lemma mixed_levels_full (t : nat) :
  mixed_levels g mode t n = map (edge_level g mode (S t)) (seq 0 n).
Proof.
  unfold mixed_levels. apply map_ext_in. intros v Hv.
  apply in_seq in Hv. destruct (Nat.ltb_spec v n); [reflexivity | lia].
Qed.

Lemma mixed_levels_insert (t i : nat) :
  (i < n)%nat ->
  <[i := edge_level g mode (S t) i]> (mixed_levels g mode t i)
  = mixed_levels g mode t (S i).
Proof.
  intros Hi. apply list_eq. intros v.
  destruct (Nat.lt_ge_cases v n) as [Hv | Hv].
  - rewrite (mixed_levels_lookup t (S i) v Hv).
    destruct (Nat.eq_dec v i) as [-> | Hne].
    + rewrite list_lookup_insert_eq by (rewrite mixed_levels_length; exact Hi).
      destruct (Nat.ltb_spec i (S i)); [reflexivity | lia].
    + rewrite list_lookup_insert_ne by congruence.
      rewrite (mixed_levels_lookup t i v Hv).
      destruct (Nat.ltb_spec v i), (Nat.ltb_spec v (S i)); try reflexivity; lia.
  - rewrite !lookup_ge_None_2;
      rewrite ?length_insert, ?mixed_levels_length; try reflexivity; exact Hv.
Qed.

(** The neighbor loop of one vertex [i] whose distance is still infinite:
    it ends with distance [t + 1] exactly when a neighbor has distance [t]. *)
Lemma edge_distance_relax_neighbors (t i : nat) (nbrs : list nat) (hit : bool) :
  (i < n)%nat ->
  edge_level g mode t i = EDGE_DISTANCE_INF ->
  (forall ni, ni ∈ nbrs -> (ni < n)%nat) ->
  let state (h : bool) :=
    if h then <[i := Z.of_nat t + 1]> (mixed_levels g mode t i)
    else mixed_levels g mode t i in
  foldl
    (fun acc ni =>
       edge_distance ← acc;
       dn ← edge_distance !! ni;
       if dn =? Z.of_nat t
       then Some (<[i := Z.of_nat t + 1]> edge_distance)
       else Some edge_distance)
    (Some (state hit)) nbrs
  = Some (state (hit || existsb (fun ni => edge_level g mode t ni =? Z.of_nat t) nbrs)).
Proof.
  intros Hi Hinf Hn state. revert hit.
  induction nbrs as [| ni nbrs IH]; intros hit.
  - cbn. rewrite orb_false_r. reflexivity.
  - cbn [foldl existsb]. cbn [mbind option_bind].
    assert (Hni : (ni < n)%nat) by (apply Hn; left).
    assert (Hread : exists dn, state hit !! ni = Some dn
                               /\ (dn =? Z.of_nat t)
                                  = (edge_level g mode t ni =? Z.of_nat t)).
    { destruct (Nat.eq_dec ni i) as [-> | Hne].
      - assert (Hf : (edge_level g mode t i =? Z.of_nat t) = false).
        { rewrite Hinf. apply Z.eqb_neq. unfold EDGE_DISTANCE_INF. lia. }
        destruct hit; cbn.
        + exists (Z.of_nat t + 1). split.
          * apply list_lookup_insert_eq. rewrite mixed_levels_length. exact Hi.
          * rewrite Hf. apply Z.eqb_neq. lia.
        + exists (edge_level g mode t i). split; [| reflexivity].
          rewrite mixed_levels_lookup by exact Hi.
          destruct (Nat.ltb_spec i i); [lia | reflexivity].
      - exists (if (ni <? i)%nat then edge_level g mode (S t) ni
                else edge_level g mode t ni).
        split.
        + destruct hit; cbn; rewrite ?list_lookup_insert_ne by congruence;
            apply mixed_levels_lookup; exact Hni.
        + destruct (ni <? i)%nat; [apply edge_level_test | reflexivity]. }
    destruct Hread as (dn & Hdn & Htest). rewrite Hdn. cbn [mbind option_bind].
    rewrite Htest.
    destruct (edge_level g mode t ni =? Z.of_nat t).
    + replace (<[i := Z.of_nat t + 1]> (state hit)) with (state true).
      * rewrite IH by (intros m Hm; apply Hn; right; exact Hm).
        cbn. rewrite orb_true_r. reflexivity.
      * destruct hit; cbn; [rewrite list_insert_insert_eq |]; reflexivity.
    + rewrite IH by (intros m Hm; apply Hn; right; exact Hm).
      reflexivity.
Qed.

Lemma edge_distance_relax_step (t i : nat) :
  (i < n)%nat ->
  edge_distance_relax g (Z.of_nat t) i (mixed_levels g mode t i)
  = Some (mixed_levels g mode t (S i)).
Proof.
  intros Hi. unfold edge_distance_relax.
  rewrite mixed_levels_lookup by exact Hi.
  destruct (Nat.ltb_spec i i); [lia |]. cbn [mbind option_bind].
  destruct (edge_level g mode t i =? EDGE_DISTANCE_INF) eqn:E; cbn [negb].
  - apply Z.eqb_eq in E.
    pose proof (edge_distance_relax_neighbors t i (vertex_neighbors g i) false Hi E)
      as Hfold.
    cbv zeta in Hfold. cbn [orb] in Hfold. rewrite Hfold.
    + f_equal. rewrite <- mixed_levels_insert by exact Hi.
      cbn [edge_level]. rewrite E. cbn.
      destruct (existsb _ _); [reflexivity |].
      symmetry. apply list_insert_id.
      rewrite mixed_levels_lookup by exact Hi.
      destruct (Nat.ltb_spec i i); [lia | congruence].
    + intros ni Hni. eapply Hclosed; eassumption.
  - f_equal. rewrite <- mixed_levels_insert by exact Hi.
    symmetry. apply list_insert_id.
    rewrite mixed_levels_lookup by exact Hi.
    destruct (Nat.ltb_spec i i); [lia |].
    rewrite edge_level_stable; [reflexivity |]. apply Z.eqb_neq. exact E.
Qed.

(** One iteration of the outer loop: the in-place pass takes the
    distances of level [t] to those of level [t + 1]. *)
Lemma edge_distance_pass (t : nat) :
  for_range n (edge_distance_relax g (Z.of_nat t))
    (map (edge_level g mode t) (seq 0 n))
  = Some (map (edge_level g mode (S t)) (seq 0 n)).
Proof.
  destruct (for_range_indexed (fun i dist => dist = mixed_levels g mode t i) n
              (edge_distance_relax g (Z.of_nat t))
              (map (edge_level g mode t) (seq 0 n)))
    as (dist & Hrun & Hdist).
  - symmetry. apply mixed_levels_zero.
  - intros i dist Hi ->. eexists. split; [apply edge_distance_relax_step; exact Hi |].
    reflexivity.
  - rewrite Hrun, Hdist, mixed_levels_full. reflexivity.
Qed.

(** The propagation loops compute the levels of [propagation_steps]
    iterations. *)
Lemma edge_distance_propagate_levels (propagation_steps : Z) :
  edge_distance_propagate g propagation_steps (edge_distance_init g mode)
  = Some (map (edge_level g mode (Z.to_nat propagation_steps)) (seq 0 n)).
Proof.
  unfold edge_distance_propagate.
  destruct (for_range_indexed
              (fun t dist => dist = map (edge_level g mode t) (seq 0 n))
              (Z.to_nat propagation_steps)
              (fun propagation_it edge_distance =>
                 for_range n (edge_distance_relax g (Z.of_nat propagation_it))
                   edge_distance)
              (edge_distance_init g mode))
    as (dist & Hrun & Hdist).
  - reflexivity.
  - intros t dist _ ->. eexists. split; [apply edge_distance_pass | reflexivity].
  - rewrite Hrun, Hdist. reflexivity.
Qed.

End Propagation.

(** ** Boundary automasking: the falloff *)

Lemma attr_write_Some {A : Type} (buf : list A) (v : nat) (a : A) :
  (v < length buf)%nat -> attr_write (Some buf) v a = Some (<[v := a]> buf).
Proof.
  intros Hv. unfold attr_write. cbn [mbind option_bind].
  rewrite bool_decide_eq_true_2 by exact Hv. reflexivity.
Qed.

Lemma attr_read_Some {A : Type} (buf : list A) (v : nat) :
  attr_read (Some buf) v = buf !! v.
Proof. reflexivity. Qed.

Lemma factor_write_Some (ss : SculptSession) (buf : list float) (v : nat) (q : float) :
  automasking_factor (attrs ss) = Some buf -> (v < length buf)%nat ->
  factor_write v q ss = Some (set_factor ss (Some (<[v := q]> buf))).
Proof.
  intros Hb Hv. unfold factor_write. rewrite Hb, attr_write_Some by exact Hv.
  reflexivity.
Qed.

(** With a step count other than zero the scale is defined, and is the
    falloff formula. *)
Lemma edge_boundary_scale_Some (d steps : Z) :
  steps <> 0 -> edge_boundary_scale d steps = Some (falloff_scale d steps).
Proof.
  intros Hs. unfold edge_boundary_scale. rewrite divf_Some; [reflexivity |].
  unfold Qeq. cbn. lia.
Qed.

(** With zero steps the quotient is undefined. *)
Lemma edge_boundary_scale_zero_steps (d : Z) : edge_boundary_scale d 0 = None.
Proof. reflexivity. Qed.

(** The last loop of [init_boundary_masking]: every vertex with a finite
    distance is scaled, every other vertex keeps its factor. *)
Lemma boundary_apply_loop (ss : SculptSession) (dist : nat -> Z) (steps : Z)
    (buf : list float) :
  steps <> 0 ->
  automasking_factor (attrs ss) = Some buf ->
  length buf = SCULPT_vertex_count_get (geom ss) ->
  exists ss' buf',
    for_range (SCULPT_vertex_count_get (geom ss))
      (boundary_apply (map dist (seq 0 (SCULPT_vertex_count_get (geom ss)))) steps) ss
    = Some ss'
    /\ same_frame ss ss'
    /\ automasking_factor (attrs ss') = Some buf'
    /\ length buf' = length buf
    /\ forall v, buf' !! v
                 = (fun old => if dist v =? EDGE_DISTANCE_INF then old
                               else (old * falloff_scale (dist v) steps)%Q)
                   <$> buf !! v.
Proof.
  intros Hsteps Hbuf Hlen.
  set (n := SCULPT_vertex_count_get (geom ss)) in *.
  set (expected v := (fun old => if dist v =? EDGE_DISTANCE_INF then old
                                 else (old * falloff_scale (dist v) steps)%Q)
                     <$> buf !! v).
  destruct (for_range_indexed
              (fun i t => same_frame ss t
                          /\ exists b, automasking_factor (attrs t) = Some b
                                       /\ length b = n
                                       /\ forall v, b !! v = if (v <? i)%nat
                                                             then expected v
                                                             else buf !! v)
              n (boundary_apply (map dist (seq 0 n)) steps) ss)
    as (ss' & Hrun & Hframe & b & Hb & Hblen & Hbv).
  - split; [apply same_frame_refl |]. exists buf.
    split; [exact Hbuf |]. split; [exact Hlen |]. intros v. reflexivity.
  - intros i t Hi (Hframe & b & Hb & Hblen & Hbv).
    unfold boundary_apply.
    rewrite list_lookup_fmap, lookup_seq_lt by exact Hi. cbn [fmap option_fmap option_map mbind option_bind].
    assert (Hold : exists old, buf !! i = Some old).
    { apply lookup_lt_is_Some. lia. }
    destruct Hold as (old & Hold).
    assert (Hbi : b !! i = Some old).
    { rewrite Hbv. destruct (Nat.ltb_spec i i); [lia | exact Hold]. }
    destruct (dist (0 + i)%nat =? EDGE_DISTANCE_INF) eqn:E; cbn [Nat.add] in E.
    + exists t. split; [reflexivity |]. split; [exact Hframe |].
      exists b. split; [exact Hb |]. split; [exact Hblen |].
      intros v. rewrite Hbv.
      destruct (Nat.ltb_spec v i), (Nat.ltb_spec v (S i)); try reflexivity; try lia.
      assert (v = i) by lia. subst v. unfold expected. rewrite E, Hold. reflexivity.
    + rewrite edge_boundary_scale_Some by exact Hsteps. cbn [mbind option_bind].
      unfold attr_read. rewrite Hb. cbn [mbind option_bind]. rewrite Hbi.
      cbn [mbind option_bind].
      rewrite (factor_write_Some t b) by (try exact Hb; lia).
      eexists. split; [reflexivity |].
      split; [eapply same_frame_trans; [exact Hframe | apply same_frame_set_attrs] |].
      eexists. split; [reflexivity |].
      split; [rewrite length_insert; exact Hblen |].
      intros v. destruct (Nat.eq_dec v i) as [-> | Hne].
      * rewrite list_lookup_insert_eq by lia.
        destruct (Nat.ltb_spec i (S i)); [| lia].
        unfold expected. rewrite E, Hold. reflexivity.
      * rewrite list_lookup_insert_ne by congruence. rewrite Hbv.
        destruct (Nat.ltb_spec v i), (Nat.ltb_spec v (S i)); try reflexivity; lia.
  - exists ss', b. split; [exact Hrun |]. split; [exact Hframe |].
    split; [exact Hb |]. split; [lia |].
    intros v. rewrite Hbv. destruct (Nat.ltb_spec v n) as [Hv | Hv]; [reflexivity |].
    unfold expected. rewrite lookup_ge_None_2 by lia. reflexivity.
Qed.

(** C5: with [steps > 0] propagation steps on a mesh whose adjacency stays
    inside the mesh, boundary automasking multiplies the factor of every
    vertex at graph distance [d <= steps] from the nearest boundary
    element by [1 - (1 - d / steps)^2], which makes it 0 at a boundary
    element, and leaves the factor of every vertex with no boundary element
    within [steps] edges as it was. *)
Theorem init_boundary_masking_falloff (ss : SculptSession)
    (mode : BoundaryAutomaskMode) (steps : Z) (buf : list float) :
  geometry_closed (geom ss) ->
  0 < steps ->
  automasking_factor (attrs ss) = Some buf ->
  length buf = SCULPT_vertex_count_get (geom ss) ->
  exists ss' buf',
    init_boundary_masking mode steps ss = Some ss'
    /\ automasking_factor (attrs ss') = Some buf'
    /\ length buf' = length buf
    /\ forall v old,
         buf !! v = Some old ->
         (forall d, boundary_distance (geom ss) mode v d -> Z.of_nat d <= steps ->
            buf' !! v
            = Some (old * (1 - (1 - inject_Z (Z.of_nat d) / inject_Z steps)
                               * (1 - inject_Z (Z.of_nat d) / inject_Z steps)))%Q)
         /\ (boundary_distance (geom ss) mode v 0 ->
             exists new, buf' !! v = Some new /\ (new == 0)%Q)
         /\ ((forall d, Z.of_nat d <= steps -> ~ boundary_path (geom ss) mode d v) ->
             buf' !! v = Some old).
Proof.
  intros Hclosed Hsteps Hbuf Hlen.
  unfold init_boundary_masking.
  rewrite (edge_distance_propagate_levels (geom ss) mode Hclosed steps).
  cbn [mbind option_bind].
  destruct (boundary_apply_loop ss (edge_level (geom ss) mode (Z.to_nat steps))
              steps buf ltac:(lia) Hbuf Hlen)
    as (ss' & buf' & Hrun & _ & Hbuf' & Hlen' & Hv).
  exists ss', buf'. split; [exact Hrun |]. split; [exact Hbuf' |].
  split; [exact Hlen' |].
  intros v old Hold.
  assert (Hfin : forall d, boundary_distance (geom ss) mode v d -> Z.of_nat d <= steps ->
                 buf' !! v = Some (old * falloff_scale (Z.of_nat d) steps)%Q).
  { intros d Hd Hle. rewrite Hv, Hold. cbn [fmap option_fmap option_map].
    rewrite (edge_level_complete (geom ss) mode (Z.to_nat steps) v d Hd) by lia.
    replace (Z.of_nat d =? EDGE_DISTANCE_INF) with false; [reflexivity |].
    symmetry. apply Z.eqb_neq. unfold EDGE_DISTANCE_INF. lia. }
  split; [| split].
  - exact Hfin.
  - intros Hd. eexists. split; [apply (Hfin O Hd); lia |].
    unfold falloff_scale, pow2f. cbn [Z.of_nat].
    change (inject_Z 0) with 0%Q. unfold Qdiv. ring.
  - intros Hnone. rewrite Hv, Hold. cbn [fmap option_fmap option_map].
    destruct (edge_level_range (geom ss) mode (Z.to_nat steps) v) as [E | (d & Hd & E)].
    + rewrite E. reflexivity.
    + exfalso. destruct (edge_level_sound (geom ss) mode (Z.to_nat steps) v) as [Hs _].
      destruct (Hs d E) as [[Hpath _] _]. apply (Hnone d); [lia | exact Hpath].
Qed.

(** ** Cavity: the gather loop terminates *)

Lemma gset_bounded_size (vis : gset nat) (n : nat) :
  (forall x, x ∈ vis -> (x < n)%nat) -> (size vis <= n)%nat.
Proof.
  intros Hb. rewrite <- (size_set_seq (C := gset nat) 0 n).
  apply subseteq_size. intros x Hx. apply elem_of_set_seq.
  specialize (Hb x Hx). lia.
Qed.

Section CavityLoop.
Context `{Externals}.
Variable g : Geometry.

Local Abbreviation n := (SCULPT_vertex_count_get g).

(** Pushing the unvisited neighbors keeps the queue and the visited set
    inside the mesh and moves as many vertices into the queue as it marks
    visited. *)
Lemma cavity_push_neighbors_measure (blurvert : CavityBlurVert)
    (queue queue' : list CavityBlurVert) (visit visit' : gset nat) :
  (forall b, b ∈ queue -> (cbv_vertex b < n)%nat) ->
  (forall x, x ∈ visit -> (x < n)%nat) ->
  (forall x, x ∈ vertex_neighbors g (cbv_vertex blurvert) -> (x < n)%nat) ->
  cavity_push_neighbors g blurvert queue visit = (queue', visit') ->
  (forall b, b ∈ queue' -> (cbv_vertex b < n)%nat)
  /\ (forall x, x ∈ visit' -> (x < n)%nat)
  /\ (length queue' + (n - size visit') = length queue + (n - size visit))%nat.
Proof.
  unfold cavity_push_neighbors.
  generalize (vertex_neighbors g (cbv_vertex blurvert)) as nbrs.
  intros nbrs. revert queue visit.
  induction nbrs as [| v2 nbrs IHn]; intros queue visit Hq Hvis Hn Hpush.
  - cbn in Hpush. injection Hpush as <- <-. auto.
  - cbn [fold_left] in Hpush.
    assert (Hn' : forall x, x ∈ nbrs -> (x < n)%nat).
    { intros x Hx. apply Hn. right. exact Hx. }
    destruct (bool_decide (v2 ∈ visit)) eqn:Ein.
    + exact (IHn queue visit Hq Hvis Hn' Hpush).
    + apply bool_decide_eq_false in Ein.
      assert (Hv2 : (v2 < n)%nat) by (apply Hn; left).
      assert (Hvis' : forall x, x ∈ ({[v2]} ∪ visit : gset nat) -> (x < n)%nat).
      { intros x Hx. apply elem_of_union in Hx as [Hx | Hx].
        - apply elem_of_singleton in Hx. subst x. exact Hv2.
        - apply Hvis. exact Hx. }
      match type of Hpush with
      | fold_left _ _ (?q1, _) = _ =>
          assert (Hq' : forall b, b ∈ q1 -> (cbv_vertex b < n)%nat)
      end.
      { intros b Hb. apply elem_of_app in Hb as [Hb | Hb]; [apply Hq; exact Hb |].
        apply list_elem_of_singleton in Hb. subst b. exact Hv2. }
      destruct (IHn _ _ Hq' Hvis' Hn' Hpush) as (Hb1 & Hb2 & Hm).
      split; [exact Hb1 |]. split; [exact Hb2 |]. rewrite Hm.
      rewrite length_app. cbn [length].
      assert (Hsz : size ({[v2]} ∪ visit : gset nat) = S (size visit)).
      { rewrite size_union by (apply disjoint_singleton_l; exact Ein).
        rewrite size_singleton. reflexivity. }
      pose proof (gset_bounded_size _ n Hvis') as Hle.
      rewrite Hsz in *. lia.
Qed.

(** The loop ends within as many iterations as there are queued and
    unvisited vertices. *)
Lemma cavity_blur_loop_total (fuel : nat) (co1 : float3) (steps : Z)
    (queue : list CavityBlurVert) (visit : gset nat) (a : CavitySums) :
  geometry_closed g ->
  (forall b, b ∈ queue -> (cbv_vertex b < n)%nat) ->
  (forall x, x ∈ visit -> (x < n)%nat) ->
  (length queue + (n - size visit) <= fuel)%nat ->
  exists a', cavity_blur_loop fuel g co1 steps queue visit a = Some a'.
Proof.
  intros Hclosed. revert queue visit a.
  induction fuel as [| fuel IH]; intros queue visit a Hq Hvis Hm.
  - destruct queue as [| b queue]; [eexists; reflexivity | cbn in Hm; lia].
  - destruct queue as [| b queue]; [eexists; reflexivity |].
    cbn [cavity_blur_loop].
    assert (Hb : (cbv_vertex b < n)%nat) by (apply Hq; left).
    assert (Hq' : forall c, c ∈ queue -> (cbv_vertex c < n)%nat).
    { intros c Hc. apply Hq. right. exact Hc. }
    cbn [length] in Hm.
    destruct (cbv_depth b >=? steps).
    + apply IH; [exact Hq' | exact Hvis | lia].
    + destruct (cavity_push_neighbors g b queue visit) as [queue' visit'] eqn:Ep.
      destruct (cavity_push_neighbors_measure b queue queue' visit visit' Hq' Hvis)
        as (Hb1 & Hb2 & Hmeasure); [| exact Ep |].
      { intros x Hx. eapply Hclosed; eassumption. }
      apply IH; [exact Hb1 | exact Hb2 | lia].
Qed.

Lemma calc_blurred_cavity_locals_total (steps : Z) (vertex : nat) :
  geometry_closed g -> (vertex < n)%nat ->
  exists l, calc_blurred_cavity_locals g steps vertex = Some l.
Proof.
  intros Hclosed Hv. unfold calc_blurred_cavity_locals.
  edestruct (cavity_blur_loop_total n (SCULPT_vertex_co_get g vertex) (steps + 1)
               [{| cbv_vertex := vertex; cbv_dist := 0%Q; cbv_depth := 0 |}]
               {[vertex]} cavity_sums_init Hclosed) as (a & Ha).
  - intros b Hb. apply list_elem_of_singleton in Hb. subst b. exact Hv.
  - intros x Hx. apply elem_of_singleton in Hx. subst x. exact Hv.
  - rewrite size_singleton. cbn [length]. lia.
  - rewrite Ha. eexists. reflexivity.
Qed.

End CavityLoop.

(** ** Cavity: the factor *)

Section CavityFactor.
Context `{AutomaskFlags} `{Externals}.

Local Open Scope Q_scope.

Lemma calc_cavity_factor_unit (automasking : Cache) (factor : float) :
  0 <= calc_cavity_factor automasking factor <= 1.
Proof.
  unfold calc_cavity_factor.
  match goal with
  | |- context [CLAMP ?a 0 1] => pose proof (CLAMP_range a 0 1 ltac:(lra)) as Hc
  end.
  destruct (has_flag _ _); lra.
Qed.

(** A raw curvature estimate of zero gives the neutral midpoint, whatever
    the cavity strength and the inversion flag. *)
Lemma calc_cavity_factor_zero (automasking : Cache) (factor : float) :
  factor == 0 -> calc_cavity_factor automasking factor == 1 # 2.
Proof.
  intros Hz. unfold calc_cavity_factor.
  set (raw := Qabs factor * cavity_factor (settings automasking) * 50
              * signf factor * (1 # 2) + (1 # 2)).
  assert (Hraw : raw == 1 # 2).
  { assert (Ha : Qabs factor == 0) by (rewrite Hz; reflexivity).
    unfold raw. rewrite Ha. ring. }
  assert (Hclamp : CLAMP raw 0 1 == 1 # 2).
  { unfold CLAMP, gtb.
    destruct (ltb raw 0) eqn:E1; [apply ltb_lt in E1; lra |].
    destruct (ltb 1 raw) eqn:E2; [apply ltb_lt in E2; lra |].
    exact Hraw. }
  destruct (has_flag _ _); rewrite Hclamp; reflexivity.
Qed.

(** The estimate of zero: on a mesh whose adjacency stays inside the mesh,
    when the displacement between the two ring centroids is orthogonal to the
    averaged normal of the inner ring and the mean distance of the visited
    vertices to the queried one, which divides the estimate, is not zero,
    [calc_blurred_cavity] stores exactly 1/2 for the vertex, for every blur
    step count, cavity strength and setting of the inversion flag. *)
Theorem calc_blurred_cavity_flat (ss : SculptSession) (automasking : Cache)
    (steps : Z) (vertex : nat) (buf : list float) :
  geometry_closed (geom ss) ->
  (vertex < SCULPT_vertex_count_get (geom ss))%nat ->
  automasking_cavity (attrs ss) = Some buf ->
  (vertex < length buf)%nat ->
  (forall l, calc_blurred_cavity_locals (geom ss) steps vertex = Some l ->
             dot_v3v3 (cl_vec l) (cl_sno2 l) == 0) ->
  (forall l, calc_blurred_cavity_locals (geom ss) steps vertex = Some l ->
             ~ cl_len1_sum l == 0) ->
  exists ss' buf' f,
    calc_blurred_cavity ss automasking steps vertex = Some ss'
    /\ automasking_cavity (attrs ss') = Some buf'
    /\ buf' !! vertex = Some f
    /\ f == 1 # 2.
Proof.
  intros Hclosed Hv Hbuf Hlen Hflat Hreg.
  destruct (calc_blurred_cavity_locals_total (geom ss) steps vertex Hclosed Hv)
    as (l & Hl).
  unfold calc_blurred_cavity. rewrite Hl. cbn [mbind option_bind].
  rewrite (divf_Some _ _ (Hreg l Hl)). cbn [mbind option_bind].
  rewrite Hbuf, attr_write_Some by exact Hlen. cbn [mbind option_bind].
  eexists _, _, _. split; [reflexivity |]. split; [reflexivity |].
  split; [apply list_lookup_insert_eq; exact Hlen |].
  apply calc_cavity_factor_zero.
  rewrite (Hflat l Hl). unfold Qdiv. ring.
Qed.

(** A vertex without neighbors that lies at distance zero of itself: the
    blur visits the vertex alone, the mean distance is zero, and the
    quotient of the cavity estimate, 0 / 0 in the source, is undefined. *)
Theorem calc_blurred_cavity_isolated (ss : SculptSession) (automasking : Cache)
    (steps : Z) (vertex : nat) :
  (vertex < SCULPT_vertex_count_get (geom ss))%nat ->
  vertex_neighbors (geom ss) vertex = [] ->
  (0 <= steps)%Z ->
  len_v3v3 (SCULPT_vertex_co_get (geom ss) vertex)
           (SCULPT_vertex_co_get (geom ss) vertex) == 0 ->
  calc_blurred_cavity ss automasking steps vertex = None.
Proof.
  intros Hv Hn Hsteps Hlen.
  assert (Hq : forall q : float, q == 0 -> (0 + q) / inject_Z 1 == 0).
  { intros q Hq. rewrite Hq. reflexivity. }
  unfold calc_blurred_cavity, calc_blurred_cavity_locals.
  destruct (SCULPT_vertex_count_get (geom ss)) as [| fuel]; [lia |].
  cbn [cavity_blur_loop cbv_depth].
  replace (0 >=? steps + 1)%Z with false
    by (symmetry; rewrite Z.geb_leb; apply Z.leb_gt; lia).
  unfold cavity_push_neighbors. cbn [cbv_vertex]. rewrite Hn. cbn [fold_left].
  destruct fuel; cbn [cavity_blur_loop mbind option_bind];
    (rewrite divf_None; [reflexivity |]);
    unfold cavity_finish, cavity_gather;
    cbn [cl_len1_sum sco1_len len1_sum cavity_sums_init cbv_vertex Z.add Z.eqb];
    apply Hq, Hlen.
Qed.

End CavityFactor.

(** ** The factor query stays in the unit interval *)

Lemma in_unit_mult (a b : float) : in_unit a -> in_unit b -> in_unit (a * b)%Q.
Proof.
  unfold in_unit. intros [Ha0 Ha1] [Hb0 Hb1]. split.
  - apply Qmult_le_0_compat; assumption.
  - assert (Hab : (0 <= (1 - a) * b)%Q) by (apply Qmult_le_0_compat; lra).
    assert (Heq : ((1 - a) * b == b - a * b)%Q) by ring. lra.
Qed.

Lemma in_unit_0 : in_unit 0%Q.
Proof. unfold in_unit. lra. Qed.

Lemma in_unit_1 : in_unit 1%Q.
Proof. unfold in_unit. lra. Qed.

Lemma in_unit_compl (a : float) : in_unit a -> in_unit (1 - a)%Q.
Proof. unfold in_unit. lra. Qed.

Lemma smoothstep_unit (t : float) : in_unit t -> in_unit (t * t * (3 - 2 * t))%Q.
Proof.
  unfold in_unit. intros [H0 H1].
  assert (Ha : (0 <= (t * t) * (3 - 2 * t))%Q).
  { apply Qmult_le_0_compat; [apply Qmult_le_0_compat; lra | lra]. }
  assert (Hb : (0 <= ((1 - t) * (1 - t)) * (1 + 2 * t))%Q).
  { apply Qmult_le_0_compat; [apply Qmult_le_0_compat; lra | lra]. }
  assert (He : (1 - t * t * (3 - 2 * t) == (1 - t) * (1 - t) * (1 + 2 * t))%Q) by ring.
  split; lra.
Qed.

Section FactorUnit.
Context `{AutomaskFlags} `{Externals}.

Lemma normal_calc_unit (g : Geometry) (vertex : nat) (normal : float3)
    (limit_lower limit_upper : float) (orig_normal : option float3) :
  in_unit (normal_calc g vertex normal limit_lower limit_upper orig_normal).
Proof.
  unfold normal_calc.
  set (angle := safe_acosf _).
  destruct (gtb angle limit_lower && ltb angle limit_upper) eqn:E.
  - apply andb_true_iff in E as [E1 E2].
    apply ltb_lt in E1. apply ltb_lt in E2.
    apply smoothstep_unit. unfold in_unit.
    assert (Hpos : (0 < limit_upper - limit_lower)%Q) by lra.
    assert (Hq : (0 <= (angle - limit_lower) / (limit_upper - limit_lower) <= 1)%Q).
    { split.
      - apply Qle_shift_div_l; [exact Hpos | lra].
      - apply Qle_shift_div_r; [exact Hpos | lra]. }
    lra.
  - destruct (gtb angle limit_upper); [apply in_unit_0 | apply in_unit_1].
Qed.


Lemma session_ok_set_stroke_ids (ss : SculptSession) (automasking : Cache)
    (buf : list Z) :
  session_ok ss automasking ->
  length buf = SCULPT_vertex_count_get (geom ss) ->
  session_ok (set_stroke_ids ss (Some buf)) automasking.
Proof.
  intros (Hg & Hf & Hs & Ho & Hc & Hcav & Hocc & Huf & Huc) Hlen.
  unfold session_ok. cbn.
  repeat split; try assumption.
  - intros b [= <-]. exact Hlen.
  - eexists; reflexivity.
  - apply Hcav. assumption.
Qed.

Lemma session_ok_set_occlusion (ss : SculptSession) (automasking : Cache)
    (buf : list Z) :
  session_ok ss automasking ->
  length buf = SCULPT_vertex_count_get (geom ss) ->
  session_ok (set_occlusion ss (Some buf)) automasking.
Proof.
  intros (Hg & Hf & Hs & Ho & Hc & Hcav & Hocc & Huf & Huc) Hlen.
  unfold session_ok. cbn.
  repeat split; try assumption.
  - intros b [= <-]. exact Hlen.
  - apply Hcav. assumption.
  - apply Hcav. assumption.
  - eexists; reflexivity.
Qed.

Lemma session_ok_set_cavity (ss : SculptSession) (automasking : Cache)
    (buf : list float) :
  session_ok ss automasking ->
  length buf = SCULPT_vertex_count_get (geom ss) ->
  Forall in_unit buf ->
  session_ok (set_cavity ss (Some buf)) automasking.
Proof.
  intros (Hg & Hf & Hs & Ho & Hc & Hcav & Hocc & Huf & Huc) Hlen Hunit.
  unfold session_ok. cbn.
  repeat split; try assumption.
  - intros b [= <-]. exact Hlen.
  - apply Hcav. assumption.
  - eexists; reflexivity.
  - intros b [= <-]. exact Hunit.
Qed.

Lemma Forall_insert_unit (buf : list float) (v : nat) (q : float) :
  Forall in_unit buf -> in_unit q -> Forall in_unit (<[v := q]> buf).
Proof. intros Hb Hq. apply Forall_insert; assumption. Qed.

Lemma automasking_factor_end_ok (ss : SculptSession) (automasking : Cache)
    (vert : nat) (value : float) :
  session_ok ss automasking ->
  (vert < SCULPT_vertex_count_get (geom ss))%nat ->
  exists ss',
    automasking_factor_end ss automasking vert value = Some (value, ss')
    /\ session_ok ss' automasking
    /\ same_frame ss ss'.
Proof.
  intros Hok Hv. unfold automasking_factor_end.
  destruct (automasking_stroke_id (attrs ss)) as [ids |] eqn:E.
  - assert (Hlen : length ids = SCULPT_vertex_count_get (geom ss)).
    { destruct Hok as (_ & _ & Hs & _). apply Hs. exact E. }
    rewrite attr_write_Some by lia. cbn [mbind option_bind].
    eexists. split; [reflexivity |]. split; [| apply same_frame_set_attrs].
    apply session_ok_set_stroke_ids; [exact Hok |].
    rewrite length_insert. exact Hlen.
  - eexists. split; [reflexivity |]. split; [exact Hok | apply same_frame_refl].
Qed.

Lemma calc_view_occlusion_factor_ok (ss : SculptSession) (automasking : Cache)
    (vert : nat) (id : Z) :
  session_ok ss automasking ->
  is_Some (automasking_occlusion (attrs ss)) ->
  (vert < SCULPT_vertex_count_get (geom ss))%nat ->
  exists b ss',
    calc_view_occlusion_factor ss automasking vert id = Some (b, ss')
    /\ session_ok ss' automasking
    /\ same_frame ss ss'
    /\ automasking_factor (attrs ss') = automasking_factor (attrs ss).
Proof.
  intros Hok [occ Hocc] Hv. unfold calc_view_occlusion_factor.
  assert (Hlen : length occ = SCULPT_vertex_count_get (geom ss)).
  { destruct Hok as (_ & _ & _ & Ho & _). apply Ho. exact Hocc. }
  rewrite Hocc, attr_read_Some.
  destruct (lookup_lt_is_Some_2 occ vert ltac:(lia)) as (f & Hf).
  rewrite Hf. cbn [mbind option_bind].
  destruct (negb _).
  - rewrite attr_write_Some by lia. cbn [mbind option_bind].
    eexists _, _. split; [reflexivity |].
    split; [| split; [apply same_frame_set_attrs | reflexivity]].
    apply session_ok_set_occlusion; [exact Hok |].
    rewrite length_insert. exact Hlen.
  - eexists _, _. split; [reflexivity |].
    split; [exact Hok | split; [apply same_frame_refl | reflexivity]].
Qed.

Lemma calc_blurred_cavity_ok (ss : SculptSession) (automasking : Cache)
    (steps : Z) (vert : nat) :
  session_ok ss automasking ->
  is_Some (automasking_cavity (attrs ss)) ->
  (vert < SCULPT_vertex_count_get (geom ss))%nat ->
  (forall l, calc_blurred_cavity_locals (geom ss) steps vert = Some l ->
             ~ (cl_len1_sum l == 0)%Q) ->
  exists ss',
    calc_blurred_cavity ss automasking steps vert = Some ss'
    /\ session_ok ss' automasking
    /\ same_frame ss ss'
    /\ automasking_stroke_id (attrs ss') = automasking_stroke_id (attrs ss).
Proof.
  intros Hok [cav Hcav] Hv Hreg.
  assert (Hlen : length cav = SCULPT_vertex_count_get (geom ss)).
  { destruct Hok as (_ & _ & _ & _ & Hc & _). apply Hc. exact Hcav. }
  assert (Hunit : Forall in_unit cav).
  { destruct Hok as (_ & _ & _ & _ & _ & _ & _ & _ & Hu). apply Hu. exact Hcav. }
  destruct (calc_blurred_cavity_locals_total (geom ss) steps vert) as (l & Hl);
    [apply Hok | exact Hv |].
  unfold calc_blurred_cavity. rewrite Hl. cbn [mbind option_bind].
  rewrite (divf_Some _ _ (Hreg l Hl)). cbn [mbind option_bind].
  rewrite Hcav, attr_write_Some by lia. cbn [mbind option_bind].
  eexists. split; [reflexivity |].
  split; [| split; [apply same_frame_set_attrs | reflexivity]].
  apply session_ok_set_cavity; [exact Hok | rewrite length_insert; exact Hlen |].
  apply Forall_insert_unit; [exact Hunit | apply calc_cavity_factor_unit].
Qed.

Lemma calc_cavity_factor_vert_ok (ss : SculptSession) (automasking : Cache)
    (vert : nat) :
  session_ok ss automasking ->
  cavity_regular (geom ss) automasking ->
  curve_in_unit automasking ->
  has_flag (flags (settings automasking)) BRUSH_AUTOMASKING_CAVITY_ALL = true ->
  (vert < SCULPT_vertex_count_get (geom ss))%nat ->
  exists f ss',
    calc_cavity_factor_vert ss automasking vert = Some (f, ss')
    /\ in_unit f
    /\ session_ok ss' automasking
    /\ same_frame ss ss'.
Proof.
  intros Hok Hreg Hcurve Hflag Hv. unfold calc_cavity_factor_vert.
  pose proof Hok as (_ & _ & Hs & _ & _ & Hattrs & _).
  destruct (Hattrs Hflag) as [[ids Hids] Hcav].
  assert (Hlen : length ids = SCULPT_vertex_count_get (geom ss)) by (apply Hs; exact Hids).
  rewrite Hids, attr_read_Some.
  destruct (lookup_lt_is_Some_2 ids vert ltac:(lia)) as (id & Hid).
  rewrite Hid. cbn [mbind option_bind].
  assert (Hmid : exists ss1,
             (if negb (id =? current_stroke_id automasking)
              then calc_blurred_cavity ss automasking
                     (cavity_blur_steps (settings automasking)) vert
              else Some ss) = Some ss1
             /\ session_ok ss1 automasking /\ same_frame ss ss1
             /\ is_Some (automasking_cavity (attrs ss1))).
  { destruct (negb _).
    - destruct (calc_blurred_cavity_ok ss automasking
                  (cavity_blur_steps (settings automasking)) vert Hok Hcav Hv
                  (fun l => Hreg Hflag vert l Hv))
        as (ss1 & Hrun & Hok1 & Hfr & _).
      exists ss1. split; [exact Hrun |]. split; [exact Hok1 |]. split; [exact Hfr |].
      destruct Hok1 as (_ & _ & _ & _ & _ & Ha1 & _). apply Ha1. exact Hflag.
    - exists ss. split; [reflexivity |]. split; [exact Hok |].
      split; [apply same_frame_refl | exact Hcav]. }
  destruct Hmid as (ss1 & -> & Hok1 & Hfr & [cav Hcav1]). cbn [mbind option_bind].
  assert (Hgeom : geom ss1 = geom ss) by apply Hfr.
  assert (Hlen1 : length cav = SCULPT_vertex_count_get (geom ss)).
  { rewrite <- Hgeom. destruct Hok1 as (_ & _ & _ & _ & Hc & _). apply Hc. exact Hcav1. }
  assert (Hunit : Forall in_unit cav).
  { destruct Hok1 as (_ & _ & _ & _ & _ & _ & _ & _ & Hu). apply Hu. exact Hcav1. }
  rewrite Hcav1, attr_read_Some.
  destruct (lookup_lt_is_Some_2 cav vert ltac:(lia)) as (f & Hf).
  rewrite Hf. cbn [mbind option_bind].
  assert (Hfu : in_unit f).
  { rewrite Forall_lookup in Hunit. eapply Hunit. exact Hf. }
  rewrite Hflag. cbn [andb].
  destruct (has_flag _ BRUSH_AUTOMASKING_CAVITY_USE_CURVE).
  - eexists _, _. split; [reflexivity |].
    split; [| split; [exact Hok1 | exact Hfr]].
    destruct (has_flag _ BRUSH_AUTOMASKING_CAVITY_INVERTED).
    + apply in_unit_compl, Hcurve, in_unit_compl, Hfu.
    + apply Hcurve, Hfu.
  - eexists _, _. split; [reflexivity |].
    split; [exact Hfu | split; [exact Hok1 | exact Hfr]].
Qed.

End FactorUnit.

Section FactorGetUnit.
Context `{AutomaskFlags} `{Externals}.

Lemma has_cache_sources (ss : SculptSession) :
  has_cache ss = true ->
  exists c, match cache ss with
            | Some c => Some (initial_normal_symm c, view_normal_symm c)
            | None => (fun f => (fc_initial_normal f, fc_view_normal f)) <$> filter_cache ss
            end = Some c.
Proof.
  unfold has_cache. intros Hc.
  destruct (cache ss) as [c |]; [eexists; reflexivity |].
  destruct (filter_cache ss) as [f |]; [eexists; reflexivity |].
  vm_compute in Hc. discriminate.
Qed.

Lemma calc_brush_normal_factor_ok (ss : SculptSession) (automasking : Cache)
    (vert : nat) (orig_normal : option float3) :
  has_cache ss = true ->
  exists f, calc_brush_normal_factor ss automasking vert orig_normal = Some f
            /\ in_unit f.
Proof.
  intros Hc. apply has_cache_sources in Hc as (c & Hc).
  unfold calc_brush_normal_factor.
  destruct (cache ss) as [sc |].
  - cbn [mbind option_bind]. eexists. split; [reflexivity | apply normal_calc_unit].
  - destruct (filter_cache ss) as [fc |]; [| discriminate].
    cbn. eexists. split; [reflexivity | apply normal_calc_unit].
Qed.

Lemma calc_view_normal_factor_ok (ss : SculptSession) (automasking : Cache)
    (vert : nat) (orig_normal : option float3) :
  has_cache ss = true ->
  exists f, calc_view_normal_factor ss automasking vert orig_normal = Some f
            /\ in_unit f.
Proof.
  intros Hc. apply has_cache_sources in Hc as (c & Hc).
  unfold calc_view_normal_factor.
  destruct (cache ss) as [sc |].
  - cbn [mbind option_bind]. eexists. split; [reflexivity | apply normal_calc_unit].
  - destruct (filter_cache ss) as [fc |]; [| discriminate].
    cbn. eexists. split; [reflexivity | apply normal_calc_unit].
Qed.

Lemma has_cache_frame (ss ss' : SculptSession) :
  same_frame ss ss' -> has_cache ss' = has_cache ss.
Proof.
  intros (Hc & Hf & _). unfold has_cache. rewrite Hc, Hf. reflexivity.
Qed.

Lemma factor_get_live_unit (ss : SculptSession) (automasking : Cache)
    (vert : nat) (orig_normal : option float3) (mask : float) :
  session_ok ss automasking ->
  cavity_regular (geom ss) automasking ->
  curve_in_unit automasking ->
  (vert < SCULPT_vertex_count_get (geom ss))%nat ->
  in_unit mask ->
  exists r ss',
    factor_get_live ss automasking vert orig_normal mask = Some (r, ss')
    /\ in_unit r /\ session_ok ss' automasking /\ same_frame ss ss'.
Proof.
  intros Hok Hreg Hcurve Hv Hmask. unfold factor_get_live.
  assert (Hzero : exists r ss',
             Some (0%Q, ss) = Some (r, ss')
             /\ in_unit r /\ session_ok ss' automasking /\ same_frame ss ss').
  { eexists _, _. split; [reflexivity |].
    split; [apply in_unit_0 | split; [exact Hok | apply same_frame_refl]]. }
  destruct (_ && _ && negb (_ =? _)); [exact Hzero |].
  destruct (_ && negb (vert_has_face_set _ _ _)); [exact Hzero |].
  destruct (_ && vert_is_boundary _ _); [exact Hzero |].
  destruct (_ && negb (boundary_face_set_ignore _ _) && _); [exact Hzero |].
  clear Hzero.
  assert (Hview : exists mask1,
             (if has_cache ss && has_flag (flags (settings automasking))
                                   BRUSH_AUTOMASKING_VIEW_NORMAL
              then f ← calc_view_normal_factor ss automasking vert orig_normal;
                   Some (mask * f)%Q
              else Some mask) = Some mask1 /\ in_unit mask1).
  { destruct (has_cache ss) eqn:Ec; cbn [andb].
    - destruct (has_flag _ BRUSH_AUTOMASKING_VIEW_NORMAL).
      + destruct (calc_view_normal_factor_ok ss automasking vert orig_normal Ec)
          as (f & -> & Hf).
        cbn [mbind option_bind]. eexists. split; [reflexivity |].
        apply in_unit_mult; assumption.
      + eexists. split; [reflexivity | exact Hmask].
    - eexists. split; [reflexivity | exact Hmask]. }
  destruct Hview as (mask1 & -> & Hmask1). cbn [mbind option_bind].
  destruct (has_flag _ BRUSH_AUTOMASKING_CAVITY_ALL) eqn:Ecav.
  - destruct (calc_cavity_factor_vert_ok ss automasking vert Hok Hreg Hcurve Ecav Hv)
      as (f & ss1 & -> & Hf & Hok1 & Hfr).
    cbn [mbind option_bind].
    destruct (automasking_factor_end_ok ss1 automasking vert (mask1 * f)%Q Hok1)
      as (ss2 & -> & Hok2 & Hfr2).
    { destruct Hfr as (_ & _ & _ & _ & _ & ->). exact Hv. }
    eexists _, _. split; [reflexivity |].
    split; [apply in_unit_mult; assumption |].
    split; [exact Hok2 | eapply same_frame_trans; eassumption].
  - cbn [mbind option_bind].
    destruct (automasking_factor_end_ok ss automasking vert mask1 Hok Hv)
      as (ss2 & -> & Hok2 & Hfr2).
    eexists _, _. split; [reflexivity |].
    split; [exact Hmask1 | split; [exact Hok2 | exact Hfr2]].
Qed.

(** On a well-formed session [factor_get] returns a value of the unit
    interval and keeps the session well-formed. *)
Lemma factor_get_ok (ss : SculptSession) (automasking : Cache) (vert : nat)
    (orig_normal : option float3) :
  session_ok ss automasking ->
  cavity_regular (geom ss) automasking ->
  curve_in_unit automasking ->
  (vert < SCULPT_vertex_count_get (geom ss))%nat ->
  exists r ss',
    factor_get ss automasking vert orig_normal = Some (r, ss')
    /\ (0 <= r <= 1)%Q
    /\ session_ok ss' automasking
    /\ same_frame ss ss'.
Proof.
  intros Hok Hreg Hcurve Hv. unfold factor_get.
  assert (Hbrush : exists mask,
             (if has_cache ss && has_flag (flags (settings automasking))
                                   BRUSH_AUTOMASKING_BRUSH_NORMAL
              then f ← calc_brush_normal_factor ss automasking vert orig_normal;
                   Some (1 * f)%Q
              else Some 1%Q) = Some mask /\ in_unit mask).
  { destruct (has_cache ss) eqn:Ec; cbn [andb].
    - destruct (has_flag _ BRUSH_AUTOMASKING_BRUSH_NORMAL).
      + destruct (calc_brush_normal_factor_ok ss automasking vert orig_normal Ec)
          as (f & -> & Hf).
        cbn [mbind option_bind]. eexists. split; [reflexivity |].
        apply in_unit_mult; [apply in_unit_1 | exact Hf].
      + eexists. split; [reflexivity | apply in_unit_1].
    - eexists. split; [reflexivity | apply in_unit_1]. }
  destruct Hbrush as (mask & -> & Hmask). cbn [mbind option_bind].
  pose proof Hok as (Hg & Hfs & Hss & Hos & Hcs & Hcav & Hocc & Hfu & Hcu).
  destruct (automasking_factor (attrs ss)) as [buf |] eqn:Ebuf.
  - rewrite attr_read_Some.
    assert (Hlen : length buf = SCULPT_vertex_count_get (geom ss)) by (apply Hfs; reflexivity).
    destruct (lookup_lt_is_Some_2 buf vert ltac:(lia)) as (factor & Hf).
    rewrite Hf. cbn [mbind option_bind].
    assert (Hfactor : in_unit factor).
    { specialize (Hfu buf eq_refl). rewrite Forall_lookup in Hfu. eapply Hfu. exact Hf. }
    destruct (has_flag _ BRUSH_AUTOMASKING_CAVITY_ALL) eqn:Ecav.
    + destruct (calc_cavity_factor_vert_ok ss automasking vert Hok Hreg Hcurve Ecav Hv)
        as (f & ss1 & -> & Hfc & Hok1 & Hfr).
      cbn [mbind option_bind].
      destruct (automasking_factor_end_ok ss1 automasking vert (factor * f * mask)%Q Hok1)
        as (ss2 & -> & Hok2 & Hfr2).
      { destruct Hfr as (_ & _ & _ & _ & _ & ->). exact Hv. }
      eexists _, _. split; [reflexivity |].
      split; [apply in_unit_mult; [apply in_unit_mult |]; assumption |].
      split; [exact Hok2 | eapply same_frame_trans; eassumption].
    + cbn [mbind option_bind].
      destruct (automasking_factor_end_ok ss automasking vert (factor * mask)%Q Hok Hv)
        as (ss2 & -> & Hok2 & Hfr2).
      eexists _, _. split; [reflexivity |].
      split; [apply in_unit_mult; assumption | split; [exact Hok2 | exact Hfr2]].
  - assert (Hid : exists id,
               match automasking_stroke_id (attrs ss) with
               | Some _ => attr_read (automasking_stroke_id (attrs ss)) vert
               | None => Some (to_uchar (-1))
               end = Some id).
    { destruct (automasking_stroke_id (attrs ss)) as [ids |] eqn:Eids;
        [| eexists; reflexivity].
      rewrite attr_read_Some. apply lookup_lt_is_Some_2.
      rewrite (Hss ids eq_refl). exact Hv. }
    destruct Hid as (id & ->). cbn [mbind option_bind].
    destruct (Z.land _ occlusion_bits =? occlusion_bits) eqn:Eocc.
    + destruct (calc_view_occlusion_factor_ok ss automasking vert id Hok
                  (Hocc eq_refl eq_refl) Hv)
        as (occluded & ss1 & -> & Hok1 & Hfr & _).
      cbn [mbind option_bind andb].
      assert (Hv1 : (vert < SCULPT_vertex_count_get (geom ss1))%nat).
      { destruct Hfr as (_ & _ & _ & _ & _ & ->). exact Hv. }
      assert (Hreg1 : cavity_regular (geom ss1) automasking).
      { destruct Hfr as (_ & _ & _ & _ & _ & ->). exact Hreg. }
      destruct occluded.
      * destruct (automasking_factor_end_ok ss1 automasking vert 0%Q Hok1 Hv1)
          as (ss2 & -> & Hok2 & Hfr2).
        eexists _, _. split; [reflexivity |].
        split; [apply in_unit_0 |].
        split; [exact Hok2 | eapply same_frame_trans; eassumption].
      * destruct (factor_get_live_unit ss1 automasking vert orig_normal mask
                    Hok1 Hreg1 Hcurve Hv1 Hmask)
          as (r & ss2 & -> & Hr & Hok2 & Hfr2).
        eexists _, _. split; [reflexivity |]. split; [exact Hr |].
        split; [exact Hok2 | eapply same_frame_trans; eassumption].
    + cbn [mbind option_bind andb].
      destruct (factor_get_live_unit ss automasking vert orig_normal mask
                  Hok Hreg Hcurve Hv Hmask)
        as (r & ss2 & -> & Hr & Hok2 & Hfr2).
      eexists _, _. split; [reflexivity |]. split; [exact Hr |].
      split; [exact Hok2 | exact Hfr2].
Qed.

(** Where the query has a value: on a well-formed session whose cavity
    estimates are defined, and with a cavity curve that maps the unit
    interval into itself,
    [factor_get] returns for every vertex of the mesh and every combination
    of mode flags a value between 0 and 1, and leaves the session
    well-formed for the next query. *)
Theorem factor_get_unit (ss : SculptSession) (automasking : Cache) (vert : nat)
    (orig_normal : option float3) :
  session_ok ss automasking ->
  cavity_regular (geom ss) automasking ->
  curve_in_unit automasking ->
  (vert < SCULPT_vertex_count_get (geom ss))%nat ->
  exists r ss',
    factor_get ss automasking vert orig_normal = Some (r, ss')
    /\ (0 <= r <= 1)%Q
    /\ session_ok ss' automasking
    /\ same_frame ss ss'.
Proof. exact (factor_get_ok ss automasking vert orig_normal). Qed.


End FactorGetUnit.

(** ** Face factors *)

Section FaceFactors.
Context `{AutomaskFlags} `{Externals}.

(** The accumulation loop over the corners adds up the corner queries. *)
Lemma face_factor_sum_queries (ss : SculptSession) (automasking : Cache)
    (face_verts : list nat) (sum : float) :
  match face_queries ss automasking face_verts with
  | Some (rs, ss') =>
      exists s, face_factor_sum ss automasking face_verts sum = Some (s, ss')
                /\ (s == sum + Qsum rs)%Q
  | None => face_factor_sum ss automasking face_verts sum = None
  end.
Proof.
  revert ss sum. induction face_verts as [| vert face_verts IH]; intros ss sum.
  - cbn [face_queries face_factor_sum]. exists sum.
    split; [reflexivity |]. unfold Qsum. cbn [foldr]. ring.
  - cbn [face_queries face_factor_sum].
    destruct (factor_get ss automasking vert None) as [[f ss1] |]; [| reflexivity].
    cbn [mbind option_bind].
    specialize (IH ss1 (sum + f)%Q).
    destruct (face_queries ss1 automasking face_verts) as [[rs ss2] |].
    + cbn [mbind option_bind]. destruct IH as (s & Hs & Heq).
      exists s. split; [exact Hs |]. rewrite Heq. unfold Qsum. cbn [foldr]. ring.
    + exact IH.
Qed.

Lemma face_queries_length (ss ss' : SculptSession) (automasking : Cache)
    (face_verts : list nat) (rs : list float) :
  face_queries ss automasking face_verts = Some (rs, ss') ->
  length rs = length face_verts.
Proof.
  revert ss ss' rs.
  induction face_verts as [| vert face_verts IH]; intros ss ss' rs Hq.
  - cbn in Hq. injection Hq as <- _. reflexivity.
  - cbn [face_queries] in Hq.
    destruct (factor_get ss automasking vert None) as [[f ss1] |]; [| discriminate].
    cbn [mbind option_bind] in Hq.
    destruct (face_queries ss1 automasking face_verts) as [[fs ss2] |] eqn:E;
      [| discriminate].
    cbn [mbind option_bind] in Hq. injection Hq as <- _.
    cbn [length]. f_equal. eapply IH. exact E.
Qed.

Lemma calc_face_factors_from_means (ss : SculptSession) (automasking : Cache)
    (faces corner_verts face_indices : list nat) (i : nat) (factors : list float) :
  (i + length face_indices <= length factors)%nat ->
  match face_means ss automasking faces corner_verts face_indices with
  | Some (ms, ss') =>
      exists out,
        calc_face_factors_from ss automasking faces corner_verts i face_indices factors
        = Some (out, ss')
        /\ length out = length factors
        /\ (forall k, (k < i \/ i + length face_indices <= k)%nat ->
                      out !! k = factors !! k)
        /\ (forall k m old,
              ms !! k = Some m -> factors !! (i + k)%nat = Some old ->
              exists new, out !! (i + k)%nat = Some new /\ (new == old * m)%Q)
  | None =>
      calc_face_factors_from ss automasking faces corner_verts i face_indices factors
      = None
  end.
Proof.
  revert ss i factors.
  induction face_indices as [| face face_indices IH]; intros ss i factors Hlen.
  - cbn [face_means calc_face_factors_from]. exists factors.
    split; [reflexivity |]. split; [reflexivity |].
    split; [reflexivity |]. intros k m old Hk. discriminate.
  - cbn [face_means calc_face_factors_from]. cbn [length] in Hlen.
    destruct (face_corner_verts faces corner_verts face) as [face_verts |];
      [| reflexivity].
    cbn [mbind option_bind].
    pose proof (face_factor_sum_queries ss automasking face_verts 0%Q) as Hsum.
    destruct (face_queries ss automasking face_verts) as [[rs ss1] |] eqn:Eq;
      [| rewrite Hsum; reflexivity].
    destruct Hsum as (s & -> & Hs). cbn [mbind option_bind].
    destruct (lookup_lt_is_Some_2 factors i ltac:(lia)) as (old & Hold).
    rewrite Hold. cbn [mbind option_bind].
    pose proof (face_queries_length _ _ _ _ _ Eq) as Hrs.
    unfold mean, rcp. rewrite Hrs.
    set (size := inject_Z (Z.of_nat (length face_verts))).
    destruct (Qeq_dec size 0) as [Hz | Hnz].
    { rewrite !divf_None by exact Hz. reflexivity. }
    rewrite !divf_Some by exact Hnz. cbn [mbind option_bind].
    set (factors1 := <[i := _]> factors).
    assert (Hlen1 : length factors1 = length factors) by apply length_insert.
    specialize (IH ss1 (S i) factors1 ltac:(lia)).
    destruct (face_means ss1 automasking faces corner_verts face_indices)
      as [[ms ss2] |]; [| exact IH].
    cbn [mbind option_bind].
    destruct IH as (out & Hrun & Hout & Hframe & Hvals).
    exists out. split; [exact Hrun |]. split; [lia |]. split.
    + intros k Hk. cbn [length] in Hk. rewrite Hframe by lia.
      apply list_lookup_insert_ne. lia.
    + intros k m old' Hm Hold'. destruct k as [| k].
      * rewrite Nat.add_0_r in *. cbn in Hm. injection Hm as <-.
        assert (old' = old) by congruence. subst old'.
        exists (old * (s * (1 / size)))%Q.
        split.
        -- rewrite Hframe by lia. apply list_lookup_insert_eq. lia.
        -- unfold Qdiv. rewrite Hs. ring.
      * cbn in Hm. replace (i + S k)%nat with (S i + k)%nat in * by lia.
        apply (Hvals k m old' Hm).
        unfold factors1. rewrite list_lookup_insert_ne by lia. exact Hold'.
Qed.

(** C10: [calc_face_factors] multiplies the factor of every listed face by
    the arithmetic mean of the [factor_get] queries of the face's corner
    vertices, each made without an original normal; the factors past the
    listed faces are not touched, and the function fails exactly when one
    of the queries does or a listed face has no corner, whose mean is not
    defined. *)
Theorem calc_face_factors_mean (ss : SculptSession) (automasking : Cache)
    (faces corner_verts face_indices : list nat) (factors : list float) :
  (length face_indices <= length factors)%nat ->
  match face_means ss automasking faces corner_verts face_indices with
  | Some (ms, ss') =>
      exists out,
        calc_face_factors ss automasking faces corner_verts face_indices factors
        = Some (out, ss')
        /\ length out = length factors
        /\ (forall i m old,
              ms !! i = Some m -> factors !! i = Some old ->
              exists new, out !! i = Some new /\ (new == old * m)%Q)
        /\ (forall i, (length face_indices <= i)%nat -> out !! i = factors !! i)
  | None =>
      calc_face_factors ss automasking faces corner_verts face_indices factors = None
  end.
Proof.
  intros Hlen. unfold calc_face_factors.
  pose proof (calc_face_factors_from_means ss automasking faces corner_verts
                face_indices 0 factors ltac:(lia)) as Hm.
  destruct (face_means ss automasking faces corner_verts face_indices)
    as [[ms ss'] |]; [| exact Hm].
  destruct Hm as (out & Hrun & Hout & Hframe & Hvals).
  exists out. split; [exact Hrun |]. split; [exact Hout |]. split.
  - intros i m old Hi Hold. apply (Hvals i m old Hi Hold).
  - intros i Hi. apply Hframe. right. lia.
Qed.

(** On a well-formed session the corner queries of a face inside the mesh
    all return, with values of the unit interval. *)
Lemma face_queries_total (ss : SculptSession) (automasking : Cache)
    (face_verts : list nat) :
  session_ok ss automasking ->
  cavity_regular (geom ss) automasking ->
  curve_in_unit automasking ->
  Forall (fun v => (v < SCULPT_vertex_count_get (geom ss))%nat) face_verts ->
  exists rs ss',
    face_queries ss automasking face_verts = Some (rs, ss')
    /\ Forall in_unit rs
    /\ session_ok ss' automasking
    /\ same_frame ss ss'.
Proof.
  intros Hok Hreg Hcurve Hverts. revert ss Hok Hreg Hverts.
  induction face_verts as [| vert face_verts IH]; intros ss Hok Hreg Hverts.
  - exists [], ss. split; [reflexivity |]. split; [constructor |].
    split; [exact Hok | apply same_frame_refl].
  - apply Forall_cons in Hverts as [Hv Hverts].
    cbn [face_queries].
    destruct (factor_get_ok ss automasking vert None Hok Hreg Hcurve Hv)
      as (r & ss1 & -> & Hr & Hok1 & Hfr1).
    cbn [mbind option_bind].
    destruct (IH ss1 Hok1) as (rs & ss2 & -> & Hrs & Hok2 & Hfr2).
    { destruct Hfr1 as (_ & _ & _ & _ & _ & ->). exact Hreg. }
    { destruct Hfr1 as (_ & _ & _ & _ & _ & ->). exact Hverts. }
    cbn [mbind option_bind]. eexists _, _. split; [reflexivity |].
    split; [constructor; assumption |].
    split; [exact Hok2 | eapply same_frame_trans; eassumption].
Qed.

End FaceFactors.

(** ** Cache construction: the factor buffer and its topology seed *)

Lemma attribute_ensure_length {A : Type} (zero : A) (n : nat) (attr : option (list A)) :
  exists buf, attribute_ensure zero n attr = Some buf /\ length buf = n.
Proof.
  unfold attribute_ensure. destruct attr as [buf |].
  - destruct (bool_decide (length buf = n)) eqn:E.
    + apply bool_decide_eq_true in E. exists buf. split; [reflexivity | exact E].
    + eexists. split; [reflexivity | apply length_replicate].
  - eexists. split; [reflexivity | apply length_replicate].
Qed.

Section FactorBuffer.
Context `{AutomaskFlags} `{Externals}.

(** The initialization loop leaves the initial value at every vertex. *)
Lemma cache_init_factor_buffer_replicate (mode : Z) (ss : SculptSession) :
  exists ss',
    cache_init_factor_buffer mode ss = Some ss'
    /\ same_frame ss ss'
    /\ automasking_factor (attrs ss')
       = Some (replicate (SCULPT_vertex_count_get (geom ss)) (factor_initial_value mode)).
Proof.
  unfold cache_init_factor_buffer.
  set (n := SCULPT_vertex_count_get (geom ss)).
  destruct (attribute_ensure_length 0%Q n (automasking_factor (attrs ss)))
    as (buf0 & -> & Hlen0).
  set (ss0 := set_factor ss (Some buf0)).
  set (init := factor_initial_value mode).
  destruct (for_range_indexed
              (fun i t => same_frame ss t
                          /\ exists b, automasking_factor (attrs t) = Some b
                                       /\ length b = n
                                       /\ forall v, (v < i)%nat -> b !! v = Some init)
              n (fun i t => factor_write i init t) ss0)
    as (ss' & Hrun & Hframe & b & Hb & Hblen & Hbv).
  - split; [apply same_frame_set_attrs |]. exists buf0.
    split; [reflexivity |]. split; [exact Hlen0 |]. intros v Hv. lia.
  - intros i t Hi (Hframe & b & Hb & Hblen & Hbv).
    rewrite (factor_write_Some t b) by (try exact Hb; lia).
    eexists. split; [reflexivity |].
    split; [eapply same_frame_trans; [exact Hframe | apply same_frame_set_attrs] |].
    eexists. split; [reflexivity |]. split; [rewrite length_insert; exact Hblen |].
    intros v Hv. destruct (Nat.eq_dec v i) as [-> | Hne].
    + apply list_lookup_insert_eq. lia.
    + rewrite list_lookup_insert_ne by congruence. apply Hbv. lia.
  - exists ss'. split; [exact Hrun |]. split; [exact Hframe |].
    rewrite Hb. f_equal. apply list_eq. intros v.
    destruct (Nat.lt_ge_cases v n) as [Hv | Hv].
    + rewrite Hbv by exact Hv. symmetry. apply lookup_replicate_2. exact Hv.
    + rewrite lookup_ge_None_2 by lia. symmetry.
      apply lookup_ge_None_2. rewrite length_replicate. exact Hv.
Qed.

End FactorBuffer.

Section TopologySeed.
Context `{AutomaskFlags} `{Externals}.
Variable ss0 : SculptSession.
Variable seeds : gset nat.
Variable b0 : list float.
Variable brush : option Brush.
Variable active_vert : nat.
Hypothesis Hclosed : geometry_closed (geom ss0).

Local Abbreviation n := (SCULPT_vertex_count_get (geom ss0)).
Local Abbreviation Inv := (topology_fill_invariant ss0 seeds b0).

(** One call of the traversal lambda on an unvisited neighbor. *)
Lemma topology_fill_func_invariant (from_v to_v : nat) (queue : list nat)
    (visited : gset nat) (ss : SculptSession) :
  Inv queue visited ss ->
  from_v ∈ visited \/ from_v ∈ seeds -> to_v ∉ visited -> (to_v < n)%nat ->
  exists accept ss',
    topology_fill_func brush active_vert from_v to_v ss = Some (accept, ss')
    /\ Inv (if accept : bool then queue ++ [to_v] else queue) ({[to_v]} ∪ visited) ss'.
Proof.
  intros (Hfr & Hq & Hvis & b & Hb & Hlen & Hone & Hold & Heither) Hfrom Hto Hton.
  assert (Hfromn : (from_v < n)%nat) by (apply Hvis; exact Hfrom).
  unfold topology_fill_func.
  rewrite Hb, attr_write_Some by lia. cbn [mbind option_bind].
  rewrite attr_write_Some by (rewrite length_insert; lia). cbn [mbind option_bind].
  eexists _, _. split; [reflexivity |].
  split; [eapply same_frame_trans; [exact Hfr | apply same_frame_set_attrs] |].
  split.
  { intros q Hqin.
    assert (Hold_q : q ∈ queue -> q ∈ ({[to_v]} ∪ visited : gset nat) \/ q ∈ seeds).
    { intros Hin. destruct (Hq q Hin) as [Hv | Hs]; [left | right; exact Hs].
      apply elem_of_union. right. exact Hv. }
    destruct (topology_accept_mesh ss brush active_vert to_v); [| auto].
    apply elem_of_app in Hqin as [Hqin | Hqin]; [auto |].
    apply list_elem_of_singleton in Hqin. subst q. left.
    apply elem_of_union. left. apply elem_of_singleton. reflexivity. }
  split.
  { intros v [Hv | Hv]; [| apply Hvis; right; exact Hv].
    apply elem_of_union in Hv as [Hv | Hv].
    - apply elem_of_singleton in Hv. subst v. exact Hton.
    - apply Hvis. left. exact Hv. }
  eexists. split; [reflexivity |].
  split; [rewrite !length_insert; exact Hlen |].
  assert (Hlook : forall v,
            <[from_v := 1%Q]> (<[to_v := 1%Q]> b) !! v
            = if bool_decide (v = from_v \/ v = to_v) then Some 1%Q else b !! v).
  { intros v. destruct (Nat.eq_dec v from_v) as [-> | Hnf].
    - rewrite list_lookup_insert_eq by (rewrite length_insert; lia).
      rewrite bool_decide_eq_true_2 by (left; reflexivity). reflexivity.
    - rewrite list_lookup_insert_ne by congruence.
      destruct (Nat.eq_dec v to_v) as [-> | Hnt].
      + rewrite list_lookup_insert_eq by lia.
        rewrite bool_decide_eq_true_2 by (right; reflexivity). reflexivity.
      + rewrite list_lookup_insert_ne by congruence.
        rewrite bool_decide_eq_false_2 by (intros [? | ?]; congruence). reflexivity. }
  split; [| split].
  - intros v Hv Hns. rewrite Hlook. case_bool_decide; [reflexivity |].
    apply Hone; [| exact Hns].
    apply elem_of_union in Hv as [Hv | Hv]; [| exact Hv].
    apply elem_of_singleton in Hv. exfalso. auto.
  - intros v Hv Hns. rewrite Hlook.
    rewrite bool_decide_eq_false_2.
    + apply Hold; [| exact Hns].
      intros Hin. apply Hv. apply elem_of_union. right. exact Hin.
    + intros [-> | ->].
      * destruct Hfrom as [Hfrom | Hfrom]; [| contradiction].
        apply Hv. apply elem_of_union. right. exact Hfrom.
      * apply Hv. apply elem_of_union. left. apply elem_of_singleton. reflexivity.
  - intros v. rewrite Hlook. case_bool_decide; [left; reflexivity | apply Heither].
Qed.

(** The neighbor loop of one dequeued vertex keeps the invariant and does
    not let the queued and unvisited vertices grow in number. *)
Lemma flood_visit_neighbors_topology (from_v : nat) (nbrs : list nat)
    (queue : list nat) (visited : gset nat) (ss : SculptSession) :
  Inv queue visited ss ->
  from_v ∈ visited \/ from_v ∈ seeds ->
  (forall x, x ∈ nbrs -> (x < n)%nat) ->
  exists queue' visited' ss',
    flood_visit_neighbors (topology_fill_func brush active_vert) from_v nbrs
      (queue, visited, ss) = Some (queue', visited', ss')
    /\ Inv queue' visited' ss'
    /\ (length queue' + (n - size visited') <= length queue + (n - size visited))%nat.
Proof.
  unfold flood_visit_neighbors.
  revert queue visited ss.
  induction nbrs as [| to_v nbrs IH]; intros queue visited ss HInv Hfrom Hn.
  - exists queue, visited, ss. split; [reflexivity |]. split; [exact HInv | lia].
  - cbn [foldl]. cbn [mbind option_bind].
    assert (Hn' : forall x, x ∈ nbrs -> (x < n)%nat).
    { intros x Hx. apply Hn. right. exact Hx. }
    destruct (bool_decide (to_v ∈ visited)) eqn:Ein.
    + apply IH; assumption.
    + apply bool_decide_eq_false in Ein.
      destruct (topology_fill_func_invariant from_v to_v queue visited ss HInv Hfrom Ein)
        as (accept & ss1 & -> & HInv1); [apply Hn; left |].
      cbn [mbind option_bind].
      destruct (IH _ _ _ HInv1) as (q' & v' & s' & Hrun & HInv' & Hm); [| exact Hn' |].
      { destruct Hfrom as [Hfrom | Hfrom]; [left | right; exact Hfrom].
        apply elem_of_union. right. exact Hfrom. }
      exists q', v', s'. split; [exact Hrun |]. split; [exact HInv' |].
      assert (Hsz : size ({[to_v]} ∪ visited : gset nat) = S (size visited)).
      { rewrite size_union by (apply disjoint_singleton_l; exact Ein).
        rewrite size_singleton. reflexivity. }
      assert (Hle : (size ({[to_v]} ∪ visited : gset nat) <= n)%nat).
      { apply gset_bounded_size. destruct HInv1 as (_ & _ & Hv1 & _).
        intros x Hx. apply Hv1. left. exact Hx. }
      rewrite Hsz in *.
      destruct accept; rewrite ?length_app in Hm; cbn [length] in Hm; lia.
Qed.

(** The traversal ends within its bound and keeps the invariant. *)
Lemma flood_execute_topology (fuel : nat) (queue : list nat) (visited : gset nat)
    (ss : SculptSession) :
  Inv queue visited ss ->
  (length queue + (n - size visited) <= fuel)%nat ->
  exists visited' ss',
    flood_execute fuel (geom ss0) (topology_fill_func brush active_vert)
      queue visited ss = Some (visited', ss')
    /\ Inv [] visited' ss'.
Proof.
  revert queue visited ss.
  induction fuel as [| fuel IH]; intros queue visited ss HInv Hm.
  - destruct queue as [| q queue]; [| cbn in Hm; lia].
    exists visited, ss. split; [reflexivity | exact HInv].
  - destruct queue as [| from_v queue].
    + exists visited, ss. split; [reflexivity | exact HInv].
    + cbn [flood_execute]. cbn [length] in Hm.
      assert (Hfrom : from_v ∈ visited \/ from_v ∈ seeds).
      { destruct HInv as (_ & Hq & _). apply Hq. left. }
      assert (HInv' : Inv queue visited ss).
      { destruct HInv as (Hfr & Hq & Hrest). split; [exact Hfr |].
        split; [| exact Hrest]. intros q Hqin. apply Hq. right. exact Hqin. }
      destruct (flood_visit_neighbors_topology from_v (vertex_neighbors (geom ss0) from_v)
                  queue visited ss HInv' Hfrom)
        as (q1 & v1 & s1 & -> & HInv1 & Hm1).
      { intros x Hx. eapply Hclosed; [| exact Hx].
        destruct HInv as (_ & _ & Hv & _). apply Hv. exact Hfrom. }
      cbn [mbind option_bind]. apply IH; [exact HInv1 | lia].
Qed.

End TopologySeed.

Section FactorSeed.
Context `{AutomaskFlags} `{Externals}.

Lemma topology_seeds_frame (ss ss' : SculptSession) :
  same_frame ss ss' -> topology_seeds ss' = topology_seeds ss.
Proof.
  intros (Hc & _ & _ & _ & _ & Hg).
  unfold topology_seeds, topology_radius. rewrite Hc, Hg. reflexivity.
Qed.

(** The factor buffer of the precompute pass: it first gives every vertex
    the factor 0 when topology mode is among the effective modes and 1
    otherwise.  The topology flood fill then sets to 1 the factor of
    every vertex it reaches from another vertex: a visited vertex that is
    no seed has the factor 1, a vertex that is neither visited nor a seed
    keeps the initial factor, and every factor is 1 or the initial one; a
    seed has the factor 1 only when the traversal lambda ran on an edge
    at that seed. *)
Theorem cache_init_factor_seed (sd : Sculpt) (brush : option Brush)
    (automasking : Cache) (ss : SculptSession) :
  geometry_closed (geom ss) ->
  Forall (fun v => (v < SCULPT_vertex_count_get (geom ss))%nat) (topology_seeds ss) ->
  let n := SCULPT_vertex_count_get (geom ss) in
  let mode := calc_effective_bits sd brush in
  let init := if has_flag mode BRUSH_AUTOMASKING_TOPOLOGY then 0%Q else 1%Q in
  exists ss1,
    cache_init_factor_buffer mode ss = Some ss1
    /\ automasking_factor (attrs ss1) = Some (replicate n init)
    /\ exists c ss2 buf,
         cache_init_topology sd brush automasking ss1 = Some (c, ss2)
         /\ automasking_factor (attrs ss2) = Some buf
         /\ length buf = n
         /\ (mode_enabled sd brush BRUSH_AUTOMASKING_TOPOLOGY = false -> ss2 = ss1)
         /\ (mode_enabled sd brush BRUSH_AUTOMASKING_TOPOLOGY = true ->
             exists visited,
               fill_topology_automasking_factors_mesh sd ss1 = Some (visited, ss2)
               /\ forall v,
                    (v ∈ visited -> v ∉ topology_seeds ss -> buf !! v = Some 1%Q)
                    /\ (v ∉ visited -> v ∉ topology_seeds ss -> (v < n)%nat ->
                        buf !! v = Some init)
                    /\ ((v < n)%nat -> buf !! v = Some 1%Q \/ buf !! v = Some init)).
Proof.
  intros Hclosed Hseeds n mode init.
  destruct (cache_init_factor_buffer_replicate mode ss) as (ss1 & Hrun & Hfr & Hbuf).
  assert (Hinit : factor_initial_value mode = init).
  { unfold factor_initial_value, init. destruct (has_flag mode _); reflexivity. }
  rewrite Hinit in Hbuf. fold n in Hbuf.
  exists ss1. split; [exact Hrun |]. split; [exact Hbuf |].
  assert (Hg1 : geom ss1 = geom ss) by apply Hfr.
  unfold cache_init_topology.
  destruct (mode_enabled sd brush BRUSH_AUTOMASKING_TOPOLOGY) eqn:Etop.
  - unfold fill_topology_automasking_factors_mesh.
    fold (topology_seeds ss1). rewrite (topology_seeds_frame ss ss1 Hfr).
    set (seeds := topology_seeds ss) in *.
    set (visited0 := if flood_skip_initial (geom ss1)
                     then list_to_set seeds else (∅ : gset nat)).
    destruct (flood_execute_topology ss1 (list_to_set seeds) (replicate n init)
                (paint_brush sd) (Z.to_nat (active_vert_index (geom ss1)))
                ltac:(rewrite Hg1; exact Hclosed)
                (length seeds + SCULPT_vertex_count_get (geom ss1)) seeds
                visited0 ss1)
      as (visited & ss2 & Hflood & HInv).
    + split; [apply same_frame_refl |].
      split; [intros q Hq; right; apply elem_of_list_to_set; exact Hq |].
      assert (Hsub : forall v, v ∈ visited0 -> v ∈ (list_to_set seeds : gset nat)).
      { intros v. unfold visited0. destruct (flood_skip_initial _); [auto |].
        intros Hv. apply elem_of_empty in Hv. contradiction. }
      split.
      { intros v Hv. assert (Hin : v ∈ (list_to_set seeds : gset nat))
          by (destruct Hv as [Hv | Hv]; [apply Hsub; exact Hv | exact Hv]).
        apply elem_of_list_to_set in Hin. rewrite Hg1.
        rewrite Forall_forall in Hseeds. apply Hseeds. exact Hin. }
      exists (replicate n init). split; [exact Hbuf |].
      split; [rewrite Hg1; apply length_replicate |].
      split; [intros v Hv Hnv; exfalso; apply Hnv, Hsub, Hv |].
      split; [reflexivity | intros v; right; reflexivity].
    + lia.
    + rewrite Hflood. cbn [mbind option_bind].
      destruct HInv as (Hfr2 & _ & Hvis & buf & Hb & Hlen & Hone & Hold & Heither).
      rewrite Hg1 in Hlen.
      eexists _, ss2, buf. split; [reflexivity |]. split; [exact Hb |].
      split; [exact Hlen |]. split; [discriminate |].
      intros _. exists visited. split; [reflexivity |].
      intros v. split; [| split].
      * intros Hv Hns. apply Hone; [exact Hv |].
        intros Hin. apply Hns. apply elem_of_list_to_set in Hin. exact Hin.
      * intros Hv Hns Hvn. rewrite Hold; [apply lookup_replicate_2; exact Hvn | exact Hv |].
        intros Hin. apply Hns. apply elem_of_list_to_set in Hin. exact Hin.
      * intros Hvn. destruct (Heither v) as [H1 | H2]; [left; exact H1 | right].
        rewrite H2. apply lookup_replicate_2. exact Hvn.
  - eexists _, ss1, _. split; [reflexivity |]. split; [exact Hbuf |].
    split; [apply length_replicate |]. split; [reflexivity | discriminate].
Qed.

End FactorSeed.

(** A seed without neighbors leaves the traversal at once: the lambda is
    not called on any edge, whatever the visited set holds at that point,
    so that neither the session nor the visited set changes. *)
Lemma flood_execute_loose_seed {S : Type} (fuel : nat) (g : Geometry)
    (func : nat -> nat -> S -> option (bool * S)) (v : nat) (visited : gset nat)
    (s : S) :
  vertex_neighbors g v = [] ->
  flood_execute (Datatypes.S fuel) g func [v] visited s = Some (visited, s).
Proof.
  intros Hn. cbn [flood_execute]. rewrite Hn. cbn.
  destruct fuel; reflexivity.
Qed.

(** The fill from one seed without neighbors changes nothing, whether the
    engine counts the seed as visited from the start or not. *)
Lemma fill_topology_loose_seed `{AutomaskFlags} `{Externals} (sd : Sculpt)
    (ss : SculptSession) (v : nat) :
  topology_seeds ss = [v] ->
  vertex_neighbors (geom ss) v = [] ->
  exists visited, fill_topology_automasking_factors_mesh sd ss = Some (visited, ss).
Proof.
  intros Hseeds Hn. unfold fill_topology_automasking_factors_mesh.
  fold (topology_seeds ss). rewrite Hseeds. cbn [length Nat.add].
  rewrite (flood_execute_loose_seed _ _ _ _ _ _ Hn). eexists. reflexivity.
Qed.


(** ** Cache construction leaves a well-formed session *)

Section CacheInitOk.
Context `{AutomaskFlags} `{Externals}.

Lemma session_ok_flags (ss : SculptSession) (c c' : Cache) :
  flags (settings c') = flags (settings c) ->
  session_ok ss c -> session_ok ss c'.
Proof. unfold session_ok. intros ->. auto. Qed.

Lemma same_side_attrs_refl (ss : SculptSession) : same_side_attrs ss ss.
Proof. repeat split. Qed.

Lemma same_side_attrs_trans (a b c : SculptSession) :
  same_side_attrs a b -> same_side_attrs b c -> same_side_attrs a c.
Proof. intros (?&?&?) (?&?&?). repeat split; congruence. Qed.

Lemma session_ok_side (ss : SculptSession) (c : Cache) :
  session_ok ss c -> side_ok ss c.
Proof.
  intros (Hcl & Hf & Hs & Ho & Hc & Hcav & Hocc & Huf & Huc).
  repeat (split; [assumption |]). exact Huc.
Qed.

(** A session with a well-formed factor buffer is ready for the next
    precompute step. *)
Lemma side_ok_new_factor (ss ss' : SculptSession) (c : Cache) (buf : list float) :
  side_ok ss c ->
  geom ss' = geom ss ->
  same_side_attrs ss ss' ->
  automasking_factor (attrs ss') = Some buf ->
  length buf = SCULPT_vertex_count_get (geom ss) ->
  Forall in_unit buf ->
  precompute_ok ss' c.
Proof.
  intros (Hcl & Hs & Ho & Hc & Hcav & Huc) Hg (Es & Eo & Ec) Hbuf Hlen Hunit.
  split; [| rewrite Hbuf; eexists; reflexivity].
  unfold session_ok. rewrite Hg, Es, Eo, Ec, Hbuf.
  split; [exact Hcl |].
  split; [intros b Hb; injection Hb as <-; exact Hlen |].
  split; [exact Hs |]. split; [exact Ho |]. split; [exact Hc |].
  split; [exact Hcav |].
  split; [intros _ Hnone; discriminate Hnone |].
  split; [intros b Hb; injection Hb as <-; exact Hunit | exact Huc].
Qed.

(** A session that differs from a well-formed one in the factor buffer
    only is well-formed when the new factor buffer is. *)
Lemma session_ok_new_factor (ss ss' : SculptSession) (c : Cache) (buf : list float) :
  session_ok ss c ->
  geom ss' = geom ss ->
  same_side_attrs ss ss' ->
  automasking_factor (attrs ss') = Some buf ->
  length buf = SCULPT_vertex_count_get (geom ss) ->
  Forall in_unit buf ->
  precompute_ok ss' c.
Proof.
  intros Hok. apply side_ok_new_factor. apply session_ok_side. exact Hok.
Qed.

Lemma set_factor_side (ss : SculptSession) (b : option (list float)) :
  same_side_attrs ss (set_factor ss b).
Proof. repeat split. Qed.

Lemma factor_write_ok (ss : SculptSession) (c : Cache) (v : nat) (q : float) :
  precompute_ok ss c ->
  (v < SCULPT_vertex_count_get (geom ss))%nat ->
  in_unit q ->
  exists ss',
    factor_write v q ss = Some ss'
    /\ precompute_ok ss' c /\ same_frame ss ss' /\ same_side_attrs ss ss'.
Proof.
  intros [Hok [buf Hbuf]] Hv Hq.
  assert (Hlen : length buf = SCULPT_vertex_count_get (geom ss)).
  { destruct Hok as (_ & Hf & _). apply Hf. exact Hbuf. }
  assert (Hunit : Forall in_unit buf).
  { destruct Hok as (_ & _ & _ & _ & _ & _ & _ & Hu & _). apply Hu. exact Hbuf. }
  rewrite (factor_write_Some ss buf v q Hbuf) by lia.
  eexists. split; [reflexivity |].
  split; [| split; [apply same_frame_set_attrs | apply set_factor_side]].
  eapply (session_ok_new_factor ss); [exact Hok | reflexivity | apply set_factor_side
    | reflexivity | rewrite length_insert; exact Hlen
    | apply Forall_insert_unit; assumption].
Qed.

Lemma precompute_ok_read (ss : SculptSession) (c : Cache) (v : nat) :
  precompute_ok ss c ->
  (v < SCULPT_vertex_count_get (geom ss))%nat ->
  exists f, attr_read (automasking_factor (attrs ss)) v = Some f /\ in_unit f.
Proof.
  intros [Hok [buf Hbuf]] Hv.
  assert (Hlen : length buf = SCULPT_vertex_count_get (geom ss)).
  { destruct Hok as (_ & Hf & _). apply Hf. exact Hbuf. }
  assert (Hunit : Forall in_unit buf).
  { destruct Hok as (_ & _ & _ & _ & _ & _ & _ & Hu & _). apply Hu. exact Hbuf. }
  rewrite Hbuf, attr_read_Some.
  destruct (lookup_lt_is_Some_2 buf v) as [f Hf]; [lia |].
  exists f. split; [exact Hf |].
  rewrite Forall_forall in Hunit. apply Hunit.
  eapply list_elem_of_lookup_2. exact Hf.
Qed.

(** A loop over the vertices whose body keeps the precompute state. *)
Lemma for_range_precompute (c : Cache) (ss : SculptSession)
    (body : nat -> SculptSession -> option SculptSession) :
  precompute_ok ss c ->
  (forall i t,
     same_frame ss t ->
     (i < SCULPT_vertex_count_get (geom t))%nat -> precompute_ok t c ->
     exists t', body i t = Some t' /\ precompute_ok t' c /\ same_frame t t') ->
  exists ss',
    for_range (SCULPT_vertex_count_get (geom ss)) body ss = Some ss'
    /\ precompute_ok ss' c /\ same_frame ss ss'.
Proof.
  intros Hok Hbody.
  destruct (for_range_total (fun t => precompute_ok t c /\ same_frame ss t)
              (SCULPT_vertex_count_get (geom ss)) body ss)
    as (ss' & Hrun & Hok' & Hfr).
  - split; [exact Hok | apply same_frame_refl].
  - intros i t Hi [Ht Hfr].
    destruct (Hbody i t) as (t' & Hrun & Ht' & Hfr'); [exact Hfr | | exact Ht |].
    { destruct Hfr as (_ & _ & _ & _ & _ & ->). exact Hi. }
    exists t'. split; [exact Hrun |]. split; [exact Ht' |].
    eapply same_frame_trans; eassumption.
  - exists ss'. auto.
Qed.

(** *** Face sets *)

Lemma init_face_sets_masking_ok (sd : Sculpt) (c : Cache) (ss : SculptSession) :
  precompute_ok ss c ->
  exists ss',
    init_face_sets_masking sd ss = Some ss'
    /\ precompute_ok ss' c /\ same_frame ss ss'.
Proof.
  intros Hok. unfold init_face_sets_masking.
  destruct (negb (is_enabled sd (Some ss) (paint_brush sd))).
  - exists ss. split; [reflexivity |]. split; [exact Hok | apply same_frame_refl].
  - apply for_range_precompute; [exact Hok |].
    intros i t _ Hi Ht.
    destruct (negb (vert_has_face_set (geom t) i (active_face_set_get (geom ss)))).
    + destruct (factor_write_ok t c i 0%Q Ht Hi in_unit_0) as (t' & Hw & Ht' & Hfr & _).
      exists t'. auto.
    + exists t. split; [reflexivity |]. split; [exact Ht | apply same_frame_refl].
Qed.

(** *** Boundaries *)

Lemma falloff_scale_unit (d steps : Z) :
  0 <= d <= steps -> 0 < steps -> in_unit (falloff_scale d steps).
Proof.
  intros Hd Hs. unfold falloff_scale, pow2f.
  assert (Hq : in_unit (inject_Z d / inject_Z steps)%Q).
  { assert (Hs' : (0 < inject_Z steps)%Q)
      by (change 0%Q with (inject_Z 0); rewrite <- Zlt_Qlt; exact Hs).
    split.
    - apply Qle_shift_div_l; [exact Hs' |]. rewrite Qmult_0_l.
      change 0%Q with (inject_Z 0). rewrite <- Zle_Qle. lia.
    - apply Qle_shift_div_r; [exact Hs' |]. rewrite Qmult_1_l.
      rewrite <- Zle_Qle. lia. }
  apply in_unit_compl. apply in_unit_mult; apply in_unit_compl; exact Hq.
Qed.

Lemma map_seq_lookup {A : Type} (f : nat -> A) (n i : nat) :
  (i < n)%nat -> map f (seq 0 n) !! i = Some (f i).
Proof.
  intros Hi. change (map f (seq 0 n)) with (f <$> seq 0 n).
  rewrite list_lookup_fmap, lookup_seq_lt by exact Hi. reflexivity.
Qed.

Lemma init_boundary_masking_ok (mode : BoundaryAutomaskMode) (steps : Z)
    (c : Cache) (ss : SculptSession) :
  precompute_ok ss c ->
  0 < steps ->
  exists ss',
    init_boundary_masking mode steps ss = Some ss'
    /\ precompute_ok ss' c /\ same_frame ss ss'.
Proof.
  intros Hok Hsteps. unfold init_boundary_masking.
  assert (Hclosed : geometry_closed (geom ss)) by apply Hok.
  rewrite (edge_distance_propagate_levels (geom ss) mode Hclosed steps).
  cbn [mbind option_bind].
  apply for_range_precompute; [exact Hok |].
  intros i t Hfr Hi Ht. unfold boundary_apply.
  assert (Hg : geom t = geom ss) by apply Hfr.
  rewrite map_seq_lookup by (rewrite <- Hg; exact Hi).
  cbn [mbind option_bind].
  destruct (edge_level_range (geom ss) mode (Z.to_nat steps) i) as [-> | (d & Hd & ->)].
  - cbn. exists t. split; [reflexivity |]. split; [exact Ht | apply same_frame_refl].
  - replace (Z.of_nat d =? EDGE_DISTANCE_INF) with false
      by (symmetry; apply Z.eqb_neq; unfold EDGE_DISTANCE_INF; lia).
    rewrite edge_boundary_scale_Some by lia. cbn [mbind option_bind].
    destruct (precompute_ok_read t c i Ht Hi) as (old & -> & Hold).
    cbn [mbind option_bind].
    destruct (factor_write_ok t c i (old * falloff_scale (Z.of_nat d) steps)%Q Ht Hi)
      as (t' & Hw & Ht' & Hfr' & _).
    { apply in_unit_mult; [exact Hold |]. apply falloff_scale_unit; lia. }
    exists t'. auto.
Qed.

(** *** View normal and occlusion *)

Lemma for_range_precompute_with (Q : SculptSession -> Prop) (c : Cache)
    (ss : SculptSession) (body : nat -> SculptSession -> option SculptSession) :
  precompute_ok ss c -> Q ss ->
  (forall i t,
     same_frame ss t ->
     (i < SCULPT_vertex_count_get (geom t))%nat -> precompute_ok t c -> Q t ->
     exists t', body i t = Some t' /\ precompute_ok t' c /\ Q t' /\ same_frame t t') ->
  exists ss',
    for_range (SCULPT_vertex_count_get (geom ss)) body ss = Some ss'
    /\ precompute_ok ss' c /\ Q ss' /\ same_frame ss ss'.
Proof.
  intros Hok HQ Hbody.
  destruct (for_range_total (fun t => precompute_ok t c /\ Q t /\ same_frame ss t)
              (SCULPT_vertex_count_get (geom ss)) body ss)
    as (ss' & Hrun & Hok' & HQ' & Hfr).
  - split; [exact Hok |]. split; [exact HQ | apply same_frame_refl].
  - intros i t Hi (Ht & HQt & Hfr).
    destruct (Hbody i t) as (t' & Hrun & Ht' & HQ' & Hfr');
      [exact Hfr | | exact Ht | exact HQt |].
    { destruct Hfr as (_ & _ & _ & _ & _ & ->). exact Hi. }
    exists t'. split; [exact Hrun |]. split; [exact Ht' |]. split; [exact HQ' |].
    eapply same_frame_trans; eassumption.
  - exists ss'. auto.
Qed.

Lemma calc_view_occlusion_factor_keeps (ss ss' : SculptSession) (c : Cache)
    (v : nat) (id : Z) (b : bool) :
  calc_view_occlusion_factor ss c v id = Some (b, ss') ->
  is_Some (automasking_occlusion (attrs ss')).
Proof.
  unfold calc_view_occlusion_factor. intros Hc. bind_inv Hc.
  destruct (negb _).
  - bind_inv Hc. injection Hc as _ <-. cbn. eexists; reflexivity.
  - injection Hc as _ <-. unfold attr_read in E.
    destruct (automasking_occlusion (attrs ss)); [eexists; reflexivity | discriminate].
Qed.

Lemma stroke_id_write_ok (ss : SculptSession) (c : Cache) (v : nat) (id : Z) :
  precompute_ok ss c ->
  (v < SCULPT_vertex_count_get (geom ss))%nat ->
  exists ss',
    match automasking_stroke_id (attrs ss) with
    | Some _ =>
        buf ← attr_write (automasking_stroke_id (attrs ss)) v id;
        Some (set_stroke_ids ss (Some buf))
    | None => Some ss
    end = Some ss'
    /\ precompute_ok ss' c /\ same_frame ss ss'
    /\ automasking_occlusion (attrs ss') = automasking_occlusion (attrs ss).
Proof.
  intros [Hok Hfac] Hv.
  destruct (automasking_stroke_id (attrs ss)) as [buf |] eqn:Eb.
  - assert (Hlen : length buf = SCULPT_vertex_count_get (geom ss)).
    { destruct Hok as (_ & _ & Hs & _). apply Hs. exact Eb. }
    rewrite attr_write_Some by lia. cbn [mbind option_bind].
    eexists. split; [reflexivity |]. split; [split |].
    + apply session_ok_set_stroke_ids; [exact Hok |]. rewrite length_insert. exact Hlen.
    + exact Hfac.
    + split; [apply same_frame_set_attrs | reflexivity].
  - exists ss. split; [reflexivity |]. split; [split; assumption |].
    split; [apply same_frame_refl | reflexivity].
Qed.

Lemma normal_occlusion_automasking_fill_ok (c : Cache) (mode : Z) (ss : SculptSession) :
  precompute_ok ss c ->
  (has_flag mode BRUSH_AUTOMASKING_VIEW_NORMAL = true -> has_cache ss = true) ->
  (has_flag mode BRUSH_AUTOMASKING_VIEW_NORMAL = true ->
   has_flag mode BRUSH_AUTOMASKING_VIEW_OCCLUSION = true ->
   is_Some (automasking_occlusion (attrs ss))) ->
  exists ss',
    normal_occlusion_automasking_fill c mode ss = Some ss'
    /\ precompute_ok ss' c /\ same_frame ss ss'.
Proof.
  intros Hok Hcache Hocc. unfold normal_occlusion_automasking_fill.
  destruct (for_range_precompute_with
              (fun t => has_flag mode BRUSH_AUTOMASKING_VIEW_NORMAL = true ->
                        has_flag mode BRUSH_AUTOMASKING_VIEW_OCCLUSION = true ->
                        is_Some (automasking_occlusion (attrs t)))
              c ss
              (fun vertex ss =>
                 f ← attr_read (automasking_factor (attrs ss)) vertex;
                 '(f, ss) ←
                   (if has_flag mode BRUSH_AUTOMASKING_VIEW_NORMAL then
                      '(f, ss) ←
                        (if has_flag mode BRUSH_AUTOMASKING_VIEW_OCCLUSION then
                           '(occ, ss) ← calc_view_occlusion_factor ss c vertex
                                           (to_uchar (-1));
                           Some ((f * (if occ : bool then 1 else 0))%Q, ss)
                         else Some (f, ss));
                      n ← calc_view_normal_factor ss c vertex None;
                      Some ((f * n)%Q, ss)
                    else Some (f, ss));
                 ss ←
                   match automasking_stroke_id (attrs ss) with
                   | Some _ =>
                       buf ← attr_write (automasking_stroke_id (attrs ss)) vertex
                                (stroke_id ss);
                       Some (set_stroke_ids ss (Some buf))
                   | None => Some ss
                   end;
                 factor_write vertex f ss))
    as (ss' & Hrun & Hok' & _ & Hfr); [exact Hok | exact Hocc | | exists ss'; auto].
  intros i t Hfr Hi Ht HQ.
  destruct (precompute_ok_read t c i Ht Hi) as (f & -> & Hf).
  cbn [mbind option_bind].
  assert (Hinner : exists f1 t1,
            (if has_flag mode BRUSH_AUTOMASKING_VIEW_NORMAL then
               '(f, ss) ←
                 (if has_flag mode BRUSH_AUTOMASKING_VIEW_OCCLUSION then
                    '(occ, ss) ← calc_view_occlusion_factor t c i (to_uchar (-1));
                    Some ((f * (if occ : bool then 1 else 0))%Q, ss)
                  else Some (f, t));
               n ← calc_view_normal_factor ss c i None;
               Some ((f * n)%Q, ss)
             else Some (f, t)) = Some (f1, t1)
            /\ in_unit f1 /\ precompute_ok t1 c /\ same_frame t t1
            /\ (has_flag mode BRUSH_AUTOMASKING_VIEW_NORMAL = true ->
                has_flag mode BRUSH_AUTOMASKING_VIEW_OCCLUSION = true ->
                is_Some (automasking_occlusion (attrs t1)))).
  { destruct (has_flag mode BRUSH_AUTOMASKING_VIEW_NORMAL) eqn:Evn.
    - assert (Hocc1 : exists f0 t0,
                (if has_flag mode BRUSH_AUTOMASKING_VIEW_OCCLUSION then
                   '(occ, ss) ← calc_view_occlusion_factor t c i (to_uchar (-1));
                   Some ((f * (if occ : bool then 1 else 0))%Q, ss)
                 else Some (f, t)) = Some (f0, t0)
                /\ in_unit f0 /\ precompute_ok t0 c /\ same_frame t t0
                /\ (has_flag mode BRUSH_AUTOMASKING_VIEW_OCCLUSION = true ->
                    is_Some (automasking_occlusion (attrs t0)))).
      { destruct (has_flag mode BRUSH_AUTOMASKING_VIEW_OCCLUSION) eqn:Eocc.
        - destruct Ht as [Hsok Hfac].
          destruct (calc_view_occlusion_factor_ok t c i (to_uchar (-1)) Hsok
                      (HQ eq_refl eq_refl) Hi)
            as (b & t0 & Hc & Hok0 & Hfr0 & Hfac0).
          rewrite Hc. cbn [mbind option_bind].
          eexists _, t0. split; [reflexivity |].
          split; [apply in_unit_mult; [exact Hf |];
                  destruct b; [apply in_unit_1 | apply in_unit_0] |].
          split; [split; [exact Hok0 | rewrite Hfac0; exact Hfac] |].
          split; [exact Hfr0 |].
          intros _. eapply calc_view_occlusion_factor_keeps. exact Hc.
        - exists f, t. split; [reflexivity |]. split; [exact Hf |].
          split; [exact Ht |]. split; [apply same_frame_refl | discriminate]. }
      destruct Hocc1 as (f0 & t0 & -> & Hf0 & Hok0 & Hfr0 & Hocc0).
      cbn [mbind option_bind].
      assert (Hc0 : has_cache t0 = true).
      { rewrite (has_cache_frame ss t0); [apply Hcache; reflexivity |].
        eapply same_frame_trans; eassumption. }
      destruct (calc_view_normal_factor_ok t0 c i None Hc0) as (nf & -> & Hnf).
      cbn [mbind option_bind].
      eexists _, t0. split; [reflexivity |].
      split; [apply in_unit_mult; assumption |].
      split; [exact Hok0 |]. split; [exact Hfr0 |]. intros _. exact Hocc0.
    - exists f, t. split; [reflexivity |]. split; [exact Hf |].
      split; [exact Ht |]. split; [apply same_frame_refl | discriminate]. }
  destruct Hinner as (f1 & t1 & -> & Hf1 & Hok1 & Hfr1 & Hocc1).
  cbn [mbind option_bind].
  assert (Hi1 : (i < SCULPT_vertex_count_get (geom t1))%nat).
  { destruct Hfr1 as (_ & _ & _ & _ & _ & ->). exact Hi. }
  assert (Hs1 : stroke_id t1 = stroke_id t) by apply Hfr1.
  destruct (stroke_id_write_ok t1 c i (stroke_id t1) Hok1 Hi1)
    as (t2 & -> & Hok2 & Hfr2 & Hocc2).
  cbn [mbind option_bind].
  assert (Hi2 : (i < SCULPT_vertex_count_get (geom t2))%nat).
  { destruct Hfr2 as (_ & _ & _ & _ & _ & ->). exact Hi1. }
  destruct (factor_write_ok t2 c i f1 Hok2 Hi2 Hf1) as (t3 & -> & Hok3 & Hfr3 & Hside3).
  exists t3. split; [reflexivity |]. split; [exact Hok3 |].
  split.
  - intros Hvn Ho. destruct Hside3 as (_ & -> & _). rewrite Hocc2. auto.
  - eapply same_frame_trans; [exact Hfr1 |].
    eapply same_frame_trans; eassumption.
Qed.

(** *** The factor buffer and the topology fill *)

Lemma factor_write_side (v : nat) (q : float) (ss ss' : SculptSession) :
  factor_write v q ss = Some ss' -> same_side_attrs ss ss'.
Proof.
  unfold factor_write. intros Hw. bind_inv Hw. injection Hw as <-.
  apply set_factor_side.
Qed.

Lemma cache_init_factor_buffer_ok (mode : Z) (c : Cache) (ss : SculptSession) :
  side_ok ss c ->
  exists ss',
    cache_init_factor_buffer mode ss = Some ss'
    /\ precompute_ok ss' c /\ same_frame ss ss' /\ same_side_attrs ss ss'.
Proof.
  intros Hside.
  destruct (cache_init_factor_buffer_replicate mode ss) as (ss' & Hrun & Hfr & Hbuf).
  assert (Hs : same_side_attrs ss ss').
  { unfold cache_init_factor_buffer in Hrun.
    eapply (for_range_invariant (same_side_attrs ss)); [| | exact Hrun].
    - apply set_factor_side.
    - intros i t t' _ Ht Hw. eapply same_side_attrs_trans; [exact Ht |].
      eapply factor_write_side. exact Hw. }
  exists ss'. split; [exact Hrun |].
  split; [| split; [exact Hfr | exact Hs]].
  eapply (side_ok_new_factor ss); [exact Hside | apply Hfr | exact Hs | exact Hbuf
    | apply length_replicate |].
  apply Forall_replicate. unfold factor_initial_value.
  destruct (negb _); [apply in_unit_1 | apply in_unit_0].
Qed.

Lemma topology_fill_func_side (brush : option Brush) (active_vert a b : nat)
    (ss ss' : SculptSession) (r : bool) :
  topology_fill_func brush active_vert a b ss = Some (r, ss') ->
  same_side_attrs ss ss'.
Proof.
  unfold topology_fill_func. intros Hf. bind_inv Hf. bind_inv Hf.
  injection Hf as _ <-. apply set_factor_side.
Qed.

Lemma fill_topology_ok (sd : Sculpt) (c : Cache) (ss : SculptSession) :
  precompute_ok ss c ->
  Forall (fun v => (v < SCULPT_vertex_count_get (geom ss))%nat) (topology_seeds ss) ->
  exists visited ss',
    fill_topology_automasking_factors_mesh sd ss = Some (visited, ss')
    /\ precompute_ok ss' c /\ same_frame ss ss'.
Proof.
  intros [Hok [buf Hbuf]] Hseeds.
  assert (Hclosed : geometry_closed (geom ss)) by apply Hok.
  assert (Hlen : length buf = SCULPT_vertex_count_get (geom ss)).
  { destruct Hok as (_ & Hf & _). apply Hf. exact Hbuf. }
  assert (Hunit : Forall in_unit buf).
  { destruct Hok as (_ & _ & _ & _ & _ & _ & _ & Hu & _). apply Hu. exact Hbuf. }
  unfold fill_topology_automasking_factors_mesh.
  fold (topology_seeds ss). set (seeds := topology_seeds ss) in *.
  set (visited0 := if flood_skip_initial (geom ss)
                   then list_to_set seeds else (∅ : gset nat)).
  assert (Hsub : forall v, v ∈ visited0 -> v ∈ (list_to_set seeds : gset nat)).
  { intros v. unfold visited0. destruct (flood_skip_initial _); [auto |].
    intros Hv. apply elem_of_empty in Hv. contradiction. }
  destruct (flood_execute_topology ss (list_to_set seeds) buf
              (paint_brush sd) (Z.to_nat (active_vert_index (geom ss))) Hclosed
              (length seeds + SCULPT_vertex_count_get (geom ss)) seeds
              visited0 ss)
    as (visited & ss' & Hflood & HInv).
  - split; [apply same_frame_refl |].
    split; [intros q Hq; right; apply elem_of_list_to_set; exact Hq |].
    split.
    { intros v Hv. assert (Hin : v ∈ (list_to_set seeds : gset nat))
        by (destruct Hv as [Hv | Hv]; [apply Hsub; exact Hv | exact Hv]).
      apply elem_of_list_to_set in Hin.
      rewrite Forall_forall in Hseeds. apply Hseeds. exact Hin. }
    exists buf. split; [exact Hbuf |]. split; [exact Hlen |].
    split; [intros v Hv Hnv; exfalso; apply Hnv, Hsub, Hv |].
    split; [reflexivity | intros v; right; reflexivity].
  - lia.
  - exists visited, ss'. split; [exact Hflood |].
    destruct HInv as (Hfr & _ & _ & b & Hb & Hblen & _ & _ & Heither).
    split; [| exact Hfr].
    eapply (session_ok_new_factor ss); [exact Hok | apply Hfr | | exact Hb | exact Hblen |].
    + eapply (flood_execute_invariant (same_side_attrs ss)); [| | exact Hflood].
      * intros a0 b1 t r t' Ht Hf. eapply same_side_attrs_trans; [exact Ht |].
        eapply topology_fill_func_side. exact Hf.
      * apply same_side_attrs_refl.
    + apply Forall_lookup. intros i x Hx.
      destruct (Heither i) as [H1 | H2].
      * rewrite H1 in Hx. injection Hx as <-. apply in_unit_1.
      * rewrite H2 in Hx. rewrite Forall_lookup in Hunit. eapply Hunit. exact Hx.
Qed.

(** *** The attributes of the stroke *)

Lemma land_lor_absorb (a b : Z) : Z.land (Z.lor a b) a = a.
Proof.
  apply Z.bits_inj'. intros n Hn. rewrite Z.land_spec, Z.lor_spec.
  destruct (Z.testbit a n), (Z.testbit b n); reflexivity.
Qed.

(** A flag word that has all occlusion bits has each of the two flags. *)
Lemma occlusion_bits_have_occlusion (fl : Z) :
  BRUSH_AUTOMASKING_VIEW_OCCLUSION <> 0 ->
  BRUSH_AUTOMASKING_VIEW_NORMAL <> 0 ->
  (Z.land fl occlusion_bits =? occlusion_bits) = true ->
  have_occlusion fl = true.
Proof.
  intros Ho Hv Hall. apply Z.eqb_eq in Hall. unfold occlusion_bits in Hall.
  unfold have_occlusion, has_flag.
  assert (Eo : Z.land fl BRUSH_AUTOMASKING_VIEW_OCCLUSION
               = BRUSH_AUTOMASKING_VIEW_OCCLUSION).
  { rewrite <- (land_lor_absorb BRUSH_AUTOMASKING_VIEW_OCCLUSION
                  BRUSH_AUTOMASKING_VIEW_NORMAL) at 1.
    rewrite Z.land_assoc, Hall. apply land_lor_absorb. }
  assert (Ev : Z.land fl BRUSH_AUTOMASKING_VIEW_NORMAL
               = BRUSH_AUTOMASKING_VIEW_NORMAL).
  { rewrite <- (land_lor_absorb BRUSH_AUTOMASKING_VIEW_NORMAL
                  BRUSH_AUTOMASKING_VIEW_OCCLUSION) at 1.
    rewrite (Z.lor_comm BRUSH_AUTOMASKING_VIEW_NORMAL), Z.land_assoc, Hall.
    rewrite (Z.lor_comm BRUSH_AUTOMASKING_VIEW_OCCLUSION). apply land_lor_absorb. }
  rewrite Eo, Ev.
  apply andb_true_iff. split; apply negb_true_iff, Z.eqb_neq; assumption.
Qed.

(** The flags of the normal pass are the view flags of the mode. *)
Lemma has_flag_normal_bits (fl : Z) :
  has_flag (Z.land fl (Z.lor BRUSH_AUTOMASKING_VIEW_NORMAL
                             BRUSH_AUTOMASKING_VIEW_OCCLUSION))
    BRUSH_AUTOMASKING_VIEW_NORMAL
  = has_flag fl BRUSH_AUTOMASKING_VIEW_NORMAL
  /\ has_flag (Z.land fl (Z.lor BRUSH_AUTOMASKING_VIEW_NORMAL
                                BRUSH_AUTOMASKING_VIEW_OCCLUSION))
       BRUSH_AUTOMASKING_VIEW_OCCLUSION
     = has_flag fl BRUSH_AUTOMASKING_VIEW_OCCLUSION.
Proof.
  unfold has_flag. split.
  - rewrite <- Z.land_assoc, land_lor_absorb. reflexivity.
  - rewrite <- Z.land_assoc, (Z.lor_comm BRUSH_AUTOMASKING_VIEW_NORMAL),
      land_lor_absorb. reflexivity.
Qed.

Lemma cache_init_settings_flags (sd : Sculpt) (brush : option Brush)
    (ss : SculptSession) :
  flags (settings (cache_init_settings sd brush ss)) = calc_effective_bits sd brush.
Proof.
  unfold cache_init_settings. destruct (_ && _); reflexivity.
Qed.

(** The state after the attributes of the stroke are ensured and the
    reuse decision is taken. *)
Lemma cache_init_reuse_side (sd : Sculpt) (brush : option Brush) (ss : SculptSession) :
  session_sized ss ->
  let mode := calc_effective_bits sd brush in
  let r := cache_init_reuse brush mode (cache_init_settings sd brush ss)
             (cache_init_attributes mode ss) in
  side_ok r.2 r.1
  /\ flags (settings r.1) = mode
  /\ (have_occlusion mode = true -> is_Some (automasking_occlusion (attrs r.2)))
  /\ geom r.2 = geom ss /\ cache r.2 = cache ss /\ filter_cache r.2 = filter_cache ss.
Proof.
  intros (Hcl & Hs & Ho & Hc & Huc) mode r.
  set (n := SCULPT_vertex_count_get (geom ss)) in *.
  set (ss1 := cache_init_attributes mode ss).
  assert (H1 : geom ss1 = geom ss /\ cache ss1 = cache ss
               /\ filter_cache ss1 = filter_cache ss
               /\ automasking_stroke_id (attrs ss1) = automasking_stroke_id (attrs ss)
               /\ attr_sized n (automasking_occlusion (attrs ss1))
               /\ attr_sized n (automasking_cavity (attrs ss1))
               /\ buffer_in_unit (automasking_cavity (attrs ss1))
               /\ (have_occlusion mode = true ->
                   is_Some (automasking_occlusion (attrs ss1)))
               /\ (has_flag mode BRUSH_AUTOMASKING_CAVITY_ALL = true ->
                   is_Some (automasking_cavity (attrs ss1)))).
  { unfold ss1, cache_init_attributes. fold n.
    destruct (have_occlusion mode) eqn:Eocc;
      destruct (has_flag mode BRUSH_AUTOMASKING_CAVITY_ALL) eqn:Ecav;
      destruct (automasking_occlusion (attrs ss)) as [bo |] eqn:Ebo;
      destruct (automasking_cavity (attrs ss)) as [bc |] eqn:Ebc;
      cbn; rewrite ?Ebo, ?Ebc; cbn; rewrite ?Ebo, ?Ebc;
      repeat match goal with
             | |- _ /\ _ => split
             | |- _ = _ => reflexivity
             | |- _ -> is_Some _ => intros _; eexists; reflexivity
             | |- true = true -> _ => intros _
             | |- false = true -> _ => intros Habs; discriminate Habs
             | |- attr_sized _ _ => first [exact Ho | exact Hc
                  | intros b Hb; injection Hb as <-; apply length_replicate
                  | intros b Hb; discriminate Hb]
             | |- buffer_in_unit _ => first [exact Huc
                  | intros b Hb; injection Hb as <-; apply Forall_replicate, in_unit_0
                  | intros b Hb; discriminate Hb]
             end. }
  destruct H1 as (Hg1 & Hc1 & Hf1 & Hs1 & Ho1 & Hcv1 & Hu1 & Hocc1 & Hcav1).
  assert (Hr : flags (settings r.1) = mode
               /\ geom r.2 = geom ss1 /\ cache r.2 = cache ss1
               /\ filter_cache r.2 = filter_cache ss1
               /\ automasking_occlusion (attrs r.2) = automasking_occlusion (attrs ss1)
               /\ automasking_cavity (attrs r.2) = automasking_cavity (attrs ss1)
               /\ attr_sized n (automasking_stroke_id (attrs r.2))
               /\ (use_stroke_id mode = true ->
                   is_Some (automasking_stroke_id (attrs r.2)))).
  { unfold r, cache_init_reuse. fold ss1.
    pose proof (cache_init_settings_flags sd brush ss) as Hfl. fold mode in Hfl.
    destruct (use_stroke_id mode) eqn:Euse.
    - set (ss2 := SCULPT_stroke_id_ensure ss1).
      assert (H2 : geom ss2 = geom ss1 /\ cache ss2 = cache ss1
                   /\ filter_cache ss2 = filter_cache ss1
                   /\ automasking_occlusion (attrs ss2)
                      = automasking_occlusion (attrs ss1)
                   /\ automasking_cavity (attrs ss2) = automasking_cavity (attrs ss1)
                   /\ attr_sized n (automasking_stroke_id (attrs ss2))
                   /\ is_Some (automasking_stroke_id (attrs ss2))).
      { unfold ss2, SCULPT_stroke_id_ensure.
        destruct (automasking_stroke_id (attrs ss1)) as [bs |] eqn:Ebs.
        - repeat split; try reflexivity; [| eexists; exact Ebs].
          intros b Hb. apply Hs. congruence.
        - cbn. repeat split; try reflexivity; [| eexists; reflexivity].
          intros b Hb. injection Hb as <-. rewrite Hg1. apply length_replicate. }
      destruct H2 as (Hg2 & Hc2 & Hf2 & Ho2 & Hcv2 & Hs2 & Hp2).
      match goal with
      | |- context [(?a, ?b).1] =>
          assert (Hfa : flags (settings a) = mode);
          [| assert (Hb : geom b = geom ss2 /\ cache b = cache ss2
                          /\ filter_cache b = filter_cache ss2
                          /\ attrs b = attrs ss2)]
      end.
      { destruct brush as [b |]; [| exact Hfl].
        destruct (_ && _); [| exact Hfl].
        destruct (_ =? _); [exact Hfl | exact Hfl]. }
      { match goal with
        | |- context [if ?c then set_last_automask_stroke_id _ _ else _] => destruct c
        end; repeat split. }
      cbn [fst snd]. destruct Hb as (Hgb & Hcb & Hfb & Hab).
      rewrite Hgb, Hcb, Hfb, Hab.
      split; [exact Hfa |]. repeat (split; [assumption |]). intros _. exact Hp2.
    - cbn [fst snd]. rewrite Hs1.
      split; [exact Hfl |]. repeat (split; [reflexivity |]).
      split; [exact Hs | intros Habs; discriminate Habs]. }
  destruct Hr as (Hfl & Hgr & Hcr & Hfr & Hor & Hcvr & Hsr & Hpr).
  split.
  - unfold side_ok. rewrite Hfl, Hgr, Hg1, Hor, Hcvr. fold n.
    split; [exact Hcl |]. split; [exact Hsr |]. split; [exact Ho1 |].
    split; [exact Hcv1 |].
    split; [| exact Hu1].
    intros Hcav. split; [| apply Hcav1; exact Hcav].
    apply Hpr. unfold use_stroke_id. rewrite Hcav. apply orb_true_r.
  - split; [exact Hfl |].
    split; [rewrite Hor; exact Hocc1 |].
    split; [congruence |]. split; congruence.
Qed.

(** *** The precompute pass *)

Lemma init_face_sets_masking_side (sd : Sculpt) (ss ss' : SculptSession) :
  init_face_sets_masking sd ss = Some ss' -> same_side_attrs ss ss'.
Proof.
  unfold init_face_sets_masking. destruct (negb _).
  - intros Hrun. injection Hrun as <-. apply same_side_attrs_refl.
  - apply (for_range_invariant (same_side_attrs ss)); [apply same_side_attrs_refl |].
    intros i t t' _ Ht Hbody. destruct (negb _).
    + eapply same_side_attrs_trans; [exact Ht |]. eapply factor_write_side. exact Hbody.
    + injection Hbody as <-. exact Ht.
Qed.

Lemma init_boundary_masking_side (mode : BoundaryAutomaskMode) (steps : Z)
    (ss ss' : SculptSession) :
  init_boundary_masking mode steps ss = Some ss' -> same_side_attrs ss ss'.
Proof.
  unfold init_boundary_masking. intros Hrun. bind_inv Hrun. revert Hrun.
  apply (for_range_invariant (same_side_attrs ss)); [apply same_side_attrs_refl |].
  intros i t t' _ Ht Hbody. unfold boundary_apply in Hbody.
  bind_inv Hbody. destruct (_ =? _).
  - injection Hbody as <-. exact Ht.
  - bind_inv Hbody. bind_inv Hbody.
    eapply same_side_attrs_trans; [exact Ht |].
    eapply factor_write_side. exact Hbody.
Qed.

Lemma fill_topology_side (sd : Sculpt) (ss ss' : SculptSession) (vis : gset nat) :
  fill_topology_automasking_factors_mesh sd ss = Some (vis, ss') ->
  same_side_attrs ss ss'.
Proof.
  unfold fill_topology_automasking_factors_mesh.
  apply (flood_execute_invariant (same_side_attrs ss)); [| apply same_side_attrs_refl].
  intros a b t r t' Ht Hf. eapply same_side_attrs_trans; [exact Ht |].
  eapply topology_fill_func_side. exact Hf.
Qed.

Lemma precompute_ok_flags (ss : SculptSession) (c c' : Cache) :
  flags (settings c') = flags (settings c) ->
  precompute_ok ss c -> precompute_ok ss c'.
Proof.
  intros Hfl [Hok Hfac]. split; [eapply session_ok_flags; eassumption | exact Hfac].
Qed.

(** The precompute pass returns and leaves a well-formed session with a
    factor buffer. *)
Lemma cache_init_precompute_ok (sd : Sculpt) (brush : option Brush) (c : Cache)
    (ss : SculptSession) :
  side_ok ss c ->
  (have_occlusion (calc_effective_bits sd brush) = true ->
   is_Some (automasking_occlusion (attrs ss))) ->
  (mode_enabled sd brush BRUSH_AUTOMASKING_TOPOLOGY = true ->
   Forall (fun v => (v < SCULPT_vertex_count_get (geom ss))%nat) (topology_seeds ss)) ->
  (mode_enabled sd brush BRUSH_AUTOMASKING_BOUNDARY_EDGES = true
   \/ mode_enabled sd brush BRUSH_AUTOMASKING_BOUNDARY_FACE_SETS = true ->
   0 < boundary_propagation_steps sd brush) ->
  (has_flag (calc_effective_bits sd brush) BRUSH_AUTOMASKING_VIEW_NORMAL = true ->
   has_cache ss = true) ->
  exists c' ss',
    cache_init_precompute sd brush c ss = Some (c', ss')
    /\ precompute_ok ss' c'
    /\ flags (settings c') = flags (settings c)
    /\ same_frame ss ss'.
Proof.
  intros Hside Hocc Hseeds Hsteps Hcache. unfold cache_init_precompute.
  destruct (cache_init_factor_buffer_ok (calc_effective_bits sd brush) c ss Hside)
    as (ss1 & -> & Hok1 & Hfr1 & Hs1).
  cbn [mbind option_bind].
  (* Topology. *)
  assert (Htop : exists c2 ss2,
            cache_init_topology sd brush c ss1 = Some (c2, ss2)
            /\ precompute_ok ss2 c2 /\ flags (settings c2) = flags (settings c)
            /\ same_frame ss1 ss2 /\ same_side_attrs ss1 ss2).
  { unfold cache_init_topology.
    destruct (mode_enabled sd brush BRUSH_AUTOMASKING_TOPOLOGY) eqn:Etop.
    - destruct (fill_topology_ok sd c ss1 Hok1) as (vis & ss2 & Hfill & Hok2 & Hfr2).
      { rewrite (topology_seeds_frame ss ss1 Hfr1).
        destruct Hfr1 as (_ & _ & _ & _ & _ & ->). apply Hseeds. reflexivity. }
      rewrite Hfill. cbn [mbind option_bind].
      eexists _, ss2. split; [reflexivity |].
      split; [eapply precompute_ok_flags; [| exact Hok2]; reflexivity |].
      split; [reflexivity |]. split; [exact Hfr2 |].
      eapply fill_topology_side. exact Hfill.
    - exists c, ss1. split; [reflexivity |]. split; [exact Hok1 |].
      split; [reflexivity |]. split; [apply same_frame_refl | apply same_side_attrs_refl]. }
  destruct Htop as (c2 & ss2 & -> & Hok2 & Hfl2 & Hfr2 & Hs2).
  cbn [mbind option_bind].
  (* Face sets. *)
  assert (Hfs : exists ss3,
            (if mode_enabled sd brush BRUSH_AUTOMASKING_FACE_SETS
             then init_face_sets_masking sd ss2 else Some ss2) = Some ss3
            /\ precompute_ok ss3 c2 /\ same_frame ss2 ss3 /\ same_side_attrs ss2 ss3).
  { destruct (mode_enabled sd brush BRUSH_AUTOMASKING_FACE_SETS).
    - destruct (init_face_sets_masking_ok sd c2 ss2 Hok2) as (ss3 & Hrun & Hok3 & Hfr3).
      exists ss3. split; [exact Hrun |]. split; [exact Hok3 |]. split; [exact Hfr3 |].
      eapply init_face_sets_masking_side. exact Hrun.
    - exists ss2. split; [reflexivity |]. split; [exact Hok2 |].
      split; [apply same_frame_refl | apply same_side_attrs_refl]. }
  destruct Hfs as (ss3 & -> & Hok3 & Hfr3 & Hs3).
  cbn [mbind option_bind].
  (* Boundaries. *)
  assert (Hbd : forall (m : BoundaryAutomaskMode) (flag : Z) (t : SculptSession),
            (mode_enabled sd brush flag = true ->
             0 < boundary_propagation_steps sd brush) ->
            precompute_ok t c2 ->
            exists t',
              (if mode_enabled sd brush flag
               then init_boundary_masking m (boundary_propagation_steps sd brush) t
               else Some t) = Some t'
              /\ precompute_ok t' c2 /\ same_frame t t' /\ same_side_attrs t t').
  { intros m flag t Hst Ht. destruct (mode_enabled sd brush flag).
    - destruct (init_boundary_masking_ok m (boundary_propagation_steps sd brush) c2 t Ht)
        as (t' & Hrun & Ht' & Hfr'); [apply Hst; reflexivity |].
      exists t'. split; [exact Hrun |]. split; [exact Ht' |]. split; [exact Hfr' |].
      eapply init_boundary_masking_side. exact Hrun.
    - exists t. split; [reflexivity |]. split; [exact Ht |].
      split; [apply same_frame_refl | apply same_side_attrs_refl]. }
  destruct (Hbd Edges BRUSH_AUTOMASKING_BOUNDARY_EDGES ss3) as (ss4 & -> & Hok4 & Hfr4 & Hs4);
    [intros He; apply Hsteps; left; exact He | exact Hok3 |].
  cbn [mbind option_bind].
  destruct (Hbd FaceSets BRUSH_AUTOMASKING_BOUNDARY_FACE_SETS ss4)
    as (ss5 & -> & Hok5 & Hfr5 & Hs5);
    [intros He; apply Hsteps; right; exact He | exact Hok4 |].
  cbn [mbind option_bind].
  (* Subtractive modes. *)
  assert (Hfr05 : same_frame ss ss5).
  { eapply same_frame_trans; [exact Hfr1 |].
    eapply same_frame_trans; [exact Hfr2 |].
    eapply same_frame_trans; [exact Hfr3 |].
    eapply same_frame_trans; eassumption. }
  assert (Hs05 : same_side_attrs ss ss5).
  { eapply same_side_attrs_trans; [exact Hs1 |].
    eapply same_side_attrs_trans; [exact Hs2 |].
    eapply same_side_attrs_trans; [exact Hs3 |].
    eapply same_side_attrs_trans; eassumption. }
  destruct (has_flag_normal_bits (calc_effective_bits sd brush)) as [Hvn Hvo].
  set (normal_bits := Z.land (calc_effective_bits sd brush)
                        (Z.lor BRUSH_AUTOMASKING_VIEW_NORMAL
                               BRUSH_AUTOMASKING_VIEW_OCCLUSION)) in *.
  destruct (negb (normal_bits =? 0)).
  - destruct (normal_occlusion_automasking_fill_ok c2 normal_bits ss5 Hok5)
      as (ss6 & -> & Hok6 & Hfr6).
    + rewrite Hvn. intros Hn. rewrite (has_cache_frame ss ss5 Hfr05). apply Hcache, Hn.
    + rewrite Hvn, Hvo. intros Hn Ho. destruct Hs05 as (_ & -> & _).
      apply Hocc. unfold have_occlusion. rewrite Hn, Ho. reflexivity.
    + cbn [mbind option_bind]. exists c2, ss6. split; [reflexivity |].
      split; [exact Hok6 |]. split; [exact Hfl2 |].
      eapply same_frame_trans; eassumption.
  - cbn [mbind option_bind]. exists c2, ss5. split; [reflexivity |].
    split; [exact Hok5 |]. split; [exact Hfl2 | exact Hfr05].
Qed.

Lemma side_ok_no_factor (ss : SculptSession) (c : Cache) :
  side_ok ss c ->
  ((Z.land (flags (settings c)) occlusion_bits =? occlusion_bits) = true ->
   is_Some (automasking_occlusion (attrs ss))) ->
  session_ok (factor_attribute_destroy ss) c.
Proof.
  intros (Hcl & Hs & Ho & Hc & Hcav & Huc) Hocc.
  assert (Hd : geom (factor_attribute_destroy ss) = geom ss
               /\ same_side_attrs ss (factor_attribute_destroy ss)
               /\ automasking_factor (attrs (factor_attribute_destroy ss)) = None).
  { unfold factor_attribute_destroy.
    destruct (automasking_factor (attrs ss)) eqn:E; repeat split; assumption. }
  destruct Hd as (Hg & (Es & Eo & Ec) & Hnone).
  unfold session_ok. rewrite Hg, Es, Eo, Ec, Hnone.
  split; [exact Hcl |].
  split; [intros b Hb; discriminate Hb |].
  split; [exact Hs |]. split; [exact Ho |]. split; [exact Hc |].
  split; [exact Hcav |].
  split; [intros Hall _; apply Hocc; exact Hall |].
  split; [intros b Hb; discriminate Hb | exact Huc].
Qed.

(** [cache_init] returns a cache and leaves the session well-formed for
    the factor queries of the stroke. *)
Lemma cache_init_ok (sd : Sculpt) (brush : option Brush)
    (ss : SculptSession) :
  BRUSH_AUTOMASKING_VIEW_OCCLUSION <> 0 ->
  BRUSH_AUTOMASKING_VIEW_NORMAL <> 0 ->
  is_enabled sd (Some ss) brush = true ->
  session_sized ss ->
  (mode_enabled sd brush BRUSH_AUTOMASKING_TOPOLOGY = true ->
   Forall (fun v => (v < SCULPT_vertex_count_get (geom ss))%nat) (topology_seeds ss)) ->
  (mode_enabled sd brush BRUSH_AUTOMASKING_BOUNDARY_EDGES = true
   \/ mode_enabled sd brush BRUSH_AUTOMASKING_BOUNDARY_FACE_SETS = true ->
   0 < boundary_propagation_steps sd brush) ->
  (has_flag (calc_effective_bits sd brush) BRUSH_AUTOMASKING_VIEW_NORMAL = true ->
   has_cache ss = true) ->
  exists c ss',
    cache_init sd brush ss = Some (Some c, ss')
    /\ session_ok ss' c
    /\ flags (settings c) = calc_effective_bits sd brush
    /\ geom ss' = geom ss.
Proof.
  intros Hbo Hbv Hen Hsized Hseeds Hsteps Hcache.
  rewrite (cache_init_unfold sd brush ss Hen).
  destruct (cache_init_reuse_side sd brush ss Hsized)
    as (Hside & Hfl & Hocc & Hg & Hc & Hf).
  set (r := cache_init_reuse brush (calc_effective_bits sd brush)
              (cache_init_settings sd brush ss)
              (cache_init_attributes (calc_effective_bits sd brush) ss)) in *.
  destruct (needs_factors_cache sd brush).
  - destruct (cache_init_precompute_ok sd brush r.1 r.2 Hside Hocc)
      as (c' & ss' & -> & [Hok _] & Hfl' & Hfr').
    + unfold topology_seeds, topology_radius. rewrite Hg, Hc. exact Hseeds.
    + exact Hsteps.
    + intros Hn. unfold has_cache. rewrite Hc, Hf. apply Hcache. exact Hn.
    + cbn [mbind option_bind]. exists c', ss'. split; [reflexivity |].
      split; [exact Hok |]. split; [congruence |].
      destruct Hfr' as (_ & _ & _ & _ & _ & ->). exact Hg.
  - exists r.1, (factor_attribute_destroy r.2). split; [reflexivity |].
    split; [| split; [exact Hfl |]].
    + apply side_ok_no_factor; [exact Hside |].
      rewrite Hfl. intros Hall. apply Hocc.
      apply occlusion_bits_have_occlusion; assumption.
    + unfold factor_attribute_destroy.
      destruct (automasking_factor (attrs r.2)); exact Hg.
Qed.


End CacheInitOk.

(** * The attribute store: proofs *)

Module AttrFacts.
Import AttrStore AttrSpec.

Section Facts.
Context {CD : Type} `{CustomDataOps CD} `{!CustomDataLaws CD}.

(** ** Frames of the state updates *)

Lemma same_mesh_refl (ob : Object CD) : same_mesh ob ob.
Proof. repeat split. Qed.

Lemma same_mesh_trans (a b c : Object CD) :
  same_mesh a b -> same_mesh b c -> same_mesh a c.
Proof.
  unfold same_mesh. intros (?&?&?&?&?&?&?&?) (?&?&?&?&?&?&?&?).
  repeat split; congruence.
Qed.

Lemma cd_extends_refl (cd : CD) : cd_extends cd cd.
Proof. intros ty nm Hf. split; [exact Hf | reflexivity]. Qed.

Lemma cd_extends_trans (a b c : CD) :
  cd_extends a b -> cd_extends b c -> cd_extends a c.
Proof.
  intros Hab Hbc ty nm Hf.
  destruct (Hab ty nm Hf) as [Hb Hdb]. destruct (Hbc ty nm Hb) as [Hc Hdc].
  split; [exact Hc | congruence].
Qed.

Lemma ob_extends_refl (ob : Object CD) : ob_extends ob ob.
Proof.
  split; [apply same_mesh_refl |]. intros r cd Hcd.
  exists cd. split; [exact Hcd | apply cd_extends_refl].
Qed.

Lemma ob_extends_trans (a b c : Object CD) :
  ob_extends a b -> ob_extends b c -> ob_extends a c.
Proof.
  intros [Hm1 He1] [Hm2 He2]. split; [eapply same_mesh_trans; eassumption |].
  intros r cd Hcd. destruct (He1 r cd Hcd) as (cd1 & Hcd1 & Hx1).
  destruct (He2 r cd1 Hcd1) as (cd2 & Hcd2 & Hx2).
  exists cd2. split; [exact Hcd2 | eapply cd_extends_trans; eassumption].
Qed.

Lemma cd_extends_flag (cd : CD) (i : Z) : cd_extends cd (layer_flag_temporary cd i).
Proof.
  intros ty nm Hf. rewrite flag_keeps_index, flag_keeps_data.
  split; [exact Hf | reflexivity].
Qed.

Lemma cd_extends_add (cd : CD) ty tot nm :
  cd_extends cd (CustomData_add_layer_named cd ty tot nm).
Proof. intros ty' nm' Hf. apply add_layer_keeps. exact Hf. Qed.

Lemma cd_extends_bm_add (cd : CD) ty nm :
  cd_extends cd (BM_data_layer_add_named cd ty nm).
Proof. intros ty' nm' Hf. apply bm_add_layer_keeps. exact Hf. Qed.

Lemma cdata_get_slots (ob : Object CD) (l : list SculptAttribute) (r : CDataRef) :
  cdata_get (set_slots ob l) r = cdata_get ob r.
Proof. destruct r; reflexivity. Qed.

Lemma cdata_get_heap (ob : Object CD) (h : gmap nat (list Z)) (r : CDataRef) :
  cdata_get (set_heap ob h) r = cdata_get ob r.
Proof. destruct r; reflexivity. Qed.

Lemma cdata_get_set_eq (ob : Object CD) (r : CDataRef) (cd0 cd : CD) :
  cdata_get ob r = Some cd0 -> cdata_get (cdata_set ob r cd) r = Some cd.
Proof.
  destruct r; cbn; try reflexivity; destruct (bm ob); cbn; try discriminate; reflexivity.
Qed.

Lemma same_mesh_slots (ob : Object CD) (l : list SculptAttribute) :
  length l = length (temp_attributes ob) -> same_mesh ob (set_slots ob l).
Proof. intros Hl. repeat split. exact Hl. Qed.

Lemma same_mesh_heap (ob : Object CD) (h : gmap nat (list Z)) :
  same_mesh ob (set_heap ob h).
Proof. repeat split. Qed.

Lemma same_mesh_cdata_set (ob : Object CD) (r : CDataRef) (cd : CD) :
  same_mesh ob (cdata_set ob r cd).
Proof. destruct r; repeat split; cbn; destruct (bm ob); reflexivity. Qed.

Lemma ob_extends_slots (ob : Object CD) (l : list SculptAttribute) :
  length l = length (temp_attributes ob) -> ob_extends ob (set_slots ob l).
Proof.
  intros Hl. split; [apply same_mesh_slots; exact Hl |].
  intros r cd Hcd. exists cd. rewrite cdata_get_slots.
  split; [exact Hcd | apply cd_extends_refl].
Qed.

Lemma ob_extends_heap (ob : Object CD) (h : gmap nat (list Z)) :
  ob_extends ob (set_heap ob h).
Proof.
  split; [apply same_mesh_heap |].
  intros r cd Hcd. exists cd. rewrite cdata_get_heap.
  split; [exact Hcd | apply cd_extends_refl].
Qed.

Lemma ob_extends_cdata_set (ob : Object CD) (r : CDataRef) (cd0 cd : CD) :
  cdata_get ob r = Some cd0 -> cd_extends cd0 cd ->
  ob_extends ob (cdata_set ob r cd).
Proof.
  intros Hr Hx. split; [apply same_mesh_cdata_set |].
  intros r' cd' Hcd'.
  destruct r, r'; cbn in *; destruct (bm ob) as [b |]; cbn in *;
    try discriminate;
    try (injection Hr as <-); try (injection Hcd' as <-);
    eexists; (split; [reflexivity |]); first [exact Hx | apply cd_extends_refl].
Qed.

Lemma slot_update_length (ob : Object CD) (j : nat) (f : SculptAttribute -> SculptAttribute) :
  length (temp_attributes (slot_update ob j f)) = length (temp_attributes ob).
Proof. unfold slot_update. cbn. apply length_alter. Qed.

Lemma ob_extends_slot_update (ob : Object CD) (j : nat)
    (f : SculptAttribute -> SculptAttribute) :
  ob_extends ob (slot_update ob j f).
Proof. apply ob_extends_slots. apply length_alter. Qed.

Lemma slot_update_lookup (ob : Object CD) (j : nat)
    (f : SculptAttribute -> SculptAttribute) (a : SculptAttribute) :
  temp_attributes ob !! j = Some a ->
  temp_attributes (slot_update ob j f) !! j = Some (f a).
Proof.
  intros Ha. unfold slot_update. cbn. rewrite list_lookup_alter_eq, Ha. reflexivity.
Qed.

Lemma slot_update_lookup_ne (ob : Object CD) (j k : nat)
    (f : SculptAttribute -> SculptAttribute) :
  j <> k ->
  temp_attributes (slot_update ob j f) !! k = temp_attributes ob !! k.
Proof. intros Hne. unfold slot_update. cbn. apply list_lookup_alter_ne. exact Hne. Qed.

(** ** The staleness check *)

Lemma elem_count_same_mesh (ob ob' : Object CD) (d : AttrDomain) :
  same_mesh ob ob' ->
  sculpt_attr_elem_count_get ob' d = sculpt_attr_elem_count_get ob d.
Proof.
  intros (Hb & Hbt & Hs & Hv & Hf & _).
  unfold sculpt_attr_elem_count_get, BKE_sculptsession_vertex_count.
  destruct d; try reflexivity; [| exact Hf].
  rewrite Hs, Hv.
  destruct (bm ob) as [b |], (bm ob') as [b' |]; cbn in *; try discriminate;
    congruence.
Qed.

Lemma get_cdata_same_mesh (ob ob' : Object CD) (d : AttrDomain) :
  same_mesh ob ob' -> sculpt_get_cdata ob' d = sculpt_get_cdata ob d.
Proof.
  intros (Hb & _ & _ & _ & _ & Hp & _).
  unfold sculpt_get_cdata. rewrite Hp.
  destruct (bm ob), (bm ob'); cbn in Hb; try discriminate; reflexivity.
Qed.

Lemma bm_same_mesh (ob ob' : Object CD) :
  same_mesh ob ob' -> is_Some_b (bm ob') = is_Some_b (bm ob).
Proof. intros (Hb & _). exact Hb. Qed.

(** A reference returned by [sculpt_get_cdata] designates a block. *)
Lemma get_cdata_defined (ob : Object CD) (d : AttrDomain) (r : CDataRef) :
  sculpt_get_cdata ob d = Some r -> exists cd, cdata_get ob r = Some cd.
Proof.
  unfold sculpt_get_cdata. intros Hr.
  destruct (bm ob) as [b |] eqn:Eb.
  - destruct d; try discriminate; injection Hr as <-; cbn; rewrite Eb; eexists; reflexivity.
  - destruct d; try discriminate.
    + destruct (pbvh ob) as [[] |]; try discriminate; injection Hr as <-;
        eexists; reflexivity.
    + injection Hr as <-. eexists; reflexivity.
Qed.

Lemma sculpt_attr_check_total (ob : Object CD) (attr : SculptAttribute) (t : pbvh_Type) :
  exists b attr', sculpt_attr_check ob attr t = Some (b, attr').
Proof.
  unfold sculpt_attr_check.
  destruct (sculpt_get_cdata ob (domain attr)) as [r |] eqn:Er;
    [| eexists _, _; reflexivity].
  destruct (negb (simple_array attr)); [| eexists _, _; reflexivity].
  destruct (get_cdata_defined ob _ r Er) as (cd & ->). cbn [mbind option_bind].
  destruct (negb _); [destruct (data_for_bmesh attr) |]; eexists _, _; reflexivity.
Qed.

Lemma not_bad_extends (ob ob' : Object CD) (t : pbvh_Type) (attr : SculptAttribute) :
  ob_extends ob ob' -> not_bad ob t attr -> not_bad ob' t attr.
Proof.
  intros [Hm Hx] [a1 Hc]. unfold not_bad, sculpt_attr_check in *.
  rewrite (elem_count_same_mesh ob ob' _ Hm), (get_cdata_same_mesh ob ob' _ Hm),
    (bm_same_mesh ob ob' Hm).
  destruct (sculpt_get_cdata ob (domain attr)) as [r |] eqn:Er; [| eexists; exact Hc].
  destruct (negb (simple_array attr)); [| eexists; exact Hc].
  destruct (cdata_get ob r) as [cd |] eqn:Ecd; [| discriminate].
  destruct (Hx r cd Ecd) as (cd' & -> & Hext). cbn [mbind option_bind] in *.
  match type of Hc with
  | (if negb ?b then _ else _) = _ => destruct b eqn:Ebad; cbn [negb] in Hc;
      [discriminate |]
  end.
  apply orb_false_iff in Ebad as [Ebad Hbm]. apply orb_false_iff in Ebad as [Ebad Hidx].
  apply Z.eqb_neq in Hidx. destruct (Hext _ _ Hidx) as [Hidx' _].
  apply Z.eqb_neq in Hidx'. rewrite Ebad, Hidx', Hbm. cbn.
  destruct (data_for_bmesh attr); eexists; reflexivity.
Qed.

Lemma set_data_id (a : SculptAttribute) : set_data a (data a) = a.
Proof. destruct a; reflexivity. Qed.

Lemma set_bmesh_cd_offset_id (a : SculptAttribute) :
  set_bmesh_cd_offset a (bmesh_cd_offset a) = a.
Proof. destruct a; reflexivity. Qed.

(** Without a BMesh, a settled attribute stays settled when layers are
    added. *)
Lemma settled_extends_mesh (ob ob' : Object CD) (t : pbvh_Type)
    (attr : SculptAttribute) :
  bm ob = None -> ob_extends ob ob' -> settled ob t attr -> settled ob' t attr.
Proof.
  intros Hbm [Hm Hx] Hc. unfold settled, sculpt_attr_check in *.
  rewrite (elem_count_same_mesh ob ob' _ Hm), (get_cdata_same_mesh ob ob' _ Hm),
    (bm_same_mesh ob ob' Hm).
  destruct (sculpt_get_cdata ob (domain attr)) as [r |] eqn:Er; [| exact Hc].
  destruct (negb (simple_array attr)); [| exact Hc].
  destruct (cdata_get ob r) as [cd |] eqn:Ecd; [| discriminate].
  destruct (Hx r cd Ecd) as (cd' & -> & Hext). cbn [mbind option_bind] in *.
  match type of Hc with
  | (if negb ?b then _ else _) = _ => destruct b eqn:Ebad; cbn [negb] in Hc;
      [discriminate |]
  end.
  apply orb_false_iff in Ebad as [Ebad Hmis]. apply orb_false_iff in Ebad as [Ebad Hidx].
  apply Z.eqb_neq in Hidx. destruct (Hext _ _ Hidx) as [Hidx' Hdata].
  apply Z.eqb_neq in Hidx'. rewrite Ebad, Hidx', Hmis. cbn.
  rewrite Hbm in Hmis. cbn in Hmis.
  destruct (data_for_bmesh attr); [discriminate |].
  rewrite Hdata. exact Hc.
Qed.

Lemma linked_extends (ob ob' : Object CD) (attr : SculptAttribute) :
  ob_extends ob ob' -> linked ob attr -> linked ob' attr.
Proof.
  intros [Hm Hx] Hl Hs r cd' Hr Hcd'.
  rewrite (get_cdata_same_mesh ob ob' _ Hm) in Hr.
  destruct (get_cdata_defined ob _ r Hr) as (cd & Hcd).
  destruct (Hx r cd Hcd) as (cd2 & Hcd2 & Hext).
  assert (cd2 = cd') by congruence. subst cd2.
  destruct (Hl Hs r cd Hr Hcd) as [Hidx Hdata].
  destruct (Hext _ _ Hidx) as [Hidx' Hdata']. split; [exact Hidx' | congruence].
Qed.

(** ** Creation *)

Lemma check_slot_update (ob : Object CD) (j : nat)
    (f : SculptAttribute -> SculptAttribute) (attr : SculptAttribute) (t : pbvh_Type) :
  sculpt_attr_check (slot_update ob j f) attr t = sculpt_attr_check ob attr t.
Proof.
  unfold sculpt_attr_check.
  assert (Hm : same_mesh ob (slot_update ob j f)) by apply ob_extends_slot_update.
  rewrite (elem_count_same_mesh _ _ _ Hm), (get_cdata_same_mesh _ _ _ Hm),
    (bm_same_mesh _ _ Hm).
  destruct (sculpt_get_cdata ob (domain attr)) as [r |]; [| reflexivity].
  unfold slot_update. rewrite cdata_get_slots. reflexivity.
Qed.

Lemma linked_slot_update (ob : Object CD) (j : nat)
    (f : SculptAttribute -> SculptAttribute) (attr : SculptAttribute) :
  linked (slot_update ob j f) attr <-> linked ob attr.
Proof.
  unfold linked.
  assert (Hm : same_mesh ob (slot_update ob j f)) by apply ob_extends_slot_update.
  rewrite (get_cdata_same_mesh _ _ _ Hm).
  unfold slot_update. setoid_rewrite cdata_get_slots. reflexivity.
Qed.

(** [sculpt_attribute_create] on an existing slot returns, adds at most
    layers and storage, writes no other slot, and leaves the slot unused or
    settled. *)
Lemma sculpt_attribute_create_spec (ob : Object CD) (d : AttrDomain)
    (ty : eCustomDataType) (nm : string) (out : nat) (prm : SculptAttributeParams)
    (t : pbvh_Type) (flat : bool) (a0 : SculptAttribute) :
  temp_attributes ob !! out = Some a0 ->
  exists r ob' a',
    sculpt_attribute_create ob d ty nm out prm t flat = Some (r, ob')
    /\ ob_extends ob ob'
    /\ (forall k, k <> out -> temp_attributes ob' !! k = temp_attributes ob !! k)
    /\ temp_attributes ob' !! out = Some a'
    /\ domain a' = d /\ proptype a' = ty /\ name a' = nm
    /\ (used a' = true -> settled ob' t a')
    /\ (used a' = true -> bm ob = None -> linked ob' a').
Proof.
  intros Hout. unfold sculpt_attribute_create. rewrite Hout.
  cbn [mbind option_bind].
  set (coerce := pbvh_eqb t Grids || pbvh_eqb t BMesh && flat).
  destruct (p_simple_array prm || coerce) eqn:Esimple.
  - (* simple array *)
    unfold MEM_calloc_arrayN.
    set (ob1 := set_heap ob _).
    assert (Hx1 : ob_extends ob ob1) by apply ob_extends_heap.
    assert (Hout1 : temp_attributes ob1 !! out = Some a0) by exact Hout.
    eexists _, _, _. split; [reflexivity |].
    split; [eapply ob_extends_trans; [exact Hx1 | apply ob_extends_slot_update] |].
    split; [intros k Hk; rewrite slot_update_lookup_ne by congruence; reflexivity |].
    split; [apply (slot_update_lookup ob1 out _ a0 Hout1) |].
    split; [reflexivity |]. split; [reflexivity |]. split; [reflexivity |].
    split.
    + intros _. unfold settled. rewrite check_slot_update.
      unfold sculpt_attr_check. cbn.
      rewrite (elem_count_same_mesh ob ob1 d (proj1 Hx1)), Z.eqb_refl. cbn.
      assert (Hb2 : negb (p_simple_array prm)
                    && negb (pbvh_eqb t Grids || pbvh_eqb t BMesh) = false).
      { destruct (p_simple_array prm); [reflexivity |]. cbn in Esimple.
        unfold coerce in Esimple. cbn.
        destruct (pbvh_eqb t Grids), (pbvh_eqb t BMesh); cbn in *;
          try reflexivity; discriminate. }
      rewrite Hb2. destruct (sculpt_get_cdata ob1 d); reflexivity.
    + intros _ _ Hs. discriminate.
  - (* a layer *)
    apply orb_false_iff in Esimple as [Eps Ecoerce].
    rewrite Ecoerce. rewrite andb_true_r.
    destruct (bm ob) as [b |] eqn:Ebm.
    + destruct d.
      * (* Point *)
        cbn [cdata_get fmap option_fmap option_map mbind option_bind]. rewrite Ebm.
        cbn [fmap option_fmap option_map mbind option_bind].
        set (cd1 := BM_data_layer_add_named (vdata b) ty nm).
        set (index := CustomData_get_named_layer_index cd1 ty nm).
        set (cd2 := if p_permanent prm then cd1 else layer_flag_temporary cd1 index).
        assert (Hcd : cd_extends (vdata b) cd2).
        { eapply cd_extends_trans; [apply cd_extends_bm_add |]. unfold cd2.
          destruct (p_permanent prm); [apply cd_extends_refl | apply cd_extends_flag]. }
        assert (Hget : cdata_get ob BM_vdata = Some (vdata b)) by (cbn; rewrite Ebm; reflexivity).
        assert (Hx1 : ob_extends ob (cdata_set ob BM_vdata cd2)).
        { eapply ob_extends_cdata_set; [exact Hget | exact Hcd]. }
        eexists _, _, _. split; [reflexivity |].
        split; [eapply ob_extends_trans; [exact Hx1 | apply ob_extends_slot_update] |].
        split; [intros k Hk; rewrite slot_update_lookup_ne by congruence; reflexivity |].
        split; [apply (slot_update_lookup _ out _ a0); exact Hout |].
        split; [reflexivity |]. split; [reflexivity |]. split; [reflexivity |].
        split; [| intros _ Hn; discriminate].
        intros _. unfold settled. rewrite check_slot_update.
        unfold sculpt_attr_check. cbn. rewrite Ebm. cbn.
        assert (Hidx : CustomData_get_named_layer_index cd2 ty nm = index).
        { unfold cd2. destruct (p_permanent prm); [reflexivity | apply flag_keeps_index]. }
        rewrite Hidx.
        assert (Hne : (index =? -1) = false).
        { apply Z.eqb_neq. apply bm_add_layer_found. }
        rewrite Hne. cbn. reflexivity.
      * (* Face *)
        cbn [cdata_get fmap option_fmap option_map mbind option_bind]. rewrite Ebm.
        cbn [fmap option_fmap option_map mbind option_bind].
        set (cd1 := BM_data_layer_add_named (pdata b) ty nm).
        set (index := CustomData_get_named_layer_index cd1 ty nm).
        set (cd2 := if p_permanent prm then cd1 else layer_flag_temporary cd1 index).
        assert (Hcd : cd_extends (pdata b) cd2).
        { eapply cd_extends_trans; [apply cd_extends_bm_add |]. unfold cd2.
          destruct (p_permanent prm); [apply cd_extends_refl | apply cd_extends_flag]. }
        assert (Hget : cdata_get ob BM_pdata = Some (pdata b)) by (cbn; rewrite Ebm; reflexivity).
        assert (Hx1 : ob_extends ob (cdata_set ob BM_pdata cd2)).
        { eapply ob_extends_cdata_set; [exact Hget | exact Hcd]. }
        eexists _, _, _. split; [reflexivity |].
        split; [eapply ob_extends_trans; [exact Hx1 | apply ob_extends_slot_update] |].
        split; [intros k Hk; rewrite slot_update_lookup_ne by congruence; reflexivity |].
        split; [apply (slot_update_lookup _ out _ a0); exact Hout |].
        split; [reflexivity |]. split; [reflexivity |]. split; [reflexivity |].
        split; [| intros _ Hn; discriminate].
        intros _. unfold settled. rewrite check_slot_update.
        unfold sculpt_attr_check. cbn. rewrite Ebm. cbn.
        assert (Hidx : CustomData_get_named_layer_index cd2 ty nm = index).
        { unfold cd2. destruct (p_permanent prm); [reflexivity | apply flag_keeps_index]. }
        rewrite Hidx.
        assert (Hne : (index =? -1) = false).
        { apply Z.eqb_neq. apply bm_add_layer_found. }
        rewrite Hne. cbn. reflexivity.
      * (* no such domain *)
        eexists _, _, _. split; [reflexivity |].
        split; [apply ob_extends_slot_update |].
        split; [intros k Hk; rewrite slot_update_lookup_ne by congruence; reflexivity |].
        split; [apply (slot_update_lookup _ out _ a0); exact Hout |].
        split; [reflexivity |]. split; [reflexivity |]. split; [reflexivity |].
        split; intros Hu; discriminate.
    + destruct d.
      * (* Point *)
        cbn [cdata_get mbind option_bind].
        set (tot := sculpt_attr_elem_count_get ob Point).
        set (cd1 := CustomData_add_layer_named (vert_data ob) ty tot nm).
        set (index := CustomData_get_named_layer_index cd1 ty nm).
        set (cd2 := if p_permanent prm then cd1 else layer_flag_temporary cd1 index).
        assert (Hcd : cd_extends (vert_data ob) cd2).
        { eapply cd_extends_trans; [apply cd_extends_add |]. unfold cd2.
          destruct (p_permanent prm); [apply cd_extends_refl | apply cd_extends_flag]. }
        assert (Hx1 : ob_extends ob (cdata_set ob Me_vert_data cd2)).
        { eapply ob_extends_cdata_set; [reflexivity | exact Hcd]. }
        assert (Hidx : CustomData_get_named_layer_index cd2 ty nm = index).
        { unfold cd2. destruct (p_permanent prm); [reflexivity | apply flag_keeps_index]. }
        assert (Hdat : layer_data cd2 index = layer_data cd1 index).
        { unfold cd2. destruct (p_permanent prm); [reflexivity | apply flag_keeps_data]. }
        assert (Hne : index <> -1) by apply add_layer_found.
        clearbody cd2 index.
        eexists _, _, _. split; [reflexivity |].
        split; [eapply ob_extends_trans; [exact Hx1 | apply ob_extends_slot_update] |].
        split; [intros k Hk; rewrite slot_update_lookup_ne by congruence; reflexivity |].
        split; [apply (slot_update_lookup _ out _ a0); exact Hout |].
        split; [reflexivity |]. split; [reflexivity |]. split; [reflexivity |].
        split.
        -- intros _. unfold settled. rewrite check_slot_update.
           unfold sculpt_attr_check. cbn. rewrite Ebm. cbn.
           assert (Hv : BKE_sculptsession_vertex_count ob
                        = match subdiv_ccg ob with Some n0 => n0 | None => totvert ob end)
             by (unfold BKE_sculptsession_vertex_count; rewrite Ebm; reflexivity).
           rewrite Hv, Z.eqb_refl. apply Z.eqb_neq in Hne.
           destruct (pbvh ob) as [[] |]; cbn; rewrite ?Hidx, ?Hne;
             destruct (layer_data cd2 index); reflexivity.
        -- intros _ _. apply linked_slot_update. intros _ r cd Hr Hcdr. cbn in *.
           unfold sculpt_get_cdata in Hr. cbn in Hr. rewrite Ebm in Hr.
           destruct (pbvh ob) as [[] |]; try discriminate; injection Hr as <-;
             cbn in Hcdr; injection Hcdr as <-; rewrite Hidx; split; auto.
      * (* Face *)
        cbn [cdata_get mbind option_bind].
        set (tot := sculpt_attr_elem_count_get ob Face).
        set (cd1 := CustomData_add_layer_named (face_data ob) ty tot nm).
        set (index := CustomData_get_named_layer_index cd1 ty nm).
        set (cd2 := if p_permanent prm then cd1 else layer_flag_temporary cd1 index).
        assert (Hcd : cd_extends (face_data ob) cd2).
        { eapply cd_extends_trans; [apply cd_extends_add |]. unfold cd2.
          destruct (p_permanent prm); [apply cd_extends_refl | apply cd_extends_flag]. }
        assert (Hx1 : ob_extends ob (cdata_set ob Me_face_data cd2)).
        { eapply ob_extends_cdata_set; [reflexivity | exact Hcd]. }
        assert (Hidx : CustomData_get_named_layer_index cd2 ty nm = index).
        { unfold cd2. destruct (p_permanent prm); [reflexivity | apply flag_keeps_index]. }
        assert (Hne : index <> -1) by apply add_layer_found.
        clearbody cd2 index.
        eexists _, _, _. split; [reflexivity |].
        split; [eapply ob_extends_trans; [exact Hx1 | apply ob_extends_slot_update] |].
        split; [intros k Hk; rewrite slot_update_lookup_ne by congruence; reflexivity |].
        split; [apply (slot_update_lookup _ out _ a0); exact Hout |].
        split; [reflexivity |]. split; [reflexivity |]. split; [reflexivity |].
        split.
        -- intros _. unfold settled. rewrite check_slot_update.
           unfold sculpt_attr_check. cbn. rewrite Ebm. cbn.
           rewrite Z.eqb_refl. apply Z.eqb_neq in Hne. cbn. rewrite ?Hidx, ?Hne.
           destruct (layer_data cd2 index); reflexivity.
        -- intros _ _. apply linked_slot_update. intros _ r cd Hr Hcdr. cbn in *.
           unfold sculpt_get_cdata in Hr. cbn in Hr. rewrite Ebm in Hr.
           injection Hr as <-. cbn in Hcdr. injection Hcdr as <-.
           rewrite Hidx. split; auto.
      * (* no such domain *)
        eexists _, _, _. split; [reflexivity |].
        split; [apply ob_extends_slot_update |].
        split; [intros k Hk; rewrite slot_update_lookup_ne by congruence; reflexivity |].
        split; [apply (slot_update_lookup _ out _ a0); exact Hout |].
        split; [reflexivity |]. split; [reflexivity |]. split; [reflexivity |].
        split; intros Hu; discriminate.
Qed.

(** ** One update *)

(** With a BMesh, an attribute that passes the check is settled once its
    offset is refreshed. *)
Lemma check_settled_bm (ob : Object CD) (attr a' : SculptAttribute) (t : pbvh_Type) :
  is_Some_b (bm ob) = true ->
  sculpt_attr_check ob attr t = Some (false, a') -> settled ob t a'.
Proof.
  intros Hbm Hc. unfold settled. unfold sculpt_attr_check in *. rewrite Hbm in *.
  destruct (sculpt_get_cdata ob (domain attr)) as [r |] eqn:Er.
  - destruct (simple_array attr) eqn:Es; cbn [negb] in Hc.
    + injection Hc as Hb <-. rewrite Er, Es. cbn [negb andb] in Hb |- *.
      rewrite Hb. reflexivity.
    + destruct (cdata_get ob r) as [cd |] eqn:Ecd; [| discriminate].
      cbn [mbind option_bind] in Hc.
      match type of Hc with
      | (if negb ?b then _ else _) = _ => destruct b eqn:Ebad; cbn [negb] in Hc;
          [discriminate |]
      end.
      apply orb_false_iff in Ebad as [Ebad Hmis].
      apply orb_false_iff in Ebad as [Ebad Hidx].
      destruct (data_for_bmesh attr) eqn:Ed; [| discriminate].
      injection Hc as <-.
      cbn [domain simple_array data elem_num params proptype name data_for_bmesh
           set_bmesh_cd_offset].
      rewrite Er, Es, Ecd, Ed. cbn [mbind option_bind negb].
      rewrite Ebad, Hidx. cbn. reflexivity.
  - injection Hc as Hb <-. rewrite Er, Hb. reflexivity.
Qed.

(** Without a BMesh, an attribute that passes the check is linked once
    its data pointer is refreshed, and the refresh changes nothing when it
    was linked already. *)
Lemma check_linked_mesh (ob : Object CD) (attr a' : SculptAttribute) (t : pbvh_Type) :
  bm ob = None ->
  sculpt_attr_check ob attr t = Some (false, a') ->
  linked ob a' /\ (linked ob attr -> a' = attr).
Proof.
  intros Hbm Hc. unfold sculpt_attr_check in Hc. rewrite Hbm in Hc.
  destruct (sculpt_get_cdata ob (domain attr)) as [r |] eqn:Er.
  - destruct (simple_array attr) eqn:Es; cbn [negb] in Hc.
    + injection Hc as _ <-. split; [| reflexivity]. intros Hs. congruence.
    + destruct (cdata_get ob r) as [cd |] eqn:Ecd; [| discriminate].
      cbn [mbind option_bind] in Hc.
      match type of Hc with
      | (if negb ?b then _ else _) = _ => destruct b eqn:Ebad; cbn [negb] in Hc;
          [discriminate |]
      end.
      apply orb_false_iff in Ebad as [Ebad Hmis].
      apply orb_false_iff in Ebad as [Ebad Hidx]. apply Z.eqb_neq in Hidx.
      cbn in Hmis.
      destruct (data_for_bmesh attr) eqn:Ed; [discriminate |].
      injection Hc as <-. split.
      * intros _ r' cd' Hr' Hcd'. cbn in *.
        assert (r' = r) by congruence. subst r'.
        assert (cd' = cd) by congruence. subst cd'. split; [exact Hidx | reflexivity].
      * intros Hl. destruct (Hl Es r cd Er Ecd) as [_ Hdata].
        rewrite <- Hdata. apply set_data_id.
  - injection Hc as _ <-. split; [| reflexivity].
    intros _ r cd Hr. congruence.
Qed.

Lemma settled_slot_update (ob : Object CD) (j : nat)
    (f : SculptAttribute -> SculptAttribute) (attr : SculptAttribute) (t : pbvh_Type) :
  settled (slot_update ob j f) t attr <-> settled ob t attr.
Proof. unfold settled. rewrite check_slot_update. reflexivity. Qed.

Lemma settled_not_bad (ob : Object CD) (attr : SculptAttribute) (t : pbvh_Type) :
  settled ob t attr -> not_bad ob t attr.
Proof. intros Hs. exists attr. exact Hs. Qed.

(** [sculpt_attr_update] on an existing slot returns, adds at most layers
    and storage, and writes no other slot.  When it recreates the
    attribute the slot ends unused or settled; otherwise the slot holds the
    refreshed attribute and nothing else changed. *)
Lemma sculpt_attr_update_spec (ob : Object CD) (j : nat) (t : pbvh_Type)
    (attr : SculptAttribute) :
  temp_attributes ob !! j = Some attr ->
  exists b ob' a',
    sculpt_attr_update ob j t = Some (b, ob')
    /\ ob_extends ob ob'
    /\ (forall k, k <> j -> temp_attributes ob' !! k = temp_attributes ob !! k)
    /\ temp_attributes ob' !! j = Some a'
    /\ (exists a1, sculpt_attr_check ob attr t = Some (b, a1))
    /\ (b = true ->
        (used a' = true -> settled ob' t a')
        /\ (used a' = true -> bm ob = None -> linked ob' a'))
    /\ (b = false ->
        sculpt_attr_check ob attr t = Some (false, a')
        /\ ob' = slot_update ob j (fun _ => a')).
Proof.
  intros Hj. unfold sculpt_attr_update. rewrite Hj. cbn [mbind option_bind].
  destruct (sculpt_attr_check_total ob attr t) as (b & a1 & Hc). rewrite Hc.
  cbn [mbind option_bind].
  set (ob1 := slot_update ob j (fun _ => a1)).
  assert (Hx1 : ob_extends ob ob1) by apply ob_extends_slot_update.
  assert (Hj1 : temp_attributes ob1 !! j = Some a1)
    by apply (slot_update_lookup ob j _ attr Hj).
  destruct b.
  - set (ob2 := if simple_array a1
                then slot_update (MEM_SAFE_FREE ob1 (data a1)) j (fun a => set_data a None)
                else ob1).
    assert (Hx2 : ob_extends ob1 ob2).
    { unfold ob2. destruct (simple_array a1); [| apply ob_extends_refl].
      eapply ob_extends_trans; [| apply ob_extends_slot_update].
      unfold MEM_SAFE_FREE. destruct (data a1); [apply ob_extends_heap | apply ob_extends_refl]. }
    assert (Hother2 : forall k, k <> j ->
              temp_attributes ob2 !! k = temp_attributes ob !! k).
    { intros k Hk. unfold ob2. destruct (simple_array a1).
      - rewrite slot_update_lookup_ne by congruence.
        transitivity (temp_attributes ob1 !! k).
        + unfold MEM_SAFE_FREE. destruct (data a1); reflexivity.
        + unfold ob1. apply slot_update_lookup_ne. congruence.
      - unfold ob1. apply slot_update_lookup_ne. congruence. }
    assert (Hj2 : exists a2, temp_attributes ob2 !! j = Some a2).
    { unfold ob2. destruct (simple_array a1); [| eauto].
      eexists. apply slot_update_lookup.
      unfold MEM_SAFE_FREE. destruct (data a1); exact Hj1. }
    destruct Hj2 as (a2 & Hj2).
    destruct (sculpt_attribute_create_spec ob2 (domain a1) (proptype a1) (name a1) j
                (params a1) t (data_for_bmesh a1) a2 Hj2)
      as (r & ob' & a' & Hcr & Hx3 & Hother3 & Hj3 & _ & _ & _ & Hset & Hlink).
    rewrite Hcr. cbn [mbind option_bind].
    exists true, ob', a'. split; [reflexivity |].
    split; [eapply ob_extends_trans; [exact Hx1 |];
            eapply ob_extends_trans; [exact Hx2 | exact Hx3] |].
    split; [intros k Hk; rewrite Hother3 by exact Hk; apply Hother2; exact Hk |].
    split; [exact Hj3 |].
    split; [exists a1; reflexivity |].
    split; [| intros Hb; discriminate].
    intros _. split; [exact Hset |].
    intros Hu Hbm. apply Hlink; [exact Hu |].
    assert (Hm : same_mesh ob ob2).
    { eapply same_mesh_trans; [apply Hx1 | apply Hx2]. }
    apply bm_same_mesh in Hm. rewrite Hbm in Hm.
    destruct (bm ob2); [discriminate | reflexivity].
  - exists false, ob1, a1. split; [reflexivity |].
    split; [exact Hx1 |].
    split; [intros k Hk; apply slot_update_lookup_ne; congruence |].
    split; [exact Hj1 |].
    split; [exists a1; reflexivity |].
    split; [intros Hb; discriminate |].
    intros _. split; reflexivity.
Qed.

(** The update of a slot when there is no BMesh: the slot ends linked, and
    settled when it was linked before. *)
Lemma sculpt_attr_update_mesh (ob : Object CD) (j : nat) (t : pbvh_Type)
    (attr : SculptAttribute) :
  bm ob = None ->
  temp_attributes ob !! j = Some attr ->
  exists b ob' a',
    sculpt_attr_update ob j t = Some (b, ob')
    /\ ob_extends ob ob'
    /\ (forall k, k <> j -> temp_attributes ob' !! k = temp_attributes ob !! k)
    /\ temp_attributes ob' !! j = Some a'
    /\ (used a' = true -> linked ob' a' /\ (linked ob attr -> settled ob' t a')).
Proof.
  intros Hbm Hj.
  destruct (sculpt_attr_update_spec ob j t attr Hj)
    as (b & ob' & a' & Hup & Hx & Hother & Hj' & _ & Htrue & Hfalse).
  exists b, ob', a'. repeat (split; [assumption |]).
  intros Hu. destruct b.
  - destruct (Htrue eq_refl) as [Hset Hlink]. split; [auto | intros _; auto].
  - destruct (Hfalse eq_refl) as [Hc ->].
    destruct (check_linked_mesh ob attr a' t Hbm Hc) as [Hl Hid].
    split; [apply linked_slot_update; exact Hl |].
    intros Hla. apply settled_slot_update. unfold settled.
    rewrite (Hid Hla) in Hc |- *. exact Hc.
Qed.

(** The update of a slot when there is a BMesh: the slot ends settled, and
    nothing but the slot changes when the attribute passed the check. *)
Lemma sculpt_attr_update_bm (ob : Object CD) (j : nat) (t : pbvh_Type)
    (attr : SculptAttribute) :
  is_Some_b (bm ob) = true ->
  temp_attributes ob !! j = Some attr ->
  exists b ob' a',
    sculpt_attr_update ob j t = Some (b, ob')
    /\ ob_extends ob ob'
    /\ (forall k, k <> j -> temp_attributes ob' !! k = temp_attributes ob !! k)
    /\ temp_attributes ob' !! j = Some a'
    /\ (used a' = true -> settled ob' t a')
    /\ (not_bad ob t attr -> ob' = slot_update ob j (fun _ => a')).
Proof.
  intros Hbm Hj.
  destruct (sculpt_attr_update_spec ob j t attr Hj)
    as (b & ob' & a' & Hup & Hx & Hother & Hj' & (a1 & Hc1) & Htrue & Hfalse).
  exists b, ob', a'. repeat (split; [assumption |]).
  destruct b.
  - split; [apply Htrue; reflexivity |].
    intros [a2 Hc2]. congruence.
  - destruct (Hfalse eq_refl) as [Hc ->]. split; [| reflexivity].
    intros _. apply settled_slot_update. eapply check_settled_bm; eassumption.
Qed.

(** ** One pass over the slots *)

Lemma slot_update_id (ob : Object CD) (j : nat) (a : SculptAttribute) :
  temp_attributes ob !! j = Some a -> slot_update ob j (fun _ => a) = ob.
Proof.
  intros Hj. unfold slot_update.
  assert (Hl : alter (fun _ => a) j (temp_attributes ob) = temp_attributes ob).
  { apply list_eq. intros k. destruct (decide (j = k)) as [<- | Hne].
    - rewrite list_lookup_alter_eq, Hj. reflexivity.
    - apply list_lookup_alter_ne. exact Hne. }
  rewrite Hl. destruct ob; reflexivity.
Qed.

Lemma for_range_fixed {S : Type} (n : nat) (body : nat -> S -> option S) (s : S) :
  (forall i, (i < n)%nat -> body i s = Some s) -> for_range n body s = Some s.
Proof.
  intros Hbody.
  destruct (for_range_indexed (fun _ t => t = s) n body s) as (s' & Hrun & ->);
    [reflexivity | | exact Hrun].
  intros i t Hi ->. exists s. split; [apply Hbody; exact Hi | reflexivity].
Qed.

(** A pass whose every step keeps [Pre] on all live slots and establishes
    [Post] on the slot it updates ends with [Post] on all live slots. *)
Lemma update_refs_pass_spec (Pre Post : Object CD -> SculptAttribute -> Prop)
    (t : pbvh_Type) (ob0 : Object CD) :
  (forall ob j attr,
     same_mesh ob0 ob -> temp_attributes ob !! j = Some attr -> used attr = true ->
     all_used (Pre ob) ob ->
     exists b ob' a',
       sculpt_attr_update ob j t = Some (b, ob')
       /\ same_mesh ob ob'
       /\ (forall k, k <> j -> temp_attributes ob' !! k = temp_attributes ob !! k)
       /\ temp_attributes ob' !! j = Some a'
       /\ (used a' = true -> Pre ob' a' /\ Post ob' a')
       /\ (forall a, Pre ob a -> Pre ob' a)
       /\ (forall a, Post ob a -> Post ob' a)) ->
  all_used (Pre ob0) ob0 ->
  exists ob',
    update_refs_pass t ob0 = Some ob'
    /\ same_mesh ob0 ob' /\ all_used (Pre ob') ob' /\ all_used (Post ob') ob'.
Proof.
  intros Hstep Hpre0. unfold update_refs_pass.
  set (n := length (temp_attributes ob0)).
  destruct (for_range_indexed
              (fun i ob =>
                 same_mesh ob0 ob /\ all_used (Pre ob) ob
                 /\ forall j a, (j < i)%nat -> temp_attributes ob !! j = Some a ->
                                used a = true -> Post ob a)
              n
              (fun j ob =>
                 attr ← temp_attributes ob !! j;
                 if used attr then snd <$> sculpt_attr_update ob j t else Some ob)
              ob0) as (ob' & Hrun & Hm & Hpre & Hpost).
  - split; [apply same_mesh_refl |]. split; [exact Hpre0 |]. intros j a Hj. lia.
  - intros i ob Hi (Hm & Hpre & Hpost).
    assert (Hlen : length (temp_attributes ob) = n) by apply Hm.
    destruct (lookup_lt_is_Some_2 (temp_attributes ob) i) as [attr Hattr]; [lia |].
    rewrite Hattr. cbn [mbind option_bind].
    destruct (used attr) eqn:Hu.
    + destruct (Hstep ob i attr Hm Hattr Hu Hpre)
        as (b & ob' & a' & Hup & Hm' & Hother & Hi' & Hnew & HkeepPre & HkeepPost).
      rewrite Hup. exists ob'. split; [reflexivity |].
      split; [eapply same_mesh_trans; eassumption |].
      split.
      * intros k a Hk Hua. destruct (decide (k = i)) as [-> | Hne].
        -- assert (a = a') by congruence. subst a. apply Hnew. exact Hua.
        -- rewrite Hother in Hk by exact Hne. apply HkeepPre. eapply Hpre; eassumption.
      * intros k a Hlt Hk Hua. destruct (decide (k = i)) as [-> | Hne].
        -- assert (a = a') by congruence. subst a. apply Hnew. exact Hua.
        -- rewrite Hother in Hk by exact Hne. apply HkeepPost.
           eapply Hpost; [| eassumption | exact Hua]. lia.
    + exists ob. split; [reflexivity |]. split; [exact Hm |]. split; [exact Hpre |].
      intros k a Hlt Hk Hua. destruct (decide (k = i)) as [-> | Hne].
      * congruence.
      * eapply Hpost; [| eassumption | exact Hua]. lia.
  - exists ob'. split; [exact Hrun |]. split; [exact Hm |]. split; [exact Hpre |].
    intros j a Hj Hua. eapply Hpost; [| exact Hj | exact Hua].
    apply lookup_lt_Some in Hj. destruct Hm as (_ & _ & _ & _ & _ & _ & _ & Hlen).
    unfold n. lia.
Qed.

(** A pass over an object whose live attributes are all settled changes
    nothing. *)
Lemma update_refs_pass_settled (t : pbvh_Type) (ob : Object CD) :
  all_used (settled ob t) ob -> update_refs_pass t ob = Some ob.
Proof.
  intros Hall. unfold update_refs_pass. apply for_range_fixed. intros i Hi.
  destruct (lookup_lt_is_Some_2 (temp_attributes ob) i Hi) as [attr Hattr].
  rewrite Hattr. cbn [mbind option_bind].
  destruct (used attr) eqn:Hu; [| reflexivity].
  unfold sculpt_attr_update. rewrite Hattr. cbn [mbind option_bind].
  rewrite (Hall i attr Hattr Hu). cbn.
  rewrite (slot_update_id ob i attr Hattr). reflexivity.
Qed.

Lemma update_refs_unfold (t : pbvh_Type) (ob : Object CD) :
  sculpt_attribute_update_refs ob t
  = (ob1 ← update_refs_pass t ob; update_refs_pass t ob1).
Proof. reflexivity. Qed.

(** After the two passes every live attribute is settled. *)
Lemma update_refs_settled (ob : Object CD) (t : pbvh_Type) :
  exists R,
    sculpt_attribute_update_refs ob t = Some R
    /\ same_mesh ob R /\ all_used (settled R t) R.
Proof.
  rewrite update_refs_unfold.
  destruct (bm ob) as [b |] eqn:Ebm.
  - (* dynamic topology *)
    assert (Hmode : forall ob', same_mesh ob ob' -> is_Some_b (bm ob') = true).
    { intros ob' Hm. rewrite (bm_same_mesh _ _ Hm), Ebm. reflexivity. }
    destruct (update_refs_pass_spec (fun _ _ => True) (fun o a => not_bad o t a) t ob)
      as (ob1 & Hrun1 & Hm1 & _ & Hnb).
    { intros o j attr Hm Hj Hu _.
      destruct (sculpt_attr_update_bm o j t attr (Hmode o Hm) Hj)
        as (b0 & o' & a' & Hup & Hx & Hother & Hj' & Hset & _).
      exists b0, o', a'. split; [exact Hup |]. split; [apply Hx |].
      split; [exact Hother |]. split; [exact Hj' |].
      split; [intros Hua; split; [exact I | apply settled_not_bad; auto] |].
      split; [auto |]. intros a. apply not_bad_extends. exact Hx. }
    { intros j a _ _. exact I. }
    rewrite Hrun1. cbn [mbind option_bind].
    destruct (update_refs_pass_spec (fun o a => not_bad o t a) (fun o a => settled o t a)
                t ob1) as (ob2 & Hrun2 & Hm2 & _ & Hset).
    { intros o j attr Hm Hj Hu Hall.
      assert (Hmo : same_mesh ob o) by (eapply same_mesh_trans; eassumption).
      destruct (sculpt_attr_update_bm o j t attr (Hmode o Hmo) Hj)
        as (b0 & o' & a' & Hup & Hx & Hother & Hj' & Hset & Hsame).
      exists b0, o', a'. split; [exact Hup |]. split; [apply Hx |].
      split; [exact Hother |]. split; [exact Hj' |].
      split; [intros Hua; split; [apply settled_not_bad |]; auto |].
      split; [intros a; apply not_bad_extends; exact Hx |].
      intros a Ha. rewrite (Hsame (Hall j attr Hj Hu)).
      apply settled_slot_update. exact Ha. }
    { exact Hnb. }
    exists ob2. split; [exact Hrun2 |].
    split; [eapply same_mesh_trans; eassumption | exact Hset].
  - (* mesh or grids *)
    assert (Hmode : forall ob', same_mesh ob ob' -> bm ob' = None).
    { intros ob' Hm. apply bm_same_mesh in Hm. rewrite Ebm in Hm.
      destruct (bm ob'); [discriminate | reflexivity]. }
    destruct (update_refs_pass_spec (fun _ _ => True) (fun o a => linked o a) t ob)
      as (ob1 & Hrun1 & Hm1 & _ & Hl).
    { intros o j attr Hm Hj Hu _.
      destruct (sculpt_attr_update_mesh o j t attr (Hmode o Hm) Hj)
        as (b0 & o' & a' & Hup & Hx & Hother & Hj' & Hnew).
      exists b0, o', a'. split; [exact Hup |]. split; [apply Hx |].
      split; [exact Hother |]. split; [exact Hj' |].
      split; [intros Hua; split; [exact I | apply Hnew; exact Hua] |].
      split; [auto |]. intros a. apply linked_extends. exact Hx. }
    { intros j a _ _. exact I. }
    rewrite Hrun1. cbn [mbind option_bind].
    destruct (update_refs_pass_spec (fun o a => linked o a) (fun o a => settled o t a)
                t ob1) as (ob2 & Hrun2 & Hm2 & _ & Hset).
    { intros o j attr Hm Hj Hu Hall.
      assert (Hmo : same_mesh ob o) by (eapply same_mesh_trans; eassumption).
      destruct (sculpt_attr_update_mesh o j t attr (Hmode o Hmo) Hj)
        as (b0 & o' & a' & Hup & Hx & Hother & Hj' & Hnew).
      exists b0, o', a'. split; [exact Hup |]. split; [apply Hx |].
      split; [exact Hother |]. split; [exact Hj' |].
      split.
      { intros Hua. destruct (Hnew Hua) as [Hl' Hs']. split; [exact Hl' |].
        apply Hs'. exact (Hall j attr Hj Hu). }
      split; [intros a; apply linked_extends; exact Hx |].
      intros a. apply settled_extends_mesh; [apply Hmode; exact Hmo | exact Hx]. }
    { exact Hl. }
    exists ob2. split; [exact Hrun2 |].
    split; [eapply same_mesh_trans; eassumption | exact Hset].
Qed.

(** [sculpt_attribute_update_refs] always returns, keeps the mesh sizes,
    the backend and the accessor table, and leaves every live attribute
    settled: it passes the staleness check of [sculpt_attr_update] and its
    layer reference is current. *)
Theorem sculpt_attribute_update_refs_settles (ob : Object CD) (t : pbvh_Type) :
  exists R,
    sculpt_attribute_update_refs ob t = Some R
    /\ same_mesh ob R /\ all_used (settled R t) R.
Proof. exact (update_refs_settled ob t). Qed.

(** C7: [sculpt_attribute_update_refs] returns, and calling it again on
    the object it produced changes nothing: no slot, layer, data pointer or
    array content differs after the second call. *)
Theorem sculpt_attribute_update_refs_idempotent (ob : Object CD) (t : pbvh_Type) :
  exists R,
    sculpt_attribute_update_refs ob t = Some R
    /\ sculpt_attribute_update_refs R t = Some R.
Proof.
  destruct (update_refs_settled ob t) as (R & Hrun & _ & Hset).
  exists R. split; [exact Hrun |].
  rewrite update_refs_unfold, (update_refs_pass_settled t R Hset).
  cbn [mbind option_bind]. apply update_refs_pass_settled. exact Hset.
Qed.

End Facts.

End AttrFacts.

(** * The array of layers satisfies the laws *)

Module LayerArrayFacts.
Import AttrStore AttrSpec LayerArray.

Lemma named_layer_index_bounds (cd : list CustomDataLayer) ty nm (i : Z) :
  0 <= i ->
  named_layer_index cd ty nm i = -1
  \/ i <= named_layer_index cd ty nm i < i + Z.of_nat (length cd).
Proof.
  revert i. induction cd as [| l cd IH]; intros i Hi; [left; reflexivity |].
  cbn [named_layer_index length]. destruct (layer_matches ty nm l).
  - right. lia.
  - destruct (IH (i + 1)) as [-> | Hr]; [lia | left; reflexivity | right; lia].
Qed.

Lemma named_layer_index_app (cd cd2 : list CustomDataLayer) ty nm (i : Z) :
  0 <= i ->
  named_layer_index (cd ++ cd2) ty nm i
  = if named_layer_index cd ty nm i =? -1
    then named_layer_index cd2 ty nm (i + Z.of_nat (length cd))
    else named_layer_index cd ty nm i.
Proof.
  revert i. induction cd as [| l cd IH]; intros i Hi.
  - cbn. f_equal. lia.
  - cbn [app named_layer_index length]. destruct (layer_matches ty nm l).
    + replace (i =? -1) with false by (symmetry; apply Z.eqb_neq; lia). reflexivity.
    + rewrite IH by lia. replace (i + 1 + Z.of_nat (length cd))
        with (i + Z.of_nat (S (length cd))) by lia. reflexivity.
Qed.

Lemma layer_matches_refl ty nm data off tmp :
  layer_matches ty nm
    {| lay_type := ty; lay_name := nm; lay_data := data; lay_offset := off;
       lay_temporary := tmp |} = true.
Proof.
  unfold layer_matches. cbn. rewrite Z.eqb_refl, String.eqb_refl. reflexivity.
Qed.

Lemma named_layer_index_snoc_found (cd : list CustomDataLayer) ty nm data off tmp :
  named_layer_index
    (cd ++ [{| lay_type := ty; lay_name := nm; lay_data := data; lay_offset := off;
               lay_temporary := tmp |}]) ty nm 0 <> -1.
Proof.
  rewrite named_layer_index_app by lia.
  destruct (named_layer_index cd ty nm 0 =? -1) eqn:E.
  - cbn [named_layer_index]. rewrite layer_matches_refl. lia.
  - apply Z.eqb_neq. exact E.
Qed.

Lemma named_layer_index_snoc_keeps (cd : list CustomDataLayer) (x : CustomDataLayer)
    ty nm :
  named_layer_index cd ty nm 0 <> -1 ->
  named_layer_index (cd ++ [x]) ty nm 0 <> -1
  /\ (l ← layer_at (cd ++ [x]) (named_layer_index (cd ++ [x]) ty nm 0); lay_data l)
     = (l ← layer_at cd (named_layer_index cd ty nm 0); lay_data l).
Proof.
  intros Hne. rewrite named_layer_index_app by lia.
  apply Z.eqb_neq in Hne as Hb. rewrite Hb. split; [exact Hne |].
  destruct (named_layer_index_bounds cd ty nm 0) as [? | Hr]; [lia | contradiction |].
  unfold layer_at. destruct (_ <? 0); [reflexivity |].
  rewrite lookup_app_l by lia. reflexivity.
Qed.

Lemma named_layer_index_alter (cd : list CustomDataLayer) (k : nat) ty nm (i : Z) :
  named_layer_index (alter set_temporary k cd) ty nm i = named_layer_index cd ty nm i.
Proof.
  revert k i. induction cd as [| l cd IH]; intros k i; [reflexivity |].
  destruct k as [| k]; cbn; [| rewrite IH]; reflexivity.
Qed.

Lemma layer_at_alter (cd : list CustomDataLayer) (k : nat) (i : Z) :
  layer_at (alter set_temporary k cd) i
  = (fun l => if bool_decide (k = Z.to_nat i) then set_temporary l else l)
      <$> layer_at cd i.
Proof.
  unfold layer_at. destruct (i <? 0); [reflexivity |].
  destruct (decide (k = Z.to_nat i)) as [-> | Hne].
  - rewrite list_lookup_alter_eq, bool_decide_eq_true_2 by reflexivity. reflexivity.
  - rewrite list_lookup_alter_ne, bool_decide_eq_false_2 by exact Hne.
    destruct (cd !! Z.to_nat i); reflexivity.
Qed.

#[export] Instance layer_array_laws : CustomDataLaws (list CustomDataLayer).
Proof.
  split.
  - intros cd ty tot nm. apply named_layer_index_snoc_found.
  - intros cd ty nm. apply named_layer_index_snoc_found.
  - intros cd ty tot nm ty' nm' Hne. apply named_layer_index_snoc_keeps. exact Hne.
  - intros cd ty nm ty' nm' Hne. apply named_layer_index_snoc_keeps. exact Hne.
  - intros cd i ty nm. cbn. destruct (i <? 0); [reflexivity |].
    apply named_layer_index_alter.
  - intros cd i k. cbn. destruct (i <? 0); [reflexivity |].
    rewrite layer_at_alter. destruct (layer_at cd k) as [l |]; [| reflexivity].
    cbn. destruct (bool_decide _); reflexivity.
  - intros cd i k. cbn. destruct (i <? 0); [reflexivity |].
    rewrite layer_at_alter. destruct (layer_at cd k) as [l |]; [| reflexivity].
    cbn. destruct (bool_decide _); reflexivity.
Qed.

End LayerArrayFacts.

(** * Destroying an attribute *)

Module AttrDestroy.
Import AttrStore AttrSpec AttrFacts.

Section Destroy.
Context {CD : Type} `{CustomDataOps CD} `{!CustomDataLaws CD}.

Lemma same_key_refl (a : SculptAttribute) : same_key a a = true.
Proof.
  unfold same_key. rewrite String.eqb_refl, Z.eqb_refl.
  destruct (domain a); reflexivity.
Qed.

Lemma clear_handle_Forall (h : nat) (l : list (option nat)) :
  Forall (fun p => p <> Some h)
    (map (fun p => if bool_decide (p = Some h) then None else p) l).
Proof.
  induction l as [| q l IH]; [constructor |].
  cbn [map]. constructor; [| exact IH].
  destruct (bool_decide (q = Some h)) eqn:E; [discriminate |].
  apply bool_decide_eq_false in E. exact E.
Qed.

Lemma map_lookup {A B : Type} (f : A -> B) (l : list A) (k : nat) :
  map f l !! k = f <$> l !! k.
Proof. exact (list_lookup_fmap f l k). Qed.

(** A pass writes no unused slot. *)
Lemma update_refs_pass_unused (t : pbvh_Type) (ob ob' : Object CD) (k : nat)
    (a : SculptAttribute) :
  update_refs_pass t ob = Some ob' ->
  temp_attributes ob !! k = Some a -> used a = false ->
  temp_attributes ob' !! k = Some a.
Proof.
  intros Hrun Hk Hu. unfold update_refs_pass in Hrun.
  apply (for_range_invariant (fun o => temp_attributes o !! k = Some a) _ _ _ _ Hk)
    in Hrun; [exact Hrun |].
  intros j o o' _ Hko Hbody.
  destruct (temp_attributes o !! j) as [attr |] eqn:Hj; [| discriminate].
  cbn [mbind option_bind] in Hbody.
  destruct (used attr) eqn:Hua; [| congruence].
  destruct (sculpt_attr_update_spec o j t attr Hj)
    as (b & o2 & a' & Hup & _ & Hother & _).
  rewrite Hup in Hbody. cbn in Hbody. injection Hbody as <-.
  rewrite Hother; [exact Hko |]. intros ->. congruence.
Qed.

Lemma sculpt_attribute_update_refs_unused (t : pbvh_Type) (ob R : Object CD)
    (k : nat) (a : SculptAttribute) :
  sculpt_attribute_update_refs ob t = Some R ->
  temp_attributes ob !! k = Some a -> used a = false ->
  temp_attributes R !! k = Some a.
Proof.
  rewrite update_refs_unfold. intros Hrun Hk Hu.
  destruct (update_refs_pass t ob) as [ob1 |] eqn:E1; [| discriminate].
  cbn [mbind option_bind] in Hrun.
  eapply update_refs_pass_unused; [exact Hrun | | exact Hu].
  eapply update_refs_pass_unused; [exact E1 | exact Hk | exact Hu].
Qed.

(** What [BKE_sculpt_attribute_destroy] does to a simple array. *)
Lemma BKE_sculpt_attribute_destroy_simple (ob : Object CD) (h : nat)
    (attr : SculptAttribute) :
  temp_attributes ob !! h = Some attr -> simple_array attr = true ->
  BKE_sculpt_attribute_destroy ob h = Some (true, destroy_simple ob h attr).
Proof.
  intros Hh Hs. unfold BKE_sculpt_attribute_destroy. rewrite Hh.
  cbn [mbind option_bind]. rewrite Hs.
  unfold destroy_simple, slot_update, MEM_SAFE_FREE.
  destruct (data attr); cbn; rewrite list_alter_alter_eq; reflexivity.
Qed.

Lemma destroy_simple_lookup (ob : Object CD) (h : nat) (attr : SculptAttribute) :
  temp_attributes ob !! h = Some attr ->
  temp_attributes (destroy_simple ob h attr) !! h
  = Some (set_used (set_data attr None) false).
Proof.
  intros Hh. cbn. rewrite list_lookup_alter_eq, map_lookup, Hh. cbn.
  rewrite same_key_refl. reflexivity.
Qed.

(** Destroying the same simple array again changes nothing. *)
Lemma destroy_simple_again (ob : Object CD) (h : nat) (attr : SculptAttribute) :
  temp_attributes ob !! h = Some attr ->
  destroy_simple (destroy_simple ob h attr) h (set_used (set_data attr None) false)
  = destroy_simple ob h attr.
Proof.
  intros Hh. unfold destroy_simple at 1. cbn [data set_used set_data].
  unfold destroy_simple. cbn [temp_attributes attrs bm subdiv_ccg totvert totfaces
                              pbvh vert_data face_data heap].
  f_equal.
  - apply list_eq. intros k.
    destruct (decide (h = k)) as [<- | Hne].
    + rewrite !list_lookup_alter_eq, !map_lookup, list_lookup_alter_eq,
        map_lookup, Hh. cbn.
      destruct (same_key _ _); reflexivity.
    + rewrite !list_lookup_alter_ne by exact Hne.
      rewrite !map_lookup, list_lookup_alter_ne by exact Hne.
      rewrite map_lookup.
      destruct (temp_attributes ob !! k) as [a |]; [| reflexivity]. cbn.
      f_equal. unfold same_key. cbn.
      destruct (String.eqb (name a) (name attr) && domain_eqb (domain a) (domain attr)
                && (proptype a =? proptype attr)) eqn:E; cbn; rewrite E; reflexivity.
  - rewrite map_map. apply map_ext. intros p.
    destruct (bool_decide (p = Some h)) eqn:E; [reflexivity | rewrite E; reflexivity].
Qed.

Lemma cdata_set_attrs (ob : Object CD) (r : CDataRef) (cd : CD) :
  attrs (cdata_set ob r cd) = attrs ob
  /\ temp_attributes (cdata_set ob r cd) = temp_attributes ob.
Proof. destruct r; split; reflexivity. Qed.

Lemma unregistered_cdata_set (ob : Object CD) (h : nat) (attr : SculptAttribute)
    (o : Object CD) (r : CDataRef) (cd : CD) :
  unregistered ob h attr o -> unregistered ob h attr (cdata_set o r cd).
Proof.
  intros [Ht Hs]. destruct (cdata_set_attrs o r cd) as [Ea Es].
  split; [rewrite Ea; exact Ht | rewrite Es; exact Hs].
Qed.

Lemma unregistered_finish (ob : Object CD) (h : nat) (attr : SculptAttribute)
    (o : Object CD) :
  unregistered ob h attr o ->
  unregistered ob h attr (slot_update o h (fun a => set_used (set_data a None) false)).
Proof.
  intros [Ht Hs]. split; [exact Ht |].
  intros k a Hk Hkey. destruct (Hs k a Hk Hkey) as (a' & Hk' & Hu).
  destruct (decide (h = k)) as [<- | Hne].
  - eexists. split; [apply (slot_update_lookup o h _ a' Hk') | reflexivity].
  - exists a'. split; [| exact Hu]. rewrite slot_update_lookup_ne by exact Hne.
    exact Hk'.
Qed.

Lemma unregistered_update_refs (ob : Object CD) (h : nat) (attr : SculptAttribute)
    (o R : Object CD) (t : pbvh_Type) :
  sculpt_attribute_update_refs o t = Some R ->
  unregistered ob h attr o -> unregistered ob h attr R.
Proof.
  intros Hrun [Ht Hs].
  destruct (update_refs_settled o t) as (R' & Hrun' & Hm & _).
  assert (R' = R) by congruence. subst R'.
  destruct Hm as (_ & _ & _ & _ & _ & _ & Ha & _).
  split; [rewrite Ha; exact Ht |].
  intros k a Hk Hkey. destruct (Hs k a Hk Hkey) as (a' & Hk' & Hu).
  exists a'. split; [| exact Hu].
  eapply sculpt_attribute_update_refs_unused; eassumption.
Qed.

(** The two loops that open [BKE_sculpt_attribute_destroy]. *)
Lemma unregistered_loops (ob : Object CD) (h : nat) (attr : SculptAttribute) :
  unregistered ob h attr
    (set_slots
       (set_attrs_table ob
          (map (fun p => if bool_decide (p = Some h) then None else p) (attrs ob)))
       (map (fun attr2 => if same_key attr2 attr then set_used attr2 false else attr2)
            (temp_attributes ob))).
Proof.
  split; [apply clear_handle_Forall |].
  intros k a Hk Hkey. cbn. rewrite map_lookup, Hk. cbn. rewrite Hkey.
  eexists. split; reflexivity.
Qed.

(** With the assertion on the used flag compiled out,
    [BKE_sculpt_attribute_destroy] on a slot of the table returns; afterwards no accessor pointer designates the handle and every
    slot that held an attribute of the same name, domain and type, the
    handle's own among them, is unused.  For a simple array the array is
    freed, the data pointer of the slot is null, and destroying the handle
    once more changes nothing.  The used flag of the handle is not read. *)
Theorem BKE_sculpt_attribute_destroy_spec (ob : Object CD) (h : nat)
    (attr : SculptAttribute) :
  temp_attributes ob !! h = Some attr ->
  exists r ob',
    BKE_sculpt_attribute_destroy ob h = Some (r, ob')
    /\ unregistered ob h attr ob'
    /\ (simple_array attr = true ->
        r = true
        /\ heap ob' = match data attr with
                      | Some p => delete p (heap ob)
                      | None => heap ob
                      end
        /\ (exists a', temp_attributes ob' !! h = Some a' /\ data a' = None)
        /\ BKE_sculpt_attribute_destroy ob' h = Some (true, ob')).
Proof.
  intros Hh. destruct (simple_array attr) eqn:Hs.
  - exists true, (destroy_simple ob h attr).
    split; [apply BKE_sculpt_attribute_destroy_simple; assumption |].
    assert (Hh' := destroy_simple_lookup ob h attr Hh).
    split.
    { split; [apply clear_handle_Forall |].
      intros k a Hk Hkey. cbn. destruct (decide (h = k)) as [<- | Hne].
      - rewrite list_lookup_alter_eq, map_lookup, Hk. cbn.
        eexists. split; reflexivity.
      - rewrite list_lookup_alter_ne, map_lookup, Hk by exact Hne. cbn. rewrite Hkey.
        eexists. split; reflexivity. }
    intros _. split; [reflexivity |]. split; [reflexivity |].
    split; [eexists; split; [exact Hh' | reflexivity] |].
    rewrite (BKE_sculpt_attribute_destroy_simple _ h _ Hh' Hs).
    rewrite (destroy_simple_again ob h attr Hh). reflexivity.
  - unfold BKE_sculpt_attribute_destroy. rewrite Hh. cbn [mbind option_bind].
    rewrite Hs.
    set (ob2 := set_slots _ _).
    assert (Hu2 : unregistered ob h attr ob2) by apply unregistered_loops.
    destruct (bm ob2) as [b |] eqn:Ebm.
    + set (r := match domain attr with Point => BM_vdata | _ => BM_pdata end).
      assert (Hcd : exists cd, cdata_get ob2 r = Some cd).
      { unfold r, cdata_get. destruct (domain attr); rewrite Ebm; eexists; reflexivity. }
      destruct Hcd as (cd & ->). cbn [mbind option_bind].
      eexists _, _. split; [reflexivity |].
      split; [| intros Habs; discriminate].
      apply unregistered_finish, unregistered_cdata_set. exact Hu2.
    + destruct (domain attr).
      * cbn [cdata_get mbind option_bind].
        set (ob3 := if negb _ then _ else ob2).
        assert (Hu3 : unregistered ob h attr ob3).
        { unfold ob3. destruct (negb _); [apply unregistered_cdata_set |]; exact Hu2. }
        destruct (pbvh ob3) as [t |].
        -- destruct (update_refs_settled ob3 t) as (R & Hrun & _).
           rewrite Hrun. cbn [mbind option_bind].
           eexists _, _. split; [reflexivity |].
           split; [| intros Habs; discriminate].
           apply unregistered_finish. eapply unregistered_update_refs; eassumption.
        -- cbn [mbind option_bind]. eexists _, _. split; [reflexivity |].
           split; [| intros Habs; discriminate].
           apply unregistered_finish. exact Hu3.
      * cbn [cdata_get mbind option_bind].
        set (ob3 := if negb _ then _ else ob2).
        assert (Hu3 : unregistered ob h attr ob3).
        { unfold ob3. destruct (negb _); [apply unregistered_cdata_set |]; exact Hu2. }
        destruct (pbvh ob3) as [t |].
        -- destruct (update_refs_settled ob3 t) as (R & Hrun & _).
           rewrite Hrun. cbn [mbind option_bind].
           eexists _, _. split; [reflexivity |].
           split; [| intros Habs; discriminate].
           apply unregistered_finish. eapply unregistered_update_refs; eassumption.
        -- cbn [mbind option_bind]. eexists _, _. split; [reflexivity |].
           split; [| intros Habs; discriminate].
           apply unregistered_finish. exact Hu3.
      * eexists _, _. split; [reflexivity |].
        split; [exact Hu2 | intros Habs; discriminate].
Qed.

(** A pass adds at most layers and storage. *)
Lemma update_refs_pass_extends (t : pbvh_Type) (ob ob' : Object CD) :
  update_refs_pass t ob = Some ob' -> ob_extends ob ob'.
Proof.
  intros Hrun. unfold update_refs_pass in Hrun.
  apply (for_range_invariant (ob_extends ob) _ _ _ _ (ob_extends_refl ob)) in Hrun;
    [exact Hrun |].
  intros j o o' _ Hx Hbody.
  destruct (temp_attributes o !! j) as [attr |] eqn:Hj; [| discriminate].
  cbn [mbind option_bind] in Hbody.
  destruct (used attr); [| congruence].
  destruct (sculpt_attr_update_spec o j t attr Hj) as (b & o2 & a' & Hup & Hx2 & _).
  rewrite Hup in Hbody. cbn in Hbody. injection Hbody as <-.
  eapply ob_extends_trans; eassumption.
Qed.

Lemma sculpt_attribute_update_refs_extends (t : pbvh_Type) (ob R : Object CD) :
  sculpt_attribute_update_refs ob t = Some R -> ob_extends ob R.
Proof.
  rewrite update_refs_unfold. intros Hrun.
  destruct (update_refs_pass t ob) as [ob1 |] eqn:E1; [| discriminate].
  cbn [mbind option_bind] in Hrun.
  eapply ob_extends_trans; eapply update_refs_pass_extends; eassumption.
Qed.

(** Without a BMesh, a layer that sits at index 0 of its [CustomData] is
    not freed by [BKE_sculpt_attribute_destroy]: the test before
    [CustomData_free_layer] is [layer_i != 0].  The layer is still found
    afterwards, with the same data pointer. *)
Theorem BKE_sculpt_attribute_destroy_keeps_layer_zero (ob : Object CD) (h : nat)
    (attr : SculptAttribute) (r : CDataRef) (cd : CD) :
  temp_attributes ob !! h = Some attr ->
  simple_array attr = false ->
  bm ob = None ->
  (domain attr = Point /\ r = Me_vert_data) \/ (domain attr = Face /\ r = Me_face_data) ->
  cdata_get ob r = Some cd ->
  CustomData_get_named_layer_index cd (proptype attr) (name attr) = 0 ->
  exists ob' cd',
    BKE_sculpt_attribute_destroy ob h = Some (true, ob')
    /\ cdata_get ob' r = Some cd'
    /\ CustomData_get_named_layer_index cd' (proptype attr) (name attr) <> -1
    /\ layer_data cd' (CustomData_get_named_layer_index cd' (proptype attr) (name attr))
       = layer_data cd 0.
Proof.
  intros Hh Hs Hbm Hdom Hcd Hidx.
  unfold BKE_sculpt_attribute_destroy. rewrite Hh. cbn [mbind option_bind].
  rewrite Hs.
  set (ob2 := set_slots _ _).
  assert (Hbm2 : bm ob2 = None) by exact Hbm. rewrite Hbm2.
  assert (Hcd2 : cdata_get ob2 r = Some cd).
  { unfold ob2. rewrite cdata_get_slots. destruct r; exact Hcd. }
  assert (Hfin : forall o : Object CD,
            ob_extends ob2 o ->
            exists cd',
              cdata_get (slot_update o h (fun a => set_used (set_data a None) false)) r
              = Some cd'
              /\ CustomData_get_named_layer_index cd' (proptype attr) (name attr) <> -1
              /\ layer_data cd'
                   (CustomData_get_named_layer_index cd' (proptype attr) (name attr))
                 = layer_data cd 0).
  { intros o [_ Hx]. destruct (Hx r cd Hcd2) as (cd' & Hcd' & Hext).
    exists cd'. split; [unfold slot_update; rewrite cdata_get_slots; exact Hcd' |].
    destruct (Hext (proptype attr) (name attr)) as [Hne Hdata]; [rewrite Hidx; lia |].
    split; [exact Hne |]. rewrite Hdata, Hidx. reflexivity. }
  assert (Hrest : forall tot,
    exists ob' cd',
      (cdata ← cdata_get ob2 r;
       let layer_i :=
         CustomData_get_named_layer_index cdata (proptype attr) (name attr) in
       let ob :=
         if negb (layer_i =? 0)
         then cdata_set ob2 r
                (CustomData_free_layer cdata (proptype attr) tot layer_i)
         else ob2 in
       ob ← match pbvh ob with
            | Some t => sculpt_attribute_update_refs ob t
            | None => Some ob
            end;
       Some (true, slot_update ob h (fun a => set_used (set_data a None) false)))
      = Some (true, ob')
      /\ cdata_get ob' r = Some cd'
      /\ CustomData_get_named_layer_index cd' (proptype attr) (name attr) <> -1
      /\ layer_data cd' (CustomData_get_named_layer_index cd' (proptype attr) (name attr))
         = layer_data cd 0).
  { intros tot. rewrite Hcd2. cbn [mbind option_bind]. rewrite Hidx. cbn [Z.eqb negb].
    destruct (pbvh ob2) as [t |].
    - destruct (update_refs_settled ob2 t) as (R & Hrun & _).
      rewrite Hrun. cbn [mbind option_bind].
      destruct (Hfin R (sculpt_attribute_update_refs_extends t ob2 R Hrun))
        as (cd' & Hget & Hne & Hdata).
      eexists _, cd'. split; [reflexivity |]. auto.
    - cbn [mbind option_bind].
      destruct (Hfin ob2 (ob_extends_refl ob2)) as (cd' & Hget & Hne & Hdata).
      eexists _, cd'. split; [reflexivity |]. auto. }
  destruct Hdom as [[Hd ->] | [Hd ->]]; rewrite Hd; apply Hrest.
Qed.

End Destroy.

End AttrDestroy.

(** * The attribute store on the array of layers *)

Module AttrExamples.
Import AttrStore AttrSpec LayerArray LayerArrayFacts.

Lemma sculpt_attribute_update_refs_idempotent_witness :
  exists R,
    sculpt_attribute_update_refs example_stale_object Mesh = Some R
    /\ sculpt_attribute_update_refs R Mesh = Some R.
Proof.
  exact (AttrFacts.sculpt_attribute_update_refs_idempotent example_stale_object Mesh).
Defined.

Lemma sculpt_attribute_update_refs_settles_witness :
  exists R,
    sculpt_attribute_update_refs example_stale_object Mesh = Some R
    /\ same_mesh example_stale_object R /\ all_used (settled R Mesh) R.
Proof.
  exact (AttrFacts.sculpt_attribute_update_refs_settles example_stale_object Mesh).
Defined.

Lemma BKE_sculpt_attribute_destroy_spec_witness :
  temp_attributes example_stale_object !! 0%nat = Some example_factor_attr
  /\ exists r ob',
       BKE_sculpt_attribute_destroy example_stale_object 0 = Some (r, ob')
       /\ unregistered example_stale_object 0 example_factor_attr ob'
       /\ (simple_array example_factor_attr = true ->
           r = true
           /\ heap ob' = match data example_factor_attr with
                         | Some p => delete p (heap example_stale_object)
                         | None => heap example_stale_object
                         end
           /\ (exists a', temp_attributes ob' !! 0%nat = Some a' /\ data a' = None)
           /\ BKE_sculpt_attribute_destroy ob' 0 = Some (true, ob')).
Proof.
  split; [reflexivity |].
  apply (AttrDestroy.BKE_sculpt_attribute_destroy_spec example_stale_object 0
           example_factor_attr).
  reflexivity.
Defined.

(** C8 fails: the second destroy is not guarded.  The function asserts
    the used flag of the handle and does not test it, and the assertion
    is compiled out of release builds, whose behaviour this is.  The
    handle [hb] was destroyed and its slot is unused; the attribute it
    named lives again in slot [hb'], to which the accessor table points.
    Destroying [hb] once more returns true and marks slot [hb'] unused,
    while the accessor pointer and the array of the attribute stay. *)
Lemma BKE_sculpt_attribute_destroy_stale_handle :
  ('(hb, hb', ob) ← stale_handle_run;
   '(r, ob') ← BKE_sculpt_attribute_destroy ob hb;
   Some (hb, hb', live ob, attrs ob, map_to_list (heap ob),
         r, live ob', attrs ob', map_to_list (heap ob')))
  = Some (1%nat, 0%nat,
          [true; false; false], [Some 0%nat; None; None; None],
          [(0%nat, replicate 12 0)],
          true,
          [false; false; false], [Some 0%nat; None; None; None],
          [(0%nat, replicate 12 0)]).
Proof. vm_compute. reflexivity. Qed.

Lemma two_layers_run_eq : two_layers_run = Some (0%nat, 1%nat, example_two_layers).
Proof. vm_compute. reflexivity. Qed.

Lemma BKE_sculpt_attribute_destroy_keeps_layer_zero_witness :
  exists ob' cd',
    BKE_sculpt_attribute_destroy example_two_layers 0 = Some (true, ob')
    /\ cdata_get ob' Me_face_data = Some cd'
    /\ CustomData_get_named_layer_index cd' 10 "a" <> -1
    /\ layer_data cd' (CustomData_get_named_layer_index cd' 10 "a") = Some 0%nat.
Proof.
  exact (AttrDestroy.BKE_sculpt_attribute_destroy_keeps_layer_zero example_two_layers 0
           (example_layer_attr "a" 0) Me_face_data (face_data example_two_layers)
           eq_refl eq_refl eq_refl (or_intror (conj eq_refl eq_refl)) eq_refl eq_refl).
Defined.

End AttrExamples.

(** * The theorems on the example strokes *)

Lemma example_strip_closed (n : nat) : geometry_closed (example_strip n).
Proof.
  intros v w Hv Hw. cbn in *.
  apply elem_of_app in Hw as [Hw | Hw].
  - destruct (bool_decide (0 < v)%nat); [| inversion Hw].
    apply list_elem_of_singleton in Hw. lia.
  - destruct (bool_decide (S v < n)%nat) eqn:E; [| inversion Hw].
    apply list_elem_of_singleton in Hw. apply bool_decide_eq_true in E. lia.
Qed.

Lemma example_curve_in_unit (automasking : Cache) :
  @curve_in_unit example_externals automasking.
Proof. intros q Hq. exact Hq. Qed.

Lemma example_query_session_ok :
  @session_ok dna_flags example_query_session example_query_cache.
Proof.
  split; [apply example_strip_closed |].
  split; [intros buf Hbuf; discriminate Hbuf |].
  split; [intros buf Hbuf; injection Hbuf as <-; reflexivity |].
  split; [intros buf Hbuf; discriminate Hbuf |].
  split; [intros buf Hbuf; injection Hbuf as <-; reflexivity |].
  split; [intros _; split; eexists; reflexivity |].
  split; [intros Hflag; vm_compute in Hflag; discriminate Hflag |].
  split; [intros buf Hbuf; discriminate Hbuf |].
  intros buf Hbuf. injection Hbuf as <-.
  repeat constructor; vm_compute; discriminate.
Qed.

(** On the strip every vertex has a neighbor one unit away: the mean
    distance of the blur is never zero. *)
Lemma example_query_regular :
  @cavity_regular dna_flags example_externals (geom example_query_session)
    example_query_cache.
Proof.
  intros _ v l Hv Hl Hz.
  do 5 (destruct v as [| v];
        [vm_compute in Hl; injection Hl as <-; vm_compute in Hz; discriminate Hz |]).
  vm_compute in Hv. lia.
Qed.

Lemma factor_get_unit_witness :
  exists r ss',
    @factor_get dna_flags example_externals example_query_session
      example_query_cache 2 None = Some (r, ss')
    /\ (0 <= r <= 1)%Q
    /\ @session_ok dna_flags ss' example_query_cache
    /\ same_frame example_query_session ss'.
Proof.
  apply (@factor_get_unit dna_flags example_externals example_query_session
           example_query_cache 2 None).
  - exact example_query_session_ok.
  - exact example_query_regular.
  - apply example_curve_in_unit.
  - vm_compute. lia.
Defined.

Lemma init_boundary_masking_falloff_witness :
  exists ss' buf',
    init_boundary_masking Edges 2 example_boundary_session = Some ss'
    /\ automasking_factor (attrs ss') = Some buf'
    /\ length buf' = 6%nat.
Proof.
  destruct (init_boundary_masking_falloff example_boundary_session Edges 2
              (replicate 6 1%Q))
    as (ss' & buf' & Hrun & Hbuf & Hlen & _).
  - apply example_strip_closed.
  - lia.
  - reflexivity.
  - reflexivity.
  - exists ss', buf'. split; [exact Hrun |]. split; [exact Hbuf | exact Hlen].
Defined.

Lemma cache_init_factor_seed_witness :
  exists ss1,
    @cache_init_factor_buffer dna_flags
      (@calc_effective_bits dna_flags example_topology_sd example_topology_brush)
      example_topology_session = Some ss1
    /\ automasking_factor (attrs ss1) = Some (replicate 4 0%Q).
Proof.
  destruct (@cache_init_factor_seed dna_flags example_externals example_topology_sd
              example_topology_brush example_normal_cache example_topology_session)
    as (ss1 & Hrun & Hbuf & _).
  - apply example_strip_closed.
  - repeat constructor.
  - exists ss1. split; [exact Hrun | exact Hbuf].
Defined.

Lemma calc_blurred_cavity_isolated_witness :
  @calc_blurred_cavity dna_flags example_externals example_loose_query_session
    example_query_cache 0 0 = None.
Proof.
  apply (@calc_blurred_cavity_isolated dna_flags example_externals
           example_loose_query_session example_query_cache 0 0).
  - vm_compute. lia.
  - reflexivity.
  - lia.
  - vm_compute. reflexivity.
Defined.

(** The query of the loose vertex has no value either: its stored stroke id
    is stale, so the query computes the cavity estimate first. *)
Lemma factor_get_loose_vertex :
  @factor_get dna_flags example_externals example_loose_query_session
    example_query_cache 0 None = None.
Proof. vm_compute. reflexivity. Qed.

Lemma calc_face_factors_mean_witness :
  match @face_means dna_flags example_externals example_normal_session
          example_normal_cache example_faces example_corner_verts [0; 1]%nat with
  | Some (ms, ss') =>
      exists out,
        @calc_face_factors dna_flags example_externals example_normal_session
          example_normal_cache example_faces example_corner_verts [0; 1]%nat
          [1%Q; (1 # 2)%Q]
        = Some (out, ss')
        /\ length out = 2%nat
        /\ (forall i m old,
              ms !! i = Some m -> [1%Q; (1 # 2)%Q] !! i = Some old ->
              exists new, out !! i = Some new /\ (new == old * m)%Q)
        /\ (forall i, (2 <= i)%nat -> out !! i = [1%Q; (1 # 2)%Q] !! i)
  | None =>
      @calc_face_factors dna_flags example_externals example_normal_session
        example_normal_cache example_faces example_corner_verts [0; 1]%nat
        [1%Q; (1 # 2)%Q] = None
  end.
Proof.
  apply (@calc_face_factors_mean dna_flags example_externals example_normal_session
           example_normal_cache example_faces example_corner_verts [0; 1]%nat
           [1%Q; (1 # 2)%Q]).
  cbn. lia.
Defined.


(** * Mode bits *)

Lemma has_flag_lor (f a b : Z) :
  has_flag f (Z.lor a b) = has_flag f a || has_flag f b.
Proof.
  unfold has_flag. rewrite Z.land_lor_distr_r.
  destruct (Z.eqb_spec (Z.lor (Z.land f a) (Z.land f b)) 0) as [E | E].
  - apply Z.lor_eq_0_iff in E as [-> ->]. reflexivity.
  - destruct (Z.eqb_spec (Z.land f a) 0) as [Ea | Ea]; [| reflexivity].
    destruct (Z.eqb_spec (Z.land f b) 0) as [Eb | Eb]; [| reflexivity].
    exfalso. apply E. rewrite Ea, Eb. reflexivity.
Qed.

Lemma has_flag_false (f m : Z) : has_flag f m = false <-> Z.land f m = 0.
Proof.
  unfold has_flag. destruct (Z.eqb_spec (Z.land f m) 0); cbn; split; congruence.
Qed.

(** Replacing the bits of a mask: inside the mask the bits are the new
    ones, outside they are kept. *)
Lemma replace_bits_inside (x y m : Z) :
  Z.land (Z.lor (Z.land x (Z.lnot m)) y) m = Z.land y m.
Proof.
  apply Z.bits_inj'. intros n Hn.
  rewrite !Z.land_spec, Z.lor_spec, Z.land_spec, Z.lnot_spec by exact Hn.
  destruct (Z.testbit x n), (Z.testbit y n), (Z.testbit m n); reflexivity.
Qed.

Lemma replace_bits_outside (x y m : Z) :
  Z.land (Z.lor (Z.land (Z.lor x y) (Z.lnot m)) y) (Z.lnot m)
  = Z.land (Z.lor x y) (Z.lnot m).
Proof.
  apply Z.bits_inj'. intros n Hn.
  rewrite !Z.land_spec, !Z.lor_spec, !Z.land_spec, !Z.lor_spec, Z.lnot_spec by exact Hn.
  destruct (Z.testbit x n), (Z.testbit y n), (Z.testbit m n); reflexivity.
Qed.

Lemma replace_bits_disjoint (x y m k : Z) :
  Z.land k m = 0 ->
  Z.land (Z.lor (Z.land (Z.lor x y) (Z.lnot m)) y) k = Z.land (Z.lor x y) k.
Proof.
  intros Hk. apply Z.bits_inj'. intros n Hn.
  assert (Hb : Z.testbit k n && Z.testbit m n = false).
  { rewrite <- Z.land_spec, Hk. apply Z.bits_0. }
  rewrite !Z.land_spec, !Z.lor_spec, !Z.land_spec, !Z.lor_spec, Z.lnot_spec by exact Hn.
  destruct (Z.testbit x n), (Z.testbit y n), (Z.testbit m n), (Z.testbit k n);
    try reflexivity; discriminate Hb.
Qed.

Section ModeBits.
Context `{AutomaskFlags} `{Externals}.

(** The effective bits of a stroke with a brush: outside the cavity mask
    they are the union of the tool and brush bits; inside it they are the
    brush's alone when the brush has a cavity mode, else the tool's alone
    when the tool has one, else the union. *)
Theorem calc_effective_bits_cavity (sd : Sculpt) (b : Brush) :
  let eff := calc_effective_bits sd (Some b) in
  let union := Z.lor (sd_automasking_flags sd) (automasking_flags b) in
  Z.land eff (Z.lnot cavity_bits) = Z.land union (Z.lnot cavity_bits)
  /\ (has_flag (automasking_flags b) BRUSH_AUTOMASKING_CAVITY_ALL = true ->
      Z.land eff cavity_bits = Z.land (automasking_flags b) cavity_bits)
  /\ (has_flag (automasking_flags b) BRUSH_AUTOMASKING_CAVITY_ALL = false ->
      has_flag (sd_automasking_flags sd) BRUSH_AUTOMASKING_CAVITY_ALL = true ->
      Z.land eff cavity_bits = Z.land (sd_automasking_flags sd) cavity_bits)
  /\ (has_flag (automasking_flags b) BRUSH_AUTOMASKING_CAVITY_ALL = false ->
      has_flag (sd_automasking_flags sd) BRUSH_AUTOMASKING_CAVITY_ALL = false ->
      eff = union).
Proof.
  cbv zeta. unfold calc_effective_bits.
  destruct (has_flag (automasking_flags b) _) eqn:Eb;
    [| destruct (has_flag (sd_automasking_flags sd) _) eqn:Es].
  - split; [apply replace_bits_outside |].
    split; [intros _; apply replace_bits_inside |].
    split; intros; discriminate.
  - split.
    { rewrite (Z.lor_comm (sd_automasking_flags sd)). apply replace_bits_outside. }
    split; [intros; discriminate |].
    split; [intros _ _; apply replace_bits_inside |].
    intros _ ?. discriminate.
  - split; [reflexivity |].
    split; [intros; discriminate |].
    split; [intros _ ?; discriminate |].
    reflexivity.
Qed.

(** A mode bit outside the cavity mask is effective exactly when the tool
    or the brush sets it. *)
Lemma calc_effective_bits_mode (sd : Sculpt) (brush : option Brush) (mode : Z) :
  Z.land mode cavity_bits = 0 ->
  has_flag (calc_effective_bits sd brush) mode = mode_enabled sd brush mode.
Proof.
  intros Hm. unfold mode_enabled, calc_effective_bits, has_flag.
  destruct brush as [b |]; [| reflexivity].
  destruct (negb (Z.land (automasking_flags b) _ =? 0));
    [| destruct (negb (Z.land (sd_automasking_flags sd) _ =? 0))].
  - rewrite replace_bits_disjoint by exact Hm. reflexivity.
  - rewrite (Z.lor_comm (sd_automasking_flags sd)).
    rewrite replace_bits_disjoint by exact Hm. reflexivity.
  - reflexivity.
Qed.

(** When the two normal bits lie outside the cavity mask, a stroke needs
    normals exactly when the tool or the brush turns on the brush-normal or
    the view-normal mode. *)
Theorem needs_normal_modes (sd : Sculpt) (brush : option Brush) :
  Z.land BRUSH_AUTOMASKING_BRUSH_NORMAL cavity_bits = 0 ->
  Z.land BRUSH_AUTOMASKING_VIEW_NORMAL cavity_bits = 0 ->
  needs_normal sd brush
  = mode_enabled sd brush BRUSH_AUTOMASKING_BRUSH_NORMAL
    || mode_enabled sd brush BRUSH_AUTOMASKING_VIEW_NORMAL.
Proof.
  intros Hb Hv. unfold needs_normal. rewrite has_flag_lor.
  rewrite !calc_effective_bits_mode by assumption. reflexivity.
Qed.

(** [is_enabled] is one test of the union of the tool and brush bits
    against the mask of the seven modes, made after the dynamic topology
    test. *)
Lemma is_enabled_mask (sd : Sculpt) (ss : option SculptSession) (br : option Brush) :
  is_enabled sd ss br
  = negb (match ss, br with
          | Some ss, Some b => stroke_is_dyntopo (geom ss) b
          | _, _ => false
          end)
    && mode_enabled sd br enabling_bits.
Proof.
  unfold is_enabled, enabling_bits, mode_enabled.
  rewrite !has_flag_lor.
  destruct (match ss, br with
            | Some ss0, Some b => stroke_is_dyntopo (geom ss0) b
            | _, _ => false
            end); [reflexivity |].
  cbn [negb andb].
  repeat match goal with
         | |- (if ?c then true else _) = ?c || _ => destruct c; cbn [orb]; [reflexivity |]
         end.
  destruct (has_flag _ _); reflexivity.
Qed.

(** [cache_init] returns [nullptr] exactly for a dynamic topology stroke
    or when the tool and the brush set none of the seven mode bits; the
    session is then left as it was.  The view-occlusion and cavity-curve
    bits are not among the seven. *)
Theorem cache_init_nullptr (sd : Sculpt) (brush : option Brush) (ss : SculptSession) :
  let dyntopo := match brush with
                 | Some b => stroke_is_dyntopo (geom ss) b
                 | None => false
                 end in
  let off := dyntopo || negb (mode_enabled sd brush enabling_bits) in
  (off = true -> cache_init sd brush ss = Some (None, ss))
  /\ (forall ss', cache_init sd brush ss = Some (None, ss') -> off = true /\ ss' = ss)
  /\ (forall c ss', cache_init sd brush ss = Some (Some c, ss') -> off = false).
Proof.
  cbv zeta.
  pose proof (is_enabled_mask sd (Some ss) brush) as Hen.
  assert (Hoff : (match brush with
                  | Some b => stroke_is_dyntopo (geom ss) b
                  | None => false
                  end || negb (mode_enabled sd brush enabling_bits))
                 = negb (is_enabled sd (Some ss) brush)).
  { rewrite Hen, negb_andb, negb_involutive. reflexivity. }
  rewrite Hoff. unfold cache_init.
  destruct (negb (is_enabled sd (Some ss) brush)) eqn:E.
  - split; [reflexivity |]. split.
    + intros ss' [= <-]. split; reflexivity.
    + intros c ss' Hc. discriminate Hc.
  - split; [intros Hf; discriminate Hf |].
    destruct (cache_init_reuse _ _ _ _) as [c0 s0].
    split.
    + intros ss' Hc. exfalso.
      destruct (negb (needs_factors_cache sd brush)); [discriminate Hc |].
      destruct (cache_init_precompute _ _ _ _) as [[c1 s1] |]; discriminate Hc.
    + intros c ss' _. reflexivity.
Qed.

End ModeBits.

(** * The scalar calculators *)

Section Scalars.
Context `{AutomaskFlags} `{Externals}.

Local Open Scope Q_scope.

Lemma gtb_lt (a b : float) : gtb a b = true <-> b < a.
Proof. unfold gtb. apply ltb_lt. Qed.

Lemma gtb_ge (a b : float) : gtb a b = false <-> a <= b.
Proof. unfold gtb. apply ltb_ge. Qed.

(** The normal falloff by cases of the angle between the reference normal
    and the vertex normal.  Above the upper limit the factor is 0; at or
    below the lower limit it is 1; strictly between the limits it is the
    smoothstep of the remaining fraction, which lies in the unit interval
    and tends to 0 towards the upper limit.  At the upper limit itself
    neither comparison of the source holds and the factor is 1. *)
Theorem normal_calc_limits (g : Geometry) (vertex : nat) (normal : float3)
    (limit_lower limit_upper : float) (orig_normal : option float3) :
  let normal_v := match orig_normal with
                  | Some n => n
                  | None => SCULPT_vertex_normal_get g vertex
                  end in
  let angle := safe_acosf (dot_v3v3 normal normal_v) in
  let r := normal_calc g vertex normal limit_lower limit_upper orig_normal in
  (limit_upper < angle -> r = 0)
  /\ (angle <= limit_lower -> angle <= limit_upper -> r = 1)
  /\ (angle == limit_upper -> r = 1)
  /\ (limit_lower < angle < limit_upper ->
      let t := 1 - (angle - limit_lower) / (limit_upper - limit_lower) in
      r = t * t * (3 - 2 * t) /\ 0 < t < 1 /\ 0 <= r <= 1).
Proof.
  cbv zeta. unfold normal_calc.
  set (angle := safe_acosf _).
  split; [| split; [| split]].
  - intros Hup.
    replace (ltb angle limit_upper) with false
      by (symmetry; apply ltb_ge; lra).
    rewrite andb_false_r.
    replace (gtb angle limit_upper) with true by (symmetry; apply gtb_lt; exact Hup).
    reflexivity.
  - intros Hlo Hup.
    replace (gtb angle limit_lower) with false by (symmetry; apply gtb_ge; exact Hlo).
    cbn [andb].
    replace (gtb angle limit_upper) with false by (symmetry; apply gtb_ge; exact Hup).
    reflexivity.
  - intros Heq.
    replace (ltb angle limit_upper) with false
      by (symmetry; apply ltb_ge; rewrite Heq; apply Qle_refl).
    rewrite andb_false_r.
    replace (gtb angle limit_upper) with false
      by (symmetry; apply gtb_ge; rewrite Heq; apply Qle_refl).
    reflexivity.
  - intros [Hlo Hup].
    replace (gtb angle limit_lower) with true by (symmetry; apply gtb_lt; exact Hlo).
    replace (ltb angle limit_upper) with true by (symmetry; apply ltb_lt; exact Hup).
    cbn [andb]. split; [reflexivity |].
    assert (Hpos : 0 < limit_upper - limit_lower) by lra.
    assert (Hq0 : 0 < (angle - limit_lower) / (limit_upper - limit_lower)).
    { apply Qlt_shift_div_l; [exact Hpos | lra]. }
    assert (Hq1 : (angle - limit_lower) / (limit_upper - limit_lower) < 1).
    { apply Qlt_shift_div_r; [exact Hpos | lra]. }
    split; [lra |].
    apply smoothstep_unit. unfold in_unit. lra.
Qed.

Lemma Qabs_signf (f : float) : Qabs f * signf f == f.
Proof.
  unfold signf. destruct (ltb f 0) eqn:E.
  - apply ltb_lt in E. rewrite Qabs_neg by lra. ring.
  - apply ltb_ge in E. rewrite Qabs_pos by exact E. ring.
Qed.

Lemma CLAMP_Qeq (a a' : float) : a == a' -> CLAMP a 0 1 == CLAMP a' 0 1.
Proof.
  intros Ha. unfold CLAMP.
  destruct (ltb a 0) eqn:E1, (ltb a' 0) eqn:E1';
    try apply ltb_lt in E1; try apply ltb_lt in E1';
    try apply ltb_ge in E1; try apply ltb_ge in E1'; try reflexivity; try lra.
  destruct (gtb a 1) eqn:E2, (gtb a' 1) eqn:E2';
    try apply gtb_lt in E2; try apply gtb_lt in E2';
    try apply gtb_ge in E2; try apply gtb_ge in E2'; try reflexivity; try lra.
Qed.

(** The cavity factor of a raw curvature estimate is the affine map
    [1/2 + 25 * strength * raw] clamped to the unit interval, complemented
    when the inversion bit is set.  Without inversion it is 1 from
    [strength * raw >= 1/50] on and 0 up to [strength * raw <= -1/50]; with
    or without inversion it lies in the unit interval. *)
Theorem calc_cavity_factor_affine (automasking : Cache) (factor : float) :
  let k := cavity_factor (settings automasking) in
  let c := CLAMP (25 * k * factor + (1 # 2)) 0 1 in
  let inverted :=
    has_flag (flags (settings automasking)) BRUSH_AUTOMASKING_CAVITY_INVERTED in
  calc_cavity_factor automasking factor == (if inverted then 1 - c else c)
  /\ 0 <= calc_cavity_factor automasking factor <= 1
  /\ ((1 # 50) <= k * factor -> c == 1)
  /\ (k * factor <= - (1 # 50) -> c == 0).
Proof.
  cbv zeta.
  set (k := cavity_factor (settings automasking)).
  assert (Hraw : Qabs factor * k * 50 * signf factor * (1 # 2) + (1 # 2)
                 == 25 * k * factor + (1 # 2)).
  { assert (E : Qabs factor * k * 50 * signf factor * (1 # 2)
                == 25 * k * (Qabs factor * signf factor)) by ring.
    rewrite E, Qabs_signf. reflexivity. }
  split; [| split; [apply calc_cavity_factor_unit | split]].
  - unfold calc_cavity_factor. fold k.
    pose proof (CLAMP_Qeq _ _ Hraw) as Hc.
    destruct (has_flag _ _); rewrite Hc; reflexivity.
  - intros Hk. unfold CLAMP.
    destruct (ltb _ 0) eqn:E1; [apply ltb_lt in E1; lra |].
    destruct (gtb _ 1) eqn:E2; [reflexivity |].
    apply gtb_ge in E2. lra.
  - intros Hk. unfold CLAMP.
    destruct (ltb _ 0) eqn:E1; [reflexivity |].
    apply ltb_ge in E1.
    destruct (gtb _ 1) eqn:E2; [apply gtb_lt in E2; lra |]. lra.
Qed.

End Scalars.

(** * Repeating a query within a stroke *)

Lemma set_stroke_ids_id (ss : SculptSession) :
  set_stroke_ids ss (automasking_stroke_id (attrs ss)) = ss.
Proof. destruct ss as [? ? [? ? ? ?] ? ? ? ?]. reflexivity. Qed.

Lemma set_occlusion_id (ss : SculptSession) :
  set_occlusion ss (automasking_occlusion (attrs ss)) = ss.
Proof. destruct ss as [? ? [? ? ? ?] ? ? ? ?]. reflexivity. Qed.

Lemma attr_write_inv {A : Type} (attr : option (list A)) (v : nat) (a : A)
    (buf' : list A) :
  attr_write attr v a = Some buf' ->
  exists buf, attr = Some buf /\ (v < length buf)%nat /\ buf' = <[v := a]> buf.
Proof.
  unfold attr_write. intros Hw. destruct attr as [buf |]; [| discriminate].
  cbn in Hw. destruct (bool_decide (v < length buf)%nat) eqn:E; [| discriminate].
  apply bool_decide_eq_true in E. injection Hw as <-. eauto.
Qed.

Lemma attr_write_same {A : Type} (buf : list A) (v : nat) (a : A) :
  buf !! v = Some a -> attr_write (Some buf) v a = Some buf.
Proof.
  intros Hv. rewrite attr_write_Some by (eapply lookup_lt_Some; exact Hv).
  rewrite list_insert_id by exact Hv. reflexivity.
Qed.

Lemma keeps_factor_refl (ss : SculptSession) : keeps_factor ss ss.
Proof. split; [apply same_frame_refl | reflexivity]. Qed.

Lemma keeps_factor_trans (a b c : SculptSession) :
  keeps_factor a b -> keeps_factor b c -> keeps_factor a c.
Proof.
  intros [F1 E1] [F2 E2]. split; [eapply same_frame_trans; eassumption | congruence].
Qed.

Section Again.
Context `{AutomaskFlags} `{Externals}.

Local Open Scope Q_scope.

Lemma calc_brush_normal_factor_frame (ss ss' : SculptSession) (c : Cache) (v : nat)
    (on : option float3) :
  same_frame ss ss' ->
  calc_brush_normal_factor ss' c v on = calc_brush_normal_factor ss c v on.
Proof.
  intros (Hc & Hf & _ & _ & _ & Hg). unfold calc_brush_normal_factor.
  rewrite Hc, Hf, Hg. reflexivity.
Qed.

Lemma calc_view_normal_factor_frame (ss ss' : SculptSession) (c : Cache) (v : nat)
    (on : option float3) :
  same_frame ss ss' ->
  calc_view_normal_factor ss' c v on = calc_view_normal_factor ss c v on.
Proof.
  intros (Hc & Hf & _ & _ & _ & Hg). unfold calc_view_normal_factor.
  rewrite Hc, Hf, Hg. reflexivity.
Qed.

Lemma boundary_face_set_ignore_frame (ss ss' : SculptSession) (v : nat) :
  same_frame ss ss' -> boundary_face_set_ignore ss' v = boundary_face_set_ignore ss v.
Proof.
  intros (Hc & _ & _ & _ & _ & Hg). unfold boundary_face_set_ignore.
  rewrite Hc, Hg. reflexivity.
Qed.

(** The stroke id stamp. *)
Lemma automasking_factor_end_again (ss ss' : SculptSession) (c : Cache) (v : nat)
    (x y : float) :
  automasking_factor_end ss c v x = Some (y, ss') ->
  y = x
  /\ keeps_factor ss ss'
  /\ automasking_occlusion (attrs ss') = automasking_occlusion (attrs ss)
  /\ automasking_cavity (attrs ss') = automasking_cavity (attrs ss)
  /\ match automasking_stroke_id (attrs ss) with
     | Some buf => automasking_stroke_id (attrs ss')
                   = Some (<[v := current_stroke_id c]> buf)
                   /\ (v < length buf)%nat
     | None => automasking_stroke_id (attrs ss') = None
     end
  /\ forall z, automasking_factor_end ss' c v z = Some (z, ss').
Proof.
  unfold automasking_factor_end. intros He.
  destruct (automasking_stroke_id (attrs ss)) as [buf |] eqn:Es.
  - destruct (attr_write (Some buf) v (current_stroke_id c)) as [buf' |] eqn:Ew;
      [| discriminate].
    cbn in He. injection He as <- <-.
    apply attr_write_inv in Ew as (b & [= <-] & Hv & ->).
    split; [reflexivity |].
    split; [split; [apply same_frame_set_attrs | reflexivity] |].
    split; [reflexivity |]. split; [reflexivity |].
    split; [split; [reflexivity | exact Hv] |].
    intros z. cbn [set_stroke_ids set_attrs attrs automasking_stroke_id].
    rewrite attr_write_same by (apply list_lookup_insert_eq; exact Hv).
    reflexivity.
  - injection He as <- <-.
    split; [reflexivity |]. split; [apply keeps_factor_refl |].
    split; [reflexivity |]. split; [reflexivity |].
    split; [exact Es |].
    intros z. rewrite Es. reflexivity.
Qed.

(** The occlusion stamp: asked again with the same stroke id or with the
    current one, the answer is the same and nothing is written. *)
Lemma calc_view_occlusion_factor_again (ss ss1 ss2 : SculptSession) (c : Cache)
    (v : nat) (s s' : Z) (occ : bool) :
  calc_view_occlusion_factor ss c v s = Some (occ, ss1) ->
  automasking_occlusion (attrs ss2) = automasking_occlusion (attrs ss1) ->
  geom ss2 = geom ss ->
  s' = s \/ s' = current_stroke_id c ->
  calc_view_occlusion_factor ss2 c v s' = Some (occ, ss2).
Proof.
  unfold calc_view_occlusion_factor. intros Hc Ho Hg Hs.
  destruct (attr_read (automasking_occlusion (attrs ss)) v) as [f |] eqn:Er;
    [| discriminate].
  cbn in Hc.
  destruct (negb (s =? current_stroke_id c)%Z) eqn:Ens.
  - set (val := if SCULPT_vertex_is_occluded (geom ss) v then 2%Z else 1%Z) in *.
    destruct (attr_write (automasking_occlusion (attrs ss)) v val) as [buf' |] eqn:Ew;
      [| discriminate].
    cbn in Hc. injection Hc as <- <-.
    apply attr_write_inv in Ew as (b & Eb & Hv & ->).
    cbn in Ho. rewrite Ho, Hg. fold val.
    unfold attr_read. cbn [mbind option_bind].
    rewrite list_lookup_insert_eq by exact Hv. cbn [mbind option_bind].
    destruct (negb (s' =? current_stroke_id c)%Z); [| reflexivity].
    rewrite attr_write_same by (apply list_lookup_insert_eq; exact Hv).
    cbn. do 2 f_equal. rewrite <- Ho. apply set_occlusion_id.
  - injection Hc as <- <-.
    assert (Es' : negb (s' =? current_stroke_id c)%Z = false).
    { destruct Hs as [-> | ->]; [exact Ens |]. rewrite Z.eqb_refl. reflexivity. }
    rewrite Ho, Er. cbn. rewrite Es'. reflexivity.
Qed.

Lemma calc_view_occlusion_factor_keeps_rest (ss ss1 : SculptSession) (c : Cache)
    (v : nat) (s : Z) (occ : bool) :
  calc_view_occlusion_factor ss c v s = Some (occ, ss1) ->
  keeps_factor ss ss1
  /\ automasking_stroke_id (attrs ss1) = automasking_stroke_id (attrs ss)
  /\ automasking_cavity (attrs ss1) = automasking_cavity (attrs ss).
Proof.
  unfold calc_view_occlusion_factor. intros Hc.
  destruct (attr_read _ v) as [f |]; [| discriminate]. cbn in Hc.
  destruct (negb _).
  - destruct (attr_write _ v _) as [buf |]; [| discriminate].
    cbn in Hc. injection Hc as _ <-.
    split; [split; [apply same_frame_set_attrs | reflexivity] |].
    split; reflexivity.
  - injection Hc as _ <-. split; [apply keeps_factor_refl |]. split; reflexivity.
Qed.

(** The cavity step writes the cavity buffer alone, and needs the stroke
    id buffer. *)
Lemma calc_cavity_factor_vert_keeps_rest (ss ss1 : SculptSession) (c : Cache)
    (v : nat) (f : float) :
  calc_cavity_factor_vert ss c v = Some (f, ss1) ->
  keeps_factor ss ss1
  /\ automasking_stroke_id (attrs ss1) = automasking_stroke_id (attrs ss)
  /\ automasking_occlusion (attrs ss1) = automasking_occlusion (attrs ss)
  /\ is_Some (automasking_stroke_id (attrs ss)).
Proof.
  unfold calc_cavity_factor_vert. intros Hc.
  destruct (attr_read (automasking_stroke_id (attrs ss)) v) as [id |] eqn:Eid;
    [| discriminate].
  cbn [mbind option_bind] in Hc.
  assert (Hsome : is_Some (automasking_stroke_id (attrs ss))).
  { destruct (automasking_stroke_id (attrs ss)); [eexists; reflexivity | discriminate]. }
  assert (Hmid : forall s1,
             (if negb (id =? current_stroke_id c)%Z
              then calc_blurred_cavity ss c (cavity_blur_steps (settings c)) v
              else Some ss) = Some s1 ->
             keeps_factor ss s1
             /\ automasking_stroke_id (attrs s1) = automasking_stroke_id (attrs ss)
             /\ automasking_occlusion (attrs s1) = automasking_occlusion (attrs ss)).
  { intros s1 Hs1. destruct (negb _).
    - unfold calc_blurred_cavity in Hs1.
      destruct (calc_blurred_cavity_locals _ _ _); [| discriminate].
      cbn [mbind option_bind] in Hs1.
      destruct (divf _ _); [| discriminate]. cbn [mbind option_bind] in Hs1.
      destruct (attr_write _ _ _); [| discriminate]. cbn in Hs1.
      injection Hs1 as <-.
      split; [split; [apply same_frame_set_attrs | reflexivity] |].
      split; reflexivity.
    - injection Hs1 as <-. split; [apply keeps_factor_refl |]. split; reflexivity. }
  destruct (if negb (id =? current_stroke_id c)%Z then _ else _) as [s1 |] eqn:E1;
    [| discriminate].
  cbn [mbind option_bind] in Hc.
  destruct (Hmid s1 eq_refl) as (Hk & Hs & Ho).
  destruct (attr_read (automasking_cavity (attrs s1)) v) as [fac |]; [| discriminate].
  cbn [mbind option_bind] in Hc.
  assert (ss1 = s1) by (destruct (_ && _); injection Hc as _ <-; reflexivity).
  subst ss1. auto.
Qed.

(** Once the vertex carries the current stroke id, the cavity step reads
    the stored factor and writes nothing. *)
Lemma calc_cavity_factor_vert_again (ss ss1 ss2 : SculptSession) (c : Cache)
    (v : nat) (f : float) (buf : list Z) :
  calc_cavity_factor_vert ss c v = Some (f, ss1) ->
  automasking_cavity (attrs ss2) = automasking_cavity (attrs ss1) ->
  automasking_stroke_id (attrs ss2) = Some buf ->
  buf !! v = Some (current_stroke_id c) ->
  calc_cavity_factor_vert ss2 c v = Some (f, ss2).
Proof.
  unfold calc_cavity_factor_vert. intros Hc Hcav Hs Hv.
  destruct (attr_read (automasking_stroke_id (attrs ss)) v) as [id |];
    [| discriminate].
  cbn [mbind option_bind] in Hc.
  destruct (if negb (id =? current_stroke_id c)%Z then _ else _) as [s1 |];
    [| discriminate].
  cbn [mbind option_bind] in Hc.
  destruct (attr_read (automasking_cavity (attrs s1)) v) as [fac |] eqn:Er;
    [| discriminate].
  cbn [mbind option_bind] in Hc.
  assert (ss1 = s1) by (destruct (_ && _); injection Hc as _ <-; reflexivity).
  subst s1.
  rewrite Hs, attr_read_Some, Hv.
  cbn [mbind option_bind]. rewrite Z.eqb_refl. cbn [negb mbind option_bind].
  rewrite Hcav, Er. cbn [mbind option_bind].
  destruct (_ && _); simplify_eq; reflexivity.
Qed.

(** The tail shared by the cached and the live branch: the optional cavity
    step followed by the stroke id stamp. *)
Lemma cavity_then_end_again (ss ss' : SculptSession) (c : Cache) (v : nat)
    (m r : float) (k : float -> float -> float) :
  ('(m', ss1) ←
     (if has_flag (flags (settings c)) BRUSH_AUTOMASKING_CAVITY_ALL then
        '(f, ss1) ← calc_cavity_factor_vert ss c v; Some (k m f, ss1)
      else Some (m, ss));
   automasking_factor_end ss1 c v m') = Some (r, ss') ->
  keeps_factor ss ss'
  /\ automasking_occlusion (attrs ss') = automasking_occlusion (attrs ss)
  /\ match automasking_stroke_id (attrs ss) with
     | Some buf => automasking_stroke_id (attrs ss')
                   = Some (<[v := current_stroke_id c]> buf)
                   /\ (v < length buf)%nat
     | None => automasking_stroke_id (attrs ss') = None
     end
  /\ ('(m', ss1) ←
        (if has_flag (flags (settings c)) BRUSH_AUTOMASKING_CAVITY_ALL then
           '(f, ss1) ← calc_cavity_factor_vert ss' c v; Some (k m f, ss1)
         else Some (m, ss'));
      automasking_factor_end ss1 c v m') = Some (r, ss').
Proof.
  intros Hrun.
  destruct (has_flag _ BRUSH_AUTOMASKING_CAVITY_ALL).
  - destruct (calc_cavity_factor_vert ss c v) as [[f ss1] |] eqn:Ec; [| discriminate].
    cbn [mbind option_bind] in Hrun.
    destruct (calc_cavity_factor_vert_keeps_rest _ _ _ _ _ Ec) as (Hk & Hs & Ho & Hsome).
    destruct (automasking_factor_end_again _ _ _ _ _ _ Hrun)
      as (-> & Hk' & Ho' & Hc' & Hst & Hend).
    split; [eapply keeps_factor_trans; eassumption |].
    split; [congruence |].
    rewrite Hs in Hst. split; [exact Hst |].
    destruct Hsome as [buf Hbuf]. rewrite Hbuf in Hst. destruct Hst as [Hst Hv].
    rewrite (calc_cavity_factor_vert_again ss ss1 ss' c v f _ Ec Hc' Hst)
      by (apply list_lookup_insert_eq; exact Hv).
    cbn [mbind option_bind]. apply Hend.
  - cbn [mbind option_bind] in Hrun |- *.
    destruct (automasking_factor_end_again _ _ _ _ _ _ Hrun)
      as (-> & Hk' & Ho' & Hc' & Hst & Hend).
    split; [exact Hk' |]. split; [exact Ho' |]. split; [exact Hst |]. apply Hend.
Qed.

Lemma factor_get_live_again (ss ss' : SculptSession) (c : Cache) (v : nat)
    (on : option float3) (mask r : float) :
  factor_get_live ss c v on mask = Some (r, ss') ->
  factor_get_live ss' c v on mask = Some (r, ss')
  /\ keeps_factor ss ss'
  /\ automasking_occlusion (attrs ss') = automasking_occlusion (attrs ss)
  /\ (forall buf, automasking_stroke_id (attrs ss) = Some buf ->
        exists buf', automasking_stroke_id (attrs ss') = Some buf'
                     /\ (v < length buf -> v < length buf')%nat
                     /\ (buf' !! v = buf !! v
                         \/ buf' !! v = Some (current_stroke_id c)))
  /\ (automasking_stroke_id (attrs ss) = None ->
      automasking_stroke_id (attrs ss') = None).
Proof.
  intros Hrun.
  assert (Hsame : ss' = ss ->
            factor_get_live ss' c v on mask = Some (r, ss')
            /\ keeps_factor ss ss'
            /\ automasking_occlusion (attrs ss') = automasking_occlusion (attrs ss)
            /\ (forall buf, automasking_stroke_id (attrs ss) = Some buf ->
                  exists buf', automasking_stroke_id (attrs ss') = Some buf'
                               /\ (v < length buf -> v < length buf')%nat
                               /\ (buf' !! v = buf !! v
                                   \/ buf' !! v = Some (current_stroke_id c)))
            /\ (automasking_stroke_id (attrs ss) = None ->
                automasking_stroke_id (attrs ss') = None)).
  { intros ->. split; [exact Hrun |]. split; [apply keeps_factor_refl |].
    split; [reflexivity |]. split; [| auto].
    intros buf Hbuf. exists buf. auto. }
  unfold factor_get_live in Hrun.
  destruct (_ && _ && negb (_ =? _)%Z) eqn:E1;
    [injection Hrun as _ <-; apply Hsame; reflexivity |].
  destruct (_ && negb (vert_has_face_set _ _ _)) eqn:E2;
    [injection Hrun as _ <-; apply Hsame; reflexivity |].
  destruct (_ && vert_is_boundary _ _) eqn:E3;
    [injection Hrun as _ <-; apply Hsame; reflexivity |].
  destruct (_ && negb (boundary_face_set_ignore _ _) && _) eqn:E4;
    [injection Hrun as _ <-; apply Hsame; reflexivity |].
  clear Hsame.
  destruct (if has_cache ss && has_flag _ BRUSH_AUTOMASKING_VIEW_NORMAL then _ else _)
    as [mask1 |] eqn:Em; [| discriminate].
  cbn [mbind option_bind] in Hrun.
  destruct (cavity_then_end_again ss ss' c v mask1 r Qmult Hrun)
    as (Hk & Ho & Hst & Hagain).
  assert (Hfr : same_frame ss ss') by apply Hk.
  assert (Hg : geom ss' = geom ss) by apply Hfr.
  assert (Hhc : has_cache ss' = has_cache ss) by (apply has_cache_frame; exact Hfr).
  split.
  - unfold factor_get_live.
    rewrite Hg, (boundary_face_set_ignore_frame ss ss' v Hfr), E1, E2, E3, E4.
    rewrite Hhc, (calc_view_normal_factor_frame ss ss' c v on Hfr), Em.
    cbn [mbind option_bind]. exact Hagain.
  - split; [exact Hk |]. split; [exact Ho |]. split.
    + intros buf Hbuf. rewrite Hbuf in Hst. destruct Hst as [Hst Hv].
      eexists. split; [exact Hst |].
      split; [intros _; rewrite length_insert; exact Hv |].
      right. apply list_lookup_insert_eq. exact Hv.
    + intros Hn. rewrite Hn in Hst. exact Hst.
Qed.

(** Querying the vertex a second time, on the session the first query
    left, returns the same factor and leaves that session as it is: the
    occlusion test and the cavity blur of a vertex run once per stroke. *)
Theorem factor_get_again (ss ss' : SculptSession) (c : Cache) (v : nat)
    (on : option float3) (r : float) :
  factor_get ss c v on = Some (r, ss') ->
  factor_get ss' c v on = Some (r, ss').
Proof.
  intros Hrun. unfold factor_get in Hrun.
  destruct (if has_cache ss && has_flag _ BRUSH_AUTOMASKING_BRUSH_NORMAL then _ else _)
    as [mask |] eqn:Em; [| discriminate].
  cbn [mbind option_bind] in Hrun.
  destruct (automasking_factor (attrs ss)) as [fbuf |] eqn:Ef.
  - (* the factor buffer *)
    destruct (attr_read (Some fbuf) v) as [factor |] eqn:Er; [| discriminate].
    cbn [mbind option_bind] in Hrun.
    assert (Hrun' :
      ('(m', ss1) ←
         (if has_flag (flags (settings c)) BRUSH_AUTOMASKING_CAVITY_ALL then
            '(f, ss1) ← calc_cavity_factor_vert ss c v; Some (factor * f * mask, ss1)
          else Some (factor * mask, ss));
       automasking_factor_end ss1 c v m') = Some (r, ss')).
    { destruct (has_flag _ BRUSH_AUTOMASKING_CAVITY_ALL).
      - destruct (calc_cavity_factor_vert ss c v) as [[f ss1] |]; [| discriminate].
        exact Hrun.
      - exact Hrun. }
    clear Hrun.
    destruct (has_flag (flags (settings c)) BRUSH_AUTOMASKING_CAVITY_ALL) eqn:Ecav.
    + destruct (cavity_then_end_again ss ss' c v (factor * mask) r
                  (fun _ f => factor * f * mask)) as (Hk & _ & _ & Hagain).
      { rewrite Ecav. exact Hrun'. }
      destruct Hk as [Hfr Hfa]. unfold factor_get.
      rewrite (has_cache_frame ss ss' Hfr),
        (calc_brush_normal_factor_frame ss ss' c v on Hfr), Em.
      cbn [mbind option_bind]. rewrite Hfa, Ef, Er. cbn [mbind option_bind].
      rewrite Ecav in Hagain |- *.
      destruct (calc_cavity_factor_vert ss' c v) as [[f ss1] |]; [| discriminate].
      exact Hagain.
    + destruct (cavity_then_end_again ss ss' c v (factor * mask) r
                  (fun _ f => factor * f * mask)) as (Hk & _ & _ & Hagain).
      { rewrite Ecav. exact Hrun'. }
      destruct Hk as [Hfr Hfa]. unfold factor_get.
      rewrite (has_cache_frame ss ss' Hfr),
        (calc_brush_normal_factor_frame ss ss' c v on Hfr), Em.
      cbn [mbind option_bind]. rewrite Hfa, Ef, Er. cbn [mbind option_bind].
      rewrite Ecav in Hagain |- *. exact Hagain.
  - (* the live branch *)
    set (cur := current_stroke_id c) in *.
    destruct (match automasking_stroke_id (attrs ss) with
              | Some _ => attr_read (automasking_stroke_id (attrs ss)) v
              | None => Some (to_uchar (-1))
              end) as [s |] eqn:Es; [| discriminate].
    cbn [mbind option_bind] in Hrun.
    set (do_occlusion := (Z.land (flags (settings c)) occlusion_bits =? occlusion_bits)%Z)
      in *.
    destruct (if do_occlusion then calc_view_occlusion_factor ss c v s
              else Some (false, ss)) as [[occ ss1] |] eqn:Eo; [| discriminate].
    cbn [mbind option_bind] in Hrun.
    (* what the occlusion step did *)
    assert (Hocc : keeps_factor ss ss1
                   /\ automasking_stroke_id (attrs ss1) = automasking_stroke_id (attrs ss)
                   /\ forall ss2 s',
                        automasking_occlusion (attrs ss2) = automasking_occlusion (attrs ss1) ->
                        geom ss2 = geom ss -> s' = s \/ s' = cur ->
                        (if do_occlusion then calc_view_occlusion_factor ss2 c v s'
                         else Some (false, ss2)) = Some (occ, ss2)).
    { destruct do_occlusion.
      - destruct (calc_view_occlusion_factor_keeps_rest _ _ _ _ _ _ Eo) as (Hk & Hs & _).
        split; [exact Hk |]. split; [exact Hs |].
        intros ss2 s' Ho Hg Hs'.
        eapply calc_view_occlusion_factor_again; eassumption.
      - injection Eo as <- <-. split; [apply keeps_factor_refl |].
        split; [reflexivity |]. intros. reflexivity. }
    destruct Hocc as (Hk1 & Hs1 & Hoagain).
    (* the rest of the first query *)
    assert (Hrest : keeps_factor ss1 ss'
              /\ automasking_occlusion (attrs ss') = automasking_occlusion (attrs ss1)
              /\ (forall buf, automasking_stroke_id (attrs ss1) = Some buf ->
                    exists buf', automasking_stroke_id (attrs ss') = Some buf'
                                 /\ (v < length buf -> v < length buf')%nat
                                 /\ (buf' !! v = buf !! v \/ buf' !! v = Some cur))
              /\ (automasking_stroke_id (attrs ss1) = None ->
                  automasking_stroke_id (attrs ss') = None)
              /\ (if do_occlusion && occ then automasking_factor_end ss' c v 0
                  else factor_get_live ss' c v on mask) = Some (r, ss')).
    { destruct (do_occlusion && occ).
      - destruct (automasking_factor_end_again _ _ _ _ _ _ Hrun)
          as (-> & Hk & Ho & _ & Hst & Hend).
        split; [exact Hk |]. split; [exact Ho |]. split; [| split].
        + intros buf Hbuf. rewrite Hbuf in Hst. destruct Hst as [Hst Hv].
          eexists. split; [exact Hst |].
          split; [intros _; rewrite length_insert; exact Hv |].
          right. apply list_lookup_insert_eq. exact Hv.
        + intros Hn. rewrite Hn in Hst. exact Hst.
        + apply Hend.
      - destruct (factor_get_live_again _ _ _ _ _ _ _ Hrun)
          as (Hagain & Hk & Ho & Hst & Hn).
        auto 10. }
    destruct Hrest as (Hk2 & Ho2 & Hst2 & Hn2 & Hagain).
    assert (Hk : keeps_factor ss ss') by (eapply keeps_factor_trans; eassumption).
    destruct Hk as [Hfr Hfa].
    unfold factor_get.
    rewrite (has_cache_frame ss ss' Hfr),
      (calc_brush_normal_factor_frame ss ss' c v on Hfr), Em.
    cbn [mbind option_bind]. rewrite Hfa, Ef.
    (* the stroke id the second query reads *)
    assert (Hid : exists s',
              match automasking_stroke_id (attrs ss') with
              | Some _ => attr_read (automasking_stroke_id (attrs ss')) v
              | None => Some (to_uchar (-1))
              end = Some s' /\ (s' = s \/ s' = cur)).
    { destruct (automasking_stroke_id (attrs ss)) as [buf |] eqn:Eb.
      - destruct (Hst2 buf Hs1) as (buf' & Eb' & _ & Hv).
        rewrite Eb', attr_read_Some. rewrite attr_read_Some in Es.
        destruct Hv as [Hv | Hv]; rewrite Hv.
        + exists s. split; [exact Es | left; reflexivity].
        + exists cur. split; [reflexivity | right; reflexivity].
      - rewrite (Hn2 Hs1). exists s. split; [exact Es | auto]. }
    destruct Hid as (s' & -> & Hs').
    cbn [mbind option_bind]. fold do_occlusion.
    rewrite (Hoagain ss' s' Ho2) by (try exact Hs'; apply Hfr).
    cbn [mbind option_bind]. exact Hagain.
Qed.

End Again.

(** * The vertex and grid queries of a node *)

Lemma for_range_ext {S : Type} (n : nat) (body body' : nat -> S -> option S) (s : S) :
  (forall i t, (i < n)%nat -> body i t = body' i t) ->
  for_range n body s = for_range n body' s.
Proof.
  induction n as [| n IH]; intros Hb; [reflexivity |].
  rewrite !for_range_S, IH by (intros i t Hi; apply Hb; lia).
  destruct (for_range n body' s) as [t |]; [| reflexivity].
  cbn. apply Hb. lia.
Qed.

Lemma for_range_add {S : Type} (a b : nat) (body : nat -> S -> option S) (s : S) :
  for_range (a + b) body s
  = (s' ← for_range a body s; for_range b (fun i => body (a + i)%nat) s').
Proof.
  induction b as [| b IH].
  - rewrite Nat.add_0_r. destruct (for_range a body s); reflexivity.
  - rewrite Nat.add_succ_r, for_range_S, IH.
    destruct (for_range a body s) as [t |]; [| reflexivity].
    cbn [mbind option_bind]. rewrite for_range_S. reflexivity.
Qed.

Section NodeQueries.
Context `{AutomaskFlags} `{Externals}.

Local Open Scope Q_scope.

Lemma grid_verts_length (grid_area : nat) (grids : list nat) :
  length (grid_verts grid_area grids) = (length grids * grid_area)%nat.
Proof.
  unfold grid_verts. induction grids as [| g gs IH]; [reflexivity |].
  cbn [flat_map]. rewrite length_app, length_seq, IH. cbn [length]. lia.
Qed.

Lemma grid_verts_snoc (grid_area : nat) (grids : list nat) (g : nat) :
  grid_verts grid_area (grids ++ [g])
  = grid_verts grid_area grids ++ seq (g * grid_area) grid_area.
Proof.
  unfold grid_verts. rewrite flat_map_app. cbn [flat_map].
  rewrite app_nil_r. reflexivity.
Qed.

(** The grid query is the vertex query of the vertices of its grids: grid
    [grids[i]] contributes the vertices [grids[i] * grid_area + offset], and
    position [i * grid_area + offset] of the factors and of the original
    normals belongs to it. *)
Theorem calc_grids_factors_flat (ss : SculptSession) (cache : Cache)
    (grid_area : nat) (orig_data : option (list float3)) (grids : list nat)
    (factors : list float) :
  calc_grids_factors ss cache (Some grid_area) orig_data grids factors
  = calc_vert_factors ss cache orig_data (grid_verts grid_area grids) factors.
Proof.
  unfold calc_grids_factors, calc_vert_factors. cbn [mbind option_bind].
  set (orig_normals := orig_normals_get cache orig_data).
  generalize (factors, ss). intros st.
  induction grids as [| g gs IH] using rev_ind; [reflexivity |].
  rewrite grid_verts_snoc, !length_app, length_seq. cbn [length].
  rewrite Nat.add_1_r, for_range_S, for_range_add.
  assert (E1 : for_range (length gs)
                 (calc_grids_factors_step cache orig_normals grid_area (gs ++ [g])) st
               = for_range (length gs)
                   (calc_grids_factors_step cache orig_normals grid_area gs) st).
  { apply for_range_ext. intros i t Hi. unfold calc_grids_factors_step.
    rewrite lookup_app_l by exact Hi. reflexivity. }
  assert (E2 : for_range (length (grid_verts grid_area gs))
                 (calc_vert_factors_step cache orig_normals
                    (grid_verts grid_area gs ++ seq (g * grid_area) grid_area)) st
               = for_range (length (grid_verts grid_area gs))
                   (calc_vert_factors_step cache orig_normals (grid_verts grid_area gs))
                   st).
  { apply for_range_ext. intros i t Hi. unfold calc_vert_factors_step.
    rewrite lookup_app_l by exact Hi. reflexivity. }
  rewrite E1, E2, IH.
  destruct (for_range (length (grid_verts grid_area gs)) _ st) as [t |];
    [| reflexivity].
  cbn [mbind option_bind]. unfold calc_grids_factors_step.
  rewrite lookup_app_r by lia. rewrite Nat.sub_diag. cbn [lookup list_lookup].
  cbn [mbind option_bind].
  apply for_range_ext. intros o u Ho. unfold calc_vert_factors_step.
  rewrite lookup_app_r by lia.
  replace (length (grid_verts grid_area gs) + o - length (grid_verts grid_area gs))%nat
    with o by lia.
  rewrite lookup_seq_lt by exact Ho. cbn [mbind option_bind].
  rewrite grid_verts_length. reflexivity.
Qed.

Lemma calc_vert_factors_ok (ss : SculptSession) (cache : Cache)
    (orig_data : option (list float3)) (verts : list nat) (factors : list float) :
  session_ok ss cache ->
  cavity_regular (geom ss) cache ->
  curve_in_unit cache ->
  Forall (fun v => (v < SCULPT_vertex_count_get (geom ss))%nat) verts ->
  (length verts <= length factors)%nat ->
  orig_normals_get cache orig_data = []
  \/ (length verts <= length (orig_normals_get cache orig_data))%nat ->
  exists out ss',
    calc_vert_factors ss cache orig_data verts factors = Some (out, ss')
    /\ scaled_upto factors (length verts) out
    /\ session_ok ss' cache
    /\ same_frame ss ss'.
Proof.
  intros Hok Hreg Hcurve Hverts Hlen Horig.
  unfold calc_vert_factors.
  set (orig_normals := orig_normals_get cache orig_data) in *.
  destruct (for_range_indexed
              (fun k (st : list float * SculptSession) =>
                 scaled_upto factors k st.1 /\ session_ok st.2 cache
                 /\ same_frame ss st.2)
              (length verts)
              (calc_vert_factors_step cache orig_normals verts)
              (factors, ss))
    as ([out ss'] & Hrun & Hsc & Hok' & Hfr').
  - split; [| split; [exact Hok | apply same_frame_refl]].
    split; [reflexivity |]. split; [intros i old Hi; lia | reflexivity].
  - intros i [fs t] Hi ((Hl & Hlow & Hhigh) & Hokt & Hfrt). cbn [fst snd] in *.
    destruct (lookup_lt_is_Some_2 verts i Hi) as [vert Hvert].
    unfold calc_vert_factors_step. rewrite Hvert. cbn [mbind option_bind].
    assert (Hgeom : geom t = geom ss) by apply Hfrt.
    assert (Hv : (vert < SCULPT_vertex_count_get (geom t))%nat).
    { rewrite Hgeom. rewrite Forall_lookup in Hverts. eapply Hverts. exact Hvert. }
    assert (Hon : exists on, orig_normal_at orig_normals i = Some on).
    { unfold orig_normal_at. destruct orig_normals as [| n0 ns] eqn:En;
        [eexists; reflexivity |].
      destruct Horig as [Hnil | Hle]; [discriminate |].
      destruct (lookup_lt_is_Some_2 (n0 :: ns) i ltac:(lia)) as [n Hn].
      rewrite Hn. eexists. reflexivity. }
    destruct Hon as (on & Hon). unfold factor_scale. rewrite Hon.
    cbn [mbind option_bind].
    destruct (factor_get_ok t cache vert on Hokt) as (r & t' & Hget & Hr & Hokt' & Hfrt').
    { rewrite Hgeom. exact Hreg. }
    { exact Hcurve. }
    { exact Hv. }
    rewrite Hget. cbn [mbind option_bind].
    destruct (lookup_lt_is_Some_2 factors i ltac:(lia)) as [old Hold].
    rewrite (Hhigh i (Nat.le_refl i)), Hold. cbn [mbind option_bind].
    eexists. split; [reflexivity |]. cbn [fst snd].
    split; [| split; [exact Hokt' | eapply same_frame_trans; eassumption]].
    split; [rewrite length_insert; exact Hl |]. split.
    + intros j oldj Hj Hfj. destruct (decide (j = i)) as [-> | Hne].
      * exists r. split; [exact Hr |].
        rewrite list_lookup_insert_eq by lia. congruence.
      * rewrite list_lookup_insert_ne by congruence. apply Hlow; [lia | exact Hfj].
    + intros j Hj. rewrite list_lookup_insert_ne by lia. apply Hhigh. lia.
  - exists out, ss'. cbn [fst snd] in *. auto.
Qed.

(** On a well-formed session the vertex query of a node returns, keeps
    the session well-formed, scales the factor of every listed position by
    a value of the unit interval, so that a factor that is not negative
    does not grow and stays non-negative, and leaves the positions past
    the list as they were. *)
Theorem calc_vert_factors_attenuates (ss : SculptSession) (cache : Cache)
    (orig_data : option (list float3)) (verts : list nat) (factors : list float) :
  session_ok ss cache ->
  cavity_regular (geom ss) cache ->
  curve_in_unit cache ->
  Forall (fun v => (v < SCULPT_vertex_count_get (geom ss))%nat) verts ->
  (length verts <= length factors)%nat ->
  orig_normals_get cache orig_data = []
  \/ (length verts <= length (orig_normals_get cache orig_data))%nat ->
  exists out ss',
    calc_vert_factors ss cache orig_data verts factors = Some (out, ss')
    /\ length out = length factors
    /\ session_ok ss' cache
    /\ same_frame ss ss'
    /\ (forall i old, (i < length verts)%nat -> factors !! i = Some old -> 0 <= old ->
          exists new, out !! i = Some new /\ 0 <= new <= old)
    /\ (forall i, (length verts <= i)%nat -> out !! i = factors !! i).
Proof.
  intros Hok Hreg Hcurve Hverts Hlen Horig.
  destruct (calc_vert_factors_ok ss cache orig_data verts factors
              Hok Hreg Hcurve Hverts Hlen Horig)
    as (out & ss' & Hrun & (Hl & Hlow & Hhigh) & Hok' & Hfr').
  exists out, ss'. split; [exact Hrun |]. split; [exact Hl |].
  split; [exact Hok' |]. split; [exact Hfr' |]. split; [| exact Hhigh].
  intros i old Hi Hold Hpos.
  destruct (Hlow i old Hi Hold) as (f & [Hf0 Hf1] & Hout).
  exists (old * f). split; [exact Hout |]. split.
  - apply Qmult_le_0_compat; assumption.
  - assert (E : old - old * f == old * (1 - f)) by ring.
    assert (Hnn : 0 <= old * (1 - f)) by (apply Qmult_le_0_compat; lra).
    lra.
Qed.

(** The same for the grid query, through the vertices of its grids. *)
Theorem calc_grids_factors_attenuates (ss : SculptSession) (cache : Cache)
    (grid_area : nat) (orig_data : option (list float3)) (grids : list nat)
    (factors : list float) :
  session_ok ss cache ->
  cavity_regular (geom ss) cache ->
  curve_in_unit cache ->
  Forall (fun grid => (grid * grid_area + grid_area
                       <= SCULPT_vertex_count_get (geom ss))%nat) grids ->
  (length grids * grid_area <= length factors)%nat ->
  orig_normals_get cache orig_data = []
  \/ (length grids * grid_area <= length (orig_normals_get cache orig_data))%nat ->
  exists out ss',
    calc_grids_factors ss cache (Some grid_area) orig_data grids factors
    = Some (out, ss')
    /\ length out = length factors
    /\ session_ok ss' cache
    /\ (forall k old, (k < length grids * grid_area)%nat -> factors !! k = Some old ->
          0 <= old -> exists new, out !! k = Some new /\ 0 <= new <= old)
    /\ (forall k, (length grids * grid_area <= k)%nat -> out !! k = factors !! k).
Proof.
  intros Hok Hreg Hcurve Hgrids Hlen Horig.
  rewrite calc_grids_factors_flat.
  assert (Hverts : Forall (fun v => (v < SCULPT_vertex_count_get (geom ss))%nat)
                     (grid_verts grid_area grids)).
  { unfold grid_verts. apply Forall_flat_map.
    eapply Forall_impl; [exact Hgrids |]. intros g Hg. cbn beta in Hg.
    apply Forall_forall. intros v Hv. apply elem_of_seq in Hv. lia. }
  destruct (calc_vert_factors_ok ss cache orig_data (grid_verts grid_area grids) factors
              Hok Hreg Hcurve Hverts)
    as (out & ss' & Hrun & (Hl & Hlow & Hhigh) & Hok' & Hfr').
  { rewrite grid_verts_length. exact Hlen. }
  { rewrite grid_verts_length. exact Horig. }
  rewrite grid_verts_length in *.
  exists out, ss'. split; [exact Hrun |]. split; [exact Hl |].
  split; [exact Hok' |]. split; [| exact Hhigh].
  intros i old Hi Hold Hpos.
  destruct (Hlow i old Hi Hold) as (f & [Hf0 Hf1] & Hout).
  exists (old * f). split; [exact Hout |]. split.
  - apply Qmult_le_0_compat; assumption.
  - assert (E : old - old * f == old * (1 - f)) by ring.
    assert (Hnn : 0 <= old * (1 - f)) by (apply Qmult_le_0_compat; lra).
    lra.
Qed.

End NodeQueries.

(** * The precompute passes, vertex by vertex *)

Section PrecomputeSpecs.
Context `{AutomaskFlags} `{Externals}.

Local Open Scope Q_scope.

(** [init_face_sets_masking] sets the factor of every vertex that lacks the
    active face set to 0 and keeps every other factor; it does nothing at
    all when automasking is not enabled for the brush of the paint
    settings, whatever brush the cache is built for. *)
Theorem init_face_sets_masking_zeroes (sd : Sculpt) (ss : SculptSession)
    (buf : list float) :
  automasking_factor (attrs ss) = Some buf ->
  length buf = SCULPT_vertex_count_get (geom ss) ->
  exists ss' buf',
    init_face_sets_masking sd ss = Some ss'
    /\ automasking_factor (attrs ss') = Some buf'
    /\ length buf' = length buf
    /\ same_frame ss ss'
    /\ forall v old,
         buf !! v = Some old ->
         buf' !! v
         = Some (if is_enabled sd (Some ss) (paint_brush sd)
                    && negb (vert_has_face_set (geom ss) v (active_face_set_get (geom ss)))
                 then 0 else old).
Proof.
  intros Hbuf Hlen. unfold init_face_sets_masking.
  destruct (is_enabled sd (Some ss) (paint_brush sd)); cbn [negb andb].
  2: { exists ss, buf. split; [reflexivity |]. split; [exact Hbuf |].
       split; [reflexivity |]. split; [apply same_frame_refl |]. auto. }
  set (n := SCULPT_vertex_count_get (geom ss)) in *.
  set (afs := active_face_set_get (geom ss)).
  set (expected v := (fun old => if negb (vert_has_face_set (geom ss) v afs)
                                 then 0 else old) <$> buf !! v).
  match goal with
  | |- context [for_range n ?body ss] =>
      destruct (for_range_indexed
                  (fun i t => same_frame ss t
                              /\ exists b, automasking_factor (attrs t) = Some b
                                           /\ length b = n
                                           /\ forall v, b !! v = if (v <? i)%nat
                                                                 then expected v
                                                                 else buf !! v)
                  n body ss)
        as (ss' & Hrun & Hframe & b & Hb & Hblen & Hbv)
  end.
  - split; [apply same_frame_refl |]. exists buf. auto.
  - intros i t Hi (Hframe & b & Hb & Hblen & Hbv).
    assert (Hg : geom t = geom ss) by apply Hframe.
    rewrite Hg.
    assert (Hold : exists old, buf !! i = Some old)
      by (apply lookup_lt_is_Some; lia).
    destruct Hold as (old & Hold).
    destruct (negb (vert_has_face_set (geom ss) i afs)) eqn:E.
    + rewrite (factor_write_Some t b) by (try exact Hb; lia).
      eexists. split; [reflexivity |].
      split; [eapply same_frame_trans; [exact Hframe | apply same_frame_set_attrs] |].
      eexists. split; [reflexivity |].
      split; [rewrite length_insert; exact Hblen |].
      intros v. destruct (Nat.eq_dec v i) as [-> | Hne].
      * rewrite list_lookup_insert_eq by lia.
        destruct (Nat.ltb_spec i (S i)); [| lia].
        unfold expected. rewrite E, Hold. reflexivity.
      * rewrite list_lookup_insert_ne by congruence. rewrite Hbv.
        destruct (Nat.ltb_spec v i), (Nat.ltb_spec v (S i)); try reflexivity; lia.
    + exists t. split; [reflexivity |]. split; [exact Hframe |].
      exists b. split; [exact Hb |]. split; [exact Hblen |].
      intros v. rewrite Hbv.
      destruct (Nat.ltb_spec v i), (Nat.ltb_spec v (S i)); try reflexivity; try lia.
      assert (v = i) by lia. subst v. unfold expected. rewrite E, Hold. reflexivity.
  - exists ss', b. split; [exact Hrun |]. split; [exact Hb |].
    split; [lia |]. split; [exact Hframe |].
    intros v old Hold. rewrite Hbv.
    destruct (Nat.ltb_spec v n) as [Hv | Hv].
    + unfold expected. rewrite Hold. reflexivity.
    + apply lookup_lt_Some in Hold. lia.
Qed.

(** With the view-normal and the view-occlusion bit both set, the
    precompute pass multiplies the factor of a vertex by the truth value of
    "the vertex is occluded" and by its view-normal factor: the factor of a
    vertex that is not occluded becomes 0, an occluded vertex keeps its
    factor up to the normal falloff.  The live query treats occlusion the
    other way round. *)
Theorem normal_occlusion_automasking_fill_occluded (c : Cache) (mode : Z)
    (ss : SculptSession) (fbuf : list float) :
  let n := SCULPT_vertex_count_get (geom ss) in
  has_flag mode BRUSH_AUTOMASKING_VIEW_NORMAL = true ->
  has_flag mode BRUSH_AUTOMASKING_VIEW_OCCLUSION = true ->
  to_uchar (-1) <> current_stroke_id c ->
  has_cache ss = true ->
  automasking_factor (attrs ss) = Some fbuf -> length fbuf = n ->
  attr_sized n (automasking_stroke_id (attrs ss)) ->
  (exists ob, automasking_occlusion (attrs ss) = Some ob /\ length ob = n) ->
  exists ss' fbuf',
    normal_occlusion_automasking_fill c mode ss = Some ss'
    /\ automasking_factor (attrs ss') = Some fbuf'
    /\ length fbuf' = n
    /\ forall v old,
         fbuf !! v = Some old ->
         exists nf,
           calc_view_normal_factor ss c v None = Some nf
           /\ in_unit nf
           /\ fbuf' !! v
              = Some (old * (if SCULPT_vertex_is_occluded (geom ss) v then 1 else 0) * nf).
Proof.
  intros n Hvn Hvo Hcur Hcache Hfbuf Hflen Hsid Hocc.
  unfold normal_occlusion_automasking_fill. fold n. rewrite Hvn, Hvo.
  set (expected v :=
         match calc_view_normal_factor ss c v None with
         | Some nf =>
             (fun old => old * (if SCULPT_vertex_is_occluded (geom ss) v then 1 else 0) * nf)
               <$> fbuf !! v
         | None => None
         end).
  match goal with
  | |- context [for_range n ?body ss] =>
      destruct (for_range_indexed
                  (fun i t => fill_state ss t
                              /\ exists b, automasking_factor (attrs t) = Some b
                                           /\ length b = n
                                           /\ forall v, b !! v = if (v <? i)%nat
                                                                 then expected v
                                                                 else fbuf !! v)
                  n body ss)
        as (ss' & Hrun & _ & b & Hb & Hblen & Hbv)
  end.
  - split; [split; [apply same_frame_refl | split; assumption] |].
    exists fbuf. auto.
  - intros i t Hi ((Hframe & Hsidt & ob & Hob & Hoblen) & b & Hb & Hblen & Hbv).
    fold n in Hsidt, Hoblen.
    assert (Hg : geom t = geom ss) by apply Hframe.
    assert (Hold : exists old, fbuf !! i = Some old)
      by (apply lookup_lt_is_Some; lia).
    destruct Hold as (old & Hold).
    assert (Hbi : b !! i = Some old).
    { rewrite Hbv. destruct (Nat.ltb_spec i i); [lia | exact Hold]. }
    rewrite Hb, attr_read_Some, Hbi. cbn [mbind option_bind].
    (* occlusion *)
    unfold calc_view_occlusion_factor.
    destruct (lookup_lt_is_Some_2 ob i ltac:(lia)) as [o Ho].
    rewrite Hob, attr_read_Some, Ho. cbn [mbind option_bind].
    replace (negb (to_uchar (-1) =? current_stroke_id c)%Z) with true
      by (symmetry; apply negb_true_iff, Z.eqb_neq; exact Hcur).
    rewrite attr_write_Some by lia. cbn [mbind option_bind].
    rewrite Hg.
    set (t1 := set_occlusion t _).
    assert (Hfr1 : same_frame ss t1).
    { eapply same_frame_trans; [exact Hframe | apply same_frame_set_attrs]. }
    destruct (calc_view_normal_factor_ok ss c i None Hcache) as (nf & Hnf & Hnfu).
    rewrite (calc_view_normal_factor_frame ss t1 c i None Hfr1), Hnf.
    cbn [mbind option_bind].
    assert (Hoccv : ((if SCULPT_vertex_is_occluded (geom ss) i then 2 else 1) =? 2)%Z
                    = SCULPT_vertex_is_occluded (geom ss) i).
    { destruct (SCULPT_vertex_is_occluded (geom ss) i); reflexivity. }
    rewrite Hoccv.
    (* stroke id *)
    assert (Hstep : exists t2,
              match automasking_stroke_id (attrs t1) with
              | Some _ =>
                  buf ← attr_write (automasking_stroke_id (attrs t1)) i (stroke_id t1);
                  Some (set_stroke_ids t1 (Some buf))
              | None => Some t1
              end = Some t2
              /\ same_frame ss t2
              /\ attr_sized n (automasking_stroke_id (attrs t2))
              /\ automasking_occlusion (attrs t2) = automasking_occlusion (attrs t1)
              /\ automasking_factor (attrs t2) = Some b).
    { change (automasking_stroke_id (attrs t1)) with (automasking_stroke_id (attrs t)).
      destruct (automasking_stroke_id (attrs t)) as [sb |] eqn:Esb.
      - assert (Hsl : length sb = n) by (apply Hsidt; reflexivity).
        rewrite attr_write_Some by lia. cbn [mbind option_bind].
        eexists. split; [reflexivity |].
        split; [eapply same_frame_trans; [exact Hfr1 | apply same_frame_set_attrs] |].
        split; [intros b0 [= <-]; rewrite length_insert; exact Hsl |].
        split; [reflexivity | exact Hb].
      - exists t1. split; [reflexivity |]. split; [exact Hfr1 |].
        split; [intros b0 Hb0; cbn in Hb0; rewrite Esb in Hb0; discriminate |].
        split; [reflexivity | exact Hb]. }
    destruct Hstep as (t2 & -> & Hfr2 & Hsid2 & Hocc2 & Hfac2).
    cbn [mbind option_bind].
    rewrite (factor_write_Some t2 b) by (try exact Hfac2; lia).
    eexists. split; [reflexivity |].
    split.
    + split; [eapply same_frame_trans; [exact Hfr2 | apply same_frame_set_attrs] |].
      split; [exact Hsid2 |].
      eexists. split; [cbn; rewrite Hocc2; reflexivity |].
      rewrite length_insert. exact Hoblen.
    + eexists. split; [reflexivity |].
      split; [rewrite length_insert; exact Hblen |].
      intros v. destruct (Nat.eq_dec v i) as [-> | Hne].
      * rewrite list_lookup_insert_eq by lia.
        destruct (Nat.ltb_spec i (S i)); [| lia].
        unfold expected. rewrite Hnf, Hold. reflexivity.
      * rewrite list_lookup_insert_ne by congruence. rewrite Hbv.
        destruct (Nat.ltb_spec v i), (Nat.ltb_spec v (S i)); try reflexivity; lia.
  - exists ss', b. split; [exact Hrun |]. split; [exact Hb |].
    split; [exact Hblen |].
    intros v old Hold.
    destruct (calc_view_normal_factor_ok ss c v None Hcache) as (nf & Hnf & Hnfu).
    exists nf. split; [exact Hnf |]. split; [exact Hnfu |].
    rewrite Hbv. destruct (Nat.ltb_spec v n) as [Hv | Hv].
    + unfold expected. rewrite Hnf, Hold. reflexivity.
    + apply lookup_lt_Some in Hold. lia.
Qed.

(** Without a factor buffer and with both view bits set, the query of an
    occluded vertex whose stroke id is stale returns 0. *)
Theorem factor_get_occluded (ss : SculptSession) (c : Cache) (v : nat)
    (on : option float3) (sb ob : list Z) (s o : Z) :
  automasking_factor (attrs ss) = None ->
  (Z.land (flags (settings c)) occlusion_bits =? occlusion_bits)%Z = true ->
  automasking_stroke_id (attrs ss) = Some sb -> sb !! v = Some s ->
  s <> current_stroke_id c ->
  automasking_occlusion (attrs ss) = Some ob -> ob !! v = Some o ->
  SCULPT_vertex_is_occluded (geom ss) v = true ->
  exists ss', factor_get ss c v on = Some (0, ss').
Proof.
  intros Hfac Hbits Hsb Hs Hstale Hob Ho Hoccl.
  unfold factor_get.
  assert (Hmask : exists mask,
            (if has_cache ss && has_flag (flags (settings c)) BRUSH_AUTOMASKING_BRUSH_NORMAL
             then f ← calc_brush_normal_factor ss c v on; Some (1 * f)
             else Some 1) = Some mask).
  { destruct (has_cache ss) eqn:Ec; cbn [andb]; [| eexists; reflexivity].
    destruct (has_flag _ _); [| eexists; reflexivity].
    destruct (calc_brush_normal_factor_ok ss c v on Ec) as (f & -> & _).
    eexists. reflexivity. }
  destruct Hmask as (mask & ->). cbn [mbind option_bind].
  rewrite Hfac, Hsb, attr_read_Some, Hs. cbn [mbind option_bind].
  rewrite Hbits. unfold calc_view_occlusion_factor.
  rewrite Hob, attr_read_Some, Ho. cbn [mbind option_bind].
  replace (negb (s =? current_stroke_id c)%Z) with true
    by (symmetry; apply negb_true_iff, Z.eqb_neq; exact Hstale).
  rewrite attr_write_Some by (eapply lookup_lt_Some; exact Ho).
  cbn [mbind option_bind]. rewrite Hoccl. cbn [Z.eqb Pos.eqb andb].
  unfold automasking_factor_end. cbn [set_occlusion set_attrs attrs automasking_stroke_id].
  rewrite Hsb, attr_write_Some by (eapply lookup_lt_Some; exact Hs).
  cbn [mbind option_bind]. eexists. reflexivity.
Qed.

End PrecomputeSpecs.

(** * The theorems on the example strokes, continued *)

Lemma needs_normal_modes_witness :
  @needs_normal dna_flags example_query_sd example_query_brush
  = mode_enabled example_query_sd example_query_brush 256
    || mode_enabled example_query_sd example_query_brush 512.
Proof.
  apply (@needs_normal_modes dna_flags example_query_sd example_query_brush);
    reflexivity.
Defined.

Lemma factor_get_again_witness :
  exists r ss',
    @factor_get dna_flags example_externals example_query_session
      example_query_cache 2 None = Some (r, ss')
    /\ @factor_get dna_flags example_externals ss' example_query_cache 2 None
       = Some (r, ss').
Proof.
  eexists _, _. split; [vm_compute; reflexivity |].
  apply (@factor_get_again dna_flags example_externals example_query_session).
  vm_compute. reflexivity.
Defined.

Lemma calc_vert_factors_attenuates_witness :
  exists out ss',
    @calc_vert_factors dna_flags example_externals example_query_session
      example_query_cache None [0; 2; 4]%nat [1%Q; (1 # 2)%Q; (1 # 4)%Q; 7%Q]
    = Some (out, ss')
    /\ length out = 4%nat
    /\ out !! 3%nat = Some 7%Q.
Proof.
  destruct (@calc_vert_factors_attenuates dna_flags example_externals
              example_query_session example_query_cache None [0; 2; 4]%nat
              [1%Q; (1 # 2)%Q; (1 # 4)%Q; 7%Q])
    as (out & ss' & Hrun & Hlen & _ & _ & _ & Hrest).
  - exact example_query_session_ok.
  - exact example_query_regular.
  - apply example_curve_in_unit.
  - repeat constructor.
  - cbn. lia.
  - left. reflexivity.
  - exists out, ss'. split; [exact Hrun |]. split; [exact Hlen |].
    apply (Hrest 3%nat). cbn. lia.
Defined.

Lemma calc_grids_factors_attenuates_witness :
  exists out ss',
    @calc_grids_factors dna_flags example_externals example_query_session
      example_query_cache (Some 2%nat) None [1; 0]%nat
      [1%Q; (1 # 2)%Q; (1 # 4)%Q; 1%Q; 7%Q]
    = Some (out, ss')
    /\ length out = 5%nat
    /\ out !! 4%nat = Some 7%Q.
Proof.
  destruct (@calc_grids_factors_attenuates dna_flags example_externals
              example_query_session example_query_cache 2 None [1; 0]%nat
              [1%Q; (1 # 2)%Q; (1 # 4)%Q; 1%Q; 7%Q])
    as (out & ss' & Hrun & Hlen & _ & _ & Hrest).
  - exact example_query_session_ok.
  - exact example_query_regular.
  - apply example_curve_in_unit.
  - repeat constructor.
  - cbn. lia.
  - left. reflexivity.
  - exists out, ss'. split; [exact Hrun |]. split; [exact Hlen |].
    apply (Hrest 4%nat). cbn. lia.
Defined.

Lemma init_face_sets_masking_zeroes_witness :
  exists ss' buf',
    @init_face_sets_masking dna_flags example_occlusion_sd example_fill_session
    = Some ss'
    /\ automasking_factor (attrs ss') = Some buf'
    /\ buf' !! 3%nat = Some 0%Q
    /\ buf' !! 2%nat = Some 1%Q.
Proof.
  destruct (@init_face_sets_masking_zeroes dna_flags example_occlusion_sd
              example_fill_session (replicate 4 1%Q))
    as (ss' & buf' & Hrun & Hbuf & _ & _ & Hv).
  - reflexivity.
  - reflexivity.
  - exists ss', buf'. split; [exact Hrun |]. split; [exact Hbuf |].
    split; [apply (Hv 3%nat 1%Q) | apply (Hv 2%nat 1%Q)]; reflexivity.
Defined.

Lemma normal_occlusion_automasking_fill_occluded_witness :
  exists ss' fbuf',
    @normal_occlusion_automasking_fill dna_flags example_externals
      example_occlusion_cache 1536 example_fill_session = Some ss'
    /\ automasking_factor (attrs ss') = Some fbuf'
    /\ fbuf' !! 0%nat = Some (1 * 0 * 1)%Q
    /\ fbuf' !! 1%nat = Some (1 * 1 * 1)%Q.
Proof.
  destruct (@normal_occlusion_automasking_fill_occluded dna_flags example_externals
              example_occlusion_cache 1536 example_fill_session (replicate 4 1%Q))
    as (ss' & fbuf' & Hrun & Hbuf & _ & Hv).
  - reflexivity.
  - reflexivity.
  - vm_compute. discriminate.
  - reflexivity.
  - reflexivity.
  - reflexivity.
  - intros b Hb. injection Hb as <-. reflexivity.
  - eexists. split; reflexivity.
  - exists ss', fbuf'. split; [exact Hrun |]. split; [exact Hbuf |]. split.
    + destruct (Hv 0%nat 1%Q eq_refl) as (nf & Hnf & _ & Hout).
      vm_compute in Hnf. injection Hnf as <-. exact Hout.
    + destruct (Hv 1%nat 1%Q eq_refl) as (nf & Hnf & _ & Hout).
      vm_compute in Hnf. injection Hnf as <-. exact Hout.
Defined.

Lemma factor_get_occluded_witness :
  exists ss',
    @factor_get dna_flags example_externals example_live_session
      example_occlusion_cache 1 None = Some (0%Q, ss').
Proof.
  apply (@factor_get_occluded dna_flags example_externals example_live_session
           example_occlusion_cache 1 None (replicate 4 2) (replicate 4 0) 2 0).
  - reflexivity.
  - vm_compute. reflexivity.
  - reflexivity.
  - reflexivity.
  - vm_compute. discriminate.
  - reflexivity.
  - reflexivity.
  - reflexivity.
Defined.

(** * Destroying the temporary attributes *)

Module AttrApiFacts.
Import AttrStore AttrSpec AttrFacts AttrDestroy AttrApi.

Section Facts.
Context {CD : Type} `{CustomDataOps CD} `{!CustomDataLaws CD}.

Lemma slot_le_refl (a : SculptAttribute) : slot_le a a.
Proof. unfold slot_le. auto. Qed.

Lemma slot_le_trans (a b c : SculptAttribute) :
  slot_le a b -> slot_le b c -> slot_le a c.
Proof.
  unfold slot_le. intros (E1 & P1 & U1) (E2 & P2 & U2).
  split; [congruence |]. split; auto.
Qed.

Lemma slots_le_refl (ob : Object CD) : slots_le ob ob.
Proof. split; [reflexivity |]. intros k a Hk. exists a. split; [exact Hk | apply slot_le_refl]. Qed.

Lemma slots_le_trans (a b c : Object CD) :
  slots_le a b -> slots_le b c -> slots_le a c.
Proof.
  intros [L1 S1] [L2 S2]. split; [congruence |].
  intros k x Hk. destruct (S1 k x Hk) as (y & Hy & Hxy).
  destruct (S2 k y Hy) as (z & Hz & Hyz).
  exists z. split; [exact Hz | eapply slot_le_trans; eassumption].
Qed.

(** An update of one slot by a function that respects [slot_le]. *)
Lemma slots_le_slot_update (ob : Object CD) (j : nat)
    (f : SculptAttribute -> SculptAttribute) :
  (forall a, temp_attributes ob !! j = Some a -> slot_le a (f a)) ->
  slots_le ob (slot_update ob j f).
Proof.
  intros Hf. split; [apply slot_update_length |].
  intros k a Hk. destruct (decide (j = k)) as [<- | Hne].
  - exists (f a). split; [apply slot_update_lookup; exact Hk | apply Hf; exact Hk].
  - exists a. split; [rewrite slot_update_lookup_ne by exact Hne; exact Hk |].
    apply slot_le_refl.
Qed.

Lemma slots_le_same_slots (ob ob' : Object CD) :
  temp_attributes ob' = temp_attributes ob -> slots_le ob ob'.
Proof.
  intros E. split; [rewrite E; reflexivity |].
  intros k a Hk. exists a. split; [rewrite E; exact Hk | apply slot_le_refl].
Qed.

Lemma sculpt_attr_check_params (ob : Object CD) (attr a1 : SculptAttribute)
    (t : pbvh_Type) (b : bool) :
  sculpt_attr_check ob attr t = Some (b, a1) ->
  params a1 = params attr /\ used a1 = used attr.
Proof.
  unfold sculpt_attr_check. intros Hc.
  destruct (sculpt_get_cdata ob (domain attr)) as [r |]; [| simplify_eq; auto].
  destruct (negb (simple_array attr)); [| simplify_eq; auto].
  destruct (cdata_get ob r) as [cd |]; [| discriminate]. cbn [mbind option_bind] in Hc.
  destruct (negb _); [| simplify_eq; auto].
  destruct (data_for_bmesh attr); simplify_eq; auto.
Qed.

(** The slot [sculpt_attribute_create] fills. *)
Lemma sculpt_attribute_create_params (ob ob' : Object CD) (d : AttrDomain)
    (ty : eCustomDataType) (nm : string) (out : nat) (prm : SculptAttributeParams)
    (t : pbvh_Type) (flat r : bool) :
  sculpt_attribute_create ob d ty nm out prm t flat = Some (r, ob') ->
  length (temp_attributes ob') = length (temp_attributes ob)
  /\ (forall k, k <> out -> temp_attributes ob' !! k = temp_attributes ob !! k)
  /\ exists a', temp_attributes ob' !! out = Some a'
                /\ p_stroke_only (params a') = p_stroke_only prm
                /\ (p_permanent (params a') = true -> p_permanent prm = true).
Proof.
  intros Hc.
  assert (Hperm : forall c, p_permanent prm && negb c = true -> p_permanent prm = true).
  { intros c Hp. apply andb_true_iff in Hp. apply Hp. }
  assert (Hstore : forall (o : Object CD) (a : SculptAttribute) (r0 : bool) a0,
            temp_attributes o !! out = Some a0 ->
            length (temp_attributes o) = length (temp_attributes ob) ->
            (forall k, k <> out -> temp_attributes o !! k = temp_attributes ob !! k) ->
            p_stroke_only (params a) = p_stroke_only prm ->
            (p_permanent (params a) = true -> p_permanent prm = true) ->
            Some (r0, slot_update o out (fun _ => a)) = Some (r, ob') ->
            length (temp_attributes ob') = length (temp_attributes ob)
            /\ (forall k, k <> out -> temp_attributes ob' !! k = temp_attributes ob !! k)
            /\ exists a', temp_attributes ob' !! out = Some a'
                          /\ p_stroke_only (params a') = p_stroke_only prm
                          /\ (p_permanent (params a') = true -> p_permanent prm = true)).
  { intros o a r0 a0 Ha0 Hl Hk Hs Hp [= <- <-].
    split; [rewrite slot_update_length; exact Hl |].
    split; [intros k Hne; rewrite slot_update_lookup_ne by congruence; auto |].
    exists a. split; [apply (slot_update_lookup o out _ a0 Ha0) |]. auto. }
  unfold sculpt_attribute_create in Hc.
  destruct (temp_attributes ob !! out) as [a0 |] eqn:Ha0; [| discriminate].
  cbn [mbind option_bind] in Hc.
  destruct (p_simple_array prm || _) eqn:Esimple.
  - unfold MEM_calloc_arrayN in Hc.
    eapply Hstore; [| | | | | exact Hc]; cbn; eauto.
  - cbn [mbind option_bind] in Hc.
    destruct (bm ob) as [b |] eqn:Ebm.
    + destruct d.
      * destruct (cdata_get ob BM_vdata) as [cd |] eqn:Ecd; [| discriminate].
        cbn [mbind option_bind] in Hc.
        eapply Hstore; [| | | | | exact Hc]; cbn; eauto;
          rewrite (proj2 (cdata_set_attrs ob BM_vdata _)); eauto.
      * destruct (cdata_get ob BM_pdata) as [cd |] eqn:Ecd; [| discriminate].
        cbn [mbind option_bind] in Hc.
        eapply Hstore; [| | | | | exact Hc]; cbn; eauto;
          rewrite (proj2 (cdata_set_attrs ob BM_pdata _)); eauto.
      * eapply Hstore; [| | | | | exact Hc]; cbn; eauto.
    + destruct d.
      * cbn [cdata_get mbind option_bind] in Hc.
        eapply Hstore; [| | | | | exact Hc]; cbn; eauto.
      * cbn [cdata_get mbind option_bind] in Hc.
        eapply Hstore; [| | | | | exact Hc]; cbn; eauto.
      * eapply Hstore; [| | | | | exact Hc]; cbn; eauto.
Qed.

Lemma sculpt_attr_update_slots_le (ob ob' : Object CD) (j : nat) (t : pbvh_Type)
    (attr : SculptAttribute) (b : bool) :
  temp_attributes ob !! j = Some attr -> used attr = true ->
  sculpt_attr_update ob j t = Some (b, ob') -> slots_le ob ob'.
Proof.
  intros Hj Hu Hup. unfold sculpt_attr_update in Hup. rewrite Hj in Hup.
  cbn [mbind option_bind] in Hup.
  destruct (sculpt_attr_check ob attr t) as [[bad a1] |] eqn:Hc; [| discriminate].
  cbn [mbind option_bind] in Hup.
  destruct (sculpt_attr_check_params _ _ _ _ _ Hc) as [Hp1 Hu1].
  set (ob1 := slot_update ob j (fun _ => a1)) in *.
  assert (H1 : slots_le ob ob1).
  { apply slots_le_slot_update. intros a Ha. assert (a = attr) by congruence. subst a.
    unfold slot_le. rewrite Hp1, Hu1. auto. }
  destruct bad; [| injection Hup as <- <-; exact H1].
  set (ob2 := if simple_array a1
              then slot_update (MEM_SAFE_FREE ob1 (data a1)) j (fun a => set_data a None)
              else ob1) in *.
  assert (H2 : slots_le ob1 ob2).
  { unfold ob2. destruct (simple_array a1); [| apply slots_le_refl].
    eapply slots_le_trans;
      [| apply slots_le_slot_update; intros a _; unfold slot_le; cbn; auto].
    apply slots_le_same_slots. unfold MEM_SAFE_FREE. destruct (data a1); reflexivity. }
  destruct (sculpt_attribute_create ob2 _ _ _ j _ t _) as [[r ob3] |] eqn:Hcr;
    [| discriminate].
  cbn [mbind option_bind] in Hup. injection Hup as <- <-.
  destruct (sculpt_attribute_create_params _ _ _ _ _ _ _ _ _ _ Hcr)
    as (Hl & Hother & a' & Ha' & Hs & Hp).
  destruct H1 as [L1 S1]. destruct H2 as [L2 S2].
  split; [congruence |].
  intros k a Hk. destruct (decide (k = j)) as [-> | Hne].
  - exists a'. split; [exact Ha' |].
    assert (a = attr) by congruence. subst a.
    unfold slot_le. rewrite Hs, Hp1. split; [reflexivity |].
    split; [rewrite <- Hp1; exact Hp | auto].
  - rewrite Hother by exact Hne.
    destruct (S1 k a Hk) as (y & Hy & Hay). destruct (S2 k y Hy) as (z & Hz & Hyz).
    exists z. split; [exact Hz | eapply slot_le_trans; eassumption].
Qed.

Lemma update_refs_pass_slots_le (t : pbvh_Type) (ob ob' : Object CD) :
  update_refs_pass t ob = Some ob' -> slots_le ob ob'.
Proof.
  intros Hrun. unfold update_refs_pass in Hrun.
  apply (for_range_invariant (slots_le ob) _ _ _ _ (slots_le_refl ob)) in Hrun;
    [exact Hrun |].
  intros j o o' _ Hle Hbody.
  destruct (temp_attributes o !! j) as [attr |] eqn:Hj; [| discriminate].
  cbn [mbind option_bind] in Hbody.
  destruct (used attr) eqn:Hu; [| injection Hbody as <-; exact Hle].
  destruct (sculpt_attr_update o j t) as [[b o2] |] eqn:Hup; [| discriminate].
  cbn in Hbody. injection Hbody as <-.
  eapply slots_le_trans; [exact Hle |].
  eapply sculpt_attr_update_slots_le; eassumption.
Qed.

Lemma sculpt_attribute_update_refs_slots_le (t : pbvh_Type) (ob R : Object CD) :
  sculpt_attribute_update_refs ob t = Some R -> slots_le ob R.
Proof.
  rewrite update_refs_unfold. intros Hrun.
  destruct (update_refs_pass t ob) as [ob1 |] eqn:E1; [| discriminate].
  cbn [mbind option_bind] in Hrun.
  eapply slots_le_trans; eapply update_refs_pass_slots_le; eassumption.
Qed.

Lemma slot_le_set_used_false (a : SculptAttribute) : slot_le a (set_used a false).
Proof. unfold slot_le. cbn. split; [reflexivity |]. split; [auto | discriminate]. Qed.

Lemma slot_le_clear (a : SculptAttribute) :
  slot_le a (set_used (set_data a None) false).
Proof. unfold slot_le. cbn. split; [reflexivity |]. split; [auto | discriminate]. Qed.

(** [BKE_sculpt_attribute_destroy] returns for every slot of the table,
    leaves the slot unused, and respects [slots_le]. *)
Lemma BKE_sculpt_attribute_destroy_slots (ob : Object CD) (h : nat)
    (attr : SculptAttribute) :
  temp_attributes ob !! h = Some attr ->
  exists r ob',
    BKE_sculpt_attribute_destroy ob h = Some (r, ob')
    /\ slots_le ob ob'
    /\ exists a', temp_attributes ob' !! h = Some a' /\ used a' = false.
Proof.
  intros Hh. unfold BKE_sculpt_attribute_destroy. rewrite Hh.
  cbn [mbind option_bind].
  set (ob2 := set_slots (set_attrs_table ob _) _).
  assert (H2 : slots_le ob ob2).
  { split; [cbn; apply length_map |].
    intros k a Hk. cbn. rewrite map_lookup, Hk. cbn.
    destruct (same_key a attr); eexists; (split; [reflexivity |]);
      [apply slot_le_set_used_false | apply slot_le_refl]. }
  assert (Hh2 : temp_attributes ob2 !! h = Some (set_used attr false)).
  { cbn. rewrite map_lookup, Hh. cbn. rewrite same_key_refl. reflexivity. }
  assert (Hfinish : forall o : Object CD,
            slots_le ob o ->
            exists r ob',
              Some (true, slot_update o h (fun a => set_used (set_data a None) false))
              = Some (r, ob')
              /\ slots_le ob ob'
              /\ exists a', temp_attributes ob' !! h = Some a' /\ used a' = false).
  { intros o Ho. eexists _, _. split; [reflexivity |].
    split.
    - eapply slots_le_trans; [exact Ho |].
      apply slots_le_slot_update. intros a _. apply slot_le_clear.
    - destruct Ho as [_ So]. destruct (So h attr Hh) as (x & Hx & _).
      eexists. split; [apply (slot_update_lookup o h _ x Hx) | reflexivity]. }
  destruct (simple_array attr).
  - apply Hfinish. eapply slots_le_trans; [exact H2 |].
    eapply slots_le_trans;
      [| apply slots_le_slot_update; intros a _; unfold slot_le; cbn; auto].
    apply slots_le_same_slots. unfold MEM_SAFE_FREE. destruct (data attr); reflexivity.
  - destruct (bm ob2) as [b |] eqn:Ebm.
    + assert (Hget : forall r, r = BM_vdata \/ r = BM_pdata ->
                exists cd, cdata_get ob2 r = Some cd).
      { intros r [-> | ->]; cbn [cdata_get]; rewrite Ebm; eexists; reflexivity. }
      destruct (Hget (match domain attr with Point => BM_vdata | _ => BM_pdata end))
        as (cd & ->).
      { destruct (domain attr); auto. }
      cbn [mbind option_bind]. apply Hfinish.
      eapply slots_le_trans; [exact H2 |]. apply slots_le_same_slots.
      apply cdata_set_attrs.
    + assert (Hmesh : forall r totelem, r = Me_vert_data \/ r = Me_face_data ->
                exists r0 ob',
                  (cdata ← cdata_get ob2 r;
                   let layer_i :=
                     CustomData_get_named_layer_index cdata (proptype attr) (name attr) in
                   let ob :=
                     if negb (layer_i =? 0)
                     then cdata_set ob2 r
                            (CustomData_free_layer cdata (proptype attr) totelem layer_i)
                     else ob2 in
                   ob ← match pbvh ob with
                        | Some t => sculpt_attribute_update_refs ob t
                        | None => Some ob
                        end;
                   Some (true, slot_update ob h
                                 (fun a => set_used (set_data a None) false)))
                  = Some (r0, ob')
                  /\ slots_le ob ob'
                  /\ exists a', temp_attributes ob' !! h = Some a' /\ used a' = false).
      { intros r totelem Hr.
        assert (exists cd, cdata_get ob2 r = Some cd) as (cd & ->)
            by (destruct Hr as [-> | ->]; eexists; reflexivity).
        cbn [mbind option_bind]. cbv zeta.
        set (ob3 := if negb _ then _ else ob2).
        assert (H3 : slots_le ob ob3).
        { eapply slots_le_trans; [exact H2 |]. unfold ob3.
          destruct (negb _); [| apply slots_le_refl].
          apply slots_le_same_slots. apply cdata_set_attrs. }
        destruct (pbvh ob3) as [t |].
        - destruct (update_refs_settled ob3 t) as (R & HR & _).
          rewrite HR. cbn [mbind option_bind]. apply Hfinish.
          eapply slots_le_trans; [exact H3 |].
          eapply sculpt_attribute_update_refs_slots_le. exact HR.
        - cbn [mbind option_bind]. apply Hfinish. exact H3. }
      destruct (domain attr).
      * apply Hmesh. auto.
      * apply Hmesh. auto.
      * eexists _, _. split; [reflexivity |]. split; [exact H2 |].
        eexists. split; [exact Hh2 | reflexivity].
Qed.

(** The loop that destroys the slots selected by [test].  [test] is taken
    on the slot as the loop finds it; when a slot selected at the start
    can fail the test later only by having become unused, every slot
    selected at the start ends unused. *)
Lemma destroy_where_spec (test : SculptAttribute -> bool) (ob : Object CD) :
  (forall a a', slot_le a a' -> test a = true -> test a' = false -> used a' = false) ->
  exists R,
    destroy_where test ob = Some R
    /\ slots_le ob R
    /\ forall k a, temp_attributes ob !! k = Some a -> test a = true ->
         exists a', temp_attributes R !! k = Some a' /\ used a' = false.
Proof.
  intros Htest. unfold destroy_where.
  set (n := length (temp_attributes ob)).
  match goal with
  | |- context [for_range n ?body ob] =>
      destruct (for_range_indexed
                  (fun i o =>
                     slots_le ob o
                     /\ forall k a, (k < i)%nat -> temp_attributes ob !! k = Some a ->
                          test a = true ->
                          exists a', temp_attributes o !! k = Some a' /\ used a' = false)
                  n body ob)
        as (R & Hrun & Hle & Hdone)
  end.
  - split; [apply slots_le_refl |]. intros k a Hk. lia.
  - intros i o Hi [Hle Hdone].
    destruct (lookup_lt_is_Some_2 (temp_attributes ob) i Hi) as [a Ha].
    destruct (proj2 Hle i a Ha) as (ai & Hai & Hle_i).
    rewrite Hai. cbn [mbind option_bind].
    assert (Hkeep : forall o', slots_le o o' ->
              (exists x, temp_attributes o' !! i = Some x
                         /\ (test a = true -> used x = false)) ->
              slots_le ob o'
              /\ forall k a0, (k < S i)%nat -> temp_attributes ob !! k = Some a0 ->
                   test a0 = true ->
                   exists a', temp_attributes o' !! k = Some a' /\ used a' = false).
    { intros o' Hoo' (x & Hx & Hxu).
      split; [eapply slots_le_trans; eassumption |].
      intros k a0 Hk Hk0 Ht0. destruct (decide (k = i)) as [-> | Hne].
      - assert (a0 = a) by congruence. subst a0. exists x. auto.
      - destruct (Hdone k a0 ltac:(lia) Hk0 Ht0) as (y & Hy & Hyu).
        destruct (proj2 Hoo' k y Hy) as (z & Hz & Hyz).
        exists z. split; [exact Hz |].
        destruct (used z) eqn:Ez; [| reflexivity].
        destruct Hyz as (_ & _ & Huz). rewrite (Huz Ez) in Hyu. discriminate. }
    destruct (test ai) eqn:Et.
    + destruct (BKE_sculpt_attribute_destroy_slots o i ai Hai)
        as (r & o' & Hd & Hoo' & x & Hx & Hxu).
      rewrite Hd. cbn. exists o'. split; [reflexivity |].
      apply Hkeep; [exact Hoo' |]. exists x. auto.
    + exists o. split; [reflexivity |].
      apply Hkeep; [apply slots_le_refl |]. exists ai. split; [exact Hai |].
      intros Ht. eapply Htest; eassumption.
  - exists R. split; [exact Hrun |]. split; [exact Hle |].
    intros k a Hk Ht. apply (Hdone k a); [| exact Hk | exact Ht].
    apply lookup_lt_Some in Hk. exact Hk.
Qed.

(** [BKE_sculpt_attribute_destroy_temporary_all] returns, and the only
    attributes alive afterwards are attributes that were alive and
    permanent before: every live attribute that was not permanent is
    unused, and no slot is brought to life. *)
Theorem BKE_sculpt_attribute_destroy_temporary_all_spec (ob : Object CD) :
  exists R,
    BKE_sculpt_attribute_destroy_temporary_all ob = Some R
    /\ length (temp_attributes R) = length (temp_attributes ob)
    /\ forall k a', temp_attributes R !! k = Some a' -> used a' = true ->
         exists a, temp_attributes ob !! k = Some a
                   /\ used a = true /\ p_permanent (params a) = true.
Proof.
  destruct (destroy_where_spec
              (fun attr => used attr && negb (p_permanent (params attr))) ob)
    as (R & Hrun & [Hl Hle] & Hdone).
  - intros a a' (_ & Hp & _) Ht Ht'.
    apply andb_true_iff in Ht as [_ Hnp]. apply negb_true_iff in Hnp.
    apply andb_false_iff in Ht' as [Hu | Hp']; [exact Hu |].
    apply negb_false_iff in Hp'. rewrite (Hp Hp') in Hnp. discriminate.
  - exists R. split; [exact Hrun |]. split; [exact Hl |].
    intros k a' Hk Hu'.
    assert (Hlt : (k < length (temp_attributes ob))%nat).
    { rewrite <- Hl. eapply lookup_lt_Some. exact Hk. }
    destruct (lookup_lt_is_Some_2 _ _ Hlt) as [a Ha].
    destruct (Hle k a Ha) as (x & Hx & _ & _ & Hux).
    assert (x = a') by congruence. subst x.
    exists a. split; [exact Ha |]. split; [auto |].
    destruct (p_permanent (params a)) eqn:Ep; [reflexivity |].
    destruct (Hdone k a Ha) as (y & Hy & Hyu).
    { cbn beta. rewrite (Hux Hu'), Ep. reflexivity. }
    assert (y = a') by congruence. subst y. congruence.
Qed.

(** [BKE_sculpt_attributes_destroy_temporary_stroke] returns, no live
    attribute afterwards has the stroke-only parameter, and no slot is
    brought to life.  Slots are destroyed on the parameter alone: the
    source does not test [used]. *)
Theorem BKE_sculpt_attributes_destroy_temporary_stroke_spec (ob : Object CD) :
  exists R,
    BKE_sculpt_attributes_destroy_temporary_stroke ob = Some R
    /\ length (temp_attributes R) = length (temp_attributes ob)
    /\ (forall k a', temp_attributes R !! k = Some a' -> used a' = true ->
          p_stroke_only (params a') = false)
    /\ (forall k a', temp_attributes R !! k = Some a' -> used a' = true ->
          exists a, temp_attributes ob !! k = Some a /\ used a = true).
Proof.
  destruct (destroy_where_spec (fun attr => p_stroke_only (params attr)) ob)
    as (R & Hrun & [Hl Hle] & Hdone).
  - intros a a' (Hs & _ & _) Ht Ht'. cbn beta in *. congruence.
  - exists R. split; [exact Hrun |]. split; [exact Hl |].
    assert (Hback : forall k a', temp_attributes R !! k = Some a' ->
              exists a, temp_attributes ob !! k = Some a /\ slot_le a a').
    { intros k a' Hk.
      assert (Hlt : (k < length (temp_attributes ob))%nat).
      { rewrite <- Hl. eapply lookup_lt_Some. exact Hk. }
      destruct (lookup_lt_is_Some_2 _ _ Hlt) as [a Ha].
      destruct (Hle k a Ha) as (x & Hx & Hax).
      assert (x = a') by congruence. subst x. eauto. }
    split.
    + intros k a' Hk Hu'. destruct (Hback k a' Hk) as (a & Ha & Hs & _ & _).
      destruct (p_stroke_only (params a')) eqn:Es; [| reflexivity].
      destruct (Hdone k a Ha) as (y & Hy & Hyu); [cbn beta; congruence |].
      assert (y = a') by congruence. subst y. congruence.
    + intros k a' Hk Hu'. destruct (Hback k a' Hk) as (a & Ha & _ & _ & Hu).
      exists a. auto.
Qed.

End Facts.

End AttrApiFacts.

(** * Ensuring an attribute and finding it again *)

Module AttrEnsure.
Import AttrStore AttrSpec AttrFacts AttrDestroy AttrApi AttrApiFacts.

(** ** The slot search *)

Lemma find_slot_ext (p : SculptAttribute -> bool) (l l' : list SculptAttribute)
    (i : nat) :
  length l' = length l ->
  (forall k a a', l !! k = Some a -> l' !! k = Some a' -> p a' = p a) ->
  find_slot p l' i = find_slot p l i.
Proof.
  revert l' i. induction l as [| a l IH]; intros [| a' l'] i Hlen Hp;
    try discriminate; [reflexivity |].
  cbn [find_slot]. rewrite (Hp 0%nat a a' eq_refl eq_refl).
  destruct (p a); [reflexivity |].
  apply IH; [cbn in Hlen; lia |].
  intros k b b' Hb Hb'. apply (Hp (S k) b b'); assumption.
Qed.

Lemma find_slot_first (p : SculptAttribute -> bool) (l : list SculptAttribute)
    (i j : nat) (a : SculptAttribute) :
  l !! j = Some a -> p a = true ->
  (forall k b, (k < j)%nat -> l !! k = Some b -> p b = false) ->
  find_slot p l i = Some (i + j)%nat.
Proof.
  revert i j. induction l as [| x l IH]; intros i j Hj Ha Hbefore; [discriminate |].
  cbn [find_slot]. destruct j as [| j].
  - cbn in Hj. injection Hj as ->. rewrite Ha, Nat.add_0_r. reflexivity.
  - rewrite (Hbefore 0%nat x ltac:(lia) eq_refl).
    rewrite (IH (S i) j); [f_equal; lia | exact Hj | exact Ha |].
    intros k b Hk Hb. apply (Hbefore (S k) b); [lia | exact Hb].
Qed.

Lemma find_slot_Some (p : SculptAttribute -> bool) (l : list SculptAttribute)
    (i r : nat) :
  find_slot p l i = Some r ->
  exists j a, r = (i + j)%nat /\ l !! j = Some a /\ p a = true
              /\ forall k b, (k < j)%nat -> l !! k = Some b -> p b = false.
Proof.
  revert i. induction l as [| x l IH]; intros i Hf; [discriminate |].
  cbn [find_slot] in Hf. destruct (p x) eqn:Ex.
  - injection Hf as <-. exists 0%nat, x. split; [lia |]. split; [reflexivity |].
    split; [exact Ex |]. intros k b Hk. lia.
  - destruct (IH (S i) Hf) as (j & a & -> & Hj & Ha & Hbefore).
    exists (S j), a. split; [lia |]. split; [exact Hj |]. split; [exact Ha |].
    intros k b Hk Hb. destruct k as [| k]; [cbn in Hb; congruence |].
    apply (Hbefore k b); [lia | exact Hb].
Qed.

Lemma find_slot_None (p : SculptAttribute -> bool) (l : list SculptAttribute)
    (i : nat) :
  find_slot p l i = None <-> forall k b, l !! k = Some b -> p b = false.
Proof.
  revert i. induction l as [| x l IH]; intros i.
  - split; [intros _ k b Hk; discriminate | reflexivity].
  - cbn [find_slot]. destruct (p x) eqn:Ex.
    + split; [discriminate |]. intros Hall. rewrite (Hall 0%nat x eq_refl) in Ex.
      discriminate.
    + rewrite IH. split.
      * intros Hall k b Hk. destruct k as [| k]; [cbn in Hk; congruence |].
        apply (Hall k b Hk).
      * intros Hall k b Hk. apply (Hall (S k) b Hk).
Qed.

Section Ensure.
Context {CD : Type} `{CustomDataOps CD} `{!CustomDataLaws CD}.

Lemma slot_kept_refl (a : SculptAttribute) : slot_kept a a.
Proof. unfold slot_kept. auto 10. Qed.

Lemma slot_kept_trans (a b c : SculptAttribute) :
  slot_kept a b -> slot_kept b c -> slot_kept a c.
Proof.
  unfold slot_kept. intros (U1 & L1 & K1) (U2 & L2 & K2).
  split; [auto |]. split.
  - intros Hu Hd. destruct (L1 Hu Hd) as [Hub Hsb].
    destruct (K1 Hu Hub) as (_ & Hdb & _).
    destruct (L2 Hub) as [Huc Hsc]; [congruence |].
    split; [exact Huc | congruence].
  - intros Hu Huc.
    assert (Hub : used b = true).
    { destruct (used b) eqn:Eb; [reflexivity |]. rewrite (U2 eq_refl) in Huc.
      discriminate. }
    destruct (K1 Hu Hub) as (N1 & D1 & T1). destruct (K2 Hub Huc) as (N2 & D2 & T2).
    repeat split; congruence.
Qed.

Lemma slots_kept_refl (ob : Object CD) : slots_kept ob ob.
Proof.
  split; [reflexivity |]. split; [reflexivity |].
  intros k a Hk. exists a. split; [exact Hk | apply slot_kept_refl].
Qed.

Lemma slots_kept_trans (a b c : Object CD) :
  slots_kept a b -> slots_kept b c -> slots_kept a c.
Proof.
  intros (L1 & P1 & S1) (L2 & P2 & S2). split; [congruence |]. split; [congruence |].
  intros k x Hk. destruct (S1 k x Hk) as (y & Hy & Hxy).
  destruct (S2 k y Hy) as (z & Hz & Hyz).
  exists z. split; [exact Hz | eapply slot_kept_trans; eassumption].
Qed.

(** A live slot with the key, and the cache search, are kept. *)
Lemma slots_kept_cached (ob ob' : Object CD) (d : AttrDomain) (ty : eCustomDataType)
    (nm : string) :
  slots_kept ob ob' -> d <> OtherDomain ->
  sculpt_get_cached_layer ob' d ty nm = sculpt_get_cached_layer ob d ty nm.
Proof.
  intros (Hl & _ & Hs) Hd. unfold sculpt_get_cached_layer.
  apply find_slot_ext; [exact Hl |].
  intros k a a' Ha Ha'. destruct (Hs k a Ha) as (x & Hx & U & L & K).
  assert (x = a') by congruence. subst x. cbn beta.
  destruct (used a) eqn:Eu.
  - destruct (used a') eqn:Eu'.
    + destruct (K eq_refl eq_refl) as (N & D & T). unfold has_key.
      rewrite N, D, T. reflexivity.
    + cbn [andb]. unfold has_key.
      destruct (domain_eqb (domain a) d) eqn:Ed; [| rewrite andb_false_r; reflexivity].
      exfalso.
      assert (domain a = d) by (destruct (domain a), d; try discriminate; reflexivity).
      destruct (L eq_refl) as [Hc _]; congruence.
  - rewrite (U eq_refl). reflexivity.
Qed.

Lemma sculpt_attr_check_key (ob : Object CD) (attr a1 : SculptAttribute)
    (t : pbvh_Type) (b : bool) :
  sculpt_attr_check ob attr t = Some (b, a1) ->
  name a1 = name attr /\ domain a1 = domain attr /\ proptype a1 = proptype attr
  /\ params a1 = params attr /\ used a1 = used attr.
Proof.
  unfold sculpt_attr_check. intros Hc.
  destruct (sculpt_get_cdata ob (domain attr)) as [r |]; [| simplify_eq; auto 10].
  destruct (negb (simple_array attr)); [| simplify_eq; auto 10].
  destruct (cdata_get ob r) as [cd |]; [| discriminate]. cbn [mbind option_bind] in Hc.
  destruct (negb _); [| simplify_eq; auto 10].
  destruct (data_for_bmesh attr); simplify_eq; auto 10.
Qed.

(** The slot [sculpt_attribute_create] fills, with its key. *)
Lemma sculpt_attribute_create_slot (ob ob' : Object CD) (d : AttrDomain)
    (ty : eCustomDataType) (nm : string) (out : nat) (prm : SculptAttributeParams)
    (t : pbvh_Type) (flat r : bool) :
  sculpt_attribute_create ob d ty nm out prm t flat = Some (r, ob') ->
  length (temp_attributes ob') = length (temp_attributes ob)
  /\ pbvh ob' = pbvh ob
  /\ (forall k, k <> out -> temp_attributes ob' !! k = temp_attributes ob !! k)
  /\ exists a', temp_attributes ob' !! out = Some a'
                /\ name a' = nm /\ domain a' = d /\ proptype a' = ty
                /\ p_stroke_only (params a') = p_stroke_only prm
                /\ (d <> OtherDomain -> used a' = true).
Proof.
  intros Hc.
  assert (Hstore : forall (o : Object CD) (a : SculptAttribute) (r0 : bool) a0,
            temp_attributes o !! out = Some a0 ->
            length (temp_attributes o) = length (temp_attributes ob) ->
            pbvh o = pbvh ob ->
            (forall k, k <> out -> temp_attributes o !! k = temp_attributes ob !! k) ->
            name a = nm -> domain a = d -> proptype a = ty ->
            p_stroke_only (params a) = p_stroke_only prm ->
            (d <> OtherDomain -> used a = true) ->
            Some (r0, slot_update o out (fun _ => a)) = Some (r, ob') ->
            length (temp_attributes ob') = length (temp_attributes ob)
            /\ pbvh ob' = pbvh ob
            /\ (forall k, k <> out -> temp_attributes ob' !! k = temp_attributes ob !! k)
            /\ exists a', temp_attributes ob' !! out = Some a'
                          /\ name a' = nm /\ domain a' = d /\ proptype a' = ty
                          /\ p_stroke_only (params a') = p_stroke_only prm
                          /\ (d <> OtherDomain -> used a' = true)).
  { intros o a r0 a0 Ha0 Hl Hpb Hk Hn Hd Ht Hs Hu [= <- <-].
    split; [rewrite slot_update_length; exact Hl |].
    split; [exact Hpb |].
    split; [intros k Hne; rewrite slot_update_lookup_ne by congruence; auto |].
    exists a. split; [apply (slot_update_lookup o out _ a0 Ha0) |]. auto 10. }
  unfold sculpt_attribute_create in Hc.
  destruct (temp_attributes ob !! out) as [a0 |] eqn:Ha0; [| discriminate].
  cbn [mbind option_bind] in Hc.
  destruct (p_simple_array prm || _) eqn:Esimple.
  - unfold MEM_calloc_arrayN in Hc.
    eapply Hstore; [| | | | | | | | | exact Hc]; cbn; eauto.
  - cbn [mbind option_bind] in Hc.
    destruct (bm ob) as [b |] eqn:Ebm.
    + destruct d.
      * destruct (cdata_get ob BM_vdata) as [cd |] eqn:Ecd; [| discriminate].
        cbn [mbind option_bind] in Hc.
        eapply Hstore; [| | | | | | | | | exact Hc]; cbn; eauto.
      * destruct (cdata_get ob BM_pdata) as [cd |] eqn:Ecd; [| discriminate].
        cbn [mbind option_bind] in Hc.
        eapply Hstore; [| | | | | | | | | exact Hc]; cbn; eauto.
      * eapply Hstore; [| | | | | | | | | exact Hc]; cbn; eauto; congruence.
    + destruct d.
      * cbn [cdata_get mbind option_bind] in Hc.
        eapply Hstore; [| | | | | | | | | exact Hc]; cbn; eauto.
      * cbn [cdata_get mbind option_bind] in Hc.
        eapply Hstore; [| | | | | | | | | exact Hc]; cbn; eauto.
      * eapply Hstore; [| | | | | | | | | exact Hc]; cbn; eauto; congruence.
Qed.

Lemma slots_kept_slot_update (ob : Object CD) (j : nat)
    (f : SculptAttribute -> SculptAttribute) :
  (forall a, temp_attributes ob !! j = Some a -> slot_kept a (f a)) ->
  slots_kept ob (slot_update ob j f).
Proof.
  intros Hf. split; [apply slot_update_length |]. split; [reflexivity |].
  intros k a Hk. destruct (decide (j = k)) as [<- | Hne].
  - exists (f a). split; [apply slot_update_lookup; exact Hk | apply Hf; exact Hk].
  - exists a. split; [rewrite slot_update_lookup_ne by exact Hne; exact Hk |].
    apply slot_kept_refl.
Qed.

Lemma sculpt_attr_update_kept (ob ob' : Object CD) (j : nat) (t : pbvh_Type)
    (attr : SculptAttribute) (b : bool) :
  temp_attributes ob !! j = Some attr -> used attr = true ->
  sculpt_attr_update ob j t = Some (b, ob') -> slots_kept ob ob'.
Proof.
  intros Hj Hu Hup. unfold sculpt_attr_update in Hup. rewrite Hj in Hup.
  cbn [mbind option_bind] in Hup.
  destruct (sculpt_attr_check ob attr t) as [[bad a1] |] eqn:Hc; [| discriminate].
  cbn [mbind option_bind] in Hup.
  destruct (sculpt_attr_check_key _ _ _ _ _ Hc) as (N1 & D1 & T1 & P1 & U1).
  set (ob1 := slot_update ob j (fun _ => a1)) in *.
  assert (Hj1 : temp_attributes ob1 !! j = Some a1)
    by apply (slot_update_lookup ob j _ attr Hj).
  destruct bad.
  2: { injection Hup as <- <-. apply slots_kept_slot_update.
       intros a Ha. assert (a = attr) by congruence. subst a.
       unfold slot_kept. rewrite N1, D1, T1, P1, U1. auto 10. }
  set (ob2 := if simple_array a1
              then slot_update (MEM_SAFE_FREE ob1 (data a1)) j (fun a => set_data a None)
              else ob1) in *.
  assert (H2 : length (temp_attributes ob2) = length (temp_attributes ob)
               /\ pbvh ob2 = pbvh ob
               /\ forall k, k <> j -> temp_attributes ob2 !! k = temp_attributes ob !! k).
  { unfold ob2. destruct (simple_array a1).
    - split; [rewrite slot_update_length; unfold MEM_SAFE_FREE;
              destruct (data a1); apply slot_update_length |].
      split; [unfold MEM_SAFE_FREE; destruct (data a1); reflexivity |].
      intros k Hk. rewrite slot_update_lookup_ne by congruence.
      transitivity (temp_attributes ob1 !! k).
      + unfold MEM_SAFE_FREE. destruct (data a1); reflexivity.
      + apply slot_update_lookup_ne. congruence.
    - split; [apply slot_update_length |]. split; [reflexivity |].
      intros k Hk. apply slot_update_lookup_ne. congruence. }
  destruct H2 as (L2 & Pb2 & O2).
  destruct (sculpt_attribute_create ob2 _ _ _ j _ t _) as [[r ob3] |] eqn:Hcr;
    [| discriminate].
  cbn [mbind option_bind] in Hup. injection Hup as <- <-.
  destruct (sculpt_attribute_create_slot _ _ _ _ _ _ _ _ _ _ Hcr)
    as (L3 & Pb3 & O3 & a' & Ha' & N3 & D3 & T3 & S3 & U3).
  split; [congruence |]. split; [congruence |].
  intros k a Hk. destruct (decide (k = j)) as [-> | Hne].
  - exists a'. split; [exact Ha' |].
    assert (a = attr) by congruence. subst a.
    unfold slot_kept. rewrite N3, D3, T3, S3, N1, D1, T1, P1.
    split; [congruence |]. split; [| auto].
    intros _ Hd. split; [apply U3; congruence | reflexivity].
  - exists a. split; [rewrite O3, O2 by exact Hne; exact Hk | apply slot_kept_refl].
Qed.

Lemma update_refs_pass_kept (t : pbvh_Type) (ob ob' : Object CD) :
  update_refs_pass t ob = Some ob' -> slots_kept ob ob'.
Proof.
  intros Hrun. unfold update_refs_pass in Hrun.
  apply (for_range_invariant (slots_kept ob) _ _ _ _ (slots_kept_refl ob)) in Hrun;
    [exact Hrun |].
  intros j o o' _ Hle Hbody.
  destruct (temp_attributes o !! j) as [attr |] eqn:Hj; [| discriminate].
  cbn [mbind option_bind] in Hbody.
  destruct (used attr) eqn:Hu; [| injection Hbody as <-; exact Hle].
  destruct (sculpt_attr_update o j t) as [[b o2] |] eqn:Hup; [| discriminate].
  cbn in Hbody. injection Hbody as <-.
  eapply slots_kept_trans; [exact Hle |].
  eapply sculpt_attr_update_kept; eassumption.
Qed.

Lemma sculpt_attribute_update_refs_kept (t : pbvh_Type) (ob R : Object CD) :
  sculpt_attribute_update_refs ob t = Some R -> slots_kept ob R.
Proof.
  rewrite update_refs_unfold. intros Hrun.
  destruct (update_refs_pass t ob) as [ob1 |] eqn:E1; [| discriminate].
  cbn [mbind option_bind] in Hrun.
  eapply slots_kept_trans; eapply update_refs_pass_kept; eassumption.
Qed.

Lemma has_key_true (d : AttrDomain) (ty : eCustomDataType) (nm : string)
    (a : SculptAttribute) :
  has_key d ty nm a = true <-> name a = nm /\ proptype a = ty /\ domain a = d.
Proof.
  unfold has_key. rewrite !andb_true_iff, String.eqb_eq, Z.eqb_eq.
  assert (Hd : domain_eqb (domain a) d = true <-> domain a = d).
  { destruct (domain a), d; cbn; split; congruence. }
  rewrite Hd. tauto.
Qed.

Lemma sculpt_attr_update_total (ob : Object CD) (j : nat) (t : pbvh_Type)
    (attr : SculptAttribute) :
  temp_attributes ob !! j = Some attr ->
  exists b ob', sculpt_attr_update ob j t = Some (b, ob').
Proof.
  intros Hj. destruct (sculpt_attr_update_spec ob j t attr Hj) as (b & ob' & _ & Hup & _).
  eauto.
Qed.

(** What a successful allocation of a slot gives. *)
Lemma sculpt_alloc_attr_Some (ob ob1 : Object CD) (j : nat) :
  sculpt_alloc_attr ob = Some (j, ob1) ->
  ob1 = slot_update ob j (fun _ => set_used attr_zero true)
  /\ (exists a, temp_attributes ob !! j = Some a /\ used a = false)
  /\ forall k b, (k < j)%nat -> temp_attributes ob !! k = Some b -> used b = true.
Proof.
  unfold sculpt_alloc_attr. intros Ha.
  destruct (find_slot _ (temp_attributes ob) 0) as [i |] eqn:Ef; [| discriminate].
  cbn in Ha. injection Ha as <- <-.
  destruct (find_slot_Some _ _ _ _ Ef) as (j & a & -> & Hj & Hp & Hbefore).
  cbn [Nat.add]. split; [reflexivity |].
  split; [exists a; split; [exact Hj | apply negb_true_iff; exact Hp] |].
  intros k b Hk Hb. apply negb_false_iff. apply (Hbefore k b Hk Hb).
Qed.

Lemma sculpt_alloc_attr_free (ob : Object CD) (k : nat) (a : SculptAttribute) :
  temp_attributes ob !! k = Some a -> used a = false ->
  exists j ob1, sculpt_alloc_attr ob = Some (j, ob1).
Proof.
  intros Hk Hu. unfold sculpt_alloc_attr.
  destruct (find_slot _ (temp_attributes ob) 0) as [i |] eqn:Ef.
  - eexists _, _. reflexivity.
  - exfalso. rewrite find_slot_None in Ef. specialize (Ef k a Hk).
    rewrite Hu in Ef. discriminate.
Qed.

(** A slot with the key that follows slots without it is what the cache
    search returns. *)
Lemma cached_after_fill (ob o : Object CD) (d : AttrDomain) (ty : eCustomDataType)
    (nm : string) (j : nat) (a : SculptAttribute) :
  sculpt_get_cached_layer ob d ty nm = None ->
  (forall k, k <> j -> temp_attributes o !! k = temp_attributes ob !! k) ->
  temp_attributes o !! j = Some a ->
  used a = true -> name a = nm -> domain a = d -> proptype a = ty ->
  sculpt_get_cached_layer o d ty nm = Some j.
Proof.
  intros Hnone Hother Hj Hu Hn Hd Ht. unfold sculpt_get_cached_layer in *.
  rewrite find_slot_None in Hnone.
  rewrite (find_slot_first _ _ 0 j a Hj); [reflexivity | |].
  - cbn beta. rewrite Hu. apply has_key_true. auto.
  - intros k b Hk Hb. apply (Hnone k b). rewrite <- Hother by lia. exact Hb.
Qed.

(** What [sculpt_attribute_ensure_ex] returns for a point or face
    attribute when the key is cached or the table has a free slot: a
    handle to a live slot that carries the key and the requested
    stroke-only parameter, and that the cache search for the key finds. *)
Lemma sculpt_attribute_ensure_ex_ok (ob : Object CD) (d : AttrDomain)
    (ty : eCustomDataType) (nm : string) (prm : SculptAttributeParams)
    (t : pbvh_Type) (flat : bool) :
  d <> OtherDomain ->
  is_Some (sculpt_get_cached_layer ob d ty nm)
  \/ (exists k a, temp_attributes ob !! k = Some a /\ used a = false) ->
  exists j ob' a,
    sculpt_attribute_ensure_ex ob d ty nm prm t flat = Some (j, ob')
    /\ temp_attributes ob' !! j = Some a
    /\ used a = true /\ name a = nm /\ domain a = d /\ proptype a = ty
    /\ p_stroke_only (params a) = p_stroke_only prm
    /\ sculpt_get_cached_layer ob' d ty nm = Some j
    /\ length (temp_attributes ob') = length (temp_attributes ob)
    /\ pbvh ob' = pbvh ob.
Proof.
  intros Hd Hroom.
  (* the tail of the found branch *)
  assert (Hfound : forall (o : Object CD) (j : nat) (a : SculptAttribute),
            temp_attributes o !! j = Some a ->
            used a = true -> name a = nm -> domain a = d -> proptype a = ty ->
            sculpt_get_cached_layer o d ty nm = Some j ->
            exists ob' a',
              ('(_, ob0) ← sculpt_attr_update o j t;
               Some (j, slot_update ob0 j
                          (fun a => set_stroke_only a (p_stroke_only prm))))
              = Some (j, ob')
              /\ temp_attributes ob' !! j = Some a'
              /\ used a' = true /\ name a' = nm /\ domain a' = d /\ proptype a' = ty
              /\ p_stroke_only (params a') = p_stroke_only prm
              /\ sculpt_get_cached_layer ob' d ty nm = Some j
              /\ length (temp_attributes ob') = length (temp_attributes o)
              /\ pbvh ob' = pbvh o).
  { intros o j a Hj Hu Hn Hdo Ht Hcached.
    destruct (sculpt_attr_update_total o j t a Hj) as (b & o2 & Hup).
    pose proof (sculpt_attr_update_kept _ _ _ _ _ _ Hj Hu Hup) as Hk.
    rewrite Hup. cbn [mbind option_bind].
    destruct Hk as (L2 & Pb2 & S2).
    destruct (S2 j a Hj) as (a2 & Ha2 & _ & Hl & Hkey).
    destruct (Hl Hu) as [Hu2 _]; [congruence |].
    destruct (Hkey Hu Hu2) as (N2 & D2 & T2).
    eexists _, _. split; [reflexivity |].
    split; [apply (slot_update_lookup o2 j _ a2 Ha2) |].
    cbn [set_stroke_only used name domain proptype params p_stroke_only].
    split; [exact Hu2 |]. split; [congruence |]. split; [congruence |].
    split; [congruence |]. split; [reflexivity |].
    split; [| split; [rewrite slot_update_length; exact L2 | exact Pb2]].
    rewrite <- Hcached.
    rewrite <- (slots_kept_cached o o2 d ty nm (conj L2 (conj Pb2 S2)) Hd).
    unfold sculpt_get_cached_layer. apply find_slot_ext.
    - apply slot_update_length.
    - intros k x x' Hx Hx'. destruct (decide (j = k)) as [<- | Hne].
      + rewrite (slot_update_lookup o2 j _ x Hx) in Hx'. injection Hx' as <-.
        reflexivity.
      + rewrite slot_update_lookup_ne in Hx' by exact Hne.
        assert (x' = x) by congruence. subst x'. reflexivity. }
  unfold sculpt_attribute_ensure_ex, sculpt_attribute_get_ex.
  destruct (sculpt_get_cached_layer ob d ty nm) as [j |] eqn:Ecached.
  - (* the key is cached *)
    clear Hroom. pose proof Ecached as Ef. unfold sculpt_get_cached_layer in Ef.
    destruct (find_slot_Some _ _ _ _ Ef) as (j0 & a & -> & Hj & Hp & _).
    cbn [Nat.add] in *. apply andb_true_iff in Hp as [Hu Hkey].
    apply has_key_true in Hkey as (Hn & Ht & Hdo).
    destruct (sculpt_attr_update_total ob j0 t a Hj) as (b & o1 & Hup).
    pose proof (sculpt_attr_update_kept _ _ _ _ _ _ Hj Hu Hup) as Hk1.
    rewrite Hup. cbn [mbind option_bind].
    assert (Hrefs : exists oA,
               (if b then sculpt_attribute_update_refs o1 t else Some o1) = Some oA
               /\ slots_kept ob oA).
    { destruct b.
      - destruct (update_refs_settled o1 t) as (R & HR & _).
        exists R. split; [exact HR |].
        eapply slots_kept_trans; [exact Hk1 |].
        eapply sculpt_attribute_update_refs_kept. exact HR.
      - exists o1. split; [reflexivity | exact Hk1]. }
    destruct Hrefs as (oA & -> & HkA). cbn [mbind option_bind].
    destruct HkA as (LA & PbA & SA).
    destruct (SA j0 a Hj) as (aA & HaA & _ & Hl & Hkey).
    destruct (Hl Hu) as [HuA _]; [congruence |].
    destruct (Hkey Hu HuA) as (NA & DA & TA).
    destruct (Hfound oA j0 aA HaA HuA) as (ob' & a' & Hrun & Ha' & Hrest);
      try congruence.
    { rewrite (slots_kept_cached ob oA d ty nm (conj LA (conj PbA SA)) Hd).
      exact Ecached. }
    exists j0, ob', a'. split; [exact Hrun |]. split; [exact Ha' |].
    destruct Hrest as (? & ? & ? & ? & ? & ? & L' & Pb').
    repeat split; try assumption; congruence.
  - destruct Hroom as [[x Hx] | (k0 & a0 & Hk0 & Hu0)]; [discriminate |].
    destruct (sculpt_alloc_attr_free ob k0 a0 Hk0 Hu0) as (j & ob1 & Halloc).
    destruct (sculpt_alloc_attr_Some _ _ _ Halloc) as (-> & (af & Hjf & _) & _).
    (* the branch that creates the attribute *)
    assert (Hcreate :
      exists ob' a,
        ('(j, ob0) ← sculpt_alloc_attr ob;
         '(_, ob0) ← sculpt_attribute_create ob0 d ty nm j prm t flat;
         ob0 ← sculpt_attribute_update_refs ob0 t;
         Some (j, ob0)) = Some (j, ob')
        /\ temp_attributes ob' !! j = Some a
        /\ used a = true /\ name a = nm /\ domain a = d /\ proptype a = ty
        /\ p_stroke_only (params a) = p_stroke_only prm
        /\ sculpt_get_cached_layer ob' d ty nm = Some j
        /\ length (temp_attributes ob') = length (temp_attributes ob)
        /\ pbvh ob' = pbvh ob).
    { rewrite Halloc. cbn [mbind option_bind].
      set (ob1 := slot_update ob j (fun _ => set_used attr_zero true)).
      assert (Hj1 : temp_attributes ob1 !! j = Some (set_used attr_zero true))
        by apply (slot_update_lookup ob j _ af Hjf).
      destruct (sculpt_attribute_create_spec ob1 d ty nm j prm t flat _ Hj1)
        as (r & ob2 & _ & Hcr & _).
      rewrite Hcr. cbn [mbind option_bind].
      destruct (sculpt_attribute_create_slot _ _ _ _ _ _ _ _ _ _ Hcr)
        as (L2 & Pb2 & O2 & a2 & Ha2 & N2 & D2 & T2 & S2 & U2).
      destruct (update_refs_settled ob2 t) as (R & HR & _).
      rewrite HR. cbn [mbind option_bind].
      pose proof (sculpt_attribute_update_refs_kept _ _ _ HR) as (LR & PbR & SR).
      destruct (SR j a2 Ha2) as (aR & HaR & _ & Hl & Hkey).
      destruct (Hl (U2 Hd)) as [HuR HsR]; [congruence |].
      destruct (Hkey (U2 Hd) HuR) as (NR & DR & TR).
      exists R, aR. split; [reflexivity |]. split; [exact HaR |].
      split; [exact HuR |]. split; [congruence |]. split; [congruence |].
      split; [congruence |]. split; [congruence |].
      split; [| split; [rewrite LR, L2; apply slot_update_length
                        | rewrite PbR, Pb2; reflexivity]].
      rewrite (slots_kept_cached ob2 R d ty nm (conj LR (conj PbR SR)) Hd).
      apply (cached_after_fill ob ob2 d ty nm j a2 Ecached); auto.
      intros k Hk. rewrite O2 by exact Hk. apply slot_update_lookup_ne. congruence. }
    (* the branch that adopts a layer of the CustomData *)
    assert (Hadopt : forall cdata index totelem,
      exists ob' a,
        ('(found, ob0) ←
           ('(j, ob0) ← sculpt_alloc_attr ob;
            Some (Some j,
                  slot_update ob0 j (fun _ =>
                    {| domain := d; proptype := ty; name := nm;
                       params := params attr_zero;
                       data := layer_data cdata index;
                       elem_size := CustomData_get_elem_size cdata index;
                       elem_num := totelem; data_for_bmesh := false;
                       simple_array := false;
                       bmesh_cd_offset := layer_offset cdata index;
                       layer := Some index; used := true |})));
         match found with
         | Some j =>
             '(_, ob0) ← sculpt_attr_update ob0 j t;
             Some (j, slot_update ob0 j
                        (fun a => set_stroke_only a (p_stroke_only prm)))
         | None =>
             '(j, ob0) ← sculpt_alloc_attr ob0;
             '(_, ob0) ← sculpt_attribute_create ob0 d ty nm j prm t flat;
             ob0 ← sculpt_attribute_update_refs ob0 t;
             Some (j, ob0)
         end) = Some (j, ob')
        /\ temp_attributes ob' !! j = Some a
        /\ used a = true /\ name a = nm /\ domain a = d /\ proptype a = ty
        /\ p_stroke_only (params a) = p_stroke_only prm
        /\ sculpt_get_cached_layer ob' d ty nm = Some j
        /\ length (temp_attributes ob') = length (temp_attributes ob)
        /\ pbvh ob' = pbvh ob).
    { intros cdata index totelem. rewrite Halloc. cbn [mbind option_bind].
      set (ob1 := slot_update ob j (fun _ => set_used attr_zero true)).
      set (rec := {| domain := d; proptype := ty; name := nm;
                     params := params attr_zero; data := layer_data cdata index;
                     elem_size := CustomData_get_elem_size cdata index;
                     elem_num := totelem; data_for_bmesh := false;
                     simple_array := false;
                     bmesh_cd_offset := layer_offset cdata index;
                     layer := Some index; used := true |}).
      set (oB := slot_update ob1 j (fun _ => rec)).
      assert (HjB : temp_attributes oB !! j = Some rec).
      { apply (slot_update_lookup ob1 j (fun _ => rec) (set_used attr_zero true)).
        apply (slot_update_lookup ob j (fun _ => set_used attr_zero true) af Hjf). }
      destruct (Hfound oB j rec HjB) as (ob' & a' & Hrun & Ha' & Hrest);
        try reflexivity.
      { apply (cached_after_fill ob oB d ty nm j rec Ecached); auto.
        intros k Hk. unfold oB, ob1.
        rewrite !slot_update_lookup_ne by congruence. reflexivity. }
      exists ob', a'. split; [exact Hrun |]. split; [exact Ha' |].
      destruct Hrest as (? & ? & ? & ? & ? & ? & L' & Pb').
      repeat split; try assumption.
      rewrite L'. unfold oB, ob1. rewrite !slot_update_length. reflexivity. }
    destruct (sculpt_get_cdata ob d) as [r |] eqn:Er.
    + destruct (get_cdata_defined ob d r Er) as (cdata & Hcd).
      rewrite Hcd. cbn [mbind option_bind].
      destruct (negb (CustomData_get_named_layer_index cdata ty nm =? -1)).
      * destruct (Hadopt cdata (CustomData_get_named_layer_index cdata ty nm)
                    (match d with
                     | Point => BKE_sculptsession_vertex_count ob
                     | Face => totfaces ob
                     | OtherDomain => 0
                     end)) as (ob' & a & Hrun & Hrest).
        exists j, ob', a. split; [exact Hrun | exact Hrest].
      * cbn [mbind option_bind].
        destruct Hcreate as (ob' & a & Hrun & Hrest).
        exists j, ob', a. split; [exact Hrun | exact Hrest].
    + cbn [mbind option_bind].
      destruct Hcreate as (ob' & a & Hrun & Hrest).
      exists j, ob', a. split; [exact Hrun | exact Hrest].
Qed.

(** With the key cached, [sculpt_attribute_ensure_ex] can only return the
    cached handle. *)
Lemma sculpt_attribute_ensure_ex_handle (ob ob' : Object CD) (d : AttrDomain)
    (ty : eCustomDataType) (nm : string) (prm : SculptAttributeParams)
    (t : pbvh_Type) (flat : bool) (j j0 : nat) :
  sculpt_get_cached_layer ob d ty nm = Some j0 ->
  sculpt_attribute_ensure_ex ob d ty nm prm t flat = Some (j, ob') -> j = j0.
Proof.
  intros Hc Hrun. unfold sculpt_attribute_ensure_ex, sculpt_attribute_get_ex in Hrun.
  rewrite Hc in Hrun.
  destruct (sculpt_attr_update ob j0 t) as [[b o1] |]; [| discriminate].
  cbn [mbind option_bind] in Hrun.
  destruct (if b then sculpt_attribute_update_refs o1 t else Some o1) as [oA |];
    [| discriminate].
  cbn [mbind option_bind] in Hrun.
  destruct (sculpt_attr_update oA j0 t) as [[b2 o2] |]; [| discriminate].
  cbn [mbind option_bind] in Hrun. congruence.
Qed.

(** A lookup of a cached key returns its slot. *)
Lemma sculpt_attribute_get_ex_cached (ob : Object CD) (d : AttrDomain)
    (ty : eCustomDataType) (nm : string) (t : pbvh_Type) (j : nat) :
  sculpt_get_cached_layer ob d ty nm = Some j ->
  exists ob', sculpt_attribute_get_ex ob t d ty nm = Some (Some j, ob').
Proof.
  intros Hc. unfold sculpt_attribute_get_ex. rewrite Hc.
  pose proof Hc as Ef. unfold sculpt_get_cached_layer in Ef.
  destruct (find_slot_Some _ _ _ _ Ef) as (j0 & a & -> & Hj & _).
  cbn [Nat.add] in *.
  destruct (sculpt_attr_update_total ob j0 t a Hj) as (b & o1 & ->).
  cbn [mbind option_bind]. destruct b.
  - destruct (update_refs_settled o1 t) as (R & -> & _). cbn [mbind option_bind].
    eexists. reflexivity.
  - cbn [mbind option_bind]. eexists. reflexivity.
Qed.

(** Ensuring a point or face attribute, when its key is cached or the
    table has a free slot, returns a handle to a live slot that carries
    the key and the requested stroke-only parameter; a lookup of the key
    that follows returns the same handle. *)
Theorem BKE_sculpt_attribute_ensure_get (ob : Object CD) (d : AttrDomain)
    (ty : eCustomDataType) (nm : string) (prm : SculptAttributeParams)
    (t : pbvh_Type) :
  pbvh ob = Some t ->
  d <> OtherDomain ->
  is_Some (sculpt_get_cached_layer ob d ty nm)
  \/ (exists k a, temp_attributes ob !! k = Some a /\ used a = false) ->
  exists j ob' a ob'',
    BKE_sculpt_attribute_ensure ob d ty nm prm = Some (j, ob')
    /\ temp_attributes ob' !! j = Some a
    /\ used a = true /\ name a = nm /\ domain a = d /\ proptype a = ty
    /\ p_stroke_only (params a) = p_stroke_only prm
    /\ BKE_sculpt_attribute_get ob' d ty nm = Some (Some j, ob'').
Proof.
  intros Hp Hd Hroom.
  destruct (sculpt_attribute_ensure_ex_ok ob d ty nm prm t true Hd Hroom)
    as (j & ob' & a & Hrun & Ha & Hu & Hn & Hdo & Ht & Hs & Hc & _ & Hp').
  destruct (sculpt_attribute_get_ex_cached ob' d ty nm t j Hc) as (ob'' & Hget).
  exists j, ob', a, ob''.
  unfold BKE_sculpt_attribute_ensure, BKE_sculpt_attribute_get.
  rewrite Hp, Hp', Hp. cbn [mbind option_bind].
  repeat split; assumption.
Qed.

(** Ensuring an attribute whose key is cached returns the cached slot,
    never a new one, and overwrites the stroke-only parameter of the
    slot with the requested one. *)
Theorem BKE_sculpt_attribute_ensure_cached (ob : Object CD) (d : AttrDomain)
    (ty : eCustomDataType) (nm : string) (prm : SculptAttributeParams)
    (t : pbvh_Type) (j : nat) :
  pbvh ob = Some t ->
  d <> OtherDomain ->
  sculpt_get_cached_layer ob d ty nm = Some j ->
  exists ob' a,
    BKE_sculpt_attribute_ensure ob d ty nm prm = Some (j, ob')
    /\ temp_attributes ob' !! j = Some a
    /\ used a = true
    /\ p_stroke_only (params a) = p_stroke_only prm
    /\ length (temp_attributes ob') = length (temp_attributes ob).
Proof.
  intros Hp Hd Hc.
  destruct (sculpt_attribute_ensure_ex_ok ob d ty nm prm t true Hd)
    as (j' & ob' & a & Hrun & Ha & Hu & _ & _ & _ & Hs & _ & Hl & _).
  { left. rewrite Hc. eexists. reflexivity. }
  pose proof (sculpt_attribute_ensure_ex_handle _ _ _ _ _ _ _ _ _ _ Hc Hrun) as ->.
  exists ob', a. unfold BKE_sculpt_attribute_ensure. rewrite Hp.
  cbn [mbind option_bind]. repeat split; assumption.
Qed.

(** The table has no room left: when every slot is in use and the key is
    not cached, ensuring the attribute has no defined result, for the
    allocation returns the null pointer and the caller writes through
    it. *)
Theorem BKE_sculpt_attribute_ensure_full (ob : Object CD) (d : AttrDomain)
    (ty : eCustomDataType) (nm : string) (prm : SculptAttributeParams) :
  (forall k a, temp_attributes ob !! k = Some a -> used a = true) ->
  sculpt_get_cached_layer ob d ty nm = None ->
  BKE_sculpt_attribute_ensure ob d ty nm prm = None.
Proof.
  intros Hfull Hc. unfold BKE_sculpt_attribute_ensure.
  destruct (pbvh ob) as [t |]; [| reflexivity]. cbn [mbind option_bind].
  assert (Halloc : sculpt_alloc_attr ob = None).
  { unfold sculpt_alloc_attr.
    assert (Ef : find_slot (fun attr => negb (used attr)) (temp_attributes ob) 0 = None).
    { apply find_slot_None. intros k a Ha. rewrite (Hfull k a Ha). reflexivity. }
    rewrite Ef. reflexivity. }
  unfold sculpt_attribute_ensure_ex, sculpt_attribute_get_ex. rewrite Hc.
  destruct (sculpt_get_cdata ob d) as [r |].
  - destruct (cdata_get ob r) as [cdata |]; [| reflexivity].
    cbn [mbind option_bind].
    destruct (negb (CustomData_get_named_layer_index cdata ty nm =? -1)).
    + rewrite Halloc. reflexivity.
    + cbn [mbind option_bind]. rewrite Halloc. reflexivity.
  - cbn [mbind option_bind]. rewrite Halloc. reflexivity.
Qed.

End Ensure.

End AttrEnsure.

(** * The attribute interface on the array of layers *)

Module AttrApiWitnesses.
Import AttrStore AttrSpec LayerArray LayerArrayFacts AttrApi AttrApiExamples.

Lemma BKE_sculpt_attribute_destroy_temporary_all_spec_witness :
  exists R,
    BKE_sculpt_attribute_destroy_temporary_all example_stale_object = Some R
    /\ length (temp_attributes R) = length (temp_attributes example_stale_object)
    /\ forall k a', temp_attributes R !! k = Some a' -> used a' = true ->
         exists a, temp_attributes example_stale_object !! k = Some a
                   /\ used a = true /\ p_permanent (params a) = true.
Proof.
  exact (AttrApiFacts.BKE_sculpt_attribute_destroy_temporary_all_spec
           example_stale_object).
Defined.

Lemma BKE_sculpt_attributes_destroy_temporary_stroke_spec_witness :
  exists R,
    BKE_sculpt_attributes_destroy_temporary_stroke example_stale_object = Some R
    /\ length (temp_attributes R) = length (temp_attributes example_stale_object)
    /\ (forall k a', temp_attributes R !! k = Some a' -> used a' = true ->
          p_stroke_only (params a') = false)
    /\ (forall k a', temp_attributes R !! k = Some a' -> used a' = true ->
          exists a, temp_attributes example_stale_object !! k = Some a
                    /\ used a = true).
Proof.
  exact (AttrApiFacts.BKE_sculpt_attributes_destroy_temporary_stroke_spec
           example_stale_object).
Defined.

Lemma BKE_sculpt_attribute_ensure_get_witness :
  exists j ob' a ob'',
    BKE_sculpt_attribute_ensure (example_object 3 Mesh) Point 10 "a"
      (example_params true) = Some (j, ob')
    /\ temp_attributes ob' !! j = Some a
    /\ used a = true /\ name a = "a" /\ domain a = Point /\ proptype a = 10
    /\ p_stroke_only (params a) = p_stroke_only (example_params true)
    /\ BKE_sculpt_attribute_get ob' Point 10 "a" = Some (Some j, ob'').
Proof.
  apply (AttrEnsure.BKE_sculpt_attribute_ensure_get (example_object 3 Mesh) Point 10 "a"
           (example_params true) Mesh).
  - reflexivity.
  - discriminate.
  - right. exists 0%nat, attr_zero. split; reflexivity.
Defined.

Lemma BKE_sculpt_attribute_ensure_cached_witness :
  exists ob' a,
    BKE_sculpt_attribute_ensure example_stale_object Point 10 "factor"
      {| p_simple_array := true; p_permanent := false; p_stroke_only := true |}
    = Some (0%nat, ob')
    /\ temp_attributes ob' !! 0%nat = Some a
    /\ used a = true
    /\ p_stroke_only (params a) = true
    /\ length (temp_attributes ob') = length (temp_attributes example_stale_object).
Proof.
  apply (AttrEnsure.BKE_sculpt_attribute_ensure_cached example_stale_object Point 10
           "factor"
           {| p_simple_array := true; p_permanent := false; p_stroke_only := true |}
           Mesh 0).
  - reflexivity.
  - discriminate.
  - reflexivity.
Defined.

Lemma BKE_sculpt_attribute_ensure_full_witness :
  BKE_sculpt_attribute_ensure example_full_object Point 10 "cavity"
    (example_params true) = None.
Proof.
  apply AttrEnsure.BKE_sculpt_attribute_ensure_full.
  - intros [| k] a Ha; [injection Ha as <-; reflexivity | discriminate].
  - reflexivity.
Defined.

End AttrApiWitnesses.

(** * Rounding to binary32 keeps the order *)

Module Binary32Facts.
Import Binary32.

Local Open Scope Q_scope.

Lemma two_power_pos (z : Z) : 0 < 2 ^ z.
Proof. apply Qpower_0_lt. reflexivity. Qed.

Lemma two_power_succ (z : Z) : 2 ^ (z + 1) == 2 * 2 ^ z.
Proof. rewrite Qpower_plus by discriminate. ring. Qed.

Lemma two_power_inject (z : Z) : (0 <= z)%Z -> inject_Z (2 ^ z) == 2 ^ z.
Proof. intros Hz. apply (Zpower_Qpower 2 z Hz). Qed.

(** ** The nearest integer *)

Lemma round_half_even_cases (m : Q) :
  round_half_even m = Qfloor m \/ round_half_even m = (Qfloor m + 1)%Z.
Proof.
  unfold round_half_even. cbv zeta.
  destruct (ltb _ _); [auto |]. destruct (ltb _ _); [auto |].
  destruct (Z.even _); auto.
Qed.

Lemma round_half_even_mono (m1 m2 : Q) :
  m1 <= m2 -> (round_half_even m1 <= round_half_even m2)%Z.
Proof.
  intros Hm. pose proof (Qfloor_resp_le _ _ Hm) as Hf.
  destruct (Z.eq_dec (Qfloor m1) (Qfloor m2)) as [E | Hne].
  - unfold round_half_even. cbv zeta. rewrite E.
    destruct (ltb (m1 - inject_Z (Qfloor m2)) (1 # 2)) eqn:A1.
    + destruct (ltb (m2 - inject_Z (Qfloor m2)) (1 # 2)); [lia |].
      destruct (ltb (1 # 2) (m2 - inject_Z (Qfloor m2))); [lia |].
      destruct (Z.even (Qfloor m2)); lia.
    + apply ltb_ge in A1.
      destruct (ltb (m2 - inject_Z (Qfloor m2)) (1 # 2)) eqn:A2;
        [apply ltb_lt in A2; exfalso; lra |].
      destruct (ltb (1 # 2) (m1 - inject_Z (Qfloor m2))) eqn:B1.
      * apply ltb_lt in B1.
        destruct (ltb (1 # 2) (m2 - inject_Z (Qfloor m2))) eqn:B2; [lia |].
        apply ltb_ge in B2. exfalso. lra.
      * destruct (ltb (1 # 2) (m2 - inject_Z (Qfloor m2))); [| lia].
        destruct (Z.even (Qfloor m2)); lia.
  - destruct (round_half_even_cases m1) as [-> | ->];
      destruct (round_half_even_cases m2) as [-> | ->]; lia.
Qed.

Lemma round_half_even_ge (m : Q) (k : Z) :
  inject_Z k <= m -> (k <= round_half_even m)%Z.
Proof.
  intros Hk. pose proof (Qfloor_resp_le _ _ Hk) as Hf. rewrite Qfloor_Z in Hf.
  destruct (round_half_even_cases m) as [-> | ->]; lia.
Qed.

Lemma round_half_even_le (m : Q) (k : Z) :
  m <= inject_Z k -> (round_half_even m <= k)%Z.
Proof.
  intros Hk. pose proof (Qfloor_resp_le _ _ Hk) as Hf. rewrite Qfloor_Z in Hf.
  destruct (Z.eq_dec (Qfloor m) k) as [E | Hne].
  - unfold round_half_even. cbv zeta. rewrite E.
    assert (Hr : ltb (m - inject_Z k) (1 # 2) = true) by (apply ltb_lt; lra).
    rewrite Hr. lia.
  - destruct (round_half_even_cases m) as [-> | ->]; lia.
Qed.

(** ** The exponent *)

Lemma floor_log2_spec (a : Q) :
  0 < a -> 2 ^ floor_log2 a <= a /\ a < 2 ^ (floor_log2 a + 1).
Proof.
  intros Ha. destruct a as [N D].
  assert (HN : (0 < N)%Z) by (unfold Qlt in Ha; cbn in Ha; lia).
  unfold floor_log2. cbn [Qnum Qden].
  set (p := Z.log2 N). set (q := Z.log2 (Z.pos D)).
  destruct (Z.log2_spec N HN) as [Hp1 Hp2]. fold p in Hp1, Hp2.
  destruct (Z.log2_spec (Z.pos D) (Pos2Z.is_pos D)) as [Hq1 Hq2]. fold q in Hq1, Hq2.
  assert (Hp0 : (0 <= p)%Z) by apply Z.log2_nonneg.
  assert (Hq0 : (0 <= q)%Z) by apply Z.log2_nonneg.
  (* the bounds in Q *)
  assert (HNq : 2 ^ p <= inject_Z N /\ inject_Z N < 2 * 2 ^ p).
  { rewrite <- two_power_succ, <- !two_power_inject by lia.
    rewrite <- Zle_Qle, <- Zlt_Qlt. replace (p + 1)%Z with (Z.succ p) by lia.
    split; assumption. }
  assert (HDq : 2 ^ q <= inject_Z (Z.pos D) /\ inject_Z (Z.pos D) < 2 * 2 ^ q).
  { rewrite <- two_power_succ, <- !two_power_inject by lia.
    rewrite <- Zle_Qle, <- Zlt_Qlt. replace (q + 1)%Z with (Z.succ q) by lia.
    split; assumption. }
  assert (Hval : (N # D) * inject_Z (Z.pos D) == inject_Z N).
  { rewrite (Qmake_Qdiv N D). field. discriminate. }
  assert (He : 2 ^ (p - q) * 2 ^ q == 2 ^ p).
  { rewrite <- Qpower_plus by discriminate. replace (p - q + q)%Z with p by lia.
    reflexivity. }
  pose proof (two_power_pos (p - q)) as Hpe.
  pose proof (two_power_pos q) as Hpq.
  pose proof (two_power_pos p) as Hpp.
  destruct (Qle_bool (2 ^ (p - q)) (N # D)) eqn:Eb.
  - apply Qle_bool_iff in Eb. split; [exact Eb |].
    rewrite two_power_succ.
    apply Qnot_le_lt. intros Hc.
    assert (H1 : 2 * 2 ^ (p - q) * inject_Z (Z.pos D) <= (N # D) * inject_Z (Z.pos D)).
    { apply Qmult_le_compat_r; [exact Hc | lra]. }
    assert (H2 : 2 * 2 ^ (p - q) * 2 ^ q <= 2 * 2 ^ (p - q) * inject_Z (Z.pos D)).
    { apply Qmult_le_l; lra. }
    lra.
  - assert (Hlt : N # D < 2 ^ (p - q)).
    { apply Qnot_le_lt. intros Hc. apply Qle_bool_iff in Hc. congruence. }
    replace (p - q - 1 + 1)%Z with (p - q)%Z by lia. split; [| exact Hlt].
    assert (He1 : 2 * 2 ^ (p - q - 1) == 2 ^ (p - q)).
    { rewrite <- two_power_succ. replace (p - q - 1 + 1)%Z with (p - q)%Z by lia.
      reflexivity. }
    pose proof (two_power_pos (p - q - 1)) as Hpe1.
    apply Qnot_lt_le. intros Hc.
    assert (H1 : (N # D) * inject_Z (Z.pos D) <= 2 ^ (p - q - 1) * inject_Z (Z.pos D)).
    { apply Qmult_le_compat_r; lra. }
    assert (H2 : 2 ^ (p - q - 1) * inject_Z (Z.pos D)
                 <= 2 ^ (p - q - 1) * (2 * 2 ^ q)).
    { apply Qmult_le_l; lra. }
    assert (H3 : 2 ^ (p - q - 1) * (2 * 2 ^ q) == 2 ^ p).
    { rewrite <- He, <- He1. ring. }
    (* N = a*D <= 2^(e-1) * D < 2^(e-1) * 2 * 2^q = 2^p <= N, strictly *)
    assert (H2' : 2 ^ (p - q - 1) * inject_Z (Z.pos D)
                  < 2 ^ (p - q - 1) * (2 * 2 ^ q)).
    { apply Qmult_lt_l; lra. }
    lra.
Qed.

Lemma floor_log2_mono (a b : Q) :
  0 < a -> a <= b -> (floor_log2 a <= floor_log2 b)%Z.
Proof.
  intros Ha Hab.
  destruct (floor_log2_spec a Ha) as [Ha1 _].
  destruct (floor_log2_spec b) as [_ Hb2]; [lra |].
  assert (Hlt : 2 ^ floor_log2 a < 2 ^ (floor_log2 b + 1)) by lra.
  apply Qpower_lt_compat_l_inv in Hlt; [lia | reflexivity].
Qed.

(** ** The rounding *)

Lemma eqb_false (q : Q) : ~ q == 0 -> eqb q 0 = false.
Proof.
  intros Hq. unfold eqb. destruct (Qeq_bool q 0) eqn:E; [| reflexivity].
  apply Qeq_bool_iff in E. contradiction.
Qed.

Lemma Qabs_of_pos (q : Q) : 0 < q -> Qabs q = q.
Proof.
  intros Hq. destruct q as [N D]. unfold Qlt in Hq. cbn in Hq.
  unfold Qabs. rewrite Z.abs_eq by lia. reflexivity.
Qed.

Lemma b32_pos (q : Q) :
  0 < q ->
  b32 q == inject_Z (round_half_even (q / 2 ^ (floor_log2 q - 23)))
           * 2 ^ (floor_log2 q - 23).
Proof.
  intros Hq. unfold b32. rewrite eqb_false by lra.
  rewrite (Qabs_of_pos q Hq). cbv zeta. rewrite Qred_correct.
  assert (Hs : ltb q 0 = false) by (apply ltb_ge; lra).
  rewrite Hs. ring.
Qed.

(** A positive number is rounded inside its binade. *)
Lemma b32_pos_bounds (q : Q) :
  0 < q -> 2 ^ floor_log2 q <= b32 q /\ b32 q <= 2 ^ (floor_log2 q + 1).
Proof.
  intros Hq. rewrite (b32_pos q Hq).
  destruct (floor_log2_spec q Hq) as [H1 H2].
  set (e := floor_log2 q) in *. set (s := (e - 23)%Z).
  pose proof (two_power_pos s) as Hs.
  assert (He : 2 ^ e == 8388608 * 2 ^ s).
  { replace e with (23 + s)%Z by (unfold s; lia).
    rewrite Qpower_plus by discriminate. reflexivity. }
  assert (He1 : 2 ^ (e + 1) == 16777216 * 2 ^ s).
  { rewrite two_power_succ, He. ring. }
  assert (Hm1 : inject_Z 8388608 <= q / 2 ^ s).
  { apply Qle_shift_div_l; [exact Hs |]. change (inject_Z 8388608) with 8388608. lra. }
  assert (Hm2 : q / 2 ^ s <= inject_Z 16777216).
  { apply Qle_shift_div_r; [exact Hs |]. change (inject_Z 16777216) with 16777216. lra. }
  apply round_half_even_ge in Hm1. apply round_half_even_le in Hm2.
  rewrite Zle_Qle in Hm1, Hm2.
  change (inject_Z 8388608) with 8388608 in Hm1.
  change (inject_Z 16777216) with 16777216 in Hm2.
  rewrite He, He1. split; apply Qmult_le_compat_r; lra.
Qed.

Lemma b32_mono_pos (a b : Q) : 0 < a -> a <= b -> b32 a <= b32 b.
Proof.
  intros Ha Hab. assert (Hb : 0 < b) by lra.
  pose proof (floor_log2_mono a b Ha Hab) as He.
  destruct (Z.eq_dec (floor_log2 a) (floor_log2 b)) as [E | Hne].
  - rewrite (b32_pos a Ha), (b32_pos b Hb), E.
    pose proof (two_power_pos (floor_log2 b - 23)) as Hs.
    apply Qmult_le_compat_r; [| lra].
    rewrite <- Zle_Qle. apply round_half_even_mono.
    apply Qmult_le_compat_r; [exact Hab |].
    apply Qlt_le_weak, Qinv_lt_0_compat. exact Hs.
  - destruct (b32_pos_bounds a Ha) as [_ Ha2].
    destruct (b32_pos_bounds b Hb) as [Hb1 _].
    assert (Hpow : 2 ^ (floor_log2 a + 1) <= 2 ^ floor_log2 b).
    { apply Qpower_le_compat_l; [lia | discriminate]. }
    lra.
Qed.

Lemma b32_zero (q : Q) : q == 0 -> b32 q == 0.
Proof.
  intros Hq. unfold b32.
  assert (E : eqb q 0 = true) by (apply Qeq_bool_iff; exact Hq).
  rewrite E. reflexivity.
Qed.

Lemma b32_nonneg (q : Q) : 0 <= q -> 0 <= b32 q.
Proof.
  intros Hq. destruct (Qlt_le_dec 0 q) as [Hp | Hz].
  - destruct (b32_pos_bounds q Hp) as [H1 _].
    pose proof (two_power_pos (floor_log2 q)). lra.
  - rewrite b32_zero by lra. lra.
Qed.

Lemma b32_opp (q : Q) : b32 (- q) == - b32 q.
Proof.
  destruct (Qeq_dec q 0) as [Hz | Hnz].
  - rewrite !b32_zero by lra. reflexivity.
  - unfold b32. rewrite !eqb_false by lra.
    assert (Habs : Qabs (- q) = Qabs q).
    { destruct q as [N D]. unfold Qabs, Qopp. cbn. rewrite Z.abs_opp. reflexivity. }
    rewrite Habs. cbv zeta. rewrite !Qred_correct.
    destruct (Qlt_le_dec q 0) as [Hneg | Hpos].
    + assert (E1 : ltb q 0 = true) by (apply ltb_lt; exact Hneg).
      assert (E2 : ltb (- q) 0 = false) by (apply ltb_ge; lra).
      rewrite E1, E2. ring.
    + assert (E1 : ltb q 0 = false) by (apply ltb_ge; exact Hpos).
      assert (E2 : ltb (- q) 0 = true) by (apply ltb_lt; lra).
      rewrite E1, E2. ring.
Qed.

(** Rounding to binary32 keeps the order of the numbers. *)
Lemma b32_mono (a b : Q) : a <= b -> b32 a <= b32 b.
Proof.
  intros Hab. destruct (Qlt_le_dec 0 a) as [Ha | Ha].
  - apply b32_mono_pos; assumption.
  - destruct (Qlt_le_dec b 0) as [Hb | Hb].
    + assert (H1 : b32 (- b) <= b32 (- a)) by (apply b32_mono_pos; lra).
      rewrite !b32_opp in H1. lra.
    + pose proof (b32_nonneg b Hb) as H2.
      assert (H1 : 0 <= b32 (- a)) by (apply b32_nonneg; lra).
      rewrite b32_opp in H1. lra.
Qed.

End Binary32Facts.

(** * The palette comparators *)

Module PaletteSortFacts.
Import Binary32 PaletteSort.

Lemma compare_key_cases (a b : float) :
  (compare_key a b = 1 /\ (b < a)%Q)
  \/ (compare_key a b = -1 /\ (a < b)%Q)
  \/ (compare_key a b = 0 /\ (a == b)%Q).
Proof.
  unfold compare_key, gtb.
  destruct (ltb b a) eqn:E1.
  - left. split; [reflexivity | apply ltb_lt; exact E1].
  - apply ltb_ge in E1. destruct (ltb a b) eqn:E2.
    + right. left. split; [reflexivity | apply ltb_lt; exact E2].
    + apply ltb_ge in E2. right. right. split; [reflexivity | lra].
Qed.

Lemma compare_key_antisym (a b : float) : compare_key b a = - compare_key a b.
Proof.
  destruct (compare_key_cases a b) as [[-> ?] | [[-> ?] | [-> ?]]];
    destruct (compare_key_cases b a) as [[-> ?] | [[-> ?] | [-> ?]]];
    try reflexivity; exfalso; lra.
Qed.

Lemma compare_keys_antisym (k1 k2 : list float) :
  compare_keys k2 k1 = - compare_keys k1 k2.
Proof.
  revert k2. induction k1 as [| a k1 IH]; intros [| b k2]; try reflexivity.
  cbn [compare_keys]. rewrite (compare_key_antisym a b), IH.
  destruct (compare_key_cases a b) as [[-> ?] | [[-> ?] | [-> ?]]]; reflexivity.
Qed.

(** The comparison of key lists of the same length is transitive, for
    each of the three outcomes. *)
Lemma compare_keys_trans (k1 k2 k3 : list float) :
  length k1 = length k2 -> length k2 = length k3 ->
  compare_keys k1 k2 <= 0 -> compare_keys k2 k3 <= 0 ->
  compare_keys k1 k3 <= 0
  /\ (compare_keys k1 k3 = 0 -> compare_keys k1 k2 = 0 /\ compare_keys k2 k3 = 0).
Proof.
  revert k2 k3. induction k1 as [| a k1 IH]; intros [| b k2] [| c k3] L1 L2;
    try discriminate; cbn [compare_keys].
  - intros _ _. split; [lia | auto].
  - injection L1 as L1. injection L2 as L2. specialize (IH k2 k3 L1 L2).
    destruct (compare_key_cases a b) as [[-> ?] | [[-> ?] | [-> ?]]];
      destruct (compare_key_cases b c) as [[-> ?] | [[-> ?] | [-> ?]]];
      destruct (compare_key_cases a c) as [[-> ?] | [[-> ?] | [-> ?]]];
      cbn [Z.eqb Pos.eqb]; try (exfalso; lra); try lia; try (intros; split; [lia | lia]).
Qed.

Section Keys.
Variable rnd : float -> float.

(** Each comparator compares a list of three keys, the first difference
    deciding; the value enters as the rounded [1 - v]. *)
Lemma palettecolor_compare_hsv_keys (ps1 ps2 : tPaletteColorHSV) :
  palettecolor_compare_hsv rnd ps1 ps2
  = compare_keys [h ps1; s ps1; rnd (1 - v ps1)%Q] [h ps2; s ps2; rnd (1 - v ps2)%Q].
Proof.
  unfold palettecolor_compare_hsv, compare_keys, compare_key.
  repeat (destruct (gtb _ _); [reflexivity |]; destruct (ltb _ _); [reflexivity |];
          cbn [Z.eqb]).
  reflexivity.
Qed.

Lemma palettecolor_compare_svh_keys (ps1 ps2 : tPaletteColorHSV) :
  palettecolor_compare_svh rnd ps1 ps2
  = compare_keys [s ps1; rnd (1 - v ps1)%Q; h ps1] [s ps2; rnd (1 - v ps2)%Q; h ps2].
Proof.
  unfold palettecolor_compare_svh, compare_keys, compare_key.
  repeat (destruct (gtb _ _); [reflexivity |]; destruct (ltb _ _); [reflexivity |];
          cbn [Z.eqb]).
  reflexivity.
Qed.

Lemma palettecolor_compare_vhs_keys (ps1 ps2 : tPaletteColorHSV) :
  palettecolor_compare_vhs rnd ps1 ps2
  = compare_keys [rnd (1 - v ps1)%Q; h ps1; s ps1] [rnd (1 - v ps2)%Q; h ps2; s ps2].
Proof.
  unfold palettecolor_compare_vhs, compare_keys, compare_key.
  repeat (destruct (gtb _ _); [reflexivity |]; destruct (ltb _ _); [reflexivity |];
          cbn [Z.eqb]).
  reflexivity.
Qed.

Lemma palettecolor_compare_luminance_keys (ps1 ps2 : tPaletteColorHSV) :
  palettecolor_compare_luminance rnd ps1 ps2
  = compare_keys [luminance rnd ps2] [luminance rnd ps1].
Proof.
  unfold palettecolor_compare_luminance, compare_keys, compare_key, gtb.
  cbv zeta.
  destruct (ltb (luminance rnd ps2) (luminance rnd ps1)) eqn:E1;
    destruct (ltb (luminance rnd ps1) (luminance rnd ps2)) eqn:E2; try reflexivity.
  apply ltb_lt in E1. apply ltb_lt in E2. exfalso. lra.
Qed.

End Keys.

Ltac to_keys :=
  rewrite ?palettecolor_compare_hsv_keys, ?palettecolor_compare_svh_keys,
    ?palettecolor_compare_vhs_keys, ?palettecolor_compare_luminance_keys.

(** Swapping the arguments of a comparator negates its result, so that
    the four comparators give [qsort] a consistent order: a color is
    never both before and after another one.  This holds whatever the
    rounding of the float operations. *)
Theorem palettecolor_compare_antisym (rnd : float -> float)
    (ps1 ps2 : tPaletteColorHSV) :
  palettecolor_compare_hsv rnd ps2 ps1 = - palettecolor_compare_hsv rnd ps1 ps2
  /\ palettecolor_compare_svh rnd ps2 ps1 = - palettecolor_compare_svh rnd ps1 ps2
  /\ palettecolor_compare_vhs rnd ps2 ps1 = - palettecolor_compare_vhs rnd ps1 ps2
  /\ palettecolor_compare_luminance rnd ps2 ps1
     = - palettecolor_compare_luminance rnd ps1 ps2.
Proof.
  to_keys. repeat split; apply compare_keys_antisym.
Qed.

(** The order of each of the four comparators is transitive: when [ps1]
    does not come after [ps2] and [ps2] does not come after [ps3], then
    [ps1] does not come after [ps3].  This holds whatever the rounding of
    the float operations. *)
Theorem palettecolor_compare_trans (rnd : float -> float)
    (cmp : tPaletteColorHSV -> tPaletteColorHSV -> Z) (ps1 ps2 ps3 : tPaletteColorHSV) :
  In cmp [palettecolor_compare_hsv rnd; palettecolor_compare_svh rnd;
          palettecolor_compare_vhs rnd; palettecolor_compare_luminance rnd] ->
  cmp ps1 ps2 <= 0 -> cmp ps2 ps3 <= 0 -> cmp ps1 ps3 <= 0.
Proof.
  intros [<- | [<- | [<- | [<- | []]]]]; to_keys; intros H1 H2.
  1-3: eapply proj1, compare_keys_trans; [| | exact H1 | exact H2]; reflexivity.
  eapply proj1, compare_keys_trans; [| | exact H2 | exact H1]; reflexivity.
Qed.

(** The value descends where hue and saturation ascend, as far as the
    rounding lets it: with a rounding that keeps the order of the numbers,
    of two colors with the same hue and saturation the one with the
    larger value never comes after the other, under each of the three
    orders on hue, saturation and value.  The two compare equal when the
    rounded [1 - v] coincide. *)
Theorem palettecolor_compare_value_descending (rnd : float -> float)
    (ps1 ps2 : tPaletteColorHSV) :
  (forall a b : float, (a <= b)%Q -> (rnd a <= rnd b)%Q) ->
  (h ps1 == h ps2)%Q -> (s ps1 == s ps2)%Q -> (v ps2 <= v ps1)%Q ->
  palettecolor_compare_hsv rnd ps1 ps2 <= 0
  /\ palettecolor_compare_svh rnd ps1 ps2 <= 0
  /\ palettecolor_compare_vhs rnd ps1 ps2 <= 0.
Proof.
  intros Hmono Hh Hs Hv. to_keys. cbn [compare_keys].
  assert (Hk : (rnd (1 - v ps1) <= rnd (1 - v ps2))%Q) by (apply Hmono; lra).
  destruct (compare_key_cases (h ps1) (h ps2)) as [[-> ?] | [[-> ?] | [-> ?]]];
    try (exfalso; lra).
  destruct (compare_key_cases (s ps1) (s ps2)) as [[-> ?] | [[-> ?] | [-> ?]]];
    try (exfalso; lra).
  destruct (compare_key_cases (rnd (1 - v ps1)%Q) (rnd (1 - v ps2)%Q))
    as [[-> ?] | [[-> ?] | [-> ?]]]; try (exfalso; lra);
    cbn [Z.eqb Pos.eqb]; lia.
Qed.

(** Two colors compare equal under the three orders on hue, saturation
    and value exactly when they have the same hue, the same saturation
    and the same rounded [1 - v]; only such colors are left in an order
    that [qsort] does not determine. *)
Theorem palettecolor_compare_zero (rnd : float -> float) (ps1 ps2 : tPaletteColorHSV) :
  (palettecolor_compare_hsv rnd ps1 ps2 = 0
   <-> (h ps1 == h ps2)%Q /\ (s ps1 == s ps2)%Q
       /\ (rnd (1 - v ps1) == rnd (1 - v ps2))%Q)
  /\ (palettecolor_compare_svh rnd ps1 ps2 = 0
      <-> (h ps1 == h ps2)%Q /\ (s ps1 == s ps2)%Q
          /\ (rnd (1 - v ps1) == rnd (1 - v ps2))%Q)
  /\ (palettecolor_compare_vhs rnd ps1 ps2 = 0
      <-> (h ps1 == h ps2)%Q /\ (s ps1 == s ps2)%Q
          /\ (rnd (1 - v ps1) == rnd (1 - v ps2))%Q).
Proof.
  to_keys. cbn [compare_keys].
  destruct (compare_key_cases (h ps1) (h ps2)) as [[-> ?] | [[-> ?] | [-> ?]]];
    destruct (compare_key_cases (s ps1) (s ps2)) as [[-> ?] | [[-> ?] | [-> ?]]];
    destruct (compare_key_cases (rnd (1 - v ps1)%Q) (rnd (1 - v ps2)%Q))
      as [[-> ?] | [[-> ?] | [-> ?]]];
    cbn [Z.eqb Pos.eqb];
    repeat split; try discriminate; try reflexivity; try lra; try assumption;
    try (intros (? & ? & ?); exfalso; lra).
Qed.

(** In binary32, two values below the resolution of [1.0f - v] tie: the
    colors with the values 2^-30 and 2^-31 compare equal. *)
Lemma palettecolor_compare_binary32_tie :
  palettecolor_compare_hsv b32
    (example_color 0 0 0 (1 # 4) (1 # 2) (1 # 2 ^ 30))
    (example_color 0 0 0 (1 # 4) (1 # 2) (1 # 2 ^ 31)) = 0.
Proof. vm_compute. reflexivity. Qed.

Lemma palettecolor_compare_trans_witness :
  palettecolor_compare_svh b32 (example_color 0 0 0 (1 # 4) (1 # 2) 1)
    (example_color 0 0 0 (3 # 4) (1 # 2) (1 # 2)) <= 0.
Proof.
  apply (palettecolor_compare_trans b32 (palettecolor_compare_svh b32)
           (example_color 0 0 0 (1 # 4) (1 # 2) 1)
           (example_color 0 0 0 (1 # 2) (1 # 2) 1)
           (example_color 0 0 0 (3 # 4) (1 # 2) (1 # 2))).
  - right. left. reflexivity.
  - vm_compute. discriminate.
  - vm_compute. discriminate.
Defined.

Lemma palettecolor_compare_value_descending_witness :
  palettecolor_compare_hsv b32 (example_color 0 0 0 (1 # 4) (1 # 2) 1)
    (example_color 0 0 0 (1 # 4) (1 # 2) (1 # 3)) <= 0
  /\ palettecolor_compare_svh b32 (example_color 0 0 0 (1 # 4) (1 # 2) 1)
       (example_color 0 0 0 (1 # 4) (1 # 2) (1 # 3)) <= 0
  /\ palettecolor_compare_vhs b32 (example_color 0 0 0 (1 # 4) (1 # 2) 1)
       (example_color 0 0 0 (1 # 4) (1 # 2) (1 # 3)) <= 0.
Proof.
  apply (palettecolor_compare_value_descending b32
           (example_color 0 0 0 (1 # 4) (1 # 2) 1)
           (example_color 0 0 0 (1 # 4) (1 # 2) (1 # 3))).
  - exact Binary32Facts.b32_mono.
  - reflexivity.
  - reflexivity.
  - vm_compute. discriminate.
Defined.

End PaletteSortFacts.

(** * The rake rotation *)

Module RakeFacts.
Import Rake.

Section Facts.
Context `{Externals} {PaintMode : Type} `{RakeExternals PaintMode}.

Local Open Scope Q_scope.

(** The limit is one of 1, 4 and 20. *)
Lemma rake_limit_cases (brush : Brush) (started : bool) :
  rake_limit brush started = 1 \/ rake_limit brush started = 4
  \/ rake_limit brush started = 20.
Proof.
  unfold rake_limit, paint_rake_rotation_spacing, min_ff.
  destruct (_ =? _)%Z; destruct started; cbn; auto.
Qed.

Lemma rake_limit_square (brush : Brush) (started : bool) :
  1 <= rake_limit brush started * rake_limit brush started <= 400.
Proof.
  destruct (rake_limit_cases brush started) as [-> | [-> | ->]]; lra.
Qed.

Lemma len_squared_v2_same (p : float * float) :
  len_squared_v2 (sub_v2_v2v2 p p) == 0.
Proof. unfold len_squared_v2, sub_v2_v2v2. cbn. ring. Qed.

Lemma paint_update_brush_rake_rotation_fields (ups : UnifiedPaintSettings)
    (brush : Brush) (rotation : float) :
  let ups' := paint_update_brush_rake_rotation ups brush rotation in
  brush_rotation ups' = rotation
  /\ last_rake ups' = last_rake ups
  /\ last_rake_angle ups' = last_rake_angle ups
  /\ brush_rotation_sec ups'
     = (if has_flag (brush_angle_mode (mask_mtex brush)) MTEX_ANGLE_RAKE
        then rotation else 0).
Proof.
  unfold paint_update_brush_rake_rotation.
  destruct (has_flag _ _); cbn; auto.
Qed.

(** Setting the rotation a slot already holds changes nothing. *)
Lemma paint_update_brush_rake_rotation_again (ups : UnifiedPaintSettings)
    (brush : Brush) (rotation : float) :
  let ups' := paint_update_brush_rake_rotation ups brush rotation in
  paint_update_brush_rake_rotation ups' brush rotation = ups'.
Proof.
  unfold paint_update_brush_rake_rotation.
  destruct (has_flag _ _); reflexivity.
Qed.

(** A second call at the same mouse position leaves the settings as the
    first call left them; with the rake active it reports no update, for
    the mouse has not moved since the position was recorded, or has moved
    as little as before. *)
Theorem paint_calculate_rake_rotation_again (ups : UnifiedPaintSettings)
    (brush : Brush) (mouse_pos : float * float) (paint_mode : PaintMode)
    (stroke_has_started : bool) :
  let r := paint_calculate_rake_rotation ups brush mouse_pos paint_mode
             stroke_has_started in
  paint_calculate_rake_rotation r.2 brush mouse_pos paint_mode stroke_has_started
  = (negb (paint_rake_rotation_active brush paint_mode), r.2).
Proof.
  unfold paint_calculate_rake_rotation.
  destruct (paint_rake_rotation_active brush paint_mode); cbv zeta; [| reflexivity].
  cbn [negb].
  destruct (ltb (len_squared_v2 (sub_v2_v2v2 mouse_pos (last_rake ups))) _) eqn:Emove;
    cbn [negb snd].
  - (* the first call did not update *)
    destruct (paint_update_brush_rake_rotation_fields ups brush (last_rake_angle ups))
      as (_ & -> & -> & _).
    rewrite Emove. cbn [negb]. f_equal.
    apply paint_update_brush_rake_rotation_again.
  - (* the first call recorded the position *)
    set (rotation := atan2f _ _ + _).
    set (ups1 := set_last_rake_angle (set_last_rake ups mouse_pos) rotation).
    destruct (paint_update_brush_rake_rotation_fields ups1 brush rotation)
      as (_ & -> & -> & _).
    cbn [ups1 set_last_rake_angle set_last_rake last_rake last_rake_angle].
    assert (Hstill : ltb (len_squared_v2 (sub_v2_v2v2 mouse_pos mouse_pos))
                       (rake_limit brush stroke_has_started
                        * rake_limit brush stroke_has_started) = true).
    { apply ltb_lt. rewrite len_squared_v2_same.
      pose proof (rake_limit_square brush stroke_has_started). lra. }
    rewrite Hstill. cbn [negb]. f_equal.
    apply paint_update_brush_rake_rotation_again.
Qed.


(** What a call leaves in the two rotations.  The primary rotation is the
    recorded rake angle when the rake is active and zero when it is not;
    the secondary rotation equals the primary one when the mask texture
    follows the rake and the rake is active, and is zero otherwise. *)
Theorem paint_calculate_rake_rotation_rotations (ups : UnifiedPaintSettings)
    (brush : Brush) (mouse_pos : float * float) (paint_mode : PaintMode)
    (stroke_has_started : bool) :
  let r := paint_calculate_rake_rotation ups brush mouse_pos paint_mode
             stroke_has_started in
  brush_rotation r.2
  = (if paint_rake_rotation_active brush paint_mode then last_rake_angle r.2 else 0)
  /\ brush_rotation_sec r.2
     = (if paint_rake_rotation_active brush paint_mode
           && has_flag (brush_angle_mode (mask_mtex brush)) MTEX_ANGLE_RAKE
        then brush_rotation r.2 else 0).
Proof.
  unfold paint_calculate_rake_rotation.
  destruct (paint_rake_rotation_active brush paint_mode); cbv zeta; [| split; reflexivity].
  cbn [andb].
  destruct (ltb _ _); cbn [negb snd];
    match goal with
    | |- context [paint_update_brush_rake_rotation ?u brush ?rot] =>
        destruct (paint_update_brush_rake_rotation_fields u brush rot)
          as (-> & _ & -> & ->)
    end; split; try reflexivity; destruct (has_flag _ _); reflexivity.
Qed.

End Facts.


End RakeFacts.

(** * Paint modes *)

Module PaintModesFacts.
Import PaintModes.

(** The case labels are pairwise different. *)
Ltac labels_differ :=
  let Hl := fresh "Hl" in
  pose proof switch_labels as Hl;
  repeat match goal with
    | H : NoDup (_ :: _) |- _ =>
        let Hn := fresh "Hn" in apply NoDup_cons in H as [Hn H]
    end;
  repeat match goal with
    | H : _ ∉ _ :: _ |- _ =>
        let Hn := fresh "Hn" in apply not_elem_of_cons in H as [Hn H]
    end.

(** Decide the tests of a switch on a mode. *)
Ltac switch_cases :=
  repeat match goal with
    | |- context [?a =? ?b] => destruct (Z.eqb_spec a b)
    | H : context [?a =? ?b] |- _ => destruct (Z.eqb_spec a b)
    end.

Section Facts.
Context `{ObjectModes}.

(** The paint settings of the paint mode that a context is in are the
    paint settings active in the context, except for an active object in
    the vertex paint mode of legacy grease pencil, or in the sculpt mode
    of grease pencil without being a grease pencil object, outside the
    image editor: there the two functions part. *)
Theorem BKE_paintmode_get_active_from_context_agrees (C : bContext) :
  BKE_paint_get_active_from_paintmode (CTX_data_scene C)
    (BKE_paintmode_get_active_from_context C)
  = BKE_paint_get_active_from_context C
  <-> ~ unmatched C.
Proof.
  labels_differ.
  unfold unmatched, BKE_paint_get_active_from_context,
    BKE_paintmode_get_active_from_context, BKE_paint_get_active,
    BKE_paint_get_active_from_paintmode.
  destruct C as [sce vl sima obact]. cbn [CTX_data_scene CTX_data_view_layer
    CTX_wm_space_image BKE_view_layer_active_object_get].
  destruct sce, vl; cbn [andb];
    try (split; [intros _ (? & ? & _); discriminate | reflexivity]).
  destruct sima as [sima_mode |].
  - split; [intros _ (_ & _ & ? & _); discriminate | intros _].
    destruct obact as [ob |]; [| reflexivity].
    destruct (mode ob =? OB_MODE_EDIT); [| reflexivity].
    destruct (sima_mode =? SI_MODE_PAINT); reflexivity.
  - destruct obact as [ob |].
    + split.
      * intros Hagree (_ & _ & _ & ob' & [= <-] & Hbad).
        destruct Hbad as [Hm | (Hm & Ht1 & Ht2)]; rewrite Hm in Hagree;
          switch_cases; try congruence.
      * intros Hgood.
        assert (Hv : mode ob <> OB_MODE_VERTEX_GPENCIL_LEGACY).
        { intros Hm. apply Hgood. repeat split; try reflexivity.
          exists ob. auto. }
        assert (Hs : mode ob = OB_MODE_SCULPT_GPENCIL_LEGACY ->
                     type ob = OB_GPENCIL_LEGACY \/ type ob = OB_GREASE_PENCIL).
        { intros Hm.
          destruct (Z.eq_dec (type ob) OB_GPENCIL_LEGACY) as [| Ht1]; [auto |].
          destruct (Z.eq_dec (type ob) OB_GREASE_PENCIL) as [| Ht2]; [auto |].
          exfalso. apply Hgood. repeat split; try reflexivity.
          exists ob. auto. }
        clear Hgood.
        switch_cases; try reflexivity; try congruence;
          exfalso; destruct Hs as [? | ?]; congruence.
    + split; [intros _ (_ & _ & _ & ob' & ? & _); discriminate | reflexivity].
Qed.

(** Which object mode stands for a paint mode: an active object in the
    object mode of a paint mode makes the paint settings of that paint
    mode the active ones, for the eight paint modes that
    [BKE_paint_object_mode_from_paintmode] maps to a mode of their own. *)
Theorem BKE_paint_object_mode_from_paintmode_active (m : PaintMode) (ty : Z) :
  m <> VertexGPencil -> m <> SculptGPencil -> m <> WeightGPencil -> m <> Invalid ->
  BKE_paint_get_active true true
    (Some {| type := ty; mode := BKE_paint_object_mode_from_paintmode m |})
  = BKE_paint_get_active_from_paintmode true m.
Proof.
  intros H1 H2 H3 H4. labels_differ.
  unfold BKE_paint_get_active, BKE_paint_get_active_from_paintmode,
    BKE_paint_object_mode_from_paintmode.
  cbn [andb mode].
  destruct m; try congruence; switch_cases; try reflexivity; congruence.
Qed.

End Facts.

Lemma BKE_paint_object_mode_from_paintmode_active_witness :
  @BKE_paint_get_active example_object_modes true true
    (Some {| type := 1;
             mode := @BKE_paint_object_mode_from_paintmode example_object_modes
                       SculptGreasePencil |})
  = BKE_paint_get_active_from_paintmode true SculptGreasePencil.
Proof.
  apply (@BKE_paint_object_mode_from_paintmode_active example_object_modes
           SculptGreasePencil 1); discriminate.
Defined.

End PaintModesFacts.

(** * The cavity estimate on a flat patch *)

(** ** Vectors *)

Lemma dot_v3v3_add_l (a b w : float3) :
  (dot_v3v3 (add_v3 a b) w == dot_v3v3 a w + dot_v3v3 b w)%Q.
Proof. unfold dot_v3v3, add_v3. cbn. ring. Qed.

Lemma dot_v3v3_sub_l (a b w : float3) :
  (dot_v3v3 (sub_v3 a b) w == dot_v3v3 a w - dot_v3v3 b w)%Q.
Proof. unfold dot_v3v3, sub_v3. cbn. ring. Qed.

Lemma dot_v3v3_div_l (a w : float3) (d : float) :
  ~ (d == 0)%Q -> (dot_v3v3 (div_v3_fl a d) w == dot_v3v3 a w / d)%Q.
Proof. intros Hd. unfold dot_v3v3, div_v3_fl. cbn. field. exact Hd. Qed.

Lemma dot_v3v3_scaled_r (k : float) (w u p : float3) :
  scaled k w u -> (dot_v3v3 p u == k * dot_v3v3 p w)%Q.
Proof.
  intros (Hx & Hy & Hz). unfold dot_v3v3. rewrite Hx, Hy, Hz. ring.
Qed.

Lemma scaled_add (k1 k2 : float) (w u1 u2 : float3) :
  scaled k1 w u1 -> scaled k2 w u2 -> scaled (k1 + k2) w (add_v3 u1 u2).
Proof.
  intros (Hx1 & Hy1 & Hz1) (Hx2 & Hy2 & Hz2). unfold scaled, add_v3. cbn.
  rewrite Hx1, Hy1, Hz1, Hx2, Hy2, Hz2. repeat split; ring.
Qed.

Lemma scaled_trans (k1 k2 : float) (w u p : float3) :
  scaled k1 w u -> scaled k2 u p -> scaled (k2 * k1) w p.
Proof.
  intros (Hx1 & Hy1 & Hz1) (Hx2 & Hy2 & Hz2). unfold scaled.
  rewrite Hx2, Hy2, Hz2, Hx1, Hy1, Hz1. repeat split; ring.
Qed.

Lemma scaled_zero3 (w : float3) : scaled 0 w zero3.
Proof. unfold scaled, zero3. cbn. repeat split; ring. Qed.

Lemma inject_Z_pos_neq (k : Z) : k <> 0 -> ~ (inject_Z k == 0)%Q.
Proof.
  intros Hk Hq. apply Hk. unfold Qeq, inject_Z in Hq. cbn in Hq. lia.
Qed.

(** ** The neighbor loop appends *)

Section Push.
Context `{Externals}.
Variable g : Geometry.

Lemma cavity_push_neighbors_app (blurvert : CavityBlurVert)
    (queue queue' : list CavityBlurVert) (visit visit' : gset nat) :
  cavity_push_neighbors g blurvert queue visit = (queue', visit') ->
  exists extra,
    queue' = queue ++ extra
    /\ (forall e, e ∈ extra ->
          cbv_vertex e ∈ vertex_neighbors g (cbv_vertex blurvert))
    /\ (forall v2, v2 ∈ vertex_neighbors g (cbv_vertex blurvert) ->
          v2 ∈ visit \/ exists e, e ∈ extra /\ cbv_vertex e = v2).
Proof.
  unfold cavity_push_neighbors.
  generalize (vertex_neighbors g (cbv_vertex blurvert)) as nbrs.
  intros nbrs. revert queue visit.
  induction nbrs as [| w nbrs IH]; intros queue visit Hpush.
  - cbn in Hpush. injection Hpush as <- <-. exists [].
    split; [rewrite app_nil_r; reflexivity |].
    split; intros x Hx; inversion Hx.
  - cbn [fold_left] in Hpush.
    destruct (bool_decide (w ∈ visit)) eqn:Ein.
    + apply bool_decide_eq_true in Ein.
      destruct (IH _ _ Hpush) as (extra & Hq & Hin & Hall).
      exists extra. split; [exact Hq |]. split.
      * intros e He. right. apply Hin. exact He.
      * intros v2 Hv2. apply elem_of_cons in Hv2 as [-> | Hv2];
          [left; exact Ein | apply Hall; exact Hv2].
    + destruct (IH _ _ Hpush) as (extra & Hq & Hin & Hall).
      eexists (_ :: extra). split; [rewrite Hq, <- app_assoc; reflexivity |].
      split.
      * intros e He. apply elem_of_cons in He as [-> | He];
          [left | right; apply Hin; exact He].
      * intros v2 Hv2. apply elem_of_cons in Hv2 as [-> | Hv2].
        { right. eexists. split; [left |]. reflexivity. }
        destruct (Hall v2 Hv2) as [Hvis | (e & He & Hev)].
        { apply elem_of_union in Hvis as [Hvis | Hvis]; [| left; exact Hvis].
          apply elem_of_singleton in Hvis. subst v2.
          right. eexists. split; [left |]. reflexivity. }
        right. exists e. split; [right; exact He | exact Hev].
Qed.

End Push.

(** ** The sums on a flat patch *)

Section FlatPatch.
Context `{AutomaskFlags} `{Externals}.
Variable g : Geometry.
Variable N : float3.
Variable c : float.
Variable co1 : float3.
Variable steps : Z.
Hypothesis Hclosed : geometry_closed g.
Hypothesis Hflat : flat_patch g N c.
Hypothesis Hlen : forall a b : float3, (0 <= len_v3v3 a b)%Q.

Local Abbreviation n := (SCULPT_vertex_count_get g).
Local Abbreviation centdist :=
  (fun b : CavityBlurVert => len_v3v3 (SCULPT_vertex_co_get g (cbv_vertex b)) co1).

Lemma cavity_gather_flat (blurvert : CavityBlurVert) (a : CavitySums) :
  (cbv_vertex blurvert < n)%nat ->
  cavity_sums_flat N c a ->
  cavity_sums_flat N c (cavity_gather g co1 steps blurvert a)
  /\ sco1_len (cavity_gather g co1 steps blurvert a) = sco1_len a + 1
  /\ (len1_sum (cavity_gather g co1 steps blurvert a)
      == len1_sum a + centdist blurvert)%Q.
Proof.
  intros Hv (H1 & H2 & t & Ht).
  destruct (Hflat _ Hv) as (Hco & tn & Hno).
  unfold cavity_sums_flat, cavity_gather. cbv zeta.
  cbn [sco1 sco2 sno2 sco1_len sco2_len len1_sum].
  split; [| split; [reflexivity | reflexivity]].
  split; [| split].
  - rewrite dot_v3v3_add_l, H1, Hco, inject_Z_plus. ring.
  - destruct (cbv_depth blurvert <? steps).
    + rewrite dot_v3v3_add_l, H2, Hco, inject_Z_plus. ring.
    + exact H2.
  - destruct (cbv_depth blurvert <? steps).
    + exists (t + tn)%Q. apply scaled_add; assumption.
    + exists t. exact Ht.
Qed.

(** The loop keeps the sums flat, counts at least the vertices it had,
    and adds to the distance sum the distance of every queued vertex. *)
Lemma cavity_blur_loop_flat (fuel : nat) (queue : list CavityBlurVert)
    (visit : gset nat) (a a' : CavitySums) :
  (forall b, b ∈ queue -> (cbv_vertex b < n)%nat) ->
  cavity_sums_flat N c a ->
  cavity_blur_loop fuel g co1 steps queue visit a = Some a' ->
  cavity_sums_flat N c a'
  /\ sco1_len a <= sco1_len a'
  /\ (len1_sum a <= len1_sum a')%Q
  /\ forall b, b ∈ queue -> (len1_sum a + centdist b <= len1_sum a')%Q.
Proof.
  revert queue visit a.
  induction fuel as [| fuel IH]; intros queue visit a Hq Ha Hrun.
  - destruct queue as [| b queue]; [| discriminate].
    injection Hrun as <-. split; [exact Ha |]. split; [lia |].
    split; [lra |]. intros b Hb. inversion Hb.
  - destruct queue as [| b queue].
    + injection Hrun as <-. split; [exact Ha |]. split; [lia |].
      split; [lra |]. intros b Hb. inversion Hb.
    + cbn [cavity_blur_loop] in Hrun.
      assert (Hb : (cbv_vertex b < n)%nat) by (apply Hq; left).
      assert (Hq' : forall e, e ∈ queue -> (cbv_vertex e < n)%nat).
      { intros e He. apply Hq. right. exact He. }
      destruct (cavity_gather_flat b a Hb Ha) as (Ha1 & Hn1 & Hl1).
      pose proof (Hlen (SCULPT_vertex_co_get g (cbv_vertex b)) co1) as Hpos.
      set (a1 := cavity_gather g co1 steps b a) in *.
      assert (Hstep : forall queue1 visit1,
                (forall e, e ∈ queue -> e ∈ queue1) ->
                (forall e, e ∈ queue1 -> (cbv_vertex e < n)%nat) ->
                cavity_blur_loop fuel g co1 steps queue1 visit1 a1 = Some a' ->
                cavity_sums_flat N c a'
                /\ sco1_len a <= sco1_len a'
                /\ (len1_sum a <= len1_sum a')%Q
                /\ forall e, e ∈ b :: queue ->
                      (len1_sum a + centdist e <= len1_sum a')%Q).
      { intros queue1 visit1 Hsub Hq1 Hrun1.
        destruct (IH queue1 visit1 a1 Hq1 Ha1 Hrun1) as (Hf & Hn & Hl & Hall).
        split; [exact Hf |]. split; [lia |]. split; [lra |].
        intros e He. apply elem_of_cons in He as [-> | He].
        - lra.
        - specialize (Hall e (Hsub e He)). cbn beta in Hall. lra. }
      destruct (cbv_depth b >=? steps).
      * apply (Hstep queue visit); [auto | exact Hq' | exact Hrun].
      * destruct (cavity_push_neighbors g b queue visit) as [queue1 visit1] eqn:Ep.
        destruct (cavity_push_neighbors_app g b queue queue1 visit visit1 Ep)
          as (extra & -> & Hin & _).
        apply (Hstep (queue ++ extra) visit1); [| | exact Hrun].
        { intros e He. apply elem_of_app. left. exact He. }
        { intros e He. apply elem_of_app in He as [He | He]; [apply Hq'; exact He |].
          eapply Hclosed; [exact Hb | apply Hin; exact He]. }
Qed.

End FlatPatch.

(** ** The estimate in rounded arithmetic *)

Section RoundedExact.
Context `{AutomaskFlags} `{Externals}.

(** With the identity as rounding the rounded estimate is the exact one. *)
Lemma cavity_blur_loop_rnd_exact (fuel : nat) (g : Geometry) (co1 : float3)
    (steps : Z) (queue : list CavityBlurVert) (visit : gset nat) (a : CavitySums) :
  cavity_blur_loop_rnd (fun q => q) fuel g co1 steps queue visit a
  = cavity_blur_loop fuel g co1 steps queue visit a.
Proof.
  revert queue visit a. induction fuel as [| fuel IH]; intros queue visit a.
  - destruct queue; reflexivity.
  - destruct queue as [| b queue]; [reflexivity |].
    cbn [cavity_blur_loop_rnd cavity_blur_loop].
    change (cavity_gather_rnd (fun q => q) g co1 steps b a)
      with (cavity_gather g co1 steps b a).
    destruct (cbv_depth b >=? steps)%Z; [apply IH |].
    destruct (cavity_push_neighbors g b queue visit) as [queue1 visit1]. apply IH.
Qed.

Lemma calc_blurred_cavity_rnd_exact (ss : SculptSession) (automasking : Cache)
    (steps : Z) (vertex : nat) :
  calc_blurred_cavity_rnd (fun q => q) ss automasking steps vertex
  = calc_blurred_cavity ss automasking steps vertex.
Proof.
  unfold calc_blurred_cavity_rnd, calc_blurred_cavity,
    calc_blurred_cavity_locals_rnd, calc_blurred_cavity_locals.
  rewrite cavity_blur_loop_rnd_exact. reflexivity.
Qed.

End RoundedExact.

Section FlatPatchCavity.
Context `{AutomaskFlags} `{Externals}.

Local Open Scope Q_scope.

(** The averaged sums of a flat patch: the displacement between the two
    centroids lies in the plane, and the normal it is measured against is
    a multiple of the plane's normal. *)
Lemma cavity_finish_flat (g : Geometry) (N : float3) (c : float) (vertex : nat)
    (a : CavitySums) :
  flat_patch g N c ->
  (forall w, exists k, scaled k w (normalize_v3 w)) ->
  (vertex < SCULPT_vertex_count_get g)%nat ->
  cavity_sums_flat N c a ->
  (1 <= sco1_len a)%Z ->
  dot_v3v3 (cl_vec (cavity_finish g vertex a)) (cl_sno2 (cavity_finish g vertex a)) == 0
  /\ cl_len1_sum (cavity_finish g vertex a) == len1_sum a / inject_Z (sco1_len a).
Proof.
  intros Hflat Hnorm Hv (H1 & H2 & t & Ht) Hn1.
  destruct (Hflat _ Hv) as (Hco & tv & Hno).
  unfold cavity_finish. cbn [cl_vec cl_sno2 cl_len1_sum].
  assert (E1 : (sco1_len a =? 0)%Z = false) by (apply Z.eqb_neq; lia).
  rewrite E1. split; [| reflexivity].
  assert (Hn1q : ~ inject_Z (sco1_len a) == 0) by (apply inject_Z_pos_neq; lia).
  assert (Hs : exists k, scaled k N
            (if eqb (dot_v3v3 (normalize_v3 (sno2 a)) (normalize_v3 (sno2 a))) 0
             then SCULPT_vertex_normal_get g vertex
             else normalize_v3 (sno2 a))).
  { destruct (eqb _ _).
    - exists tv. exact Hno.
    - destruct (Hnorm (sno2 a)) as (k & Hk). exists (k * t).
      eapply scaled_trans; eassumption. }
  destruct Hs as (k & Hk).
  rewrite (dot_v3v3_scaled_r k N _ _ Hk), dot_v3v3_sub_l.
  rewrite (dot_v3v3_div_l _ _ _ Hn1q), H1.
  destruct (sco2_len a =? 0)%Z eqn:E2.
  - rewrite Hco. field. exact Hn1q.
  - assert (Hn2q : ~ inject_Z (sco2_len a) == 0).
    { apply inject_Z_pos_neq. apply Z.eqb_neq. exact E2. }
    rewrite (dot_v3v3_div_l _ _ _ Hn2q), H2. field. split; assumption.
Qed.

(** C9 (amended): with exact arithmetic, that is with the identity for
    the rounding, on a flat patch, that is a mesh whose vertices lie in
    one plane and whose vertex normals are multiples of the plane's
    normal, and for a vertex with a neighbor at a distance that is not
    zero, [calc_blurred_cavity] stores exactly 1/2 for the vertex: for
    every blur step count from 0 on, every cavity strength and both
    settings of the inversion flag.  The length is taken to be
    nonnegative and the normalization to return a multiple of its
    argument. *)
Theorem calc_blurred_cavity_flat_patch (ss : SculptSession) (automasking : Cache)
    (steps : Z) (vertex v2 : nat) (buf : list float) (N : float3) (c : float) :
  geometry_closed (geom ss) ->
  flat_patch (geom ss) N c ->
  (forall a b : float3, 0 <= len_v3v3 a b) ->
  (forall w, exists k, scaled k w (normalize_v3 w)) ->
  (vertex < SCULPT_vertex_count_get (geom ss))%nat ->
  v2 ∈ vertex_neighbors (geom ss) vertex ->
  0 < len_v3v3 (SCULPT_vertex_co_get (geom ss) v2)
         (SCULPT_vertex_co_get (geom ss) vertex) ->
  (0 <= steps)%Z ->
  automasking_cavity (attrs ss) = Some buf ->
  (vertex < length buf)%nat ->
  exists ss' buf' f,
    calc_blurred_cavity_rnd (fun q => q) ss automasking steps vertex = Some ss'
    /\ calc_blurred_cavity ss automasking steps vertex = Some ss'
    /\ automasking_cavity (attrs ss') = Some buf'
    /\ buf' !! vertex = Some f
    /\ f == 1 # 2.
Proof.
  intros Hclosed Hflat Hlen Hnorm Hv Hv2 Hdist Hsteps Hbuf Hblen.
  rewrite calc_blurred_cavity_rnd_exact.
  cut (exists ss' buf' f,
         calc_blurred_cavity ss automasking steps vertex = Some ss'
         /\ automasking_cavity (attrs ss') = Some buf'
         /\ buf' !! vertex = Some f
         /\ f == 1 # 2).
  { intros (ss' & buf' & f & Hrun & Hrest). exists ss', buf', f. auto. }
  set (g := geom ss) in *.
  set (co1 := SCULPT_vertex_co_get g vertex) in *.
  assert (Hlocals : forall l,
            calc_blurred_cavity_locals g steps vertex = Some l ->
            dot_v3v3 (cl_vec l) (cl_sno2 l) == 0 /\ ~ cl_len1_sum l == 0).
  { intros l Hl. unfold calc_blurred_cavity_locals in Hl. fold co1 in Hl.
    destruct (SCULPT_vertex_count_get g) as [| fuel] eqn:En; [lia |].
    cbn [cavity_blur_loop cbv_depth] in Hl.
    replace (0 >=? steps + 1)%Z with false in Hl
      by (symmetry; rewrite Z.geb_leb; apply Z.leb_gt; lia).
    set (initial := {| cbv_vertex := vertex; cbv_dist := 0; cbv_depth := 0 |}) in *.
    destruct (cavity_push_neighbors g initial [] {[vertex]}) as [queue1 visit1] eqn:Ep.
    destruct (cavity_push_neighbors_app g initial [] queue1 _ visit1 Ep)
      as (extra & Hq1 & Hin & Hall).
    cbn [app] in Hq1. subst queue1. cbn [cbv_vertex initial] in Hin, Hall.
    set (a1 := cavity_gather g co1 (steps + 1) initial cavity_sums_init) in *.
    destruct (cavity_blur_loop fuel g co1 (steps + 1)%Z extra visit1 a1)
      as [a' |] eqn:Hrun; [| discriminate].
    cbn [mbind option_bind] in Hl. injection Hl as <-.
    assert (Hv' : (cbv_vertex initial < SCULPT_vertex_count_get g)%nat)
      by (cbn; lia).
    assert (Hinit : cavity_sums_flat N c cavity_sums_init).
    { unfold cavity_sums_flat, cavity_sums_init, dot_v3v3, zero3. cbn.
      split; [ring |]. split; [ring |]. exists 0. apply scaled_zero3. }
    destruct (cavity_gather_flat g N c co1 (steps + 1)%Z Hflat initial
                cavity_sums_init Hv' Hinit) as (Ha1 & Hn1 & Hl1).
    fold a1 in Ha1, Hn1, Hl1. cbn [cavity_sums_init sco1_len len1_sum] in Hn1, Hl1.
    destruct (cavity_blur_loop_flat g N c co1 (steps + 1)%Z Hclosed Hflat Hlen
                fuel extra visit1 a1 a') as (Hf & Hn & Hl & Hsum);
      [| exact Ha1 | exact Hrun |].
    { intros e He. eapply Hclosed; [| apply Hin; exact He]. lia. }
    assert (Hpos : 0 < len1_sum a').
    { destruct (Hall v2 Hv2) as [Hvis | (e & He & Hev)].
      - apply elem_of_singleton in Hvis. subst v2.
        change (SCULPT_vertex_co_get g (cbv_vertex initial)) with co1 in Hl1.
        change (SCULPT_vertex_co_get g vertex) with co1 in Hdist. lra.
      - specialize (Hsum e He). cbn beta in Hsum. rewrite Hev in Hsum.
        pose proof (Hlen (SCULPT_vertex_co_get g (cbv_vertex initial)) co1) as Hself.
        change (SCULPT_vertex_co_get g vertex) with co1 in Hdist. lra. }
    assert (Hv'' : (vertex < SCULPT_vertex_count_get g)%nat) by (rewrite En; lia).
    destruct (cavity_finish_flat g N c vertex a' Hflat Hnorm Hv'' Hf) as (Hdot & Hmean);
      [lia |].
    split; [exact Hdot |]. rewrite Hmean. intros Hz.
    assert (Hn1q : ~ inject_Z (sco1_len a') == 0) by (apply inject_Z_pos_neq; lia).
    assert (Hl0 : len1_sum a' == 0).
    { rewrite <- (Qmult_div_r (len1_sum a') (inject_Z (sco1_len a')) Hn1q).
      rewrite Hz. ring. }
    lra. }
  apply (calc_blurred_cavity_flat ss automasking steps vertex buf Hclosed Hv Hbuf Hblen).
  - intros l Hl. apply (Hlocals l Hl).
  - intros l Hl. apply (Hlocals l Hl).
Qed.

End FlatPatchCavity.

(** ** The raised strip *)

Lemma example_raised_strip_closed (n : nat) (height : float) :
  geometry_closed (example_raised_strip n height).
Proof. intros v w Hv Hw. exact (example_strip_closed n v w Hv Hw). Qed.

Lemma example_raised_strip_flat (n : nat) (height : float) :
  flat_patch (example_raised_strip n height) (F3 0 0 1) height.
Proof.
  intros v _. split.
  - unfold dot_v3v3. cbn. ring.
  - exists 1%Q. unfold scaled. cbn. repeat split; ring.
Qed.

Lemma example_axis_length_nonneg (a b : float3) :
  (0 <= @len_v3v3 example_axis_externals a b)%Q.
Proof.
  cbn. unfold example_axis_length.
  pose proof (Qabs_nonneg (x (sub_v3 a b))).
  pose proof (Qabs_nonneg (y (sub_v3 a b))).
  pose proof (Qabs_nonneg (z (sub_v3 a b))). lra.
Qed.

Lemma example_axis_normalize_scaled (w : float3) :
  exists k, scaled k w (@normalize_v3 example_axis_externals w).
Proof.
  cbn. destruct (eqb (example_axis_length w) 0) eqn:E.
  - exists 0%Q. apply scaled_zero3.
  - apply Qeq_bool_neq in E. exists (1 / example_axis_length w)%Q.
    unfold scaled, div_v3_fl. cbn. repeat split; field; exact E.
Qed.

Lemma calc_blurred_cavity_flat_patch_witness :
  exists ss' buf' f,
    @calc_blurred_cavity_rnd dna_flags example_axis_externals (fun q => q)
      (example_raised_session (17 # 10)) example_cavity_cache 1 2 = Some ss'
    /\ @calc_blurred_cavity dna_flags example_axis_externals
         (example_raised_session (17 # 10)) example_cavity_cache 1 2 = Some ss'
    /\ automasking_cavity (attrs ss') = Some buf'
    /\ buf' !! 2%nat = Some f
    /\ (f == 1 # 2)%Q.
Proof.
  apply (@calc_blurred_cavity_flat_patch dna_flags example_axis_externals
           (example_raised_session (17 # 10)) example_cavity_cache 1 2 1
           (replicate 5 0%Q) (F3 0 0 1) (17 # 10)).
  - apply example_raised_strip_closed.
  - apply example_raised_strip_flat.
  - apply example_axis_length_nonneg.
  - apply example_axis_normalize_scaled.
  - vm_compute. lia.
  - vm_compute. left.
  - vm_compute. reflexivity.
  - lia.
  - reflexivity.
  - vm_compute. lia.
Defined.

(** C9 fails in binary32.  The strip of five vertices at the height of
    the float nearest to 1.7, with the normals along the z axis, is a
    flat patch.  With every float operation rounded to binary32, the sum
    of the three inner heights divided by 3 is one unit in the last place
    above the sum of all five divided by 5, the displacement between the
    centroids has the component -2^-23 along the normal, and the value
    stored for the middle vertex with one blur step and cavity strength 1
    is 16777133 / 2^25, below 1/2. *)
Lemma calc_blurred_cavity_binary32_flat :
  flat_patch (example_raised_strip 5 (Binary32.b32 (17 # 10))) (F3 0 0 1)
    (Binary32.b32 (17 # 10))
  /\ exists ss' buf',
       @calc_blurred_cavity_rnd dna_flags example_axis_externals Binary32.b32
         (example_raised_session (Binary32.b32 (17 # 10))) example_cavity_cache 1 2
       = Some ss'
       /\ automasking_cavity (attrs ss') = Some buf'
       /\ buf' !! 2%nat = Some (16777133 # 33554432)%Q
       /\ ~ (16777133 # 33554432 == 1 # 2)%Q.
Proof.
  split; [apply example_raised_strip_flat |].
  eexists _, _. split; [vm_compute; reflexivity |].
  split; [reflexivity |]. split; [reflexivity |].
  intros Hq. vm_compute in Hq. discriminate Hq.
Qed.

(** ** A loose vertex *)

(** C1 fails at a loose vertex.  On the mesh of one vertex without
    neighbors, [cache_init] with a cavity mode among the enabled modes
    returns a cache and creates the cavity attribute; the query of the
    vertex finds its stroke id stale and computes the cavity estimate
    first.  The blur visits the vertex alone, the mean distance is zero,
    and the estimate is the quotient 0 / 0, which the source does not
    guard: the query has no value between 0 and 1 to return. *)
Lemma cache_init_factor_get_loose_vertex :
  vertex_neighbors (geom example_loose_cavity_session) 0 = []
  /\ exists c ss',
       @cache_init dna_flags example_externals example_query_sd example_query_brush
         example_loose_cavity_session = Some (Some c, ss')
       /\ has_flag (flags (settings c)) (@BRUSH_AUTOMASKING_CAVITY_ALL dna_flags) = true
       /\ @calc_blurred_cavity_locals example_externals (geom ss')
            (cavity_blur_steps (settings c)) 0
          = Some {| cl_vec := F3 0 0 0; cl_sno2 := F3 0 0 1; cl_len1_sum := 0 |}
       /\ @factor_get dna_flags example_externals ss' c 0 None = None.
Proof.
  split; [reflexivity |].
  eexists _, _. split; [vm_compute; reflexivity |].
  split; [vm_compute; reflexivity |].
  split; vm_compute; reflexivity.
Qed.
